(** * LitePCIe Windows driver: DMA ring counters, interrupt bridge and
      channel I/O fulfillment ([litepciedrv/src/Device.c])

    A shallow embedding of the ring/counter/interrupt core of [Device.c].
    Machine integers are [Z] with the C conversions written out, the device
    context and its channels are records, and every effect that leaves the
    function (register writes, spin-lock calls, buffer copies, request
    completions) is recorded in an event trace returned next to the new
    state. *)

From Stdlib Require Import ZArith List Lia Bool Sorted Zbitwise.
Import ListNotations.
Local Open Scope Z_scope.

(** ** Machine integers

    The conversions of the C integer types used by the driver.  [UINT32] and
    [SIZE_T] are the unsigned 32- and 64-bit types, [INT32] is [int]/[LONG]
    and [INT64] is the type of the ring counters. *)

Definition UINT32 (x : Z) : Z := x mod 2 ^ 32.
Definition INT32 (x : Z) : Z := (x + 2 ^ 31) mod 2 ^ 32 - 2 ^ 31.
Definition UINT64 (x : Z) : Z := x mod 2 ^ 64.
Definition INT64 (x : Z) : Z := (x + 2 ^ 63) mod 2 ^ 64 - 2 ^ 63.
Definition SIZE_T (x : Z) : Z := UINT64 x.

(** ** [leftmost_bit] (Device.c, lines 20-29)

    [while (x > 1) { x >>= 1; i++; }] on a [UINT32].  The loop runs at most
    31 times on a 32-bit value; [leftmost_bit_fuel] below shows that the 32
    iterations given here are never used up. *)

Fixpoint leftmost_bit_loop (fuel : nat) (x i : Z) : Z :=
  match fuel with
  | O => i
  | S fuel' =>
      if x >? 1
      then leftmost_bit_loop fuel' (UINT32 (Z.shiftr x 1)) (UINT32 (i + 1))
      else i
  end.

Definition leftmost_bit (x : Z) : Z := leftmost_bit_loop 32 (UINT32 x) 0.

(** ** Constants of [driver.h] and [csr.h]

    The headers are not part of the sources at hand; their macros, plain
    [int] constants, are the fields of a class, so that the code below reads
    as in [Device.c] and the theorems hold for every value of the macros
    that satisfies their stated side conditions. *)

Class driver_h := {
  DMA_CHANNELS : Z;
  DMA_BUFFER_COUNT : Z;
  DMA_BUFFER_SIZE : Z;
  DMA_BUFFER_PER_IRQ : Z;
  DMA_IRQ_DISABLE : Z;
  DMA_LAST_DISABLE : Z;
  (** [true] when [DMA_BUFFER_ALIGNED] is defined *)
  DMA_BUFFER_ALIGNED : bool;
  PCIE_DMA_WRITER_ENABLE_OFFSET : Z;
  PCIE_DMA_WRITER_TABLE_VALUE_OFFSET : Z;
  PCIE_DMA_WRITER_TABLE_WE_OFFSET : Z;
  PCIE_DMA_WRITER_TABLE_LOOP_PROG_N_OFFSET : Z;
  PCIE_DMA_WRITER_TABLE_LOOP_STATUS_OFFSET : Z;
  PCIE_DMA_WRITER_TABLE_FLUSH_OFFSET : Z;
  PCIE_DMA_READER_ENABLE_OFFSET : Z;
  PCIE_DMA_READER_TABLE_VALUE_OFFSET : Z;
  PCIE_DMA_READER_TABLE_WE_OFFSET : Z;
  PCIE_DMA_READER_TABLE_LOOP_PROG_N_OFFSET : Z;
  PCIE_DMA_READER_TABLE_LOOP_STATUS_OFFSET : Z;
  PCIE_DMA_READER_TABLE_FLUSH_OFFSET : Z;
  CSR_PCIE_MSI_ENABLE_ADDR : Z;
  CSR_PCIE_MSI_CLEAR_ADDR : Z;
  CSR_PCIE_MSI_VECTOR_ADDR : Z;
  (** [CSR_PCIE_DMAi_BASE], [PCIE_DMAi_WRITER_INTERRUPT] and
      [PCIE_DMAi_READER_INTERRUPT] as selected by the [switch (i)] of
      [litepciedrv_DeviceOpen] (channels without a macro of their own get
      the values of channel 0) *)
  CSR_PCIE_DMA_BASE : Z -> Z;
  PCIE_DMA_WRITER_INTERRUPT : Z -> Z;
  PCIE_DMA_READER_INTERRUPT : Z -> Z
}.

(** ** Handles and status codes of the framework

    Requests and memory objects are opaque handles.  [NT_SUCCESS] is the
    macro of the platform headers: a status is a success when it is not
    negative as a [LONG]. *)

Definition WDFREQUEST := Z.
Definition WDFMEMORY := Z.
Definition NTSTATUS := Z.
Definition PVOID := Z.

Definition STATUS_SUCCESS : NTSTATUS := 0.
Definition NT_SUCCESS (status : NTSTATUS) : bool := 0 <=? INT32 status.

(** What the framework answers when asked for the memory object of a
    request: the status and, on success, the handle. *)
Class wdf_request_memory := {
  WdfRequestRetrieveOutputMemory : WDFREQUEST -> NTSTATUS * WDFMEMORY;
  WdfRequestRetrieveInputMemory : WDFREQUEST -> NTSTATUS * WDFMEMORY
}.

(** [PHYSICAL_ADDRESS] is a 64-bit [QuadPart] overlaid with a [DWORD]
    [LowPart] and a [LONG] [HighPart]. *)
Definition PHYSICAL_ADDRESS := Z.
Definition LowPart (a : PHYSICAL_ADDRESS) : Z := UINT32 a.
Definition HighPart (a : PHYSICAL_ADDRESS) : Z := INT32 (Z.shiftr a 32).

(** ** The device context

    The fields of [struct litepcie_dma_chan], [LITEPCIE_CHAN] and
    [DEVICE_CONTEXT] that [Device.c] uses.  A parked request pointer is an
    [option]: [None] is [NULL]. *)

Record litepcie_dma_chan := {
  base : Z;
  writer_interrupt : Z;
  reader_interrupt : Z;
  reader_handle : list PVOID;
  writer_handle : list PVOID;
  reader_addr : list PHYSICAL_ADDRESS;
  writer_addr : list PHYSICAL_ADDRESS;
  reader_hw_count : Z;
  reader_hw_count_last : Z;
  reader_sw_count : Z;
  writer_hw_count : Z;
  writer_hw_count_last : Z;
  writer_sw_count : Z;
  readRequest : option WDFREQUEST;
  readRemainingBytes : Z;
  writeRequest : option WDFREQUEST;
  writeRemainingBytes : Z
}.

Record LITEPCIE_CHAN := {
  index : Z;
  block_size : Z;
  dma : litepcie_dma_chan
}.

Record DEVICE_CONTEXT := {
  channels : Z;
  chan : list LITEPCIE_CHAN;
  irqs_requested : Z;
  irqs_pending : Z
}.


(** Assignments to one field. *)

Definition set_reader_hw_count (v : Z) (d : litepcie_dma_chan) : litepcie_dma_chan :=
  {| base := base d;
     writer_interrupt := writer_interrupt d;
     reader_interrupt := reader_interrupt d;
     reader_handle := reader_handle d;
     writer_handle := writer_handle d;
     reader_addr := reader_addr d;
     writer_addr := writer_addr d;
     reader_hw_count := v;
     reader_hw_count_last := reader_hw_count_last d;
     reader_sw_count := reader_sw_count d;
     writer_hw_count := writer_hw_count d;
     writer_hw_count_last := writer_hw_count_last d;
     writer_sw_count := writer_sw_count d;
     readRequest := readRequest d;
     readRemainingBytes := readRemainingBytes d;
     writeRequest := writeRequest d;
     writeRemainingBytes := writeRemainingBytes d |}.

Definition set_reader_hw_count_last (v : Z) (d : litepcie_dma_chan) : litepcie_dma_chan :=
  {| base := base d;
     writer_interrupt := writer_interrupt d;
     reader_interrupt := reader_interrupt d;
     reader_handle := reader_handle d;
     writer_handle := writer_handle d;
     reader_addr := reader_addr d;
     writer_addr := writer_addr d;
     reader_hw_count := reader_hw_count d;
     reader_hw_count_last := v;
     reader_sw_count := reader_sw_count d;
     writer_hw_count := writer_hw_count d;
     writer_hw_count_last := writer_hw_count_last d;
     writer_sw_count := writer_sw_count d;
     readRequest := readRequest d;
     readRemainingBytes := readRemainingBytes d;
     writeRequest := writeRequest d;
     writeRemainingBytes := writeRemainingBytes d |}.

Definition set_reader_sw_count (v : Z) (d : litepcie_dma_chan) : litepcie_dma_chan :=
  {| base := base d;
     writer_interrupt := writer_interrupt d;
     reader_interrupt := reader_interrupt d;
     reader_handle := reader_handle d;
     writer_handle := writer_handle d;
     reader_addr := reader_addr d;
     writer_addr := writer_addr d;
     reader_hw_count := reader_hw_count d;
     reader_hw_count_last := reader_hw_count_last d;
     reader_sw_count := v;
     writer_hw_count := writer_hw_count d;
     writer_hw_count_last := writer_hw_count_last d;
     writer_sw_count := writer_sw_count d;
     readRequest := readRequest d;
     readRemainingBytes := readRemainingBytes d;
     writeRequest := writeRequest d;
     writeRemainingBytes := writeRemainingBytes d |}.

Definition set_writer_hw_count (v : Z) (d : litepcie_dma_chan) : litepcie_dma_chan :=
  {| base := base d;
     writer_interrupt := writer_interrupt d;
     reader_interrupt := reader_interrupt d;
     reader_handle := reader_handle d;
     writer_handle := writer_handle d;
     reader_addr := reader_addr d;
     writer_addr := writer_addr d;
     reader_hw_count := reader_hw_count d;
     reader_hw_count_last := reader_hw_count_last d;
     reader_sw_count := reader_sw_count d;
     writer_hw_count := v;
     writer_hw_count_last := writer_hw_count_last d;
     writer_sw_count := writer_sw_count d;
     readRequest := readRequest d;
     readRemainingBytes := readRemainingBytes d;
     writeRequest := writeRequest d;
     writeRemainingBytes := writeRemainingBytes d |}.

Definition set_writer_hw_count_last (v : Z) (d : litepcie_dma_chan) : litepcie_dma_chan :=
  {| base := base d;
     writer_interrupt := writer_interrupt d;
     reader_interrupt := reader_interrupt d;
     reader_handle := reader_handle d;
     writer_handle := writer_handle d;
     reader_addr := reader_addr d;
     writer_addr := writer_addr d;
     reader_hw_count := reader_hw_count d;
     reader_hw_count_last := reader_hw_count_last d;
     reader_sw_count := reader_sw_count d;
     writer_hw_count := writer_hw_count d;
     writer_hw_count_last := v;
     writer_sw_count := writer_sw_count d;
     readRequest := readRequest d;
     readRemainingBytes := readRemainingBytes d;
     writeRequest := writeRequest d;
     writeRemainingBytes := writeRemainingBytes d |}.

Definition set_writer_sw_count (v : Z) (d : litepcie_dma_chan) : litepcie_dma_chan :=
  {| base := base d;
     writer_interrupt := writer_interrupt d;
     reader_interrupt := reader_interrupt d;
     reader_handle := reader_handle d;
     writer_handle := writer_handle d;
     reader_addr := reader_addr d;
     writer_addr := writer_addr d;
     reader_hw_count := reader_hw_count d;
     reader_hw_count_last := reader_hw_count_last d;
     reader_sw_count := reader_sw_count d;
     writer_hw_count := writer_hw_count d;
     writer_hw_count_last := writer_hw_count_last d;
     writer_sw_count := v;
     readRequest := readRequest d;
     readRemainingBytes := readRemainingBytes d;
     writeRequest := writeRequest d;
     writeRemainingBytes := writeRemainingBytes d |}.

Definition set_readRequest (v : option WDFREQUEST) (d : litepcie_dma_chan) : litepcie_dma_chan :=
  {| base := base d;
     writer_interrupt := writer_interrupt d;
     reader_interrupt := reader_interrupt d;
     reader_handle := reader_handle d;
     writer_handle := writer_handle d;
     reader_addr := reader_addr d;
     writer_addr := writer_addr d;
     reader_hw_count := reader_hw_count d;
     reader_hw_count_last := reader_hw_count_last d;
     reader_sw_count := reader_sw_count d;
     writer_hw_count := writer_hw_count d;
     writer_hw_count_last := writer_hw_count_last d;
     writer_sw_count := writer_sw_count d;
     readRequest := v;
     readRemainingBytes := readRemainingBytes d;
     writeRequest := writeRequest d;
     writeRemainingBytes := writeRemainingBytes d |}.

Definition set_readRemainingBytes (v : Z) (d : litepcie_dma_chan) : litepcie_dma_chan :=
  {| base := base d;
     writer_interrupt := writer_interrupt d;
     reader_interrupt := reader_interrupt d;
     reader_handle := reader_handle d;
     writer_handle := writer_handle d;
     reader_addr := reader_addr d;
     writer_addr := writer_addr d;
     reader_hw_count := reader_hw_count d;
     reader_hw_count_last := reader_hw_count_last d;
     reader_sw_count := reader_sw_count d;
     writer_hw_count := writer_hw_count d;
     writer_hw_count_last := writer_hw_count_last d;
     writer_sw_count := writer_sw_count d;
     readRequest := readRequest d;
     readRemainingBytes := v;
     writeRequest := writeRequest d;
     writeRemainingBytes := writeRemainingBytes d |}.

Definition set_writeRequest (v : option WDFREQUEST) (d : litepcie_dma_chan) : litepcie_dma_chan :=
  {| base := base d;
     writer_interrupt := writer_interrupt d;
     reader_interrupt := reader_interrupt d;
     reader_handle := reader_handle d;
     writer_handle := writer_handle d;
     reader_addr := reader_addr d;
     writer_addr := writer_addr d;
     reader_hw_count := reader_hw_count d;
     reader_hw_count_last := reader_hw_count_last d;
     reader_sw_count := reader_sw_count d;
     writer_hw_count := writer_hw_count d;
     writer_hw_count_last := writer_hw_count_last d;
     writer_sw_count := writer_sw_count d;
     readRequest := readRequest d;
     readRemainingBytes := readRemainingBytes d;
     writeRequest := v;
     writeRemainingBytes := writeRemainingBytes d |}.

Definition set_writeRemainingBytes (v : Z) (d : litepcie_dma_chan) : litepcie_dma_chan :=
  {| base := base d;
     writer_interrupt := writer_interrupt d;
     reader_interrupt := reader_interrupt d;
     reader_handle := reader_handle d;
     writer_handle := writer_handle d;
     reader_addr := reader_addr d;
     writer_addr := writer_addr d;
     reader_hw_count := reader_hw_count d;
     reader_hw_count_last := reader_hw_count_last d;
     reader_sw_count := reader_sw_count d;
     writer_hw_count := writer_hw_count d;
     writer_hw_count_last := writer_hw_count_last d;
     writer_sw_count := writer_sw_count d;
     readRequest := readRequest d;
     readRemainingBytes := readRemainingBytes d;
     writeRequest := writeRequest d;
     writeRemainingBytes := v |}.

Definition set_dma (d : litepcie_dma_chan) (c : LITEPCIE_CHAN) : LITEPCIE_CHAN :=
  {| index := index c; block_size := block_size c; dma := d |}.

Definition set_chan (l : list LITEPCIE_CHAN) (dev : DEVICE_CONTEXT) : DEVICE_CONTEXT :=
  {| channels := channels dev; chan := l;
     irqs_requested := irqs_requested dev; irqs_pending := irqs_pending dev |}.

Definition set_irqs_pending (v : Z) (dev : DEVICE_CONTEXT) : DEVICE_CONTEXT :=
  {| channels := channels dev; chan := chan dev;
     irqs_requested := irqs_requested dev; irqs_pending := v |}.

(** The name under which the locks and the counters of a channel appear in
    a trace: its [index] field. *)
Definition lock_owner (c : LITEPCIE_CHAN) : Z := index c.

(** [dev->chan[i] = c]; nothing is stored outside the array. *)
Fixpoint store_chan (l : list LITEPCIE_CHAN) (i : nat) (c : LITEPCIE_CHAN) : list LITEPCIE_CHAN :=
  match l, i with
  | [], _ => []
  | _ :: l', O => c :: l'
  | x :: l', S i' => x :: store_chan l' i' c
  end.

(** ** Effects

    Everything the driver does to the outside world, in program order: the
    register writes, the framework calls and, so that the lock discipline
    can be read off a trace, every load and store of a ring counter.  A lock
    or a counter is named by the [index] field of its channel and the
    direction it belongs to. *)

Inductive direction := Reader | Writer.
Inductive counter := HwCount | HwCountLast | SwCount.

Inductive event :=
| RegWritel (reg val : Z)
| WdfSpinLockAcquire (ch : Z) (d : direction)
| WdfSpinLockRelease (ch : Z) (d : direction)
| Load (ch : Z) (d : direction) (c : counter)
| Store (ch : Z) (d : direction) (c : counter)
| WdfMemoryCopyFromBuffer (mem : WDFMEMORY) (offset : Z) (buffer : PVOID) (n : Z)
| WdfMemoryCopyToBuffer (mem : WDFMEMORY) (offset : Z) (buffer : PVOID) (n : Z)
| WdfRequestCompleteWithInformation (request : WDFREQUEST) (status : NTSTATUS) (information : Z)
| TraceOverflow (overflows : Z)
| KeStallExecutionProcessor (microseconds : Z)
| WdfInterruptQueueDpcForIsr.

(** The values [0 .. n-1] of a [for (i = 0; i < n; i++)] loop. *)
Definition for_range (n : Z) : list Z := map Z.of_nat (seq 0 (Z.to_nat n)).

(** [litepciedrv_RegReadl] reads the register plane, here a function from
    register addresses to the values the hardware shows;
    [litepciedrv_RegWritel] is recorded in the trace. *)
Definition litepciedrv_RegReadl (mmio : Z -> Z) (reg : Z) : Z := UINT32 (mmio (UINT32 reg)).
Definition litepciedrv_RegWritel (reg val : Z) : list event := [RegWritel (UINT32 reg) (UINT32 val)].

Section Driver.
Context {H : driver_h} {W : wdf_request_memory}.

(** ** Reconstruction of the hardware count (Device.c, lines 705-709 and
       726-730)

    The reader and the writer block of [litepcie_EvtDpc] run the same four
    statements on their own counter pair; [hw_count_update] is that
    arithmetic on the pair [(hw_count, hw_count_last)]. *)

(** [((~(DMA_BUFFER_COUNT - 1) << 16) & 0xffffffffffff0000)]: the left
    operand is an [int], converted to the 64-bit unsigned type of the
    constant. *)
Definition hw_count_mask : Z :=
  Z.land (UINT64 (INT32 (Z.shiftl (Z.lnot (INT32 (DMA_BUFFER_COUNT - 1))) 16)))
         0xffffffffffff0000.

(** [(loop_status >> 16) * DMA_BUFFER_COUNT + (loop_status & 0xffff)],
    computed in [UINT32]. *)
Definition loop_status_count (loop_status : Z) : Z :=
  UINT32 (UINT32 (Z.shiftr loop_status 16 * UINT32 DMA_BUFFER_COUNT)
          + Z.land loop_status 0xffff).

(** [(INT64)(1UL << (leftmost_bit(DMA_BUFFER_COUNT) + 16))]; [unsigned
    long] is 32 bits wide on Windows. *)
Definition wrap_increment : Z :=
  INT64 (UINT32 (Z.shiftl 1 (UINT32 (leftmost_bit DMA_BUFFER_COUNT + 16)))).

(** [hw_count &= mask; hw_count |= count;] *)
Definition hw_count_merge (loop_status hw_count : Z) : Z :=
  Z.lor (INT64 (Z.land (UINT64 hw_count) hw_count_mask))
        (loop_status_count loop_status).

(** [if (hw_count_last > hw_count) hw_count += wrap;] *)
Definition hw_count_update (loop_status hw_count hw_count_last : Z) : Z :=
  let hw2 := hw_count_merge loop_status hw_count in
  if hw_count_last >? hw2 then INT64 (hw2 + wrap_increment) else hw2.

(** The counter accesses of the four statements, between the acquire and
    the release of the direction's lock (lines 704-710, 725-731). *)
Definition reconcile_events (ch : Z) (d : direction) (wrapped : bool) : list event :=
  [WdfSpinLockAcquire ch d;
   Load ch d HwCount; Store ch d HwCount;
   Load ch d HwCount; Store ch d HwCount;
   Load ch d HwCountLast; Load ch d HwCount]
  ++ (if wrapped then [Load ch d HwCount; Store ch d HwCount] else [])
  ++ [Load ch d HwCount; Store ch d HwCountLast;
      WdfSpinLockRelease ch d].

Definition reader_reconcile (loop_status : Z) (pChan : LITEPCIE_CHAN)
  : LITEPCIE_CHAN * list event :=
  let d := dma pChan in
  let hw := hw_count_update loop_status (reader_hw_count d) (reader_hw_count_last d) in
  (set_dma (set_reader_hw_count_last hw (set_reader_hw_count hw d)) pChan,
   reconcile_events (lock_owner pChan) Reader
     (reader_hw_count_last d >? hw_count_merge loop_status (reader_hw_count d))).

Definition writer_reconcile (loop_status : Z) (pChan : LITEPCIE_CHAN)
  : LITEPCIE_CHAN * list event :=
  let d := dma pChan in
  let hw := hw_count_update loop_status (writer_hw_count d) (writer_hw_count_last d) in
  (set_dma (set_writer_hw_count_last hw (set_writer_hw_count hw d)) pChan,
   reconcile_events (lock_owner pChan) Writer
     (writer_hw_count_last d >? hw_count_merge loop_status (writer_hw_count d))).

(** [if (available_count > DMA_BUFFER_COUNT - DMA_BUFFER_PER_IRQ) overflows++;]
    (lines 396-399 and 464-467): the right operand is an [int], [overflows]
    a [UINT32]. *)
Definition count_overflow (available_count overflows : Z) : Z :=
  if available_count >? INT32 (DMA_BUFFER_COUNT - DMA_BUFFER_PER_IRQ)
  then UINT32 (overflows + 1) else overflows.

(** ** [litepciedrv_ChannelRead] (lines 364-431)

    The [while] loop, one iteration per unit of fuel; the result is the
    channel, [bytesRead], [overflows] and the trace at the exit of the loop,
    and [None] when the fuel ran out before the loop was left. *)

Fixpoint ChannelRead_loop (fuel : nat) (channel : LITEPCIE_CHAN) (outBuf : WDFMEMORY)
    (length bytesRead overflows : Z)
  : option (LITEPCIE_CHAN * Z * Z * list event) :=
  match fuel with
  | O => None
  | S fuel' =>
      if negb (bytesRead <? length) then Some (channel, bytesRead, overflows, [])
      else if SIZE_T (length - bytesRead) <? SIZE_T DMA_BUFFER_SIZE
      then Some (channel, bytesRead, overflows, [])
      else
        let d := dma channel in
        let i := lock_owner channel in
        let available_count := INT64 (writer_hw_count d - writer_sw_count d) in
        let locked :=
          [WdfSpinLockAcquire i Writer; Load i Writer HwCount; Load i Writer SwCount;
           WdfSpinLockRelease i Writer] in
        if available_count >? 0 then
          let overflows' := count_overflow available_count overflows in
          let buffer :=
            nth (Z.to_nat (Z.rem (writer_sw_count d) DMA_BUFFER_COUNT)) (writer_handle d) 0 in
          let channel' := set_dma (set_writer_sw_count (INT64 (writer_sw_count d + 1)) d) channel in
          let copied :=
            [Load i Writer SwCount;
             WdfMemoryCopyFromBuffer outBuf bytesRead buffer (SIZE_T DMA_BUFFER_SIZE);
             Load i Writer SwCount; Store i Writer SwCount] in
          match ChannelRead_loop fuel' channel' outBuf length
                  (SIZE_T (bytesRead + DMA_BUFFER_SIZE)) overflows' with
          | Some (c, b, o, tr) => Some (c, b, o, locked ++ copied ++ tr)
          | None => None
          end
        else Some (channel, bytesRead, overflows, locked)
  end.

(** Every full iteration consumes one available slot, so the loop is left
    after at most [available + 1] tests of its condition. *)
Definition ChannelRead_fuel (channel : LITEPCIE_CHAN) : nat :=
  S (Z.to_nat (INT64 (writer_hw_count (dma channel) - writer_sw_count (dma channel)))).

Definition litepciedrv_ChannelRead (channel : LITEPCIE_CHAN) (request : WDFREQUEST)
    (length : Z) : option (LITEPCIE_CHAN * list event) :=
  let (status, outBuf) := WdfRequestRetrieveOutputMemory request in
  if negb (NT_SUCCESS status)
  then Some (channel, [WdfRequestCompleteWithInformation request status 0])
  else
    match ChannelRead_loop (ChannelRead_fuel channel) channel outBuf length 0 0 with
    | None => None
    | Some (channel1, bytesRead, overflows, tr) =>
        let report := if overflows >? 0 then [TraceOverflow overflows] else [] in
        if bytesRead >? 0 then
          Some (set_dma (set_readRemainingBytes 0 (set_readRequest None (dma channel1))) channel1,
                tr ++ report
                ++ [WdfRequestCompleteWithInformation request STATUS_SUCCESS bytesRead])
        else
          Some (set_dma (set_readRemainingBytes (SIZE_T (length - bytesRead))
                           (set_readRequest (Some request) (dma channel1))) channel1,
                tr ++ report)
    end.

(** ** [litepciedrv_ChannelWrite] (lines 433-498) *)

Fixpoint ChannelWrite_loop (fuel : nat) (channel : LITEPCIE_CHAN) (inBuf : WDFMEMORY)
    (length bytesWritten overflows : Z)
  : option (LITEPCIE_CHAN * Z * Z * list event) :=
  match fuel with
  | O => None
  | S fuel' =>
      if negb (bytesWritten <? length) then Some (channel, bytesWritten, overflows, [])
      else if SIZE_T (length - bytesWritten) <? SIZE_T DMA_BUFFER_SIZE
      then Some (channel, bytesWritten, overflows, [])
      else
        let d := dma channel in
        let i := lock_owner channel in
        let available_count := INT64 (reader_hw_count d - reader_sw_count d) in
        let locked :=
          [WdfSpinLockAcquire i Reader; Load i Reader HwCount; Load i Reader SwCount;
           WdfSpinLockRelease i Reader] in
        if available_count >? 0 then
          let overflows' := count_overflow available_count overflows in
          let buffer :=
            nth (Z.to_nat (Z.rem (reader_sw_count d) DMA_BUFFER_COUNT)) (reader_handle d) 0 in
          let channel' := set_dma (set_reader_sw_count (INT64 (reader_sw_count d + 1)) d) channel in
          let copied :=
            [Load i Reader SwCount;
             WdfMemoryCopyToBuffer inBuf bytesWritten buffer (SIZE_T DMA_BUFFER_SIZE);
             Load i Reader SwCount; Store i Reader SwCount] in
          match ChannelWrite_loop fuel' channel' inBuf length
                  (SIZE_T (bytesWritten + DMA_BUFFER_SIZE)) overflows' with
          | Some (c, b, o, tr) => Some (c, b, o, locked ++ copied ++ tr)
          | None => None
          end
        else Some (channel, bytesWritten, overflows, locked)
  end.

Definition ChannelWrite_fuel (channel : LITEPCIE_CHAN) : nat :=
  S (Z.to_nat (INT64 (reader_hw_count (dma channel) - reader_sw_count (dma channel)))).

Definition litepciedrv_ChannelWrite (channel : LITEPCIE_CHAN) (request : WDFREQUEST)
    (length : Z) : option (LITEPCIE_CHAN * list event) :=
  let (status, inBuf) := WdfRequestRetrieveInputMemory request in
  if negb (NT_SUCCESS status)
  then Some (channel, [WdfRequestCompleteWithInformation request status 0])
  else
    match ChannelWrite_loop (ChannelWrite_fuel channel) channel inBuf length 0 0 with
    | None => None
    | Some (channel1, bytesWritten, overflows, tr) =>
        let report := if overflows >? 0 then [TraceOverflow overflows] else [] in
        if bytesWritten >? 0 then
          Some (set_dma (set_writeRemainingBytes 0 (set_writeRequest None (dma channel1))) channel1,
                tr ++ report
                ++ [WdfRequestCompleteWithInformation request STATUS_SUCCESS bytesWritten])
        else
          Some (set_dma (set_writeRemainingBytes (SIZE_T (length - bytesWritten))
                           (set_writeRequest (Some request) (dma channel1))) channel1,
                tr ++ report)
    end.

(** ** Ring start and stop (lines 500-626)

    [dev->chan[index]] is read and written back; an [index] outside the
    array has no defined behaviour in C and leaves the context as it is
    here.  The descriptor loop of both start functions takes the address
    from [writer_addr[index]], as the source does. *)

Definition irq_disable_flag (i : Z) : Z :=
  (if Z.rem i (UINT32 DMA_BUFFER_PER_IRQ) =? 0 then 0 else 1) * DMA_IRQ_DISABLE.

Definition descriptor_value (i : Z) : Z :=
  Z.lor (Z.lor (if DMA_BUFFER_ALIGNED then 0 else DMA_LAST_DISABLE) (irq_disable_flag i))
        DMA_BUFFER_SIZE.

Definition writer_descriptor (dmachan : litepcie_dma_chan) (index i : Z) : list event :=
  litepciedrv_RegWritel (base dmachan + PCIE_DMA_WRITER_TABLE_VALUE_OFFSET)
    (descriptor_value i)
  ++ litepciedrv_RegWritel (base dmachan + PCIE_DMA_WRITER_TABLE_VALUE_OFFSET + 4)
       (LowPart (nth (Z.to_nat index) (writer_addr dmachan) 0))
  ++ litepciedrv_RegWritel (base dmachan + PCIE_DMA_WRITER_TABLE_WE_OFFSET)
       (HighPart (nth (Z.to_nat index) (writer_addr dmachan) 0)).

Definition litepcie_dma_writer_start (dev : DEVICE_CONTEXT) (index : Z)
  : DEVICE_CONTEXT * list event :=
  match nth_error (chan dev) (Z.to_nat index) with
  | None => (dev, [])
  | Some c =>
      let dmachan := dma c in
      let cleared :=
        set_writer_sw_count 0 (set_writer_hw_count_last 0 (set_writer_hw_count 0 dmachan)) in
      (set_chan (store_chan (chan dev) (Z.to_nat index) (set_dma cleared c)) dev,
       litepciedrv_RegWritel (base dmachan + PCIE_DMA_WRITER_ENABLE_OFFSET) 0
       ++ litepciedrv_RegWritel (base dmachan + PCIE_DMA_WRITER_TABLE_FLUSH_OFFSET) 1
       ++ litepciedrv_RegWritel (base dmachan + PCIE_DMA_WRITER_TABLE_LOOP_PROG_N_OFFSET) 0
       ++ flat_map (writer_descriptor dmachan index) (for_range DMA_BUFFER_COUNT)
       ++ litepciedrv_RegWritel (base dmachan + PCIE_DMA_WRITER_TABLE_LOOP_PROG_N_OFFSET) 1
       ++ [Store (lock_owner c) Writer HwCount;
           Store (lock_owner c) Writer HwCountLast;
           Store (lock_owner c) Writer SwCount]
       ++ litepciedrv_RegWritel (base dmachan + PCIE_DMA_WRITER_ENABLE_OFFSET) 1)
  end.

Definition litepcie_dma_writer_stop (dev : DEVICE_CONTEXT) (index : Z)
  : DEVICE_CONTEXT * list event :=
  match nth_error (chan dev) (Z.to_nat index) with
  | None => (dev, [])
  | Some c =>
      let dmachan := dma c in
      let cleared :=
        set_writer_sw_count 0 (set_writer_hw_count_last 0 (set_writer_hw_count 0 dmachan)) in
      (set_chan (store_chan (chan dev) (Z.to_nat index) (set_dma cleared c)) dev,
       litepciedrv_RegWritel (base dmachan + PCIE_DMA_WRITER_TABLE_LOOP_PROG_N_OFFSET) 0
       ++ litepciedrv_RegWritel (base dmachan + PCIE_DMA_WRITER_TABLE_FLUSH_OFFSET) 1
       ++ [KeStallExecutionProcessor 1000]
       ++ litepciedrv_RegWritel (base dmachan + PCIE_DMA_WRITER_ENABLE_OFFSET) 0
       ++ litepciedrv_RegWritel (base dmachan + PCIE_DMA_WRITER_TABLE_FLUSH_OFFSET) 1
       ++ [Store (lock_owner c) Writer HwCount;
           Store (lock_owner c) Writer HwCountLast;
           Store (lock_owner c) Writer SwCount])
  end.

Definition reader_descriptor (dmachan : litepcie_dma_chan) (index i : Z) : list event :=
  litepciedrv_RegWritel (base dmachan + PCIE_DMA_READER_TABLE_VALUE_OFFSET)
    (descriptor_value i)
  ++ litepciedrv_RegWritel (base dmachan + PCIE_DMA_READER_TABLE_VALUE_OFFSET + 4)
       (LowPart (nth (Z.to_nat index) (writer_addr dmachan) 0))
  ++ litepciedrv_RegWritel (base dmachan + PCIE_DMA_READER_TABLE_WE_OFFSET)
       (HighPart (nth (Z.to_nat index) (writer_addr dmachan) 0)).

Definition litepcie_dma_reader_start (dev : DEVICE_CONTEXT) (index : Z)
  : DEVICE_CONTEXT * list event :=
  match nth_error (chan dev) (Z.to_nat index) with
  | None => (dev, [])
  | Some c =>
      let dmachan := dma c in
      let cleared :=
        set_reader_sw_count 0 (set_reader_hw_count_last 0 (set_reader_hw_count 0 dmachan)) in
      (set_chan (store_chan (chan dev) (Z.to_nat index) (set_dma cleared c)) dev,
       litepciedrv_RegWritel (base dmachan + PCIE_DMA_READER_ENABLE_OFFSET) 0
       ++ litepciedrv_RegWritel (base dmachan + PCIE_DMA_READER_TABLE_FLUSH_OFFSET) 1
       ++ litepciedrv_RegWritel (base dmachan + PCIE_DMA_READER_TABLE_LOOP_PROG_N_OFFSET) 0
       ++ flat_map (reader_descriptor dmachan index) (for_range DMA_BUFFER_COUNT)
       ++ litepciedrv_RegWritel (base dmachan + PCIE_DMA_READER_TABLE_LOOP_PROG_N_OFFSET) 1
       ++ [Store (lock_owner c) Reader HwCount;
           Store (lock_owner c) Reader HwCountLast;
           Store (lock_owner c) Reader SwCount]
       ++ litepciedrv_RegWritel (base dmachan + PCIE_DMA_READER_ENABLE_OFFSET) 1)
  end.

Definition litepcie_dma_reader_stop (dev : DEVICE_CONTEXT) (index : Z)
  : DEVICE_CONTEXT * list event :=
  match nth_error (chan dev) (Z.to_nat index) with
  | None => (dev, [])
  | Some c =>
      let dmachan := dma c in
      let cleared :=
        set_reader_sw_count 0 (set_reader_hw_count_last 0 (set_reader_hw_count 0 dmachan)) in
      (set_chan (store_chan (chan dev) (Z.to_nat index) (set_dma cleared c)) dev,
       litepciedrv_RegWritel (base dmachan + PCIE_DMA_READER_TABLE_LOOP_PROG_N_OFFSET) 0
       ++ litepciedrv_RegWritel (base dmachan + PCIE_DMA_READER_TABLE_FLUSH_OFFSET) 1
       ++ [KeStallExecutionProcessor 1000]
       ++ litepciedrv_RegWritel (base dmachan + PCIE_DMA_READER_ENABLE_OFFSET) 0
       ++ litepciedrv_RegWritel (base dmachan + PCIE_DMA_READER_TABLE_FLUSH_OFFSET) 1
       ++ [Store (lock_owner c) Reader HwCount;
           Store (lock_owner c) Reader HwCountLast;
           Store (lock_owner c) Reader SwCount])
  end.

(** ** The interrupt handlers (lines 666-744)

    [litepcie_EvtIsr] returns the context, its trace and the [BOOLEAN] it
    answers.  [CSR_PCIE_MSI_CLEAR_ADDR] is defined: [litepcie_enable_interrupt]
    uses it outside any [#ifdef]. *)

Definition litepcie_EvtIsr (mmio : Z -> Z) (dev : DEVICE_CONTEXT)
  : DEVICE_CONTEXT * list event * bool :=
  let irqVec := litepciedrv_RegReadl mmio CSR_PCIE_MSI_VECTOR_ADDR in
  if negb (irqVec =? 0) then
    (set_irqs_pending (UINT32 (Z.lor (irqs_pending dev) irqVec)) dev,
     litepciedrv_RegWritel CSR_PCIE_MSI_CLEAR_ADDR irqVec ++ [WdfInterruptQueueDpcForIsr],
     true)
  else (dev, [], false).

(** [(1 << bit)] as used to test and to collect interrupt bits. *)
Definition irq_bit (bit : Z) : Z := UINT32 (Z.shiftl 1 bit).

(** The reader half of the loop body of [litepcie_EvtDpc] (lines 701-720). *)
Definition dpc_reader (mmio : Z -> Z) (irq_vector : Z) (pChan : LITEPCIE_CHAN) (clear_mask : Z)
  : option (LITEPCIE_CHAN * Z * list event) :=
  if negb (Z.land irq_vector (irq_bit (reader_interrupt (dma pChan))) =? 0) then
    let loop_status :=
      litepciedrv_RegReadl mmio (base (dma pChan) + PCIE_DMA_READER_TABLE_LOOP_STATUS_OFFSET) in
    let (pChan1, tr1) := reader_reconcile loop_status pChan in
    let clear_mask' := UINT32 (Z.lor clear_mask (irq_bit (reader_interrupt (dma pChan)))) in
    match writeRequest (dma pChan1) with
    | Some request =>
        match litepciedrv_ChannelWrite pChan1 request (writeRemainingBytes (dma pChan1)) with
        | Some (pChan2, tr2) => Some (pChan2, clear_mask', tr1 ++ tr2)
        | None => None
        end
    | None => Some (pChan1, clear_mask', tr1)
    end
  else Some (pChan, clear_mask, []).

(** The writer half (lines 721-741). *)
Definition dpc_writer (mmio : Z -> Z) (irq_vector : Z) (pChan : LITEPCIE_CHAN) (clear_mask : Z)
  : option (LITEPCIE_CHAN * Z * list event) :=
  if negb (Z.land irq_vector (irq_bit (writer_interrupt (dma pChan))) =? 0) then
    let loop_status :=
      litepciedrv_RegReadl mmio (base (dma pChan) + PCIE_DMA_WRITER_TABLE_LOOP_STATUS_OFFSET) in
    let (pChan1, tr1) := writer_reconcile loop_status pChan in
    let clear_mask' := UINT32 (Z.lor clear_mask (irq_bit (writer_interrupt (dma pChan)))) in
    match readRequest (dma pChan1) with
    | Some request =>
        match litepciedrv_ChannelRead pChan1 request (readRemainingBytes (dma pChan1)) with
        | Some (pChan2, tr2) => Some (pChan2, clear_mask', tr1 ++ tr2)
        | None => None
        end
    | None => Some (pChan1, clear_mask', tr1)
    end
  else Some (pChan, clear_mask, []).

Definition dpc_channel (mmio : Z -> Z) (irq_vector : Z) (pChan : LITEPCIE_CHAN) (clear_mask : Z)
  : option (LITEPCIE_CHAN * Z * list event) :=
  match dpc_reader mmio irq_vector pChan clear_mask with
  | None => None
  | Some (pChan1, clear_mask1, tr1) =>
      match dpc_writer mmio irq_vector pChan1 clear_mask1 with
      | None => None
      | Some (pChan2, clear_mask2, tr2) => Some (pChan2, clear_mask2, tr1 ++ tr2)
      end
  end.

(** [for (i = 0; i < dev->channels; i++)] over the channels in turn. *)
Fixpoint dpc_channels (mmio : Z -> Z) (irq_vector : Z) (chans : list LITEPCIE_CHAN)
    (clear_mask : Z) : option (list LITEPCIE_CHAN * Z * list event) :=
  match chans with
  | [] => Some ([], clear_mask, [])
  | pChan :: rest =>
      match dpc_channel mmio irq_vector pChan clear_mask with
      | None => None
      | Some (pChan', clear_mask1, tr1) =>
          match dpc_channels mmio irq_vector rest clear_mask1 with
          | None => None
          | Some (rest', clear_mask2, tr2) => Some (pChan' :: rest', clear_mask2, tr1 ++ tr2)
          end
      end
  end.

Definition litepcie_EvtDpc (mmio : Z -> Z) (dev : DEVICE_CONTEXT)
  : option (DEVICE_CONTEXT * list event) :=
  let irq_enable := litepciedrv_RegReadl mmio CSR_PCIE_MSI_ENABLE_ADDR in
  let irq_vector := Z.land (irqs_pending dev) irq_enable in
  let n := Z.to_nat (channels dev) in
  match dpc_channels mmio irq_vector (firstn n (chan dev)) 0 with
  | None => None
  | Some (chans, clear_mask, tr) =>
      Some (set_irqs_pending (Z.land (irqs_pending dev) (UINT32 (Z.lnot clear_mask)))
              (set_chan (chans ++ skipn n (chan dev)) dev),
            tr)
  end.

(** ** The context left by [litepciedrv_DeviceOpen] (lines 138, 193-271,
       320-327)

    The context is zeroed, every channel gets its index, block size, register
    base and interrupt bits, and every ring slot [j] gets the addresses of
    the [j]-th chunk of the channel's two common buffers.  [buffers i] are
    the aligned virtual and logical addresses of the read and of the write
    buffer the framework allocated for channel [i]. *)

Definition DeviceOpen_chan
    (buffers : Z -> PVOID * PHYSICAL_ADDRESS * PVOID * PHYSICAL_ADDRESS) (i : Z)
  : LITEPCIE_CHAN :=
  let '(rdVirtAddr, rdPhysAddr, wrVirtAddr, wrPhysAddr) := buffers i in
  let slots := for_range DMA_BUFFER_COUNT in
  {| index := i;
     block_size := DMA_BUFFER_SIZE;
     dma :=
       {| base := CSR_PCIE_DMA_BASE i;
          writer_interrupt := PCIE_DMA_WRITER_INTERRUPT i;
          reader_interrupt := PCIE_DMA_READER_INTERRUPT i;
          reader_handle := map (fun j => UINT64 (rdVirtAddr + UINT32 (j * DMA_BUFFER_SIZE))) slots;
          writer_handle := map (fun j => UINT64 (wrVirtAddr + UINT32 (j * DMA_BUFFER_SIZE))) slots;
          reader_addr := map (fun j => INT64 (rdPhysAddr + UINT32 (j * DMA_BUFFER_SIZE))) slots;
          writer_addr := map (fun j => INT64 (wrPhysAddr + UINT32 (j * DMA_BUFFER_SIZE))) slots;
          reader_hw_count := 0; reader_hw_count_last := 0; reader_sw_count := 0;
          writer_hw_count := 0; writer_hw_count_last := 0; writer_sw_count := 0;
          readRequest := None; readRemainingBytes := 0;
          writeRequest := None; writeRemainingBytes := 0 |} |}.

Definition DeviceOpen_context
    (buffers : Z -> PVOID * PHYSICAL_ADDRESS * PVOID * PHYSICAL_ADDRESS) : DEVICE_CONTEXT :=
  {| channels := DMA_CHANNELS;
     chan := map (DeviceOpen_chan buffers) (for_range DMA_CHANNELS);
     irqs_requested := 0;
     irqs_pending := 0 |}.

(** ** Operations and reachable contexts

    The entry points of the core as the framework calls them on one device:
    ring start and stop, the two interrupt handlers, and a read or a write
    request dispatched to channel [index].  A context is reachable in [n]
    steps when [n] operations lead to it from the context left by
    [litepciedrv_DeviceOpen]. *)

Inductive operation :=
| OpWriterStart (index : Z)
| OpWriterStop (index : Z)
| OpReaderStart (index : Z)
| OpReaderStop (index : Z)
| OpIsr (mmio : Z -> Z)
| OpDpc (mmio : Z -> Z)
| OpChannelRead (index : Z) (request : WDFREQUEST) (length : Z)
| OpChannelWrite (index : Z) (request : WDFREQUEST) (length : Z).

Definition on_channel (dev : DEVICE_CONTEXT) (index : Z)
    (f : LITEPCIE_CHAN -> option (LITEPCIE_CHAN * list event))
  : option (DEVICE_CONTEXT * list event) :=
  match nth_error (chan dev) (Z.to_nat index) with
  | None => Some (dev, [])
  | Some c =>
      match f c with
      | Some (c', tr) => Some (set_chan (store_chan (chan dev) (Z.to_nat index) c') dev, tr)
      | None => None
      end
  end.

Definition run_operation (op : operation) (dev : DEVICE_CONTEXT)
  : option (DEVICE_CONTEXT * list event) :=
  match op with
  | OpWriterStart index => Some (litepcie_dma_writer_start dev index)
  | OpWriterStop index => Some (litepcie_dma_writer_stop dev index)
  | OpReaderStart index => Some (litepcie_dma_reader_start dev index)
  | OpReaderStop index => Some (litepcie_dma_reader_stop dev index)
  | OpIsr mmio => let '(dev', tr, _) := litepcie_EvtIsr mmio dev in Some (dev', tr)
  | OpDpc mmio => litepcie_EvtDpc mmio dev
  | OpChannelRead index request length =>
      on_channel dev index (fun c => litepciedrv_ChannelRead c request length)
  | OpChannelWrite index request length =>
      on_channel dev index (fun c => litepciedrv_ChannelWrite c request length)
  end.

Inductive reachable : nat -> DEVICE_CONTEXT -> Prop :=
| reachable_open buffers : reachable 0 (DeviceOpen_context buffers)
| reachable_step n dev op dev' tr :
    reachable n dev -> run_operation op dev = Some (dev', tr) -> reachable (S n) dev'.

(** The counts after each of a sequence of reconciliations of one
    direction, one raw loop-status value per step. *)
Fixpoint reader_reconcile_seq (raws : list Z) (pChan : LITEPCIE_CHAN) : list Z :=
  match raws with
  | [] => []
  | loop_status :: rest =>
      let pChan' := fst (reader_reconcile loop_status pChan) in
      reader_hw_count (dma pChan') :: reader_reconcile_seq rest pChan'
  end.

Fixpoint writer_reconcile_seq (raws : list Z) (pChan : LITEPCIE_CHAN) : list Z :=
  match raws with
  | [] => []
  | loop_status :: rest =>
      let pChan' := fst (writer_reconcile loop_status pChan) in
      writer_hw_count (dma pChan') :: writer_reconcile_seq rest pChan'
  end.

End Driver.

(** ** Reading a trace *)

(** The requests completed, with status and byte count, in order. *)
Fixpoint completions (tr : list event) : list (WDFREQUEST * NTSTATUS * Z) :=
  match tr with
  | [] => []
  | WdfRequestCompleteWithInformation r st n :: tr' => (r, st, n) :: completions tr'
  | _ :: tr' => completions tr'
  end.

(** The bytes moved between ring buffers and request memory. *)
Fixpoint bytes_copied (tr : list event) : Z :=
  match tr with
  | [] => 0
  | WdfMemoryCopyFromBuffer _ _ _ n :: tr' => n + bytes_copied tr'
  | WdfMemoryCopyToBuffer _ _ _ n :: tr' => n + bytes_copied tr'
  | _ :: tr' => bytes_copied tr'
  end.

(** The ring buffers copied from or to, in order. *)
Fixpoint copied_buffers (tr : list event) : list PVOID :=
  match tr with
  | [] => []
  | WdfMemoryCopyFromBuffer _ _ b _ :: tr' => b :: copied_buffers tr'
  | WdfMemoryCopyToBuffer _ _ b _ :: tr' => b :: copied_buffers tr'
  | _ :: tr' => copied_buffers tr'
  end.

(** The values written to register [reg], in order. *)
Fixpoint writes_to (reg : Z) (tr : list event) : list Z :=
  match tr with
  | [] => []
  | RegWritel r v :: tr' => if r =? reg then v :: writes_to reg tr' else writes_to reg tr'
  | _ :: tr' => writes_to reg tr'
  end.

(** *** Locks along a trace

    [held] is the list of locks taken and not yet released when the trace
    starts. *)

Definition lock : Type := Z * direction.

Definition direction_eqb (a b : direction) : bool :=
  match a, b with
  | Reader, Reader | Writer, Writer => true
  | _, _ => false
  end.

Definition lock_eqb (a b : lock) : bool :=
  (fst a =? fst b) && direction_eqb (snd a) (snd b).

Definition holds (held : list lock) (l : lock) : bool := existsb (lock_eqb l) held.

Definition release (held : list lock) (l : lock) : list lock :=
  filter (fun h => negb (lock_eqb l h)) held.

Fixpoint held_after (held : list lock) (tr : list event) : list lock :=
  match tr with
  | [] => held
  | WdfSpinLockAcquire ch d :: tr' => held_after ((ch, d) :: held) tr'
  | WdfSpinLockRelease ch d :: tr' => held_after (release held (ch, d)) tr'
  | _ :: tr' => held_after held tr'
  end.

(** The buffer copies made while some lock is held. *)
Fixpoint copies_under_lock (held : list lock) (tr : list event) : list event :=
  match tr with
  | [] => []
  | WdfSpinLockAcquire ch d :: tr' => copies_under_lock ((ch, d) :: held) tr'
  | WdfSpinLockRelease ch d :: tr' => copies_under_lock (release held (ch, d)) tr'
  | (WdfMemoryCopyFromBuffer _ _ _ _ as e) :: tr'
  | (WdfMemoryCopyToBuffer _ _ _ _ as e) :: tr' =>
      match held with
      | [] => copies_under_lock held tr'
      | _ :: _ => e :: copies_under_lock held tr'
      end
  | _ :: tr' => copies_under_lock held tr'
  end.

(** The loads and stores of a counter made while the lock of its channel
    and direction is not held. *)
Fixpoint unlocked_accesses (held : list lock) (tr : list event) : list event :=
  match tr with
  | [] => []
  | WdfSpinLockAcquire ch d :: tr' => unlocked_accesses ((ch, d) :: held) tr'
  | WdfSpinLockRelease ch d :: tr' => unlocked_accesses (release held (ch, d)) tr'
  | (Load ch d _ as e) :: tr'
  | (Store ch d _ as e) :: tr' =>
      if holds held (ch, d) then unlocked_accesses held tr'
      else e :: unlocked_accesses held tr'
  | _ :: tr' => unlocked_accesses held tr'
  end.

(** The counter an access event touches. *)
Definition accessed_counter (e : event) : option counter :=
  match e with
  | Load _ _ c | Store _ _ c => Some c
  | _ => None
  end.

Definition is_lock_event (e : event) : bool :=
  match e with
  | WdfSpinLockAcquire _ _ | WdfSpinLockRelease _ _ => true
  | _ => false
  end.

(** ** The counter invariant

    What holds of the counters of a channel between operations: in both
    directions the software count is between zero and the hardware count,
    the hardware count is below [bound], and [hw_count_last] is the hardware
    count. *)

Definition counters_ok (bound : Z) (c : LITEPCIE_CHAN) : Prop :=
  let d := dma c in
  (0 <= reader_sw_count d <= reader_hw_count d
   /\ reader_hw_count d < bound
   /\ reader_hw_count_last d = reader_hw_count d)
  /\ (0 <= writer_sw_count d <= writer_hw_count d
      /\ writer_hw_count d < bound
      /\ writer_hw_count_last d = writer_hw_count d).

(** ** Parked requests

    [slot_kept tr before after]: a request parked in a slot before an
    operation with trace [tr] is still the parked one after it, or the slot
    is empty and [tr] completes that request with success. *)

Definition slot_kept (tr : list event) (before after : option WDFREQUEST) : Prop :=
  forall r, before = Some r ->
    after = Some r
    \/ (after = None /\ exists n, In (r, STATUS_SUCCESS, n) (completions tr)).

Definition slots_kept (tr : list event) (c c' : LITEPCIE_CHAN) : Prop :=
  slot_kept tr (readRequest (dma c)) (readRequest (dma c'))
  /\ slot_kept tr (writeRequest (dma c)) (writeRequest (dma c')).

(** What the core expects of the dispatcher: a read or write request is
    handed to a channel only while no other request is parked in that
    direction. *)
Definition dispatch_ok (op : operation) (dev : DEVICE_CONTEXT) : Prop :=
  match op with
  | OpChannelRead index request _ =>
      forall c, nth_error (chan dev) (Z.to_nat index) = Some c ->
        readRequest (dma c) = None \/ readRequest (dma c) = Some request
  | OpChannelWrite index request _ =>
      forall c, nth_error (chan dev) (Z.to_nat index) = Some c ->
        writeRequest (dma c) = None \/ writeRequest (dma c) = Some request
  | _ => True
  end.

(** ** The lock discipline of a trace

    Starting and ending with no lock held, no buffer is copied while a lock
    is held, and the only counter touched without the lock of its direction
    is [sw_count]. *)

Definition lock_disciplined (tr : list event) : Prop :=
  held_after [] tr = []
  /\ copies_under_lock [] tr = []
  /\ Forall (fun e => accessed_counter e = Some SwCount) (unlocked_accesses [] tr).

Definition is_start_or_stop (op : operation) : bool :=
  match op with
  | OpWriterStart _ | OpWriterStop _ | OpReaderStart _ | OpReaderStop _ => true
  | _ => false
  end.

(** ** Sample configurations

    The register layout of a LitePCIe DMA block and descriptor flags, with
    the ring depth, the buffer size and the interrupt interval left open;
    one channel.  Requests with a positive handle have a memory object, the
    others fail with [STATUS_INVALID_PARAMETER]. *)

Definition sample_driver_h (buffer_count buffer_size buffer_per_irq : Z) : driver_h :=
  {| DMA_CHANNELS := 1;
     DMA_BUFFER_COUNT := buffer_count;
     DMA_BUFFER_SIZE := buffer_size;
     DMA_BUFFER_PER_IRQ := buffer_per_irq;
     DMA_IRQ_DISABLE := Z.shiftl 1 24;
     DMA_LAST_DISABLE := Z.shiftl 1 25;
     DMA_BUFFER_ALIGNED := false;
     PCIE_DMA_WRITER_ENABLE_OFFSET := 0x00;
     PCIE_DMA_WRITER_TABLE_VALUE_OFFSET := 0x04;
     PCIE_DMA_WRITER_TABLE_WE_OFFSET := 0x0c;
     PCIE_DMA_WRITER_TABLE_LOOP_PROG_N_OFFSET := 0x10;
     PCIE_DMA_WRITER_TABLE_LOOP_STATUS_OFFSET := 0x14;
     PCIE_DMA_WRITER_TABLE_FLUSH_OFFSET := 0x1c;
     PCIE_DMA_READER_ENABLE_OFFSET := 0x20;
     PCIE_DMA_READER_TABLE_VALUE_OFFSET := 0x24;
     PCIE_DMA_READER_TABLE_WE_OFFSET := 0x2c;
     PCIE_DMA_READER_TABLE_LOOP_PROG_N_OFFSET := 0x30;
     PCIE_DMA_READER_TABLE_LOOP_STATUS_OFFSET := 0x34;
     PCIE_DMA_READER_TABLE_FLUSH_OFFSET := 0x3c;
     CSR_PCIE_MSI_ENABLE_ADDR := 0x1800;
     CSR_PCIE_MSI_CLEAR_ADDR := 0x1804;
     CSR_PCIE_MSI_VECTOR_ADDR := 0x1808;
     CSR_PCIE_DMA_BASE := fun _ => 0x2000;
     PCIE_DMA_WRITER_INTERRUPT := fun _ => 0;
     PCIE_DMA_READER_INTERRUPT := fun _ => 1 |}.

Definition STATUS_INVALID_PARAMETER : NTSTATUS := INT32 0xC000000D.

Definition sample_request_memory : wdf_request_memory :=
  {| WdfRequestRetrieveOutputMemory :=
       fun r => if 0 <? r then (STATUS_SUCCESS, 1000 + r) else (STATUS_INVALID_PARAMETER, 0);
     WdfRequestRetrieveInputMemory :=
       fun r => if 0 <? r then (STATUS_SUCCESS, 2000 + r) else (STATUS_INVALID_PARAMETER, 0) |}.

(** Common buffers of a sample device: the read buffer of channel [i] at
    virtual [0x10000000] and logical [0x80000000], the write buffer at
    [0x20000000] and [0x90000000]. *)
Definition sample_buffers (i : Z) : PVOID * PHYSICAL_ADDRESS * PVOID * PHYSICAL_ADDRESS :=
  (0x10000000, 0x80000000, 0x20000000, 0x90000000).

(** A register plane that shows [status] in every loop-status register,
    [vector] as the interrupt vector and all interrupts enabled. *)
Definition sample_mmio (vector status : Z) (reg : Z) : Z :=
  if reg =? 0x1808 then vector
  else if reg =? 0x1800 then 0xffffffff
  else status.

(** A channel as [litepciedrv_DeviceOpen] leaves it, with the six counters
    and the parked requests given. *)
Definition sample_chan (rhw rlast rsw whw wlast wsw : Z) (rd wr : option WDFREQUEST)
    (rdRemaining wrRemaining : Z) : LITEPCIE_CHAN :=
  {| index := 0;
     block_size := 4096;
     dma :=
       {| base := 0x2000; writer_interrupt := 0; reader_interrupt := 1;
          reader_handle := map (fun j => 0x10000000 + j * 4096) (for_range 8);
          writer_handle := map (fun j => 0x20000000 + j * 4096) (for_range 8);
          reader_addr := map (fun j => 0x80000000 + j * 4096) (for_range 8);
          writer_addr := map (fun j => 0x90000000 + j * 4096) (for_range 8);
          reader_hw_count := rhw; reader_hw_count_last := rlast; reader_sw_count := rsw;
          writer_hw_count := whw; writer_hw_count_last := wlast; writer_sw_count := wsw;
          readRequest := rd; readRemainingBytes := rdRemaining;
          writeRequest := wr; writeRemainingBytes := wrRemaining |} |}.

(** * Further parts of [Device.c] *)

(** ** More readings of a trace *)

(** [start, start + step, ...], [n] terms. *)
Fixpoint arith_seq (start step : Z) (n : nat) : list Z :=
  match n with
  | O => []
  | S n' => start :: arith_seq (start + step) step n'
  end.

(** The offsets in the request's memory that the copies of a trace start
    at, in order. *)
Fixpoint copy_offsets (tr : list event) : list Z :=
  match tr with
  | [] => []
  | WdfMemoryCopyFromBuffer _ offset _ _ :: tr' => offset :: copy_offsets tr'
  | WdfMemoryCopyToBuffer _ offset _ _ :: tr' => offset :: copy_offsets tr'
  | _ :: tr' => copy_offsets tr'
  end.

(** The overflow counts reported, in order. *)
Fixpoint overflow_reports (tr : list event) : list Z :=
  match tr with
  | [] => []
  | TraceOverflow n :: tr' => n :: overflow_reports tr'
  | _ :: tr' => overflow_reports tr'
  end.

Section Fulfillment.
Context {H : driver_h}.

(** The number of buffers a pass can move: as many whole buffers as the
    request has room for, and no more than are available. *)
Definition buffers_served (length available : Z) : Z :=
  Z.min (length / DMA_BUFFER_SIZE) available.

(** The iterations of a pass that count an overflow: those entered with
    more than [DMA_BUFFER_COUNT - DMA_BUFFER_PER_IRQ] buffers available. *)
Definition overflows_counted (served available : Z) : Z :=
  Z.max 0 (Z.min served (available - INT32 (DMA_BUFFER_COUNT - DMA_BUFFER_PER_IRQ))).

End Fulfillment.

(** ** The ring of a channel *)

(** What [litepciedrv_DeviceOpen] sets up in a channel and no later code
    assigns: index, block size, register base, interrupt bits and the four
    arrays of buffer addresses. *)
Definition ring_of (c : LITEPCIE_CHAN)
  : Z * Z * Z * Z * Z * (list PVOID * list PVOID * list PHYSICAL_ADDRESS * list PHYSICAL_ADDRESS) :=
  (index c, block_size c, base (dma c), writer_interrupt (dma c), reader_interrupt (dma c),
   (reader_handle (dma c), writer_handle (dma c), reader_addr (dma c), writer_addr (dma c))).

Section Ring.
Context {H : driver_h}.

(** Both handle arrays of the channel hold [DMA_BUFFER_COUNT] buffers. *)
Definition ring_sized (c : LITEPCIE_CHAN) : Prop :=
  List.length (reader_handle (dma c)) = Z.to_nat DMA_BUFFER_COUNT
  /\ List.length (writer_handle (dma c)) = Z.to_nat DMA_BUFFER_COUNT.

(** A copy event moves [DMA_BUFFER_SIZE] bytes out of a buffer of the write
    ring of [c] (a read request) or into a buffer of its read ring (a write
    request); other events are not constrained. *)
Definition ring_copy (c : LITEPCIE_CHAN) (e : event) : Prop :=
  match e with
  | WdfMemoryCopyFromBuffer _ _ buffer n =>
      In buffer (writer_handle (dma c)) /\ n = SIZE_T DMA_BUFFER_SIZE
  | WdfMemoryCopyToBuffer _ _ buffer n =>
      In buffer (reader_handle (dma c)) /\ n = SIZE_T DMA_BUFFER_SIZE
  | _ => True
  end.

(** The same for a device: the buffer of a copy belongs to the ring of one
    of its channels. *)
Definition device_copy (dev : DEVICE_CONTEXT) (e : event) : Prop :=
  match e with
  | WdfMemoryCopyFromBuffer _ _ buffer n =>
      (exists c, In c (chan dev) /\ In buffer (writer_handle (dma c)))
      /\ n = SIZE_T DMA_BUFFER_SIZE
  | WdfMemoryCopyToBuffer _ _ buffer n =>
      (exists c, In c (chan dev) /\ In buffer (reader_handle (dma c)))
      /\ n = SIZE_T DMA_BUFFER_SIZE
  | _ => True
  end.

End Ring.

(** ** Interrupt masking (lines 628-663)

    [irqs_requested] is a 32-bit unsigned mask, like [irqs_pending] and like
    the register it is written to. *)

Definition set_irqs_requested (v : Z) (dev : DEVICE_CONTEXT) : DEVICE_CONTEXT :=
  {| channels := channels dev; chan := chan dev;
     irqs_requested := v; irqs_pending := irqs_pending dev |}.

(** [(1 << interrupt)]: the [int] 1 shifted by a [UINT32]. *)
Definition int_bit (interrupt : Z) : Z := INT32 (Z.shiftl 1 (UINT32 interrupt)).

Section Interrupts.
Context {H : driver_h}.

Definition litepcie_enable_interrupt (dev : DEVICE_CONTEXT) (interrupt : Z)
  : DEVICE_CONTEXT * list event :=
  let requested := UINT32 (Z.lor (irqs_requested dev) (UINT32 (int_bit interrupt))) in
  (set_irqs_requested requested dev,
   litepciedrv_RegWritel CSR_PCIE_MSI_ENABLE_ADDR requested
   ++ litepciedrv_RegWritel CSR_PCIE_MSI_CLEAR_ADDR (int_bit interrupt)).

Definition litepcie_disable_interrupt (dev : DEVICE_CONTEXT) (interrupt : Z)
  : DEVICE_CONTEXT * list event :=
  let requested :=
    UINT32 (Z.land (irqs_requested dev) (UINT32 (Z.lnot (int_bit interrupt)))) in
  (set_irqs_requested requested dev,
   litepciedrv_RegWritel CSR_PCIE_MSI_ENABLE_ADDR requested).

(** The two framework callbacks leave the context alone; they return their
    trace and status. *)
Definition litepcie_EvtIntEnable (dev : DEVICE_CONTEXT) : list event * NTSTATUS :=
  (litepciedrv_RegWritel CSR_PCIE_MSI_ENABLE_ADDR (irqs_requested dev)
   ++ litepciedrv_RegWritel CSR_PCIE_MSI_CLEAR_ADDR (irqs_requested dev),
   STATUS_SUCCESS).

Definition litepcie_EvtIntDisable (dev : DEVICE_CONTEXT) : list event * NTSTATUS :=
  (litepciedrv_RegWritel CSR_PCIE_MSI_ENABLE_ADDR 0, STATUS_SUCCESS).

(** Calls that mask or unmask interrupts, and a sequence of them on one
    device. *)
Inductive irq_call :=
| IrqEnable (interrupt : Z)
| IrqDisable (interrupt : Z)
| IrqEvtEnable
| IrqEvtDisable.

Definition run_irq_call (call : irq_call) (dev : DEVICE_CONTEXT)
  : DEVICE_CONTEXT * list event :=
  match call with
  | IrqEnable interrupt => litepcie_enable_interrupt dev interrupt
  | IrqDisable interrupt => litepcie_disable_interrupt dev interrupt
  | IrqEvtEnable => (dev, fst (litepcie_EvtIntEnable dev))
  | IrqEvtDisable => (dev, fst (litepcie_EvtIntDisable dev))
  end.

Fixpoint run_irq_calls (calls : list irq_call) (dev : DEVICE_CONTEXT)
  : DEVICE_CONTEXT * list event :=
  match calls with
  | [] => (dev, [])
  | call :: rest =>
      let (dev1, tr1) := run_irq_call call dev in
      let (dev2, tr2) := run_irq_calls rest dev1 in
      (dev2, tr1 ++ tr2)
  end.

(** The value the interrupt-enable register holds after a trace, when the
    trace writes it. *)
Definition enable_register (tr : list event) : option Z :=
  last (map Some (writes_to (UINT32 CSR_PCIE_MSI_ENABLE_ADDR) tr)) None.

(** The interrupt number of a call is a bit position of the mask. *)
Definition irq_call_ok (call : irq_call) : Prop :=
  match call with
  | IrqEnable interrupt | IrqDisable interrupt => 0 <= interrupt < 32
  | _ => True
  end.

(** What a call leaves in the enable register: 0 after the framework's
    disable, the requested mask after every other call. *)
Definition enabled_after (call : irq_call) (dev : DEVICE_CONTEXT) : Z :=
  match call with
  | IrqEvtDisable => 0
  | _ => irqs_requested dev
  end.

End Interrupts.

(** ** The pending mask *)

(** Bit [b] is the reader or the writer interrupt of the channel. *)
Definition owns_interrupt (c : LITEPCIE_CHAN) (b : Z) : bool :=
  (reader_interrupt (dma c) =? b) || (writer_interrupt (dma c) =? b).

(** The interrupt numbers of the channel are bit positions of a 32-bit
    mask. *)
Definition interrupts_ok (c : LITEPCIE_CHAN) : Prop :=
  0 <= reader_interrupt (dma c) < 32 /\ 0 <= writer_interrupt (dma c) < 32.

(** ** Device setup and teardown (lines 129-361 and 746-795)

    The hardware resources the framework hands over are a list of
    descriptors; of a descriptor the code reads its type and, for a memory
    resource, its start and length. *)

Inductive CM_RESOURCE_TYPE :=
| CmResourceTypeMemory
| CmResourceTypeInterrupt
| CmResourceTypeOther.

Record CM_PARTIAL_RESOURCE_DESCRIPTOR := {
  ResourceType : CM_RESOURCE_TYPE;
  MemoryStart : PHYSICAL_ADDRESS;
  MemoryLength : Z
}.

Definition WDFCMRESLIST := list CM_PARTIAL_RESOURCE_DESCRIPTOR.

(** The count is a [ULONG]; the descriptor at an index outside the list is
    [NULL]. *)
Definition WdfCmResourceListGetCount (l : WDFCMRESLIST) : Z :=
  UINT32 (Z.of_nat (List.length l)).

Definition WdfCmResourceListGetDescriptor (l : WDFCMRESLIST) (i : Z)
  : option CM_PARTIAL_RESOURCE_DESCRIPTOR :=
  nth_error l (Z.to_nat i).

Definition UINT8 (x : Z) : Z := x mod 2 ^ 8.

Definition STATUS_DEVICE_CONFIGURATION_ERROR : NTSTATUS := INT32 0xC0000182.
Definition STATUS_NO_MEMORY : NTSTATUS := INT32 0xC0000017.

(** The register reset at open, and what the kernel and the framework
    answer during setup: the mapping of a memory range ([NULL] is 0), the
    status of each object creation, and the aligned virtual and logical
    addresses of the read and of the write common buffer of a channel. *)
Class wdf_setup := {
  CSR_CTRL_RESET_ADDR : Z;
  MmMapIoSpace : PHYSICAL_ADDRESS -> Z -> PVOID;
  WdfInterruptCreate : Z -> NTSTATUS;
  WdfDmaEnablerCreate : NTSTATUS;
  WdfDmaTransactionCreate : NTSTATUS;
  WdfCommonBufferCreate : Z -> direction -> NTSTATUS;
  WdfCommonBufferGetAligned : Z -> PVOID * PHYSICAL_ADDRESS * PVOID * PHYSICAL_ADDRESS
}.

(** What setup and teardown do to the outside world: the events of the
    core (register writes), and the calls that create or release
    something. *)
Inductive setup_event :=
| Device (e : event)
| MapIoSpace (start : PHYSICAL_ADDRESS) (length : Z)
| UnmapIoSpace (addr : PVOID) (size : Z)
| TraceIrqsAllocated (irqs : Z)
| InterruptCreate (i : Z)
| DmaEnablerCreate
| DmaTransactionCreate
| CommonBufferCreate (channel : Z) (d : direction).

(** [array[i] = v]; nothing is stored outside the array. *)
Fixpoint list_store (l : list Z) (i : nat) (v : Z) : list Z :=
  match l, i with
  | [], _ => []
  | _ :: l', O => v :: l'
  | x :: l', S i' => x :: list_store l' i' v
  end.

Definition set_channels (v : Z) (dev : DEVICE_CONTEXT) : DEVICE_CONTEXT :=
  {| channels := v; chan := chan dev;
     irqs_requested := irqs_requested dev; irqs_pending := irqs_pending dev |}.

(** [dma.base], [dma.writer_interrupt] and [dma.reader_interrupt]. *)
Definition set_registers (b w r : Z) (d : litepcie_dma_chan) : litepcie_dma_chan :=
  {| base := b; writer_interrupt := w; reader_interrupt := r;
     reader_handle := reader_handle d; writer_handle := writer_handle d;
     reader_addr := reader_addr d; writer_addr := writer_addr d;
     reader_hw_count := reader_hw_count d;
     reader_hw_count_last := reader_hw_count_last d;
     reader_sw_count := reader_sw_count d;
     writer_hw_count := writer_hw_count d;
     writer_hw_count_last := writer_hw_count_last d;
     writer_sw_count := writer_sw_count d;
     readRequest := readRequest d; readRemainingBytes := readRemainingBytes d;
     writeRequest := writeRequest d; writeRemainingBytes := writeRemainingBytes d |}.

(** The four address arrays. *)
Definition set_arrays (rh wh : list PVOID) (ra wa : list PHYSICAL_ADDRESS)
    (d : litepcie_dma_chan) : litepcie_dma_chan :=
  {| base := base d; writer_interrupt := writer_interrupt d;
     reader_interrupt := reader_interrupt d;
     reader_handle := rh; writer_handle := wh; reader_addr := ra; writer_addr := wa;
     reader_hw_count := reader_hw_count d;
     reader_hw_count_last := reader_hw_count_last d;
     reader_sw_count := reader_sw_count d;
     writer_hw_count := writer_hw_count d;
     writer_hw_count_last := writer_hw_count_last d;
     writer_sw_count := writer_sw_count d;
     readRequest := readRequest d; readRemainingBytes := readRemainingBytes d;
     writeRequest := writeRequest d; writeRemainingBytes := writeRemainingBytes d |}.

(** Slot [j] of the four address arrays. *)
Definition set_slot (j : nat) (rh wh : PVOID) (ra wa : PHYSICAL_ADDRESS)
    (d : litepcie_dma_chan) : litepcie_dma_chan :=
  set_arrays (list_store (reader_handle d) j rh) (list_store (writer_handle d) j wh)
    (list_store (reader_addr d) j ra) (list_store (writer_addr d) j wa) d.

(** No logical address of the channel's rings is 0. *)
Definition addresses_nonzero (c : LITEPCIE_CHAN) : Prop :=
  Forall (fun a => a <> 0) (reader_addr (dma c))
  /\ Forall (fun a => a <> 0) (writer_addr (dma c)).

Section Setup.
Context {H : driver_h} {F : wdf_setup}.

(** *** [litepciedrv_SetupInterrupts] (lines 746-795) *)

(** The first loop: [irqs++] for every interrupt resource. *)
Fixpoint count_interrupts (resources : WDFCMRESLIST) (irqs : Z) : Z :=
  match resources with
  | [] => irqs
  | desc :: rest =>
      match ResourceType desc with
      | CmResourceTypeInterrupt => count_interrupts rest (UINT32 (irqs + 1))
      | _ => count_interrupts rest irqs
      end
  end.

(** The second loop, from index [i] on: the interrupt object is created
    for the first interrupt resource met, and the loop is left. *)
Fixpoint create_interrupt (resources : WDFCMRESLIST) (i : Z) (status : NTSTATUS)
  : NTSTATUS * list setup_event :=
  match resources with
  | [] => (status, [])
  | desc :: rest =>
      match ResourceType desc with
      | CmResourceTypeInterrupt => (WdfInterruptCreate i, [InterruptCreate i])
      | _ => create_interrupt rest (i + 1) status
      end
  end.

Definition litepciedrv_SetupInterrupts (dev : DEVICE_CONTEXT)
    (ResourcesTranslated : WDFCMRESLIST) : DEVICE_CONTEXT * NTSTATUS * list setup_event :=
  let irqs := count_interrupts ResourcesTranslated 0 in
  let (status, tr) := create_interrupt ResourcesTranslated 0 STATUS_SUCCESS in
  (set_irqs_requested 0 dev, status, TraceIrqsAllocated irqs :: tr).

(** *** [litepciedrv_DeviceOpen] (lines 129-338) *)

(** The search for BAR0 (lines 150-170), one iteration per unit of fuel,
    with the [UINT8] counter [i]: the status returned from inside the loop if
    any, [bar0_addr], [bar0_size] and the trace, and [None] when the fuel ran
    out before the loop was left. *)
Fixpoint bar0_loop (fuel : nat) (ResourcesTranslated : WDFCMRESLIST) (numRes i : Z)
  : option (option NTSTATUS * PVOID * Z * list setup_event) :=
  match fuel with
  | O => None
  | S fuel' =>
      if negb (i <? numRes) then Some (None, 0, 0, [])
      else
        match WdfCmResourceListGetDescriptor ResourcesTranslated i with
        | None => Some (Some STATUS_DEVICE_CONFIGURATION_ERROR, 0, 0, [])
        | Some resource =>
            match ResourceType resource with
            | CmResourceTypeMemory =>
                let bar0_addr := MmMapIoSpace (MemoryStart resource) (MemoryLength resource) in
                Some (if bar0_addr =? 0 then Some STATUS_DEVICE_CONFIGURATION_ERROR else None,
                      bar0_addr, MemoryLength resource,
                      [MapIoSpace (MemoryStart resource) (MemoryLength resource)])
            | _ => bar0_loop fuel' ResourcesTranslated numRes (UINT8 (i + 1))
            end
        end
  end.

(** The counter takes 256 values: a loop that is not left within 256
    iterations is never left. *)
Definition bar0_fuel : nat := 257.

(** The context after [memset]: [dev->chan] holds [DMA_CHANNELS] channels,
    every address array [DMA_BUFFER_COUNT] slots. *)
Definition zero_dma : litepcie_dma_chan :=
  let slots := repeat 0 (Z.to_nat DMA_BUFFER_COUNT) in
  {| base := 0; writer_interrupt := 0; reader_interrupt := 0;
     reader_handle := slots; writer_handle := slots;
     reader_addr := slots; writer_addr := slots;
     reader_hw_count := 0; reader_hw_count_last := 0; reader_sw_count := 0;
     writer_hw_count := 0; writer_hw_count_last := 0; writer_sw_count := 0;
     readRequest := None; readRemainingBytes := 0;
     writeRequest := None; writeRemainingBytes := 0 |}.

Definition zero_context : DEVICE_CONTEXT :=
  {| channels := 0;
     chan := repeat {| index := 0; block_size := 0; dma := zero_dma |} (Z.to_nat DMA_CHANNELS);
     irqs_requested := 0; irqs_pending := 0 |}.

(** The body of the first loop over the channels (lines 196-270). *)
Definition init_chan (i : Z) (c : LITEPCIE_CHAN) : LITEPCIE_CHAN :=
  {| index := i;
     block_size := DMA_BUFFER_SIZE;
     dma := set_registers (CSR_PCIE_DMA_BASE i) (PCIE_DMA_WRITER_INTERRUPT i)
              (PCIE_DMA_READER_INTERRUPT i) (dma c) |}.

Fixpoint init_channels (indices : list Z) (chans : list LITEPCIE_CHAN) : list LITEPCIE_CHAN :=
  match indices with
  | [] => chans
  | i :: rest =>
      match nth_error chans (Z.to_nat i) with
      | Some c => init_channels rest (store_chan chans (Z.to_nat i) (init_chan i c))
      | None => init_channels rest chans
      end
  end.

(** The loop over the slots of one channel (lines 320-334): the channel
    with the slots written so far, and whether the loop ran to its end
    ([false]: a logical address read back as 0). *)
Fixpoint fill_slots (slots : list Z) (rdVirtAddr : PVOID) (rdPhysAddr : PHYSICAL_ADDRESS)
    (wrVirtAddr : PVOID) (wrPhysAddr : PHYSICAL_ADDRESS) (dmachan : litepcie_dma_chan)
  : litepcie_dma_chan * bool :=
  match slots with
  | [] => (dmachan, true)
  | j :: rest =>
      let dmachan' :=
        set_slot (Z.to_nat j)
          (UINT64 (rdVirtAddr + UINT32 (j * DMA_BUFFER_SIZE)))
          (UINT64 (wrVirtAddr + UINT32 (j * DMA_BUFFER_SIZE)))
          (INT64 (rdPhysAddr + UINT32 (j * DMA_BUFFER_SIZE)))
          (INT64 (wrPhysAddr + UINT32 (j * DMA_BUFFER_SIZE)))
          dmachan in
      if (nth (Z.to_nat j) (reader_addr dmachan') 0 =? 0)
         || (nth (Z.to_nat j) (writer_addr dmachan') 0 =? 0)
      then (dmachan', false)
      else fill_slots rest rdVirtAddr rdPhysAddr wrVirtAddr wrPhysAddr dmachan'
  end.

(** The loop over the channels that allocates the common buffers (lines
    292-335): the channels, [status], whether the loop ran to its end, and
    the trace. *)
Fixpoint open_buffers (indices : list Z) (chans : list LITEPCIE_CHAN) (status : NTSTATUS)
  : list LITEPCIE_CHAN * NTSTATUS * bool * list setup_event :=
  match indices with
  | [] => (chans, status, true, [])
  | i :: rest =>
      match nth_error chans (Z.to_nat i) with
      | None => open_buffers rest chans status
      | Some c =>
          let status1 := WdfCommonBufferCreate i Reader in
          if negb (NT_SUCCESS status1)
          then (chans, status1, false, [CommonBufferCreate i Reader])
          else
            let status2 := WdfCommonBufferCreate i Writer in
            if negb (NT_SUCCESS status2)
            then (chans, status2, false,
                  [CommonBufferCreate i Reader; CommonBufferCreate i Writer])
            else
              let '(rdVirtAddr, rdPhysAddr, wrVirtAddr, wrPhysAddr) :=
                WdfCommonBufferGetAligned i in
              let (dmachan, filled) :=
                fill_slots (for_range DMA_BUFFER_COUNT)
                  rdVirtAddr rdPhysAddr wrVirtAddr wrPhysAddr (dma c) in
              let chans' := store_chan chans (Z.to_nat i) (set_dma dmachan c) in
              if filled then
                let '(chans2, status', done, tr) := open_buffers rest chans' status2 in
                (chans2, status', done,
                 CommonBufferCreate i Reader :: CommonBufferCreate i Writer :: tr)
              else
                (chans', STATUS_NO_MEMORY, false,
                 [CommonBufferCreate i Reader; CommonBufferCreate i Writer])
      end
  end.

(** The status returned, [bar0_addr], [bar0_size], the context and the
    trace; [None] when the search for BAR0 does not end.  The identifier
    registers are only read, for a log message; the creation of the spin
    locks and the alignment requirement change nothing that the function
    looks at afterwards (their results are not tested) and do not appear. *)
Definition litepciedrv_DeviceOpen (ResourcesTranslated : WDFCMRESLIST)
  : option (NTSTATUS * PVOID * Z * DEVICE_CONTEXT * list setup_event) :=
  let litepcie := zero_context in
  let numRes := WdfCmResourceListGetCount ResourcesTranslated in
  match bar0_loop bar0_fuel ResourcesTranslated numRes 0 with
  | None => None
  | Some (Some status, bar0_addr, bar0_size, tr0) =>
      Some (status, bar0_addr, bar0_size, litepcie, tr0)
  | Some (None, bar0_addr, bar0_size, tr0) =>
      let tr1 := tr0 ++ map Device (litepciedrv_RegWritel CSR_CTRL_RESET_ADDR 1) in
      let '(litepcie1, status, tr) :=
        litepciedrv_SetupInterrupts litepcie ResourcesTranslated in
      let tr2 := tr1 ++ tr in
      if negb (NT_SUCCESS status)
      then Some (STATUS_DEVICE_CONFIGURATION_ERROR, bar0_addr, bar0_size, litepcie1, tr2)
      else
        let litepcie2 := set_channels DMA_CHANNELS litepcie1 in
        let litepcie3 :=
          set_chan (init_channels (for_range (channels litepcie2)) (chan litepcie2)) litepcie2 in
        let status := WdfDmaEnablerCreate in
        let tr3 := tr2 ++ [DmaEnablerCreate] in
        if negb (NT_SUCCESS status)
        then Some (status, bar0_addr, bar0_size, litepcie3, tr3)
        else
          let status := WdfDmaTransactionCreate in
          let tr4 := tr3 ++ [DmaTransactionCreate] in
          if negb (NT_SUCCESS status)
          then Some (status, bar0_addr, bar0_size, litepcie3, tr4)
          else
            let '(chans, status', _, tr) :=
              open_buffers (for_range (channels litepcie3)) (chan litepcie3) status in
            Some (status', bar0_addr, bar0_size, set_chan chans litepcie3, tr4 ++ tr)
  end.

(** *** [litepciedrv_DeviceClose] (lines 341-361) *)

Definition litepciedrv_DeviceClose (bar0_addr : PVOID) (bar0_size : Z)
    (litepcie : DEVICE_CONTEXT) : list setup_event * NTSTATUS :=
  (map Device
     (flat_map
        (fun i =>
           match nth_error (chan litepcie) (Z.to_nat i) with
           | Some c =>
               litepciedrv_RegWritel (base (dma c) + PCIE_DMA_WRITER_ENABLE_OFFSET) 0
               ++ litepciedrv_RegWritel (base (dma c) + PCIE_DMA_READER_ENABLE_OFFSET) 0
           | None => []
           end)
        (for_range (channels litepcie))
      ++ litepciedrv_RegWritel CSR_PCIE_MSI_ENABLE_ADDR 0)
   ++ [UnmapIoSpace bar0_addr bar0_size],
   STATUS_SUCCESS).

End Setup.

(** A sample of the framework's answers: every creation succeeds, memory
    is mapped at [0xf0000000], channel [i] gets the buffers of
    [sample_buffers]. *)
Definition sample_setup : wdf_setup :=
  {| CSR_CTRL_RESET_ADDR := 0;
     MmMapIoSpace := fun _ _ => 0xf0000000;
     WdfInterruptCreate := fun _ => STATUS_SUCCESS;
     WdfDmaEnablerCreate := STATUS_SUCCESS;
     WdfDmaTransactionCreate := STATUS_SUCCESS;
     WdfCommonBufferCreate := fun _ _ => STATUS_SUCCESS;
     WdfCommonBufferGetAligned := sample_buffers |}.

(** Resource lists of a sample device. *)
Definition sample_memory : CM_PARTIAL_RESOURCE_DESCRIPTOR :=
  {| ResourceType := CmResourceTypeMemory; MemoryStart := 0xe0000000; MemoryLength := 0x10000 |}.

Definition sample_interrupt : CM_PARTIAL_RESOURCE_DESCRIPTOR :=
  {| ResourceType := CmResourceTypeInterrupt; MemoryStart := 0; MemoryLength := 0 |}.

Definition sample_other : CM_PARTIAL_RESOURCE_DESCRIPTOR :=
  {| ResourceType := CmResourceTypeOther; MemoryStart := 0; MemoryLength := 0 |}.

(** * Properties *)

(** ** Proof tools *)

(** Names the result of the recursive call of a fulfillment loop, and
    closes the case in which that call ran out of fuel. *)
Ltac loop_call loop fuel E :=
  match goal with
  | |- context [loop fuel ?c ?m ?l ?b ?o] =>
      destruct (loop fuel c m l b o) as [[[[c' b'] o'] tr']|] eqn:E; [|discriminate]
  end.

(** An operation that always returns: from [Some (f dev) = Some (dev', tr)]
    to [dev'], or [tr], as a projection of [f dev]. *)
Ltac returned_state Hrun :=
  let E := fresh "E" in
  injection Hrun as E; apply (f_equal fst) in E; cbn [fst] in E; subst.

Ltac returned_trace Hrun :=
  let E := fresh "E" in
  injection Hrun as E; apply (f_equal snd) in E; cbn [snd] in E; subst.

(** ** Machine integers *)

Lemma UINT32_range x : 0 <= UINT32 x < 2 ^ 32.
Proof. unfold UINT32. apply Z.mod_pos_bound. lia. Qed.

Lemma UINT32_small x : 0 <= x < 2 ^ 32 -> UINT32 x = x.
Proof. intros. unfold UINT32. apply Z.mod_small. lia. Qed.

Lemma UINT64_range x : 0 <= UINT64 x < 2 ^ 64.
Proof. unfold UINT64. apply Z.mod_pos_bound. lia. Qed.

Lemma UINT64_small x : 0 <= x < 2 ^ 64 -> UINT64 x = x.
Proof. intros. unfold UINT64. apply Z.mod_small. lia. Qed.

Lemma INT64_range x : - 2 ^ 63 <= INT64 x < 2 ^ 63.
Proof. unfold INT64. pose proof (Z.mod_pos_bound (x + 2 ^ 63) (2 ^ 64)). lia. Qed.

Lemma INT64_small x : - 2 ^ 63 <= x < 2 ^ 63 -> INT64 x = x.
Proof. intros. unfold INT64. rewrite Z.mod_small; lia. Qed.

Lemma INT32_small x : - 2 ^ 31 <= x < 2 ^ 31 -> INT32 x = x.
Proof. intros. unfold INT32. rewrite Z.mod_small; lia. Qed.

(** Conversions agree on values that differ by a multiple of [2^64]. *)
Lemma INT64_congr x y : UINT64 x = UINT64 y -> INT64 x = INT64 y.
Proof.
  unfold UINT64, INT64. intros E.
  rewrite <- (Zplus_mod_idemp_l x), <- (Zplus_mod_idemp_l y), E. reflexivity.
Qed.

Lemma INT64_UINT64 x : INT64 (UINT64 x) = INT64 x.
Proof. apply INT64_congr. unfold UINT64. apply Z.mod_mod. lia. Qed.

Lemma UINT64_land a b : Z.land (UINT64 a) (UINT64 b) = UINT64 (Z.land a b).
Proof.
  unfold UINT64. rewrite <- !Z.land_ones by lia.
  rewrite (Z.land_comm b), Z.land_assoc, <- (Z.land_assoc a), Z.land_diag.
  rewrite <- !Z.land_assoc. f_equal. apply Z.land_comm.
Qed.

Lemma land_le_r a b : 0 <= a -> 0 <= b -> 0 <= Z.land a b <= b.
Proof.
  intros Ha Hb. split; [apply Z.land_nonneg; auto|].
  pose proof (Z.sub_land_same_l b a) as E.
  assert (0 <= Z.land b (Z.lnot a)).
  { rewrite <- Z.ldiff_land. apply Z.ldiff_nonneg. auto. }
  rewrite (Z.land_comm a b). lia.
Qed.

Lemma lor_bounds a b : 0 <= a -> 0 <= b -> a <= Z.lor a b <= a + b.
Proof.
  intros Ha Hb. pose proof (Z.add_lor_land a b). pose proof (land_le_r a b Ha Hb). lia.
Qed.

(** Clearing the low [j] bits. *)
Lemma land_opp_pow2 x j : 0 <= j -> Z.land x (- 2 ^ j) = x - x mod 2 ^ j.
Proof.
  intros Hj.
  replace (- 2 ^ j) with (Z.lnot (Z.ones j)) by (rewrite Z.ones_equiv; unfold Z.lnot; lia).
  rewrite <- Z.ldiff_land, Z.ldiff_ones_r by lia.
  rewrite Z.shiftr_div_pow2, Z.shiftl_mul_pow2 by lia.
  pose proof (Z.div_mod x (2 ^ j)). 
  assert (2 ^ j <> 0) by (apply Z.pow_nonzero; lia). lia.
Qed.

(** ** [leftmost_bit] *)

Lemma leftmost_bit_loop_log2 fuel : forall x i,
  0 <= x < 2 ^ Z.of_nat fuel -> (fuel <= 32)%nat -> 0 <= i -> i + Z.of_nat fuel < 2 ^ 32 ->
  leftmost_bit_loop fuel x i = i + Z.log2 x.
Proof.
  induction fuel as [|fuel IH]; intros x i Hx Hf Hi Hb.
  - simpl in *. assert (x = 0) by lia. subst. simpl. lia.
  - cbn [leftmost_bit_loop]. destruct (x >? 1) eqn:E.
    + apply Z.gtb_lt in E.
      assert (Hp : 2 ^ Z.of_nat (S fuel) = 2 * 2 ^ Z.of_nat fuel).
      { rewrite Nat2Z.inj_succ, Z.pow_succ_r; lia. }
      assert (2 ^ Z.of_nat fuel <= 2 ^ 32) by (apply Z.pow_le_mono_r; lia).
      rewrite Z.shiftr_div_pow2 by lia. change (2 ^ 1) with 2.
      assert (0 <= x / 2 < 2 ^ Z.of_nat fuel).
      { split; [apply Z.div_pos; lia|apply Z.div_lt_upper_bound; lia]. }
      rewrite !UINT32_small by lia.
      rewrite IH by lia.
      assert (Z.log2 x = Z.succ (Z.log2 (x / 2))).
      { rewrite <- Z.div2_div, Z.div2_spec, Z.log2_shiftr by lia.
        assert (1 <= Z.log2 x) by (apply (Z.log2_le_mono 2 x); lia). lia. }
      lia.
    + assert (x <= 1) by (destruct (Z.gtb_spec x 1); [discriminate|lia]).
      assert (Hx' : x = 0 \/ x = 1) by lia. destruct Hx' as [->| ->]; simpl; lia.
Qed.

(** The fuel of [leftmost_bit] is enough: it computes the position of the
    highest set bit of any 32-bit value. *)
Lemma leftmost_bit_fuel x : leftmost_bit x = Z.log2 (UINT32 x).
Proof.
  unfold leftmost_bit. rewrite leftmost_bit_loop_log2; try lia.
  change (Z.of_nat 32) with 32. apply UINT32_range.
Qed.

Lemma leftmost_bit_pow2 k : 0 <= k < 32 -> leftmost_bit (2 ^ k) = k.
Proof.
  intros Hk. rewrite leftmost_bit_fuel, UINT32_small.
  - apply Z.log2_pow2. lia.
  - split; [apply Z.pow_nonneg; lia|apply Z.pow_lt_mono_r; lia].
Qed.

(** ** Reconstruction of the hardware count

    The ring depth is a power of two, [DMA_BUFFER_COUNT = 2^k] with
    [k <= 15], so that the wrap increment [1UL << (k + 16)] fits the 32 bits
    of an [unsigned long]. *)

Section ReconcileProofs.
Context {H : driver_h}.
Variable k : Z.
Hypothesis Hk : 0 <= k <= 15.
Hypothesis HN : DMA_BUFFER_COUNT = 2 ^ k.

Lemma pow2_k_cases (P : Z -> Prop) :
  P 0 -> P 1 -> P 2 -> P 3 -> P 4 -> P 5 -> P 6 -> P 7 -> P 8 -> P 9 -> P 10 ->
  P 11 -> P 12 -> P 13 -> P 14 -> P 15 -> P k.
Proof.
  intros.
  assert (C : k = 0 \/ k = 1 \/ k = 2 \/ k = 3 \/ k = 4 \/ k = 5 \/ k = 6 \/ k = 7 \/
              k = 8 \/ k = 9 \/ k = 10 \/ k = 11 \/ k = 12 \/ k = 13 \/ k = 14 \/ k = 15)
    by lia.
  repeat (destruct C as [C|C]; [rewrite C; assumption|]). rewrite C; assumption.
Qed.

Lemma wrap_pos : 2 ^ 16 <= 2 ^ (k + 16) <= 2 ^ 31.
Proof. split; apply Z.pow_le_mono_r; lia. Qed.

Lemma hw_count_mask_pow2 : hw_count_mask = UINT64 (- 2 ^ (k + 16)).
Proof.
  unfold hw_count_mask. rewrite HN.
  apply (pow2_k_cases (fun k =>
    Z.land (UINT64 (INT32 (Z.shiftl (Z.lnot (INT32 (2 ^ k - 1))) 16))) 0xffffffffffff0000
    = UINT64 (- 2 ^ (k + 16)))); vm_compute; reflexivity.
Qed.

Lemma wrap_increment_pow2 : wrap_increment = 2 ^ (k + 16).
Proof.
  unfold wrap_increment. rewrite HN, leftmost_bit_pow2 by lia.
  pose proof wrap_pos.
  rewrite (UINT32_small (k + 16)) by lia.
  rewrite Z.shiftl_1_l, UINT32_small, INT64_small; lia.
Qed.

Lemma loop_status_count_range loop_status : 0 <= loop_status_count loop_status < 2 ^ 32.
Proof. apply UINT32_range. Qed.

(** Masking keeps the multiples of the wrap increment. *)
Lemma hw_count_masked hw :
  - 2 ^ 63 <= hw < 2 ^ 63 ->
  INT64 (Z.land (UINT64 hw) hw_count_mask) = hw - hw mod 2 ^ (k + 16).
Proof.
  intros Hhw. pose proof wrap_pos as Hw.
  rewrite hw_count_mask_pow2, UINT64_land, INT64_UINT64, land_opp_pow2 by lia.
  apply INT64_small.
  assert (0 < 2 ^ (k + 16)) by lia.
  pose proof (Z.mod_pos_bound hw (2 ^ (k + 16))).
  split; [|lia].
  assert (E : 2 ^ 63 = 2 ^ (k + 16) * 2 ^ (47 - k)).
  { rewrite <- Z.pow_add_r by lia. f_equal. lia. }
  assert (- 2 ^ (47 - k) <= hw / 2 ^ (k + 16)).
  { apply Z.div_le_lower_bound; lia. }
  pose proof (Z.div_mod hw (2 ^ (k + 16))). nia.
Qed.

(** One reconciliation from a consistent pair of counters: the count does
    not decrease, and it grows by less than [2^33]. *)
Lemma hw_count_update_step loop_status hw :
  0 <= hw -> hw + 2 ^ 33 <= 2 ^ 63 ->
  hw <= hw_count_update loop_status hw hw < hw + 2 ^ 33.
Proof.
  intros H0 Hb. pose proof wrap_pos as Hw.
  unfold hw_count_update, hw_count_merge.
  rewrite hw_count_masked, wrap_increment_pow2 by lia.
  pose proof (loop_status_count_range loop_status) as Hv.
  assert (0 < 2 ^ (k + 16)) by lia.
  pose proof (Z.mod_pos_bound hw (2 ^ (k + 16))).
  assert (Ha : 0 <= hw - hw mod 2 ^ (k + 16)).
  { pose proof (Z.div_mod hw (2 ^ (k + 16))).
    assert (0 <= hw / 2 ^ (k + 16)) by (apply Z.div_pos; lia). nia. }
  pose proof (lor_bounds (hw - hw mod 2 ^ (k + 16)) (loop_status_count loop_status) Ha
                (proj1 Hv)) as Hl.
  destruct (hw >? _) eqn:E.
  - rewrite INT64_small by lia. lia.
  - destruct (Z.gtb_spec hw (Z.lor (hw - hw mod 2 ^ (k + 16)) (loop_status_count loop_status)));
      [discriminate|lia].
Qed.

End ReconcileProofs.

Section MonotoneProofs.
Context {H : driver_h}.
Variable k : Z.
Hypothesis Hk : 0 <= k <= 15.
Hypothesis HN : DMA_BUFFER_COUNT = 2 ^ k.

Lemma reader_reconcile_seq_sorted raws : forall pChan,
  reader_hw_count_last (dma pChan) = reader_hw_count (dma pChan) ->
  0 <= reader_hw_count (dma pChan) ->
  reader_hw_count (dma pChan) + 2 ^ 33 * Z.of_nat (length raws) <= 2 ^ 63 ->
  Forall (Z.le (reader_hw_count (dma pChan))) (reader_reconcile_seq raws pChan)
  /\ StronglySorted Z.le (reader_reconcile_seq raws pChan).
Proof.
  induction raws as [|r raws IH]; intros pChan Hl H0 Hb; cbn [reader_reconcile_seq].
  - split; constructor.
  - cbn [length] in Hb. rewrite Nat2Z.inj_succ in Hb.
    cbn [reader_reconcile fst]. rewrite Hl.
    pose proof (hw_count_update_step k Hk HN r (reader_hw_count (dma pChan)) H0 ltac:(lia)) as S.
    set (hw' := hw_count_update r _ _) in *.
    set (pChan' := set_dma _ pChan).
    assert (E : reader_hw_count (dma pChan') = hw') by reflexivity.
    assert (E' : reader_hw_count_last (dma pChan') = hw') by reflexivity.
    destruct (IH pChan') as [F Srt]; rewrite ?E, ?E'; try lia.
    rewrite E in F.
    split.
    + constructor; [lia|]. eapply Forall_impl; [|exact F]. cbn. intros; lia.
    + constructor; assumption.
Qed.

Lemma writer_reconcile_seq_sorted raws : forall pChan,
  writer_hw_count_last (dma pChan) = writer_hw_count (dma pChan) ->
  0 <= writer_hw_count (dma pChan) ->
  writer_hw_count (dma pChan) + 2 ^ 33 * Z.of_nat (length raws) <= 2 ^ 63 ->
  Forall (Z.le (writer_hw_count (dma pChan))) (writer_reconcile_seq raws pChan)
  /\ StronglySorted Z.le (writer_reconcile_seq raws pChan).
Proof.
  induction raws as [|r raws IH]; intros pChan Hl H0 Hb; cbn [writer_reconcile_seq].
  - split; constructor.
  - cbn [length] in Hb. rewrite Nat2Z.inj_succ in Hb.
    cbn [writer_reconcile fst]. rewrite Hl.
    pose proof (hw_count_update_step k Hk HN r (writer_hw_count (dma pChan)) H0 ltac:(lia)) as S.
    set (hw' := hw_count_update r _ _) in *.
    set (pChan' := set_dma _ pChan).
    assert (E : writer_hw_count (dma pChan') = hw') by reflexivity.
    assert (E' : writer_hw_count_last (dma pChan') = hw') by reflexivity.
    destruct (IH pChan') as [F Srt]; rewrite ?E, ?E'; try lia.
    rewrite E in F.
    split.
    + constructor; [lia|]. eapply Forall_impl; [|exact F]. cbn. intros; lia.
    + constructor; assumption.
Qed.

(** C1. Along any sequence of reconciliations of one direction of a
    channel, started from a consistent counter pair
    ([hw_count_last = hw_count], as every start, stop and reconciliation
    leaves it) and short enough for the 64-bit counter not to overflow, the
    reconstructed [hw_count] never decreases, whatever the raw loop-status
    values are; this holds for the reader and for the writer direction. *)
Theorem reconcile_hw_count_monotone (pChan : LITEPCIE_CHAN) (raws : list Z) :
  reader_hw_count_last (dma pChan) = reader_hw_count (dma pChan) ->
  writer_hw_count_last (dma pChan) = writer_hw_count (dma pChan) ->
  0 <= reader_hw_count (dma pChan) ->
  0 <= writer_hw_count (dma pChan) ->
  reader_hw_count (dma pChan) + 2 ^ 33 * Z.of_nat (length raws) <= 2 ^ 63 ->
  writer_hw_count (dma pChan) + 2 ^ 33 * Z.of_nat (length raws) <= 2 ^ 63 ->
  StronglySorted Z.le (reader_hw_count (dma pChan) :: reader_reconcile_seq raws pChan)
  /\ StronglySorted Z.le (writer_hw_count (dma pChan) :: writer_reconcile_seq raws pChan).
Proof.
  intros Hr Hw Hr0 Hw0 Hrb Hwb.
  destruct (reader_reconcile_seq_sorted raws pChan Hr Hr0 Hrb).
  destruct (writer_reconcile_seq_sorted raws pChan Hw Hw0 Hwb).
  split; constructor; assumption.
Qed.

End MonotoneProofs.



(** ** Traces *)

Lemma completions_app t1 t2 : completions (t1 ++ t2) = completions t1 ++ completions t2.
Proof.
  induction t1 as [|e t1 IH]; [reflexivity|].
  destruct e; cbn; rewrite ?IH; reflexivity.
Qed.

Lemma bytes_copied_app t1 t2 : bytes_copied (t1 ++ t2) = bytes_copied t1 + bytes_copied t2.
Proof.
  induction t1 as [|e t1 IH]; [reflexivity|].
  destruct e; cbn; rewrite ?IH; lia.
Qed.

(** ** Two's complement counters *)

Lemma INT64_eqm x : exists q, INT64 x = x + q * 2 ^ 64.
Proof.
  unfold INT64. exists (- ((x + 2 ^ 63) / 2 ^ 64)).
  pose proof (Z.div_mod (x + 2 ^ 63) (2 ^ 64)). lia.
Qed.

Lemma INT64_sub_INT64_r a b : INT64 (a - INT64 b) = INT64 (a - b).
Proof.
  apply INT64_congr. unfold UINT64. destruct (INT64_eqm b) as [q ->].
  replace (a - (b + q * 2 ^ 64)) with (a - b + (- q) * 2 ^ 64) by ring.
  apply Z_mod_plus_full.
Qed.

Lemma INT64_sub_INT64_l a b : INT64 (INT64 a - b) = INT64 (a - b).
Proof.
  apply INT64_congr. unfold UINT64. destruct (INT64_eqm a) as [q ->].
  replace (a + q * 2 ^ 64 - b) with (a - b + q * 2 ^ 64) by ring.
  apply Z_mod_plus_full.
Qed.

(** Consuming one slot lowers the available count by one, whatever the
    counters hold. *)
Lemma available_after_consume hw sw :
  0 < INT64 (hw - sw) -> INT64 (hw - INT64 (sw + 1)) = INT64 (hw - sw) - 1.
Proof.
  intros Hp. rewrite INT64_sub_INT64_r.
  replace (hw - (sw + 1)) with (hw - sw - 1) by ring.
  rewrite <- INT64_sub_INT64_l. apply INT64_small.
  pose proof (INT64_range (hw - sw)). lia.
Qed.

(** ** Record bookkeeping *)

Lemma set_dma_eta c : set_dma (dma c) c = c.
Proof. destruct c; reflexivity. Qed.

Lemma set_writer_sw_count_eta d : set_writer_sw_count (writer_sw_count d) d = d.
Proof. destruct d; reflexivity. Qed.

Lemma set_reader_sw_count_eta d : set_reader_sw_count (reader_sw_count d) d = d.
Proof. destruct d; reflexivity. Qed.

Section ChannelProofs.
Context {H : driver_h} {W : wdf_request_memory}.

(** ** The loop of [litepciedrv_ChannelRead] *)

(** The fuel [ChannelRead_fuel] is enough: the loop is always left. *)
Lemma ChannelRead_loop_total fuel : forall channel outBuf length bytesRead overflows,
  (Z.to_nat (INT64 (writer_hw_count (dma channel) - writer_sw_count (dma channel))) < fuel)%nat ->
  exists r, ChannelRead_loop fuel channel outBuf length bytesRead overflows = Some r.
Proof.
  induction fuel as [|fuel IH]; intros channel outBuf length bytesRead overflows Hf; [lia|].
  cbn [ChannelRead_loop].
  destruct (negb (bytesRead <? length)); [eauto|].
  destruct (SIZE_T (length - bytesRead) <? SIZE_T DMA_BUFFER_SIZE); [eauto|].
  destruct (INT64 (writer_hw_count (dma channel) - writer_sw_count (dma channel)) >? 0) eqn:E;
    [|eauto].
  apply Z.gtb_lt in E.
  match goal with
  | |- context [ChannelRead_loop fuel ?c ?m ?l ?b ?o] =>
      destruct (IH c m l b o) as [r ->]; [|destruct r as [[[c' b'] o'] tr']; eauto]
  end.
  cbn. rewrite available_after_consume by assumption. lia.
Qed.

(** The loop completes no request and changes nothing but
    [writer_sw_count]. *)
Lemma ChannelRead_loop_frame fuel : forall channel outBuf length bytesRead overflows c b o tr,
  ChannelRead_loop fuel channel outBuf length bytesRead overflows = Some (c, b, o, tr) ->
  completions tr = []
  /\ exists sw, c = set_dma (set_writer_sw_count sw (dma channel)) channel.
Proof.
  induction fuel as [|fuel IH]; intros channel outBuf length bytesRead overflows c b o tr;
    [discriminate|].
  cbn [ChannelRead_loop].
  assert (Hid : channel =
                set_dma (set_writer_sw_count (writer_sw_count (dma channel)) (dma channel)) channel)
    by (rewrite set_writer_sw_count_eta, set_dma_eta; reflexivity).
  destruct (negb (bytesRead <? length)).
  { intros [= <- <- <- <-]. split; [reflexivity|eauto]. }
  destruct (SIZE_T (length - bytesRead) <? SIZE_T DMA_BUFFER_SIZE).
  { intros [= <- <- <- <-]. split; [reflexivity|eauto]. }
  destruct (INT64 (writer_hw_count (dma channel) - writer_sw_count (dma channel)) >? 0).
  2:{ intros [= <- <- <- <-]. split; [reflexivity|eauto]. }
  loop_call ChannelRead_loop fuel E.
  intros [= <- <- <- <-].
  apply IH in E. destruct E as [Ec [sw ->]].
  split; [cbn; exact Ec|]. exists sw. reflexivity.
Qed.

(** With a positive buffer size and a length that fits [SIZE_T], the loop
    moves whole buffers: [bytesRead] grows by exactly the bytes copied, in
    multiples of [DMA_BUFFER_SIZE], and never beyond [length]. *)
Lemma ChannelRead_loop_bytes fuel : forall channel outBuf length bytesRead overflows c b o tr,
  0 < DMA_BUFFER_SIZE < 2 ^ 31 ->
  0 <= bytesRead <= length -> length < 2 ^ 64 ->
  ChannelRead_loop fuel channel outBuf length bytesRead overflows = Some (c, b, o, tr) ->
  bytesRead <= b <= length
  /\ bytes_copied tr = b - bytesRead
  /\ exists n, 0 <= n /\ b - bytesRead = n * DMA_BUFFER_SIZE
               /\ Z.of_nat (List.length (copied_buffers tr)) = n.
Proof.
  induction fuel as [|fuel IH]; intros channel outBuf length bytesRead overflows c b o tr
    Hs Hb Hl; [discriminate|].
  cbn [ChannelRead_loop].
  assert (Hstop : bytesRead <= bytesRead <= length /\ bytes_copied [] = bytesRead - bytesRead
                  /\ exists n, 0 <= n /\ bytesRead - bytesRead = n * DMA_BUFFER_SIZE
                               /\ Z.of_nat (List.length (copied_buffers [])) = n).
  { repeat split; cbn; try lia. exists 0. cbn. lia. }
  destruct (negb (bytesRead <? length)).
  { intros [= <- <- <- <-]. exact Hstop. }
  unfold SIZE_T. rewrite (UINT64_small (length - bytesRead)), (UINT64_small DMA_BUFFER_SIZE) by lia.
  destruct (Z.ltb_spec (length - bytesRead) DMA_BUFFER_SIZE).
  { intros [= <- <- <- <-]. exact Hstop. }
  destruct (INT64 (writer_hw_count (dma channel) - writer_sw_count (dma channel)) >? 0).
  2:{ intros [= <- <- <- <-]. repeat split; cbn; try lia. exists 0. cbn. lia. }
  rewrite (UINT64_small (bytesRead + DMA_BUFFER_SIZE)) by lia.
  loop_call ChannelRead_loop fuel E.
  intros [= <- <- <- <-].
  apply IH in E; try lia. destruct E as [Hb' [Hc [n [Hn [Hm Hlen]]]]].
  split; [lia|]. split; [cbn; lia|].
  exists (n + 1). split; [lia|]. split; [lia|].
  cbn [app copied_buffers List.length]. lia.
Qed.

(** From counters with [0 <= sw_count <= hw_count] the loop leaves
    [hw_count] alone and advances [sw_count] by the number of buffers
    copied, never past [hw_count]. *)
Lemma ChannelRead_loop_counts fuel : forall channel outBuf length bytesRead overflows c b o tr,
  0 <= writer_sw_count (dma channel) <= writer_hw_count (dma channel) ->
  writer_hw_count (dma channel) < 2 ^ 63 ->
  ChannelRead_loop fuel channel outBuf length bytesRead overflows = Some (c, b, o, tr) ->
  writer_sw_count (dma c)
    = writer_sw_count (dma channel) + Z.of_nat (List.length (copied_buffers tr))
  /\ writer_sw_count (dma c) <= writer_hw_count (dma channel).
Proof.
  induction fuel as [|fuel IH]; intros channel outBuf length bytesRead overflows c b o tr
    Hc Hh; [discriminate|].
  cbn [ChannelRead_loop].
  destruct (negb (bytesRead <? length)).
  { intros [= <- <- <- <-]. cbn. lia. }
  destruct (SIZE_T (length - bytesRead) <? SIZE_T DMA_BUFFER_SIZE).
  { intros [= <- <- <- <-]. cbn. lia. }
  rewrite (INT64_small (writer_hw_count (dma channel) - writer_sw_count (dma channel))) by lia.
  destruct (Z.gtb_spec (writer_hw_count (dma channel) - writer_sw_count (dma channel)) 0).
  2:{ intros [= <- <- <- <-]. cbn. lia. }
  rewrite (INT64_small (writer_sw_count (dma channel) + 1)) by lia.
  loop_call ChannelRead_loop fuel E.
  intros [= <- <- <- <-].
  apply IH in E; cbn in *; lia.
Qed.

(** ** The loop of [litepciedrv_ChannelWrite] *)

(** The fuel [ChannelWrite_fuel] is enough: the loop is always left. *)
Lemma ChannelWrite_loop_total fuel : forall channel inBuf length bytesWritten overflows,
  (Z.to_nat (INT64 (reader_hw_count (dma channel) - reader_sw_count (dma channel))) < fuel)%nat ->
  exists r, ChannelWrite_loop fuel channel inBuf length bytesWritten overflows = Some r.
Proof.
  induction fuel as [|fuel IH]; intros channel inBuf length bytesWritten overflows Hf; [lia|].
  cbn [ChannelWrite_loop].
  destruct (negb (bytesWritten <? length)); [eauto|].
  destruct (SIZE_T (length - bytesWritten) <? SIZE_T DMA_BUFFER_SIZE); [eauto|].
  destruct (INT64 (reader_hw_count (dma channel) - reader_sw_count (dma channel)) >? 0) eqn:E;
    [|eauto].
  apply Z.gtb_lt in E.
  match goal with
  | |- context [ChannelWrite_loop fuel ?c ?m ?l ?b ?o] =>
      destruct (IH c m l b o) as [r ->]; [|destruct r as [[[c' b'] o'] tr']; eauto]
  end.
  cbn. rewrite available_after_consume by assumption. lia.
Qed.

(** The loop completes no request and changes nothing but
    [reader_sw_count]. *)
Lemma ChannelWrite_loop_frame fuel : forall channel inBuf length bytesWritten overflows c b o tr,
  ChannelWrite_loop fuel channel inBuf length bytesWritten overflows = Some (c, b, o, tr) ->
  completions tr = []
  /\ exists sw, c = set_dma (set_reader_sw_count sw (dma channel)) channel.
Proof.
  induction fuel as [|fuel IH]; intros channel inBuf length bytesWritten overflows c b o tr;
    [discriminate|].
  cbn [ChannelWrite_loop].
  assert (Hid : channel =
                set_dma (set_reader_sw_count (reader_sw_count (dma channel)) (dma channel)) channel)
    by (rewrite set_reader_sw_count_eta, set_dma_eta; reflexivity).
  destruct (negb (bytesWritten <? length)).
  { intros [= <- <- <- <-]. split; [reflexivity|eauto]. }
  destruct (SIZE_T (length - bytesWritten) <? SIZE_T DMA_BUFFER_SIZE).
  { intros [= <- <- <- <-]. split; [reflexivity|eauto]. }
  destruct (INT64 (reader_hw_count (dma channel) - reader_sw_count (dma channel)) >? 0).
  2:{ intros [= <- <- <- <-]. split; [reflexivity|eauto]. }
  loop_call ChannelWrite_loop fuel E.
  intros [= <- <- <- <-].
  apply IH in E. destruct E as [Ec [sw ->]].
  split; [cbn; exact Ec|]. exists sw. reflexivity.
Qed.

(** With a positive buffer size and a length that fits [SIZE_T], the loop
    moves whole buffers: [bytesWritten] grows by exactly the bytes copied, in
    multiples of [DMA_BUFFER_SIZE], and never beyond [length]. *)
Lemma ChannelWrite_loop_bytes fuel : forall channel inBuf length bytesWritten overflows c b o tr,
  0 < DMA_BUFFER_SIZE < 2 ^ 31 ->
  0 <= bytesWritten <= length -> length < 2 ^ 64 ->
  ChannelWrite_loop fuel channel inBuf length bytesWritten overflows = Some (c, b, o, tr) ->
  bytesWritten <= b <= length
  /\ bytes_copied tr = b - bytesWritten
  /\ exists n, 0 <= n /\ b - bytesWritten = n * DMA_BUFFER_SIZE
               /\ Z.of_nat (List.length (copied_buffers tr)) = n.
Proof.
  induction fuel as [|fuel IH]; intros channel inBuf length bytesWritten overflows c b o tr
    Hs Hb Hl; [discriminate|].
  cbn [ChannelWrite_loop].
  assert (Hstop : bytesWritten <= bytesWritten <= length /\ bytes_copied [] = bytesWritten - bytesWritten
                  /\ exists n, 0 <= n /\ bytesWritten - bytesWritten = n * DMA_BUFFER_SIZE
                               /\ Z.of_nat (List.length (copied_buffers [])) = n).
  { repeat split; cbn; try lia. exists 0. cbn. lia. }
  destruct (negb (bytesWritten <? length)).
  { intros [= <- <- <- <-]. exact Hstop. }
  unfold SIZE_T. rewrite (UINT64_small (length - bytesWritten)), (UINT64_small DMA_BUFFER_SIZE) by lia.
  destruct (Z.ltb_spec (length - bytesWritten) DMA_BUFFER_SIZE).
  { intros [= <- <- <- <-]. exact Hstop. }
  destruct (INT64 (reader_hw_count (dma channel) - reader_sw_count (dma channel)) >? 0).
  2:{ intros [= <- <- <- <-]. repeat split; cbn; try lia. exists 0. cbn. lia. }
  rewrite (UINT64_small (bytesWritten + DMA_BUFFER_SIZE)) by lia.
  loop_call ChannelWrite_loop fuel E.
  intros [= <- <- <- <-].
  apply IH in E; try lia. destruct E as [Hb' [Hc [n [Hn [Hm Hlen]]]]].
  split; [lia|]. split; [cbn; lia|].
  exists (n + 1). split; [lia|]. split; [lia|].
  cbn [app copied_buffers List.length]. lia.
Qed.

(** From counters with [0 <= sw_count <= hw_count] the loop leaves
    [hw_count] alone and advances [sw_count] by the number of buffers
    copied, never past [hw_count]. *)
Lemma ChannelWrite_loop_counts fuel : forall channel inBuf length bytesWritten overflows c b o tr,
  0 <= reader_sw_count (dma channel) <= reader_hw_count (dma channel) ->
  reader_hw_count (dma channel) < 2 ^ 63 ->
  ChannelWrite_loop fuel channel inBuf length bytesWritten overflows = Some (c, b, o, tr) ->
  reader_sw_count (dma c)
    = reader_sw_count (dma channel) + Z.of_nat (List.length (copied_buffers tr))
  /\ reader_sw_count (dma c) <= reader_hw_count (dma channel).
Proof.
  induction fuel as [|fuel IH]; intros channel inBuf length bytesWritten overflows c b o tr
    Hc Hh; [discriminate|].
  cbn [ChannelWrite_loop].
  destruct (negb (bytesWritten <? length)).
  { intros [= <- <- <- <-]. cbn. lia. }
  destruct (SIZE_T (length - bytesWritten) <? SIZE_T DMA_BUFFER_SIZE).
  { intros [= <- <- <- <-]. cbn. lia. }
  rewrite (INT64_small (reader_hw_count (dma channel) - reader_sw_count (dma channel))) by lia.
  destruct (Z.gtb_spec (reader_hw_count (dma channel) - reader_sw_count (dma channel)) 0).
  2:{ intros [= <- <- <- <-]. cbn. lia. }
  rewrite (INT64_small (reader_sw_count (dma channel) + 1)) by lia.
  loop_call ChannelWrite_loop fuel E.
  intros [= <- <- <- <-].
  apply IH in E; cbn in *; lia.
Qed.

End ChannelProofs.

Section FulfillmentProofs.
Context {H : driver_h} {W : wdf_request_memory}.

(** [litepciedrv_ChannelRead] always returns. *)
Lemma ChannelRead_total channel request length :
  exists r, litepciedrv_ChannelRead channel request length = Some r.
Proof.
  unfold litepciedrv_ChannelRead.
  destruct (WdfRequestRetrieveOutputMemory request) as [status outBuf].
  destruct (negb (NT_SUCCESS status)); [eauto|].
  destruct (ChannelRead_loop_total (ChannelRead_fuel channel) channel outBuf length 0 0)
    as [[[[c b] o] tr] ->]; [unfold ChannelRead_fuel; lia|].
  destruct (b >? 0); eauto.
Qed.

(** What a read pass with a retrievable memory object does: it copies a
    whole number of buffers, at most [length] bytes; when it copied
    something it completes the request with that byte count and clears the
    parked state, otherwise it parks the request with the full length. *)
Lemma ChannelRead_spec channel request length :
  0 < DMA_BUFFER_SIZE < 2 ^ 31 -> 0 <= length < 2 ^ 64 ->
  NT_SUCCESS (fst (WdfRequestRetrieveOutputMemory request)) = true ->
  exists channel' tr,
    litepciedrv_ChannelRead channel request length = Some (channel', tr)
    /\ 0 <= bytes_copied tr <= length
    /\ (0 < bytes_copied tr ->
        completions tr = [(request, STATUS_SUCCESS, bytes_copied tr)]
        /\ readRequest (dma channel') = None
        /\ readRemainingBytes (dma channel') = 0)
    /\ (bytes_copied tr = 0 ->
        completions tr = []
        /\ readRequest (dma channel') = Some request
        /\ readRemainingBytes (dma channel') = length).
Proof.
  intros Hs Hl Hok. unfold litepciedrv_ChannelRead.
  destruct (WdfRequestRetrieveOutputMemory request) as [status outBuf]. cbn in Hok.
  rewrite Hok. cbn [negb].
  destruct (ChannelRead_loop_total (ChannelRead_fuel channel) channel outBuf length 0 0)
    as [[[[c b] o] tr] E]; [unfold ChannelRead_fuel; lia|].
  rewrite E.
  destruct (ChannelRead_loop_frame _ _ _ _ _ _ _ _ _ _ E) as [Hc _].
  destruct (ChannelRead_loop_bytes (ChannelRead_fuel channel) channel outBuf length 0 0
              c b o tr Hs) as [Hb [Hn _]]; [lia|lia|exact E|].
  rewrite Z.sub_0_r in Hn.
  assert (Hr : forall r : list event,
             r = (if o >? 0 then [TraceOverflow o] else []) ->
             completions r = [] /\ bytes_copied r = 0).
  { intros r ->. destruct (o >? 0); split; reflexivity. }
  destruct (Hr _ eq_refl) as [Hr1 Hr2].
  destruct (Z.gtb_spec b 0) as [Hpos|Hzero].
  - do 2 eexists. split; [reflexivity|].
    rewrite !bytes_copied_app, !completions_app, Hr1, Hr2, Hc, Hn. cbn.
    split; [lia|]. split; [intros _; rewrite Z.add_0_r; auto|lia].
  - do 2 eexists. split; [reflexivity|].
    rewrite !bytes_copied_app, !completions_app, Hr1, Hr2, Hc, Hn. cbn.
    split; [lia|]. split; [lia|]. intros _.
    assert (Hb0 : b = 0) by lia. rewrite Hb0.
    unfold SIZE_T. rewrite Z.sub_0_r, UINT64_small by lia.
    auto.
Qed.

(** A read of fewer bytes than one buffer, with a retrievable memory
    object: nothing is copied, no counter moves, the request is parked with
    its full length. *)
Lemma ChannelRead_short channel request length :
  0 < DMA_BUFFER_SIZE < 2 ^ 31 -> 0 <= length < DMA_BUFFER_SIZE ->
  NT_SUCCESS (fst (WdfRequestRetrieveOutputMemory request)) = true ->
  litepciedrv_ChannelRead channel request length
  = Some (set_dma (set_readRemainingBytes length
                     (set_readRequest (Some request) (dma channel))) channel, []).
Proof.
  intros Hs Hl Hok. unfold litepciedrv_ChannelRead, ChannelRead_fuel.
  destruct (WdfRequestRetrieveOutputMemory request) as [status outBuf]. cbn in Hok.
  rewrite Hok. cbn [negb ChannelRead_loop].
  unfold SIZE_T. rewrite Z.sub_0_r, !UINT64_small by lia.
  destruct (0 <? length); cbn [negb].
  - destruct (Z.ltb_spec length DMA_BUFFER_SIZE); [|lia].
    change (0 >? 0) with false. cbv iota. cbn [app].
    rewrite Z.sub_0_r, UINT64_small by lia. reflexivity.
  - change (0 >? 0) with false. cbv iota. cbn [app].
    rewrite Z.sub_0_r, UINT64_small by lia. reflexivity.
Qed.

(** The same request in an interrupt pass: the writer half of the deferred
    handler finds it parked, tries again and leaves it parked. *)
Lemma dpc_writer_short mmio irq_vector pChan clear_mask request :
  0 < DMA_BUFFER_SIZE < 2 ^ 31 ->
  readRequest (dma pChan) = Some request ->
  0 <= readRemainingBytes (dma pChan) < DMA_BUFFER_SIZE ->
  NT_SUCCESS (fst (WdfRequestRetrieveOutputMemory request)) = true ->
  exists pChan' clear_mask' tr,
    dpc_writer mmio irq_vector pChan clear_mask = Some (pChan', clear_mask', tr)
    /\ completions tr = [] /\ bytes_copied tr = 0
    /\ readRequest (dma pChan') = Some request
    /\ readRemainingBytes (dma pChan') = readRemainingBytes (dma pChan).
Proof.
  intros Hs Hr Hl Hok. unfold dpc_writer.
  destruct (negb _); [|do 3 eexists; split; [reflexivity|cbn; auto]].
  cbn [writer_reconcile]. cbn [readRequest readRemainingBytes dma set_dma
    set_writer_hw_count set_writer_hw_count_last]. rewrite Hr.
  rewrite ChannelRead_short by (cbn; auto).
  do 3 eexists. split; [reflexivity|].
  rewrite completions_app, bytes_copied_app. cbn [readRequest readRemainingBytes dma set_dma
    set_readRemainingBytes set_readRequest].
  unfold reconcile_events. destruct (_ >? _); cbn; auto.
Qed.

(** [litepciedrv_ChannelWrite] always returns. *)
Lemma ChannelWrite_total channel request length :
  exists r, litepciedrv_ChannelWrite channel request length = Some r.
Proof.
  unfold litepciedrv_ChannelWrite.
  destruct (WdfRequestRetrieveInputMemory request) as [status inBuf].
  destruct (negb (NT_SUCCESS status)); [eauto|].
  destruct (ChannelWrite_loop_total (ChannelWrite_fuel channel) channel inBuf length 0 0)
    as [[[[c b] o] tr] ->]; [unfold ChannelWrite_fuel; lia|].
  destruct (b >? 0); eauto.
Qed.

(** What a write pass with a retrievable memory object does: it copies a
    whole number of buffers, at most [length] bytes; when it copied
    something it completes the request with that byte count and clears the
    parked state, otherwise it parks the request with the full length. *)
Lemma ChannelWrite_spec channel request length :
  0 < DMA_BUFFER_SIZE < 2 ^ 31 -> 0 <= length < 2 ^ 64 ->
  NT_SUCCESS (fst (WdfRequestRetrieveInputMemory request)) = true ->
  exists channel' tr,
    litepciedrv_ChannelWrite channel request length = Some (channel', tr)
    /\ 0 <= bytes_copied tr <= length
    /\ (0 < bytes_copied tr ->
        completions tr = [(request, STATUS_SUCCESS, bytes_copied tr)]
        /\ writeRequest (dma channel') = None
        /\ writeRemainingBytes (dma channel') = 0)
    /\ (bytes_copied tr = 0 ->
        completions tr = []
        /\ writeRequest (dma channel') = Some request
        /\ writeRemainingBytes (dma channel') = length).
Proof.
  intros Hs Hl Hok. unfold litepciedrv_ChannelWrite.
  destruct (WdfRequestRetrieveInputMemory request) as [status inBuf]. cbn in Hok.
  rewrite Hok. cbn [negb].
  destruct (ChannelWrite_loop_total (ChannelWrite_fuel channel) channel inBuf length 0 0)
    as [[[[c b] o] tr] E]; [unfold ChannelWrite_fuel; lia|].
  rewrite E.
  destruct (ChannelWrite_loop_frame _ _ _ _ _ _ _ _ _ _ E) as [Hc _].
  destruct (ChannelWrite_loop_bytes (ChannelWrite_fuel channel) channel inBuf length 0 0
              c b o tr Hs) as [Hb [Hn _]]; [lia|lia|exact E|].
  rewrite Z.sub_0_r in Hn.
  assert (Hr : forall r : list event,
             r = (if o >? 0 then [TraceOverflow o] else []) ->
             completions r = [] /\ bytes_copied r = 0).
  { intros r ->. destruct (o >? 0); split; reflexivity. }
  destruct (Hr _ eq_refl) as [Hr1 Hr2].
  destruct (Z.gtb_spec b 0) as [Hpos|Hzero].
  - do 2 eexists. split; [reflexivity|].
    rewrite !bytes_copied_app, !completions_app, Hr1, Hr2, Hc, Hn. cbn.
    split; [lia|]. split; [intros _; rewrite Z.add_0_r; auto|lia].
  - do 2 eexists. split; [reflexivity|].
    rewrite !bytes_copied_app, !completions_app, Hr1, Hr2, Hc, Hn. cbn.
    split; [lia|]. split; [lia|]. intros _.
    assert (Hb0 : b = 0) by lia. rewrite Hb0.
    unfold SIZE_T. rewrite Z.sub_0_r, UINT64_small by lia.
    auto.
Qed.

(** A write of fewer bytes than one buffer, with a retrievable memory
    object: nothing is copied, no counter moves, the request is parked with
    its full length. *)
Lemma ChannelWrite_short channel request length :
  0 < DMA_BUFFER_SIZE < 2 ^ 31 -> 0 <= length < DMA_BUFFER_SIZE ->
  NT_SUCCESS (fst (WdfRequestRetrieveInputMemory request)) = true ->
  litepciedrv_ChannelWrite channel request length
  = Some (set_dma (set_writeRemainingBytes length
                     (set_writeRequest (Some request) (dma channel))) channel, []).
Proof.
  intros Hs Hl Hok. unfold litepciedrv_ChannelWrite, ChannelWrite_fuel.
  destruct (WdfRequestRetrieveInputMemory request) as [status inBuf]. cbn in Hok.
  rewrite Hok. cbn [negb ChannelWrite_loop].
  unfold SIZE_T. rewrite Z.sub_0_r, !UINT64_small by lia.
  destruct (0 <? length); cbn [negb].
  - destruct (Z.ltb_spec length DMA_BUFFER_SIZE); [|lia].
    change (0 >? 0) with false. cbv iota. cbn [app].
    rewrite Z.sub_0_r, UINT64_small by lia. reflexivity.
  - change (0 >? 0) with false. cbv iota. cbn [app].
    rewrite Z.sub_0_r, UINT64_small by lia. reflexivity.
Qed.

(** The same request in an interrupt pass: the reader half of the deferred
    handler finds it parked, tries again and leaves it parked. *)
Lemma dpc_reader_short mmio irq_vector pChan clear_mask request :
  0 < DMA_BUFFER_SIZE < 2 ^ 31 ->
  writeRequest (dma pChan) = Some request ->
  0 <= writeRemainingBytes (dma pChan) < DMA_BUFFER_SIZE ->
  NT_SUCCESS (fst (WdfRequestRetrieveInputMemory request)) = true ->
  exists pChan' clear_mask' tr,
    dpc_reader mmio irq_vector pChan clear_mask = Some (pChan', clear_mask', tr)
    /\ completions tr = [] /\ bytes_copied tr = 0
    /\ writeRequest (dma pChan') = Some request
    /\ writeRemainingBytes (dma pChan') = writeRemainingBytes (dma pChan).
Proof.
  intros Hs Hr Hl Hok. unfold dpc_reader.
  destruct (negb _); [|do 3 eexists; split; [reflexivity|cbn; auto]].
  cbn [reader_reconcile]. cbn [writeRequest writeRemainingBytes dma set_dma
    set_reader_hw_count set_reader_hw_count_last]. rewrite Hr.
  rewrite ChannelWrite_short by (cbn; auto).
  do 3 eexists. split; [reflexivity|].
  rewrite completions_app, bytes_copied_app. cbn [writeRequest writeRemainingBytes dma set_dma
    set_writeRemainingBytes set_writeRequest].
  unfold reconcile_events. destruct (_ >? _); cbn; auto.
Qed.

End FulfillmentProofs.

(** ** The counter invariant along operations *)

Lemma Forall_store_chan (P : LITEPCIE_CHAN -> Prop) l : forall i c,
  Forall P l -> P c -> Forall P (store_chan l i c).
Proof.
  induction l as [|x l IH]; intros i c Hl Hc; [constructor|].
  inversion Hl; subst. destruct i; cbn; constructor; auto.
Qed.

Lemma counters_ok_weaken B B' c : counters_ok B c -> B <= B' -> counters_ok B' c.
Proof. unfold counters_ok. cbn. lia. Qed.

Section InvariantProofs.
Context {H : driver_h} {W : wdf_request_memory}.
Variable k : Z.
Hypothesis Hk : 0 <= k <= 15.
Hypothesis HN : DMA_BUFFER_COUNT = 2 ^ k.

Lemma ChannelRead_counters_ok B c request length c' tr :
  counters_ok B c -> B <= 2 ^ 63 ->
  litepciedrv_ChannelRead c request length = Some (c', tr) ->
  counters_ok B c'.
Proof.
  intros Hc HB. unfold litepciedrv_ChannelRead.
  destruct (WdfRequestRetrieveOutputMemory request) as [status outBuf].
  destruct (negb (NT_SUCCESS status)); [intros [= <- <-]; exact Hc|].
  destruct (ChannelRead_loop _ _ _ _ _ _) as [[[[c1 b] o] tr1]|] eqn:E; [|discriminate].
  destruct (ChannelRead_loop_frame _ _ _ _ _ _ _ _ _ _ E) as [_ [sw E1]].
  unfold counters_ok in Hc. cbn in Hc.
  destruct (ChannelRead_loop_counts _ _ _ _ _ _ _ _ _ _ (proj1 (proj2 Hc))
              ltac:(lia) E) as [E2 E3].
  subst c1. cbn in E2, E3.
  destruct (b >? 0); intros [= <- <-]; unfold counters_ok; cbn; lia.
Qed.

Lemma ChannelWrite_counters_ok B c request length c' tr :
  counters_ok B c -> B <= 2 ^ 63 ->
  litepciedrv_ChannelWrite c request length = Some (c', tr) ->
  counters_ok B c'.
Proof.
  intros Hc HB. unfold litepciedrv_ChannelWrite.
  destruct (WdfRequestRetrieveInputMemory request) as [status inBuf].
  destruct (negb (NT_SUCCESS status)); [intros [= <- <-]; exact Hc|].
  destruct (ChannelWrite_loop _ _ _ _ _ _) as [[[[c1 b] o] tr1]|] eqn:E; [|discriminate].
  destruct (ChannelWrite_loop_frame _ _ _ _ _ _ _ _ _ _ E) as [_ [sw E1]].
  unfold counters_ok in Hc. cbn in Hc.
  destruct (ChannelWrite_loop_counts _ _ _ _ _ _ _ _ _ _ (proj1 (proj1 Hc))
              ltac:(lia) E) as [E2 E3].
  subst c1. cbn in E2, E3.
  destruct (b >? 0); intros [= <- <-]; unfold counters_ok; cbn; lia.
Qed.

Lemma reader_reconcile_counters_ok B loop_status c :
  counters_ok B c -> B + 2 ^ 33 <= 2 ^ 63 ->
  counters_ok (B + 2 ^ 33) (fst (reader_reconcile loop_status c)).
Proof.
  intros Hc HB. unfold counters_ok in *. cbn in *.
  destruct Hc as [[Hs [Hb ->]] Hw].
  pose proof (hw_count_update_step k Hk HN loop_status (reader_hw_count (dma c))
                ltac:(lia) ltac:(lia)).
  lia.
Qed.

Lemma writer_reconcile_counters_ok B loop_status c :
  counters_ok B c -> B + 2 ^ 33 <= 2 ^ 63 ->
  counters_ok (B + 2 ^ 33) (fst (writer_reconcile loop_status c)).
Proof.
  intros Hc HB. unfold counters_ok in *. cbn in *.
  destruct Hc as [Hr [Hs [Hb ->]]].
  pose proof (hw_count_update_step k Hk HN loop_status (writer_hw_count (dma c))
                ltac:(lia) ltac:(lia)).
  lia.
Qed.

Lemma dpc_reader_counters_ok B mmio irq_vector c clear_mask c' clear_mask' tr :
  counters_ok B c -> B + 2 ^ 33 <= 2 ^ 63 ->
  dpc_reader mmio irq_vector c clear_mask = Some (c', clear_mask', tr) ->
  counters_ok (B + 2 ^ 33) c'.
Proof.
  intros Hc HB. unfold dpc_reader.
  destruct (negb _).
  2:{ intros [= <- <- <-]. apply (counters_ok_weaken B); [assumption|lia]. }
  pose proof (reader_reconcile_counters_ok B
    (litepciedrv_RegReadl mmio (base (dma c) + PCIE_DMA_READER_TABLE_LOOP_STATUS_OFFSET))
    c Hc HB) as Hr.
  destruct (reader_reconcile _ c) as [c1 tr1]. cbn [fst] in Hr.
  destruct (writeRequest (dma c1)) as [request|]; [|intros [= <- <- <-]; exact Hr].
  destruct (litepciedrv_ChannelWrite _ _ _) as [[c2 tr2]|] eqn:E; [|discriminate].
  intros [= <- <- <-]. eapply ChannelWrite_counters_ok; [exact Hr|lia|exact E].
Qed.

Lemma dpc_writer_counters_ok B mmio irq_vector c clear_mask c' clear_mask' tr :
  counters_ok B c -> B + 2 ^ 33 <= 2 ^ 63 ->
  dpc_writer mmio irq_vector c clear_mask = Some (c', clear_mask', tr) ->
  counters_ok (B + 2 ^ 33) c'.
Proof.
  intros Hc HB. unfold dpc_writer.
  destruct (negb _).
  2:{ intros [= <- <- <-]. apply (counters_ok_weaken B); [assumption|lia]. }
  pose proof (writer_reconcile_counters_ok B
    (litepciedrv_RegReadl mmio (base (dma c) + PCIE_DMA_WRITER_TABLE_LOOP_STATUS_OFFSET))
    c Hc HB) as Hr.
  destruct (writer_reconcile _ c) as [c1 tr1]. cbn [fst] in Hr.
  destruct (readRequest (dma c1)) as [request|]; [|intros [= <- <- <-]; exact Hr].
  destruct (litepciedrv_ChannelRead _ _ _) as [[c2 tr2]|] eqn:E; [|discriminate].
  intros [= <- <- <-]. eapply ChannelRead_counters_ok; [exact Hr|lia|exact E].
Qed.

Lemma dpc_channel_counters_ok B mmio irq_vector c clear_mask c' clear_mask' tr :
  counters_ok B c -> B + 2 ^ 34 <= 2 ^ 63 ->
  dpc_channel mmio irq_vector c clear_mask = Some (c', clear_mask', tr) ->
  counters_ok (B + 2 ^ 34) c'.
Proof.
  intros Hc HB. unfold dpc_channel.
  destruct (dpc_reader _ _ _ _) as [[[c1 m1] tr1]|] eqn:E1; [|discriminate].
  destruct (dpc_writer _ _ _ _) as [[[c2 m2] tr2]|] eqn:E2; [|discriminate].
  intros [= <- <- <-].
  apply dpc_reader_counters_ok with (B := B) in E1; [|assumption|lia].
  apply dpc_writer_counters_ok with (B := B + 2 ^ 33) in E2; [|assumption|lia].
  apply (counters_ok_weaken _ _ _ E2). lia.
Qed.

Lemma dpc_channels_counters_ok B mmio irq_vector chans : forall clear_mask chans' clear_mask' tr,
  Forall (counters_ok B) chans -> B + 2 ^ 34 <= 2 ^ 63 ->
  dpc_channels mmio irq_vector chans clear_mask = Some (chans', clear_mask', tr) ->
  Forall (counters_ok (B + 2 ^ 34)) chans'.
Proof.
  induction chans as [|c chans IH]; intros clear_mask chans' clear_mask' tr Hc HB;
    cbn [dpc_channels].
  - intros [= <- <- <-]. constructor.
  - inversion Hc; subst.
    destruct (dpc_channel _ _ _ _) as [[[c1 m1] tr1]|] eqn:E1; [|discriminate].
    destruct (dpc_channels _ _ _ _) as [[[r m2] tr2]|] eqn:E2; [|discriminate].
    intros [= <- <- <-]. constructor.
    + eapply dpc_channel_counters_ok; [eassumption|exact HB|exact E1].
    + eapply IH; [eassumption|exact HB|exact E2].
Qed.

Lemma EvtDpc_counters_ok B mmio dev dev' tr :
  Forall (counters_ok B) (chan dev) -> B + 2 ^ 34 <= 2 ^ 63 ->
  litepcie_EvtDpc mmio dev = Some (dev', tr) ->
  Forall (counters_ok (B + 2 ^ 34)) (chan dev').
Proof.
  intros Hc HB. unfold litepcie_EvtDpc.
  destruct (dpc_channels _ _ _ _) as [[[chans m] tr1]|] eqn:E; [|discriminate].
  intros [= <- <-]. cbn [chan set_chan set_irqs_pending].
  rewrite <- (firstn_skipn (Z.to_nat (channels dev)) (chan dev)) in Hc.
  apply Forall_app in Hc. destruct Hc as [Hf Hs].
  apply Forall_app. split.
  - eapply dpc_channels_counters_ok; [exact Hf|exact HB|exact E].
  - eapply Forall_impl; [|exact Hs]. intros c Hc. apply (counters_ok_weaken B); [assumption|lia].
Qed.

Lemma on_channel_counters_ok B dev index f dev' tr :
  (forall c c' tr, counters_ok B c -> f c = Some (c', tr) -> counters_ok B c') ->
  Forall (counters_ok B) (chan dev) ->
  on_channel dev index f = Some (dev', tr) ->
  Forall (counters_ok B) (chan dev').
Proof.
  intros Hf Hc. unfold on_channel.
  destruct (nth_error (chan dev) (Z.to_nat index)) as [c|] eqn:E.
  2:{ intros [= <- <-]. exact Hc. }
  destruct (f c) as [[c' tr']|] eqn:Ef; [|discriminate].
  intros [= <- <-]. cbn [chan set_chan].
  apply Forall_store_chan; [assumption|].
  eapply Hf; [|exact Ef]. apply nth_error_In in E.
  rewrite Forall_forall in Hc. auto.
Qed.

(** Start and stop of either direction clear the three counters of that
    direction of one channel and leave the other counters alone. *)
Lemma start_stop_counters_ok B dev index :
  0 < B -> Forall (counters_ok B) (chan dev) ->
  Forall (counters_ok B) (chan (fst (litepcie_dma_writer_start dev index)))
  /\ Forall (counters_ok B) (chan (fst (litepcie_dma_writer_stop dev index)))
  /\ Forall (counters_ok B) (chan (fst (litepcie_dma_reader_start dev index)))
  /\ Forall (counters_ok B) (chan (fst (litepcie_dma_reader_stop dev index))).
Proof.
  intros HB Hc.
  unfold litepcie_dma_writer_start, litepcie_dma_writer_stop,
    litepcie_dma_reader_start, litepcie_dma_reader_stop.
  destruct (nth_error (chan dev) (Z.to_nat index)) as [c|] eqn:E; cbn [fst chan set_chan];
    [|auto].
  assert (Hcc : counters_ok B c).
  { apply nth_error_In in E. rewrite Forall_forall in Hc. auto. }
  unfold counters_ok in Hcc. cbn in Hcc.
  repeat split; apply Forall_store_chan; try assumption; unfold counters_ok; cbn; lia.
Qed.

Lemma run_operation_counters_ok B op dev dev' tr :
  0 < B -> B + 2 ^ 34 <= 2 ^ 63 ->
  Forall (counters_ok B) (chan dev) ->
  run_operation op dev = Some (dev', tr) ->
  Forall (counters_ok (B + 2 ^ 34)) (chan dev').
Proof.
  intros H0 HB Hc Hrun.
  assert (Hw : Forall (counters_ok B) (chan dev') -> Forall (counters_ok (B + 2 ^ 34)) (chan dev')).
  { intros Hf. eapply Forall_impl; [|exact Hf].
    intros c Hcc. apply (counters_ok_weaken B); [assumption|lia]. }
  destruct op as [i|i|i|i|mmio|mmio|i request length|i request length]; cbn in Hrun.
  - returned_state Hrun.
    destruct (start_stop_counters_ok B dev i H0 Hc) as (A1 & A2 & A3 & A4). apply Hw, A1.
  - returned_state Hrun.
    destruct (start_stop_counters_ok B dev i H0 Hc) as (A1 & A2 & A3 & A4). apply Hw, A2.
  - returned_state Hrun.
    destruct (start_stop_counters_ok B dev i H0 Hc) as (A1 & A2 & A3 & A4). apply Hw, A3.
  - returned_state Hrun.
    destruct (start_stop_counters_ok B dev i H0 Hc) as (A1 & A2 & A3 & A4). apply Hw, A4.
  - unfold litepcie_EvtIsr in Hrun. destruct (negb _); injection Hrun as <- <-; apply Hw;
      exact Hc.
  - eapply EvtDpc_counters_ok; [exact Hc|exact HB|exact Hrun].
  - apply Hw. eapply on_channel_counters_ok; [|exact Hc|exact Hrun].
    intros c c' tr' Hcc E. eapply ChannelRead_counters_ok; [exact Hcc|lia|exact E].
  - apply Hw. eapply on_channel_counters_ok; [|exact Hc|exact Hrun].
    intros c c' tr' Hcc E. eapply ChannelWrite_counters_ok; [exact Hcc|lia|exact E].
Qed.

Lemma DeviceOpen_counters_ok B buffers :
  0 < B -> Forall (counters_ok B) (chan (DeviceOpen_context buffers)).
Proof.
  intros HB. cbn [chan DeviceOpen_context]. apply Forall_forall. intros c Hin.
  apply in_map_iff in Hin. destruct Hin as [i [<- _]].
  unfold DeviceOpen_chan. destruct (buffers i) as [[[a b] c] d].
  unfold counters_ok. cbn. lia.
Qed.

Lemma reachable_counters_ok n dev :
  reachable n dev -> Z.of_nat n < 2 ^ 29 ->
  Forall (counters_ok (2 ^ 34 * (Z.of_nat n + 1))) (chan dev).
Proof.
  induction 1 as [buffers|n dev op dev' tr Hr IH Hrun]; intros Hn.
  - apply DeviceOpen_counters_ok. lia.
  - rewrite Nat2Z.inj_succ in *.
    replace (2 ^ 34 * (Z.succ (Z.of_nat n) + 1)) with (2 ^ 34 * (Z.of_nat n + 1) + 2 ^ 34) by lia.
    eapply run_operation_counters_ok; [| |apply IH|exact Hrun]; lia.
Qed.

(** C3. In every context reached from the one [litepciedrv_DeviceOpen]
    leaves by ring starts and stops, interrupt passes and read and write
    requests (fewer than [2^29] of them, so that no 64-bit counter can
    overflow), every channel has [sw_count <= hw_count] in the reader and in
    the writer direction. *)
Theorem sw_count_le_hw_count n dev :
  reachable n dev -> Z.of_nat n < 2 ^ 29 ->
  forall c, In c (chan dev) ->
    reader_sw_count (dma c) <= reader_hw_count (dma c)
    /\ writer_sw_count (dma c) <= writer_hw_count (dma c).
Proof.
  intros Hr Hn c Hin.
  pose proof (reachable_counters_ok n dev Hr Hn) as Hf.
  rewrite Forall_forall in Hf. specialize (Hf c Hin).
  unfold counters_ok in Hf. cbn in Hf. lia.
Qed.

End InvariantProofs.

(** ** The reconciliation example with a ring of 1024 buffers *)

Lemma hw_count_update_1024 {H : driver_h} loop_status hw last :
  DMA_BUFFER_COUNT = 1024 ->
  hw_count_update loop_status hw last
  = @hw_count_update (sample_driver_h 1024 8192 8) loop_status hw last.
Proof.
  intros HN.
  unfold hw_count_update, hw_count_merge, hw_count_mask, loop_status_count, wrap_increment.
  rewrite HN. reflexivity.
Qed.

(** C2 (as amended). With [DMA_BUFFER_COUNT = 1024] and a counter pair at
    zero, reconciling the raw status (loop 2, index 5) yields
    [2*1024 + 5 = 2053]; reconciling (loop 0, index 10) next yields one wrap
    increment plus 10, that is [2^26 + 10]: the low bits of the first value
    are masked away, not added.  The second value exceeds the first. *)
Theorem reconcile_example_1024 {H : driver_h} (pChan : LITEPCIE_CHAN) :
  DMA_BUFFER_COUNT = 1024 ->
  writer_hw_count (dma pChan) = 0 ->
  writer_hw_count_last (dma pChan) = 0 ->
  wrap_increment = 2 ^ 26
  /\ writer_reconcile_seq [Z.lor (Z.shiftl 2 16) 5; Z.lor (Z.shiftl 0 16) 10] pChan
     = [2 * 1024 + 5; wrap_increment + 10]
  /\ 2 * 1024 + 5 < wrap_increment + 10.
Proof.
  intros HN Hhw Hlast.
  assert (Hw : wrap_increment = 2 ^ 26).
  { apply (wrap_increment_pow2 10); [lia|exact HN]. }
  rewrite Hw. split; [reflexivity|]. split; [|lia].
  cbn [writer_reconcile_seq writer_reconcile fst dma set_dma writer_hw_count
       writer_hw_count_last set_writer_hw_count set_writer_hw_count_last].
  rewrite Hhw, Hlast, !(@hw_count_update_1024 H) by exact HN.
  vm_compute. reflexivity.
Qed.

(** ** The top half of the interrupt *)

Lemma UINT32_lor a b : 0 <= a < 2 ^ 32 -> 0 <= b < 2 ^ 32 -> UINT32 (Z.lor a b) = Z.lor a b.
Proof.
  intros Ha Hb. unfold UINT32.
  rewrite <- Z.land_ones, Z.land_lor_distr_l, !Z.land_ones by lia.
  rewrite !Z.mod_small by lia. reflexivity.
Qed.

(** C7. When the interrupt-vector register reads zero, [litepcie_EvtIsr]
    answers [FALSE] and leaves the context, its pending mask included, as it
    is, writing no register.  When it reads a value [irqVec] other than
    zero, the handler ORs [irqVec] into the pending mask, writes [irqVec] to
    the clear register, queues the deferred pass and answers [TRUE]. *)
Theorem EvtIsr_handled_iff_vector {H : driver_h} (mmio : Z -> Z) (dev : DEVICE_CONTEXT) :
  0 <= irqs_pending dev < 2 ^ 32 ->
  let irqVec := litepciedrv_RegReadl mmio CSR_PCIE_MSI_VECTOR_ADDR in
  (irqVec = 0 -> litepcie_EvtIsr mmio dev = (dev, [], false))
  /\ (irqVec <> 0 ->
      exists dev',
        litepcie_EvtIsr mmio dev
        = (dev', [RegWritel (UINT32 CSR_PCIE_MSI_CLEAR_ADDR) irqVec; WdfInterruptQueueDpcForIsr],
           true)
        /\ irqs_pending dev' = Z.lor (irqs_pending dev) irqVec
        /\ chan dev' = chan dev
        /\ channels dev' = channels dev
        /\ irqs_requested dev' = irqs_requested dev).
Proof.
  intros Hp irqVec. unfold litepcie_EvtIsr. fold irqVec.
  assert (Hv : 0 <= irqVec < 2 ^ 32) by apply UINT32_range.
  split; intros Hz.
  - rewrite Hz. reflexivity.
  - destruct (Z.eqb_spec irqVec 0) as [E|_]; [contradiction|]. cbn [negb].
    eexists. split.
    + unfold litepciedrv_RegWritel. rewrite (UINT32_small irqVec) by assumption. reflexivity.
    + cbn [irqs_pending chan channels irqs_requested set_irqs_pending].
      rewrite UINT32_lor by assumption. auto.
Qed.

(** ** Descriptor addresses programmed by ring start *)

(** C6 (the code at a failing input). On a device with one channel and a
    ring of 8 buffers of 4096 bytes, whose write buffer lies at logical
    address [0x90000000] and whose read buffer at [0x80000000],
    [litepcie_dma_writer_start] writes the address of slot 0 into all eight
    descriptors, and [litepcie_dma_reader_start] writes that same address of
    the write buffer into the eight reader descriptors: no slot but slot 0
    of the writer ring is described by its own physical address. *)
Theorem start_programs_one_address :
  let H8 := sample_driver_h 8 4096 8 in
  let dev := @DeviceOpen_context H8 sample_buffers in
  let low_w := 0x2000 + 0x04 + 4 in
  let low_r := 0x2000 + 0x24 + 4 in
  map (fun c => writer_addr (dma c)) (chan dev)
  = [[0x90000000; 0x90001000; 0x90002000; 0x90003000;
      0x90004000; 0x90005000; 0x90006000; 0x90007000]]
  /\ map (fun c => reader_addr (dma c)) (chan dev)
     = [[0x80000000; 0x80001000; 0x80002000; 0x80003000;
         0x80004000; 0x80005000; 0x80006000; 0x80007000]]
  /\ writes_to low_w (snd (@litepcie_dma_writer_start H8 dev 0)) = repeat 0x90000000 8
  /\ writes_to low_r (snd (@litepcie_dma_reader_start H8 dev 0)) = repeat 0x90000000 8.
Proof. vm_compute. repeat split; reflexivity. Qed.

(** ** The end-to-end write scenario *)

(** C5. One channel, buffers of 4096 bytes, a ring of 8, any interrupt
    interval.  After [litepcie_dma_reader_start] the reader counters are
    zero; a write request of 12288 bytes copies nothing and is parked with
    12288 bytes remaining; the interrupt pass that reads loop status 5 sets
    the reader [hw_count] to 5, copies the first three ring buffers,
    completes the request with 12288 bytes and leaves [sw_count = 3],
    [hw_count = 5] and nothing parked. *)
Theorem write_parks_then_interrupt_completes (per_irq : Z) :
  let H8 := sample_driver_h 8 4096 per_irq in
  let M := sample_request_memory in
  let request := 7 in
  let dev0 := @DeviceOpen_context H8 sample_buffers in
  let dev1 := fst (@litepcie_dma_reader_start H8 dev0 0) in
  let parked := sample_chan 0 0 0 0 0 0 None (Some request) 0 12288 in
  let done := sample_chan 5 5 3 0 0 0 None None 0 0 in
  chan dev1 = [sample_chan 0 0 0 0 0 0 None None 0 0]
  /\ match @run_operation H8 M (OpChannelWrite 0 request 12288) dev1 with
     | Some (dev2, tr2) =>
         chan dev2 = [parked] /\ bytes_copied tr2 = 0 /\ completions tr2 = []
         /\ writeRequest (dma parked) = Some request
         /\ writeRemainingBytes (dma parked) = 12288
         /\ match @run_operation H8 M (OpIsr (sample_mmio 2 5)) dev2 with
            | Some (dev3, _) =>
                match @run_operation H8 M (OpDpc (sample_mmio 2 5)) dev3 with
                | Some (dev4, tr4) =>
                    chan dev4 = [done]
                    /\ copied_buffers tr4 = firstn 3 (reader_handle (dma done))
                    /\ bytes_copied tr4 = 12288
                    /\ completions tr4 = [(request, STATUS_SUCCESS, 12288)]
                    /\ writeRequest (dma done) = None
                    /\ reader_sw_count (dma done) = 3
                    /\ reader_hw_count (dma done) = 5
                | None => False
                end
            | None => False
            end
     | None => False
     end.
Proof.
  lazy -[count_overflow].
  match goal with |- context [match ?c with Eq => _ | Lt => _ | Gt => _ end] => destruct c end;
    repeat split; reflexivity.
Qed.

(** ** Completion and parking *)

Section ParkingProofs.
Context {H : driver_h} {W : wdf_request_memory}.

(** C4. A read or write pass whose memory object is retrieved copies whole
    buffers.  When it copied a positive number of bytes the request is
    completed at once, with success and exactly that byte count, and the
    direction's parked request and remaining bytes are cleared; when it
    copied nothing no request is completed and the request is parked with
    its full length remaining.  So nothing stays parked after a pass that
    moved bytes. *)
Theorem channel_io_completes_or_parks (channel : LITEPCIE_CHAN) (request : WDFREQUEST)
    (length : Z) :
  0 < DMA_BUFFER_SIZE < 2 ^ 31 -> 0 <= length < 2 ^ 64 ->
  (NT_SUCCESS (fst (WdfRequestRetrieveOutputMemory request)) = true ->
   exists channel' tr,
     litepciedrv_ChannelRead channel request length = Some (channel', tr)
     /\ 0 <= bytes_copied tr <= length
     /\ (0 < bytes_copied tr ->
         completions tr = [(request, STATUS_SUCCESS, bytes_copied tr)]
         /\ readRequest (dma channel') = None
         /\ readRemainingBytes (dma channel') = 0)
     /\ (bytes_copied tr = 0 ->
         completions tr = []
         /\ readRequest (dma channel') = Some request
         /\ readRemainingBytes (dma channel') = length))
  /\ (NT_SUCCESS (fst (WdfRequestRetrieveInputMemory request)) = true ->
      exists channel' tr,
        litepciedrv_ChannelWrite channel request length = Some (channel', tr)
        /\ 0 <= bytes_copied tr <= length
        /\ (0 < bytes_copied tr ->
            completions tr = [(request, STATUS_SUCCESS, bytes_copied tr)]
            /\ writeRequest (dma channel') = None
            /\ writeRemainingBytes (dma channel') = 0)
        /\ (bytes_copied tr = 0 ->
            completions tr = []
            /\ writeRequest (dma channel') = Some request
            /\ writeRemainingBytes (dma channel') = length)).
Proof.
  intros Hs Hl. split; intros Hok.
  - apply ChannelRead_spec; assumption.
  - apply ChannelWrite_spec; assumption.
Qed.

(** C10 (as amended). A read or write of fewer bytes than one buffer
    (zero included) whose memory object is retrieved copies nothing, takes
    no lock, moves no counter and is parked with its full length, whatever
    the counters of the channel are; and every interrupt pass that finds it
    parked leaves it parked, uncompleted, with the same length. *)
Theorem short_request_parks (channel : LITEPCIE_CHAN) (request : WDFREQUEST) (length : Z) :
  0 < DMA_BUFFER_SIZE < 2 ^ 31 -> 0 <= length < DMA_BUFFER_SIZE ->
  (NT_SUCCESS (fst (WdfRequestRetrieveOutputMemory request)) = true ->
   litepciedrv_ChannelRead channel request length
   = Some (set_dma (set_readRemainingBytes length
                      (set_readRequest (Some request) (dma channel))) channel, [])
   /\ forall mmio irq_vector clear_mask pChan,
        readRequest (dma pChan) = Some request ->
        readRemainingBytes (dma pChan) = length ->
        exists pChan' clear_mask' tr,
          dpc_writer mmio irq_vector pChan clear_mask = Some (pChan', clear_mask', tr)
          /\ completions tr = [] /\ bytes_copied tr = 0
          /\ readRequest (dma pChan') = Some request
          /\ readRemainingBytes (dma pChan') = length)
  /\ (NT_SUCCESS (fst (WdfRequestRetrieveInputMemory request)) = true ->
      litepciedrv_ChannelWrite channel request length
      = Some (set_dma (set_writeRemainingBytes length
                         (set_writeRequest (Some request) (dma channel))) channel, [])
      /\ forall mmio irq_vector clear_mask pChan,
           writeRequest (dma pChan) = Some request ->
           writeRemainingBytes (dma pChan) = length ->
           exists pChan' clear_mask' tr,
             dpc_reader mmio irq_vector pChan clear_mask = Some (pChan', clear_mask', tr)
             /\ completions tr = [] /\ bytes_copied tr = 0
             /\ writeRequest (dma pChan') = Some request
             /\ writeRemainingBytes (dma pChan') = length).
Proof.
  intros Hs Hl. split; intros Hok; (split; [|intros mmio irq_vector clear_mask pChan Hr Hlen]).
  - apply ChannelRead_short; assumption.
  - destruct (dpc_writer_short mmio irq_vector pChan clear_mask request Hs Hr
                ltac:(rewrite Hlen; exact Hl) Hok) as (p & m & tr & E & A & B & C & D).
    exists p, m, tr. rewrite <- Hlen. auto.
  - apply ChannelWrite_short; assumption.
  - destruct (dpc_reader_short mmio irq_vector pChan clear_mask request Hs Hr
                ltac:(rewrite Hlen; exact Hl) Hok) as (p & m & tr & E & A & B & C & D).
    exists p, m, tr. rewrite <- Hlen. auto.
Qed.

End ParkingProofs.

(** ** Parked requests along operations *)

Lemma slot_kept_refl tr x : slot_kept tr x x.
Proof. intros r Hr. left. exact Hr. Qed.

Lemma slot_kept_app tr0 tr tr1 a b : slot_kept tr a b -> slot_kept (tr0 ++ tr ++ tr1) a b.
Proof.
  intros Hk r Hr. destruct (Hk r Hr) as [E|[E [n Hn]]]; [left; exact E|].
  right. split; [exact E|]. exists n.
  rewrite !completions_app. apply in_or_app. right. apply in_or_app. left. exact Hn.
Qed.

Lemma slots_kept_refl tr c : slots_kept tr c c.
Proof. split; apply slot_kept_refl. Qed.

Lemma slots_kept_app tr0 tr tr1 c c' : slots_kept tr c c' -> slots_kept (tr0 ++ tr ++ tr1) c c'.
Proof. intros [A B]. split; apply slot_kept_app; assumption. Qed.

Lemma Forall2_refl_on {A} (R : A -> A -> Prop) l : (forall x, R x x) -> Forall2 R l l.
Proof. intros Hr. induction l; constructor; auto. Qed.

Lemma Forall2_store_chan (R : LITEPCIE_CHAN -> LITEPCIE_CHAN -> Prop) l : forall i c c',
  (forall x, R x x) -> nth_error l i = Some c -> R c c' -> Forall2 R l (store_chan l i c').
Proof.
  induction l as [|x l IH]; intros i c c' Hr Hn Hc; [constructor|].
  destruct i; cbn in *.
  - injection Hn as ->. constructor; [exact Hc|apply Forall2_refl_on; exact Hr].
  - constructor; [apply Hr|eapply IH; eauto].
Qed.

Section ParkedProofs.
Context {H : driver_h} {W : wdf_request_memory}.

(** A read pass touches the read slot only: it leaves it as it was (the
    memory object could not be retrieved), parks its own request, or
    empties it on completing its own request. *)
Lemma ChannelRead_slots c request length c' tr :
  litepciedrv_ChannelRead c request length = Some (c', tr) ->
  writeRequest (dma c') = writeRequest (dma c)
  /\ (readRequest (dma c') = readRequest (dma c)
      \/ readRequest (dma c') = Some request
      \/ (readRequest (dma c') = None
          /\ exists n, In (request, STATUS_SUCCESS, n) (completions tr))).
Proof.
  unfold litepciedrv_ChannelRead.
  destruct (WdfRequestRetrieveOutputMemory request) as [status outBuf].
  destruct (negb (NT_SUCCESS status)); [intros [= <- <-]; auto|].
  destruct (ChannelRead_loop _ _ _ _ _ _) as [[[[c1 b] o] tr1]|] eqn:E; [|discriminate].
  destruct (ChannelRead_loop_frame _ _ _ _ _ _ _ _ _ _ E) as [_ [sw ->]].
  destruct (b >? 0); intros [= <- <-]; cbn; (split; [reflexivity|]).
  - right. right. split; [reflexivity|]. exists b.
    rewrite !completions_app. apply in_or_app. right. apply in_or_app. right. cbn. auto.
  - right. left. reflexivity.
Qed.

Lemma ChannelWrite_slots c request length c' tr :
  litepciedrv_ChannelWrite c request length = Some (c', tr) ->
  readRequest (dma c') = readRequest (dma c)
  /\ (writeRequest (dma c') = writeRequest (dma c)
      \/ writeRequest (dma c') = Some request
      \/ (writeRequest (dma c') = None
          /\ exists n, In (request, STATUS_SUCCESS, n) (completions tr))).
Proof.
  unfold litepciedrv_ChannelWrite.
  destruct (WdfRequestRetrieveInputMemory request) as [status inBuf].
  destruct (negb (NT_SUCCESS status)); [intros [= <- <-]; auto|].
  destruct (ChannelWrite_loop _ _ _ _ _ _) as [[[[c1 b] o] tr1]|] eqn:E; [|discriminate].
  destruct (ChannelWrite_loop_frame _ _ _ _ _ _ _ _ _ _ E) as [_ [sw ->]].
  destruct (b >? 0); intros [= <- <-]; cbn; (split; [reflexivity|]).
  - right. right. split; [reflexivity|]. exists b.
    rewrite !completions_app. apply in_or_app. right. apply in_or_app. right. cbn. auto.
  - right. left. reflexivity.
Qed.

(** A pass handed the parked request itself, or handed a request while
    nothing is parked, keeps the slots. *)
Lemma ChannelRead_slots_kept c request length c' tr :
  readRequest (dma c) = None \/ readRequest (dma c) = Some request ->
  litepciedrv_ChannelRead c request length = Some (c', tr) ->
  slots_kept tr c c'.
Proof.
  intros Hp E. destruct (ChannelRead_slots _ _ _ _ _ E) as [Hw Hr].
  split; [|rewrite Hw; apply slot_kept_refl].
  intros r Hr0. destruct Hp as [Hp|Hp]; rewrite Hp in Hr0; [discriminate|].
  injection Hr0 as <-.
  destruct Hr as [Hr|[Hr|Hr]]; [left; congruence|left; exact Hr|right; exact Hr].
Qed.

Lemma ChannelWrite_slots_kept c request length c' tr :
  writeRequest (dma c) = None \/ writeRequest (dma c) = Some request ->
  litepciedrv_ChannelWrite c request length = Some (c', tr) ->
  slots_kept tr c c'.
Proof.
  intros Hp E. destruct (ChannelWrite_slots _ _ _ _ _ E) as [Hr Hw].
  split; [rewrite Hr; apply slot_kept_refl|].
  intros r Hr0. destruct Hp as [Hp|Hp]; rewrite Hp in Hr0; [discriminate|].
  injection Hr0 as <-.
  destruct Hw as [Hw|[Hw|Hw]]; [left; congruence|left; exact Hw|right; exact Hw].
Qed.

Lemma dpc_reader_slots_kept mmio irq_vector c clear_mask c' clear_mask' tr :
  dpc_reader mmio irq_vector c clear_mask = Some (c', clear_mask', tr) ->
  readRequest (dma c') = readRequest (dma c)
  /\ slot_kept tr (writeRequest (dma c)) (writeRequest (dma c')).
Proof.
  unfold dpc_reader.
  destruct (negb _); [|intros [= <- <- <-]; split; [reflexivity|apply slot_kept_refl]].
  cbn [reader_reconcile].
  set (c1 := set_dma _ c). set (tr1 := reconcile_events _ _ _).
  assert (Er : readRequest (dma c1) = readRequest (dma c)) by reflexivity.
  assert (Ew : writeRequest (dma c1) = writeRequest (dma c)) by reflexivity.
  destruct (writeRequest (dma c1)) as [request|] eqn:Eq.
  2:{ intros [= <- <- <-]. split; [exact Er|rewrite <- Ew, Eq; apply slot_kept_refl]. }
  destruct (litepciedrv_ChannelWrite _ _ _) as [[c2 tr2]|] eqn:E; [|discriminate].
  intros [= <- <- <-].
  pose proof (proj1 (ChannelWrite_slots _ _ _ _ _ E)) as Er2.
  apply ChannelWrite_slots_kept in E; [|right; exact Eq].
  destruct E as [A B]. rewrite Eq, Ew in B.
  split; [congruence|].
  rewrite <- (app_nil_r tr2). apply slot_kept_app; assumption.
Qed.

Lemma dpc_writer_slots_kept mmio irq_vector c clear_mask c' clear_mask' tr :
  dpc_writer mmio irq_vector c clear_mask = Some (c', clear_mask', tr) ->
  writeRequest (dma c') = writeRequest (dma c)
  /\ slot_kept tr (readRequest (dma c)) (readRequest (dma c')).
Proof.
  unfold dpc_writer.
  destruct (negb _); [|intros [= <- <- <-]; split; [reflexivity|apply slot_kept_refl]].
  cbn [writer_reconcile].
  set (c1 := set_dma _ c). set (tr1 := reconcile_events _ _ _).
  assert (Er : readRequest (dma c1) = readRequest (dma c)) by reflexivity.
  assert (Ew : writeRequest (dma c1) = writeRequest (dma c)) by reflexivity.
  destruct (readRequest (dma c1)) as [request|] eqn:Eq.
  2:{ intros [= <- <- <-]. split; [exact Ew|rewrite <- Er, Eq; apply slot_kept_refl]. }
  destruct (litepciedrv_ChannelRead _ _ _) as [[c2 tr2]|] eqn:E; [|discriminate].
  intros [= <- <- <-].
  pose proof (proj1 (ChannelRead_slots _ _ _ _ _ E)) as Ew2.
  apply ChannelRead_slots_kept in E; [|right; exact Eq].
  destruct E as [A B]. rewrite Eq, Er in A.
  split; [congruence|].
  rewrite <- (app_nil_r tr2). apply slot_kept_app; assumption.
Qed.

Lemma dpc_channel_slots_kept mmio irq_vector c clear_mask c' clear_mask' tr :
  dpc_channel mmio irq_vector c clear_mask = Some (c', clear_mask', tr) ->
  slots_kept tr c c'.
Proof.
  unfold dpc_channel.
  destruct (dpc_reader _ _ _ _) as [[[c1 m1] tr1]|] eqn:E1; [|discriminate].
  destruct (dpc_writer _ _ _ _) as [[[c2 m2] tr2]|] eqn:E2; [|discriminate].
  intros [= <- <- <-].
  apply dpc_reader_slots_kept in E1. apply dpc_writer_slots_kept in E2.
  destruct E1 as [R1 W1], E2 as [W2 R2]. rewrite R1 in R2.
  split.
  - rewrite <- (app_nil_r tr2). apply slot_kept_app. exact R2.
  - rewrite W2. apply (slot_kept_app [] tr1 tr2). exact W1.
Qed.

Lemma dpc_channels_slots_kept mmio irq_vector chans : forall clear_mask chans' clear_mask' tr,
  dpc_channels mmio irq_vector chans clear_mask = Some (chans', clear_mask', tr) ->
  Forall2 (slots_kept tr) chans chans'.
Proof.
  induction chans as [|c chans IH]; intros clear_mask chans' clear_mask' tr; cbn [dpc_channels].
  - intros [= <- <- <-]. constructor.
  - destruct (dpc_channel _ _ _ _) as [[[c1 m1] tr1]|] eqn:E1; [|discriminate].
    destruct (dpc_channels _ _ _ _) as [[[r m2] tr2]|] eqn:E2; [|discriminate].
    intros [= <- <- <-]. constructor.
    + apply (slots_kept_app [] tr1 tr2). eapply dpc_channel_slots_kept. exact E1.
    + apply IH in E2. eapply Forall2_impl; [|exact E2].
      intros a b Hab. rewrite <- (app_nil_r tr2). apply slots_kept_app. exact Hab.
Qed.

Lemma start_stop_slots_kept tr dev index :
  Forall2 (slots_kept tr) (chan dev) (chan (fst (litepcie_dma_writer_start dev index)))
  /\ Forall2 (slots_kept tr) (chan dev) (chan (fst (litepcie_dma_writer_stop dev index)))
  /\ Forall2 (slots_kept tr) (chan dev) (chan (fst (litepcie_dma_reader_start dev index)))
  /\ Forall2 (slots_kept tr) (chan dev) (chan (fst (litepcie_dma_reader_stop dev index))).
Proof.
  unfold litepcie_dma_writer_start, litepcie_dma_writer_stop,
    litepcie_dma_reader_start, litepcie_dma_reader_stop.
  destruct (nth_error (chan dev) (Z.to_nat index)) as [c|] eqn:E; cbn [fst chan set_chan].
  - repeat split; (eapply Forall2_store_chan; [apply slots_kept_refl|exact E|]);
      split; apply slot_kept_refl.
  - repeat split; apply Forall2_refl_on, slots_kept_refl.
Qed.

(** C8 (as amended). Each direction of a channel has one slot for a parked
    request.  Whatever the core is asked to do - ring start or stop, either
    interrupt handler, or a read or write request dispatched while no other
    request is parked in that direction - a request parked before the
    operation is afterwards still the parked one, or its slot is empty and
    the operation completed that very request with success.  (The core does
    not itself refuse a second request: see the counterexample.) *)
Theorem parked_request_kept (op : operation) (dev dev' : DEVICE_CONTEXT) (tr : list event) :
  dispatch_ok op dev ->
  run_operation op dev = Some (dev', tr) ->
  Forall2 (slots_kept tr) (chan dev) (chan dev').
Proof.
  intros Hd Hrun.
  destruct op as [i|i|i|i|mmio|mmio|i request length|i request length]; cbn in Hrun, Hd.
  - returned_state Hrun.
    apply (start_stop_slots_kept tr dev i).
  - returned_state Hrun.
    apply (start_stop_slots_kept tr dev i).
  - returned_state Hrun.
    apply (start_stop_slots_kept tr dev i).
  - returned_state Hrun.
    apply (start_stop_slots_kept tr dev i).
  - unfold litepcie_EvtIsr in Hrun. destruct (negb _); injection Hrun as <- <-;
      apply Forall2_refl_on, slots_kept_refl.
  - unfold litepcie_EvtDpc in Hrun.
    destruct (dpc_channels _ _ _ _) as [[[chans m] tr1]|] eqn:E; [|discriminate].
    injection Hrun as <- <-. cbn [chan set_chan set_irqs_pending].
    rewrite <- (firstn_skipn (Z.to_nat (channels dev)) (chan dev)) at 1.
    apply Forall2_app; [eapply dpc_channels_slots_kept; exact E|].
    apply Forall2_refl_on, slots_kept_refl.
  - unfold on_channel in Hrun.
    destruct (nth_error (chan dev) (Z.to_nat i)) as [c|] eqn:E.
    2:{ injection Hrun as <- <-. apply Forall2_refl_on, slots_kept_refl. }
    destruct (litepciedrv_ChannelRead c request length) as [[c' tr']|] eqn:Ef; [|discriminate].
    injection Hrun as <- <-. cbn [chan set_chan].
    eapply Forall2_store_chan; [apply slots_kept_refl|exact E|].
    eapply ChannelRead_slots_kept; [apply Hd; reflexivity|exact Ef].
  - unfold on_channel in Hrun.
    destruct (nth_error (chan dev) (Z.to_nat i)) as [c|] eqn:E.
    2:{ injection Hrun as <- <-. apply Forall2_refl_on, slots_kept_refl. }
    destruct (litepciedrv_ChannelWrite c request length) as [[c' tr']|] eqn:Ef; [|discriminate].
    injection Hrun as <- <-. cbn [chan set_chan].
    eapply Forall2_store_chan; [apply slots_kept_refl|exact E|].
    eapply ChannelWrite_slots_kept; [apply Hd; reflexivity|exact Ef].
Qed.

End ParkedProofs.

(** ** Locks along a trace *)

Lemma held_after_app t1 : forall held t2,
  held_after held (t1 ++ t2) = held_after (held_after held t1) t2.
Proof. induction t1 as [|e t1 IH]; intros held t2; [reflexivity|]. destruct e; cbn; apply IH. Qed.

Lemma copies_under_lock_app t1 : forall held t2,
  copies_under_lock held (t1 ++ t2)
  = copies_under_lock held t1 ++ copies_under_lock (held_after held t1) t2.
Proof.
  induction t1 as [|e t1 IH]; intros held t2; [reflexivity|].
  destruct e; cbn; try apply IH; destruct held; cbn; rewrite IH; reflexivity.
Qed.

Lemma unlocked_accesses_app t1 : forall held t2,
  unlocked_accesses held (t1 ++ t2)
  = unlocked_accesses held t1 ++ unlocked_accesses (held_after held t1) t2.
Proof.
  induction t1 as [|e t1 IH]; intros held t2; [reflexivity|].
  destruct e; cbn; try apply IH; destruct (holds held _); cbn; rewrite IH; reflexivity.
Qed.

Lemma lock_disciplined_nil : lock_disciplined [].
Proof. repeat split. constructor. Qed.

Lemma lock_disciplined_app t1 t2 :
  lock_disciplined t1 -> lock_disciplined t2 -> lock_disciplined (t1 ++ t2).
Proof.
  intros (A1 & B1 & C1) (A2 & B2 & C2). unfold lock_disciplined.
  rewrite held_after_app, copies_under_lock_app, unlocked_accesses_app, A1, B1.
  repeat split; [exact A2|exact B2|]. apply Forall_app. split; assumption.
Qed.

Lemma holds_self ch d held : holds ((ch, d) :: held) (ch, d) = true.
Proof. unfold holds, lock_eqb. cbn. rewrite Z.eqb_refl. destruct d; reflexivity. Qed.

Lemma release_self ch d : release [(ch, d)] (ch, d) = [].
Proof. unfold release, lock_eqb. cbn. rewrite Z.eqb_refl. destruct d; reflexivity. Qed.

(** Events that neither lock nor touch a counter leave the held locks as
    they are and add no unlocked access. *)
Lemma quiet_trace held tr :
  Forall (fun e => is_lock_event e = false /\ accessed_counter e = None) tr ->
  held_after held tr = held /\ unlocked_accesses held tr = [].
Proof.
  induction 1 as [|e tr [Hl Ha] _ [IH1 IH2]]; [split; reflexivity|].
  destruct e; cbn in *; try discriminate; auto.
Qed.

Lemma reconcile_events_disciplined ch d wrapped :
  lock_disciplined (reconcile_events ch d wrapped).
Proof.
  unfold lock_disciplined, reconcile_events.
  destruct wrapped;
    cbn [app held_after copies_under_lock unlocked_accesses];
    rewrite !holds_self, !release_self; repeat split; constructor.
Qed.

Section LockProofs.
Context {H : driver_h} {W : wdf_request_memory}.

Lemma ChannelRead_loop_disciplined fuel : forall channel outBuf length bytesRead overflows c b o tr,
  ChannelRead_loop fuel channel outBuf length bytesRead overflows = Some (c, b, o, tr) ->
  lock_disciplined tr.
Proof.
  induction fuel as [|fuel IH]; intros channel outBuf length bytesRead overflows c b o tr;
    [discriminate|].
  cbn [ChannelRead_loop].
  assert (Hlocked : forall i d, lock_disciplined
            [WdfSpinLockAcquire i d; Load i d HwCount; Load i d SwCount;
             WdfSpinLockRelease i d]).
  { intros i d. unfold lock_disciplined.
    cbn [held_after copies_under_lock unlocked_accesses].
    rewrite !holds_self, !release_self. repeat split; constructor. }
  destruct (negb (bytesRead <? length)).
  { intros [= <- <- <- <-]. apply lock_disciplined_nil. }
  destruct (SIZE_T (length - bytesRead) <? SIZE_T DMA_BUFFER_SIZE).
  { intros [= <- <- <- <-]. apply lock_disciplined_nil. }
  destruct (INT64 (writer_hw_count (dma channel) - writer_sw_count (dma channel)) >? 0).
  2:{ intros [= <- <- <- <-]. apply Hlocked. }
  loop_call ChannelRead_loop fuel E.
  intros [= <- <- <- <-].
  apply (lock_disciplined_app [_; _; _; _] (_ :: _ :: _ :: _ :: tr')); [apply Hlocked|].
  apply (lock_disciplined_app [_; _; _; _] tr'); [|eapply IH; exact E].
  unfold lock_disciplined. cbn. repeat split. repeat constructor.
Qed.

Lemma ChannelRead_disciplined channel request length channel' tr :
  litepciedrv_ChannelRead channel request length = Some (channel', tr) ->
  lock_disciplined tr.
Proof.
  unfold litepciedrv_ChannelRead.
  destruct (WdfRequestRetrieveOutputMemory request) as [status outBuf].
  destruct (negb (NT_SUCCESS status)).
  { intros [= <- <-]. unfold lock_disciplined. cbn. repeat split. constructor. }
  destruct (ChannelRead_loop _ _ _ _ _ _) as [[[[c1 b] o] tr1]|] eqn:E; [|discriminate].
  apply ChannelRead_loop_disciplined in E.
  assert (Hrep : lock_disciplined (if o >? 0 then [TraceOverflow o] else [])).
  { destruct (o >? 0); unfold lock_disciplined; cbn; repeat split; constructor. }
  destruct (b >? 0); intros [= <- <-]; repeat apply lock_disciplined_app; try assumption.
  unfold lock_disciplined. cbn. repeat split. constructor.
Qed.

Lemma ChannelWrite_loop_disciplined fuel : forall channel inBuf length bytesWritten overflows c b o tr,
  ChannelWrite_loop fuel channel inBuf length bytesWritten overflows = Some (c, b, o, tr) ->
  lock_disciplined tr.
Proof.
  induction fuel as [|fuel IH]; intros channel inBuf length bytesWritten overflows c b o tr;
    [discriminate|].
  cbn [ChannelWrite_loop].
  assert (Hlocked : forall i d, lock_disciplined
            [WdfSpinLockAcquire i d; Load i d HwCount; Load i d SwCount;
             WdfSpinLockRelease i d]).
  { intros i d. unfold lock_disciplined.
    cbn [held_after copies_under_lock unlocked_accesses].
    rewrite !holds_self, !release_self. repeat split; constructor. }
  destruct (negb (bytesWritten <? length)).
  { intros [= <- <- <- <-]. apply lock_disciplined_nil. }
  destruct (SIZE_T (length - bytesWritten) <? SIZE_T DMA_BUFFER_SIZE).
  { intros [= <- <- <- <-]. apply lock_disciplined_nil. }
  destruct (INT64 (reader_hw_count (dma channel) - reader_sw_count (dma channel)) >? 0).
  2:{ intros [= <- <- <- <-]. apply Hlocked. }
  loop_call ChannelWrite_loop fuel E.
  intros [= <- <- <- <-].
  apply (lock_disciplined_app [_; _; _; _] (_ :: _ :: _ :: _ :: tr')); [apply Hlocked|].
  apply (lock_disciplined_app [_; _; _; _] tr'); [|eapply IH; exact E].
  unfold lock_disciplined. cbn. repeat split. repeat constructor.
Qed.

Lemma ChannelWrite_disciplined channel request length channel' tr :
  litepciedrv_ChannelWrite channel request length = Some (channel', tr) ->
  lock_disciplined tr.
Proof.
  unfold litepciedrv_ChannelWrite.
  destruct (WdfRequestRetrieveInputMemory request) as [status inBuf].
  destruct (negb (NT_SUCCESS status)).
  { intros [= <- <-]. unfold lock_disciplined. cbn. repeat split. constructor. }
  destruct (ChannelWrite_loop _ _ _ _ _ _) as [[[[c1 b] o] tr1]|] eqn:E; [|discriminate].
  apply ChannelWrite_loop_disciplined in E.
  assert (Hrep : lock_disciplined (if o >? 0 then [TraceOverflow o] else [])).
  { destruct (o >? 0); unfold lock_disciplined; cbn; repeat split; constructor. }
  destruct (b >? 0); intros [= <- <-]; repeat apply lock_disciplined_app; try assumption.
  unfold lock_disciplined. cbn. repeat split. constructor.
Qed.

Lemma dpc_reader_disciplined mmio irq_vector c clear_mask c' clear_mask' tr :
  dpc_reader mmio irq_vector c clear_mask = Some (c', clear_mask', tr) ->
  lock_disciplined tr.
Proof.
  unfold dpc_reader. destruct (negb _); [|intros [= <- <- <-]; apply lock_disciplined_nil].
  cbn [reader_reconcile].
  destruct (writeRequest _) as [request|].
  2:{ intros [= <- <- <-]. apply (reconcile_events_disciplined _ _ _). }
  destruct (litepciedrv_ChannelWrite _ _ _) as [[c2 tr2]|] eqn:E; [|discriminate].
  intros [= <- <- <-]. apply (lock_disciplined_app (reconcile_events _ _ _) tr2).
  - apply reconcile_events_disciplined.
  - eapply ChannelWrite_disciplined. exact E.
Qed.

Lemma dpc_writer_disciplined mmio irq_vector c clear_mask c' clear_mask' tr :
  dpc_writer mmio irq_vector c clear_mask = Some (c', clear_mask', tr) ->
  lock_disciplined tr.
Proof.
  unfold dpc_writer. destruct (negb _); [|intros [= <- <- <-]; apply lock_disciplined_nil].
  cbn [writer_reconcile].
  destruct (readRequest _) as [request|].
  2:{ intros [= <- <- <-]. apply (reconcile_events_disciplined _ _ _). }
  destruct (litepciedrv_ChannelRead _ _ _) as [[c2 tr2]|] eqn:E; [|discriminate].
  intros [= <- <- <-]. apply (lock_disciplined_app (reconcile_events _ _ _) tr2).
  - apply reconcile_events_disciplined.
  - eapply ChannelRead_disciplined. exact E.
Qed.

Lemma dpc_channels_disciplined mmio irq_vector chans : forall clear_mask chans' clear_mask' tr,
  dpc_channels mmio irq_vector chans clear_mask = Some (chans', clear_mask', tr) ->
  lock_disciplined tr.
Proof.
  induction chans as [|c chans IH]; intros clear_mask chans' clear_mask' tr; cbn [dpc_channels].
  - intros [= <- <- <-]. apply lock_disciplined_nil.
  - unfold dpc_channel.
    destruct (dpc_reader _ _ _ _) as [[[c1 m1] tr1]|] eqn:E1; [|discriminate].
    destruct (dpc_writer _ _ _ _) as [[[c2 m2] tr2]|] eqn:E2; [|discriminate].
    destruct (dpc_channels _ _ _ _) as [[[r m3] tr3]|] eqn:E3; [|discriminate].
    intros [= <- <- <-].
    apply dpc_reader_disciplined in E1. apply dpc_writer_disciplined in E2. apply IH in E3.
    repeat apply lock_disciplined_app; assumption.
Qed.

(** The register writes of ring start and stop take no lock; the three
    counters are stored with no lock held. *)
Lemma start_stop_unlocked dev index :
  let quiet tr :=
    Forall (fun e => is_lock_event e = false) tr
    /\ (tr = [] \/ exists ch d,
          unlocked_accesses [] tr
          = [Store ch d HwCount; Store ch d HwCountLast; Store ch d SwCount]) in
  quiet (snd (litepcie_dma_writer_start dev index))
  /\ quiet (snd (litepcie_dma_writer_stop dev index))
  /\ quiet (snd (litepcie_dma_reader_start dev index))
  /\ quiet (snd (litepcie_dma_reader_stop dev index)).
Proof.
  intros quiet. subst quiet. cbv beta.
  assert (Hd : forall (f : Z -> list event) l,
             (forall i, Forall (fun e => is_lock_event e = false /\ accessed_counter e = None)
                          (f i)) ->
             Forall (fun e => is_lock_event e = false /\ accessed_counter e = None)
               (flat_map f l)).
  { intros f l Hf. induction l as [|x l IHl]; cbn; [constructor|].
    apply Forall_app. split; [apply Hf|exact IHl]. }
  assert (Hq : forall tr, Forall (fun e => is_lock_event e = false /\ accessed_counter e = None) tr ->
                          Forall (fun e => is_lock_event e = false) tr).
  { intros tr Hf. eapply Forall_impl; [|exact Hf]. cbn. intros e [A _]. exact A. }
  unfold litepcie_dma_writer_start, litepcie_dma_writer_stop,
    litepcie_dma_reader_start, litepcie_dma_reader_stop.
  destruct (nth_error (chan dev) (Z.to_nat index)) as [c|]; cbn [snd].
  2:{ repeat split; repeat constructor. }
  assert (Hw : Forall (fun e => is_lock_event e = false /\ accessed_counter e = None)
                 (flat_map (writer_descriptor (dma c) index) (for_range DMA_BUFFER_COUNT))).
  { apply Hd. intros i. repeat constructor. }
  assert (Hr : Forall (fun e => is_lock_event e = false /\ accessed_counter e = None)
                 (flat_map (reader_descriptor (dma c) index) (for_range DMA_BUFFER_COUNT))).
  { apply Hd. intros i. repeat constructor. }
  unfold litepciedrv_RegWritel.
  repeat split.
  all: try (right; exists (lock_owner c)).
  all: repeat first
         [ apply Forall_app; split
         | apply Hq; assumption
         | apply Forall_cons; [reflexivity|]
         | apply Forall_nil ].
  - exists Writer. rewrite !unlocked_accesses_app.
    cbn [app unlocked_accesses held_after].
    destruct (quiet_trace [] _ Hw) as [-> ->]. reflexivity.
  - exists Writer. reflexivity.
  - exists Reader. rewrite !unlocked_accesses_app.
    cbn [app unlocked_accesses held_after].
    destruct (quiet_trace [] _ Hr) as [-> ->]. reflexivity.
  - exists Reader. reflexivity.
Qed.

(** C9 (as amended). In a read or write pass and in the deferred interrupt
    pass, [hw_count] and [hw_count_last] are read and written only under the
    lock of their direction, every lock taken is released again, and no
    buffer is copied while a lock is held.  [sw_count] is read under the
    lock when the available count is computed, but the slot index is read
    and [sw_count] is incremented after the copy without taking the lock
    again.  Ring start and stop take no lock at all and store the three
    counters unlocked. *)
Theorem lock_covers_hw_count_only (op : operation) (dev dev' : DEVICE_CONTEXT)
    (tr : list event) :
  run_operation op dev = Some (dev', tr) ->
  if is_start_or_stop op
  then Forall (fun e => is_lock_event e = false) tr
       /\ (tr = [] \/ exists ch d,
             unlocked_accesses [] tr
             = [Store ch d HwCount; Store ch d HwCountLast; Store ch d SwCount])
  else lock_disciplined tr.
Proof.
  intros Hrun.
  pose proof (start_stop_unlocked dev) as Hs. cbv zeta in Hs.
  destruct op as [i|i|i|i|mmio|mmio|i request length|i request length];
    cbn [is_start_or_stop]; cbn in Hrun.
  - returned_trace Hrun. apply (Hs i).
  - returned_trace Hrun. apply (Hs i).
  - returned_trace Hrun. apply (Hs i).
  - returned_trace Hrun. apply (Hs i).
  - unfold litepcie_EvtIsr in Hrun. destruct (negb _); injection Hrun as <- <-;
      unfold lock_disciplined; cbn; repeat split; constructor.
  - unfold litepcie_EvtDpc in Hrun.
    destruct (dpc_channels _ _ _ _) as [[[chans m] tr1]|] eqn:E; [|discriminate].
    injection Hrun as <- <-. eapply dpc_channels_disciplined. exact E.
  - unfold on_channel in Hrun.
    destruct (nth_error (chan dev) (Z.to_nat i)) as [c|].
    2:{ injection Hrun as <- <-. apply lock_disciplined_nil. }
    destruct (litepciedrv_ChannelRead c request length) as [[c' tr']|] eqn:Ef; [|discriminate].
    injection Hrun as <- <-. eapply ChannelRead_disciplined. exact Ef.
  - unfold on_channel in Hrun.
    destruct (nth_error (chan dev) (Z.to_nat i)) as [c|].
    2:{ injection Hrun as <- <-. apply lock_disciplined_nil. }
    destruct (litepciedrv_ChannelWrite c request length) as [[c' tr']|] eqn:Ef; [|discriminate].
    injection Hrun as <- <-. eapply ChannelWrite_disciplined. exact Ef.
Qed.

End LockProofs.

(** * The theorems at sample inputs *)

(** Six reconciliations on a ring of 256 buffers, the fourth with an index
    beyond the ring, the fifth after the register wrapped. *)
Lemma reconcile_hw_count_monotone_witness :
  let H256 := sample_driver_h 256 8192 8 in
  let raws := [0x00fe0005; 0xffff00ff; 0x00000003; 0xffffffff; 0; 0x00010000] in
  let pChan := sample_chan 0 0 0 0 0 0 None None 0 0 in
  StronglySorted Z.le (0 :: @reader_reconcile_seq H256 raws pChan)
  /\ StronglySorted Z.le (0 :: @writer_reconcile_seq H256 raws pChan).
Proof.
  intros H256 raws pChan.
  refine (@reconcile_hw_count_monotone H256 8 _ _ pChan raws _ _ _ _ _ _);
    try reflexivity; cbn; lia.
Defined.

Lemma reconcile_example_1024_witness :
  let H1024 := sample_driver_h 1024 8192 8 in
  @wrap_increment H1024 = 2 ^ 26
  /\ @writer_reconcile_seq H1024 [Z.lor (Z.shiftl 2 16) 5; Z.lor (Z.shiftl 0 16) 10]
       (sample_chan 0 0 0 0 0 0 None None 0 0)
     = [2 * 1024 + 5; @wrap_increment H1024 + 10]
  /\ 2 * 1024 + 5 < @wrap_increment H1024 + 10.
Proof.
  intros H1024.
  apply (@reconcile_example_1024 H1024 (sample_chan 0 0 0 0 0 0 None None 0 0));
    reflexivity.
Defined.

(** C2, the value the specification gives: on the code the second count
    is [2^26 + 10 = 67108874], which is not the first count plus the wrap
    increment plus 10 ([67110927]). *)
Lemma reconcile_example_1024_not_sum :
  let H1024 := sample_driver_h 1024 8192 8 in
  let counts :=
    @writer_reconcile_seq H1024 [Z.lor (Z.shiftl 2 16) 5; Z.lor (Z.shiftl 0 16) 10]
      (sample_chan 0 0 0 0 0 0 None None 0 0) in
  counts = [2053; 67108874]
  /\ 2 * 1024 + 5 + @wrap_increment H1024 + 10 = 67110927
  /\ nth 1 counts 0 <> 2 * 1024 + 5 + @wrap_increment H1024 + 10.
Proof. vm_compute. repeat split. discriminate. Qed.

(** Two operations after [litepciedrv_DeviceOpen]: the top half sees the
    writer interrupt of channel 0, the deferred pass reads loop status 5. *)
Lemma sw_count_le_hw_count_witness :
  let c := sample_chan 0 0 0 5 5 0 None None 0 0 in
  reader_sw_count (dma c) <= reader_hw_count (dma c)
  /\ writer_sw_count (dma c) <= writer_hw_count (dma c).
Proof.
  intros c.
  pose (H8 := sample_driver_h 8 4096 8).
  pose (M := sample_request_memory).
  pose (dev1 := {| channels := 1; chan := [sample_chan 0 0 0 0 0 0 None None 0 0];
                   irqs_requested := 0; irqs_pending := 1 |}).
  pose (dev2 := {| channels := 1; chan := [c]; irqs_requested := 0; irqs_pending := 0 |}).
  assert (R0 : @reachable H8 M 0 (@DeviceOpen_context H8 sample_buffers))
    by apply reachable_open.
  assert (R1 : @reachable H8 M 1 dev1).
  { apply (@reachable_step H8 M 0 _ (OpIsr (sample_mmio 1 5)) dev1
             [RegWritel 0x1804 1; WdfInterruptQueueDpcForIsr] R0).
    vm_compute. reflexivity. }
  assert (R2 : @reachable H8 M 2 dev2).
  { eapply (@reachable_step H8 M 1 dev1 (OpDpc (sample_mmio 1 5)) dev2 _ R1).
    vm_compute. reflexivity. }
  refine (@sw_count_le_hw_count H8 M 3 _ _ 2%nat dev2 R2 _ c _).
  - lia.
  - reflexivity.
  - vm_compute. reflexivity.
  - left. reflexivity.
Defined.

(** A read of two buffers with two buffers ready, and a write of two
    buffers with none ready, on a ring of 8 buffers of 4096 bytes. *)
Lemma channel_io_completes_or_parks_witness :
  let H8 := sample_driver_h 8 4096 8 in
  let M := sample_request_memory in
  let channel := sample_chan 0 0 0 2 2 0 None None 0 0 in
  (exists channel' tr,
     @litepciedrv_ChannelRead H8 M channel 7 8192 = Some (channel', tr)
     /\ 0 <= bytes_copied tr <= 8192
     /\ (0 < bytes_copied tr ->
         completions tr = [(7, STATUS_SUCCESS, bytes_copied tr)]
         /\ readRequest (dma channel') = None
         /\ readRemainingBytes (dma channel') = 0)
     /\ (bytes_copied tr = 0 ->
         completions tr = []
         /\ readRequest (dma channel') = Some 7
         /\ readRemainingBytes (dma channel') = 8192))
  /\ (exists channel' tr,
        @litepciedrv_ChannelWrite H8 M channel 7 8192 = Some (channel', tr)
        /\ 0 <= bytes_copied tr <= 8192
        /\ (0 < bytes_copied tr ->
            completions tr = [(7, STATUS_SUCCESS, bytes_copied tr)]
            /\ writeRequest (dma channel') = None
            /\ writeRemainingBytes (dma channel') = 0)
        /\ (bytes_copied tr = 0 ->
            completions tr = []
            /\ writeRequest (dma channel') = Some 7
            /\ writeRemainingBytes (dma channel') = 8192)).
Proof.
  intros H8 M channel.
  destruct (@channel_io_completes_or_parks H8 M channel 7 8192) as [R Wr].
  - cbn. lia.
  - lia.
  - split; [apply R|apply Wr]; reflexivity.
Defined.

(** The top half with vector register 2 and nothing pending, and with
    vector register 0. *)
Lemma EvtIsr_handled_iff_vector_witness :
  let H8 := sample_driver_h 8 4096 8 in
  let dev := @DeviceOpen_context H8 sample_buffers in
  @litepcie_EvtIsr H8 (sample_mmio 0 5) dev = (dev, [], false)
  /\ exists dev',
       @litepcie_EvtIsr H8 (sample_mmio 2 5) dev
       = (dev', [RegWritel 0x1804 2; WdfInterruptQueueDpcForIsr], true)
       /\ irqs_pending dev' = 2.
Proof.
  intros H8 dev.
  split.
  - apply (@EvtIsr_handled_iff_vector H8 (sample_mmio 0 5) dev); [cbn; lia|reflexivity].
  - destruct (@EvtIsr_handled_iff_vector H8 (sample_mmio 2 5) dev ltac:(cbn; lia))
      as [_ Hnz].
    destruct Hnz as (dev' & E & P & _); [vm_compute; discriminate|].
    exists dev'. split; [exact E|exact P].
Defined.

(** The parked request 7 handed in again by the interrupt pass, one buffer
    ready: it is completed and the slot is emptied. *)
Lemma parked_request_kept_witness :
  let H8 := sample_driver_h 8 4096 8 in
  let M := sample_request_memory in
  let dev := {| channels := 1; chan := [sample_chan 0 0 0 0 0 0 (Some 7) None 4096 0];
                irqs_requested := 0; irqs_pending := 1 |} in
  let dev' := {| channels := 1; chan := [sample_chan 0 0 0 1 1 1 None None 0 0];
                 irqs_requested := 0; irqs_pending := 0 |} in
  exists tr,
    @run_operation H8 M (OpDpc (sample_mmio 1 1)) dev = Some (dev', tr)
    /\ Forall2 (slots_kept tr) (chan dev) (chan dev').
Proof.
  intros H8 M dev dev'.
  eexists. split; [vm_compute; reflexivity|].
  apply (@parked_request_kept H8 M (OpDpc (sample_mmio 1 1)) dev dev').
  - exact I.
  - vm_compute. reflexivity.
Defined.

(** C8 as the specification states it, refuted: request 1 is parked in
    the read direction of a channel that has no data ready; a read pass
    handed request 2 completes nothing and leaves request 2 parked in its
    place. *)
Lemma new_request_overwrites_parked :
  let H8 := sample_driver_h 8 4096 8 in
  let M := sample_request_memory in
  let channel := sample_chan 0 0 0 0 0 0 (Some 1) None 4096 0 in
  readRequest (dma channel) = Some 1
  /\ exists channel' tr,
       @litepciedrv_ChannelRead H8 M channel 2 4096 = Some (channel', tr)
       /\ completions tr = []
       /\ readRequest (dma channel') = Some 2.
Proof.
  intros H8 M channel. split; [reflexivity|].
  do 2 eexists. split; [vm_compute; reflexivity|]. split; reflexivity.
Qed.

(** A read of one buffer with one buffer ready. *)
Lemma lock_covers_hw_count_only_witness :
  let H8 := sample_driver_h 8 4096 8 in
  let M := sample_request_memory in
  let dev := {| channels := 1; chan := [sample_chan 0 0 0 1 1 0 None None 0 0];
                irqs_requested := 0; irqs_pending := 0 |} in
  exists dev' tr,
    @run_operation H8 M (OpChannelRead 0 7 4096) dev = Some (dev', tr)
    /\ lock_disciplined tr.
Proof.
  intros H8 M dev.
  do 2 eexists. split; [vm_compute; reflexivity|].
  eapply (@lock_covers_hw_count_only H8 M (OpChannelRead 0 7 4096) dev).
  vm_compute. reflexivity.
Defined.

(** C9 as the specification states it, refuted: a read of one buffer with
    one buffer ready.  The lock is taken once, to compute the available
    count, and released before the copy; the slot index is then read from
    [sw_count], and [sw_count] is read and stored again after the copy, all
    three with no lock held. *)
Lemma sw_count_incremented_unlocked :
  let H8 := sample_driver_h 8 4096 8 in
  let M := sample_request_memory in
  let channel := sample_chan 0 0 0 1 1 0 None None 0 0 in
  exists channel' tr,
    @litepciedrv_ChannelRead H8 M channel 7 4096 = Some (channel', tr)
    /\ tr = [WdfSpinLockAcquire 0 Writer; Load 0 Writer HwCount; Load 0 Writer SwCount;
             WdfSpinLockRelease 0 Writer;
             Load 0 Writer SwCount;
             WdfMemoryCopyFromBuffer 1007 0 0x20000000 4096;
             Load 0 Writer SwCount; Store 0 Writer SwCount;
             TraceOverflow 1;
             WdfRequestCompleteWithInformation 7 STATUS_SUCCESS 4096]
    /\ unlocked_accesses [] tr
       = [Load 0 Writer SwCount; Load 0 Writer SwCount; Store 0 Writer SwCount]
    /\ writer_sw_count (dma channel') = 1.
Proof.
  intros H8 M channel.
  do 2 eexists. split; [vm_compute; reflexivity|]. repeat split.
Qed.

(** A read and a write of 100 bytes with every slot of the ring ready. *)
Lemma short_request_parks_witness :
  let H8 := sample_driver_h 8 4096 8 in
  let M := sample_request_memory in
  let channel := sample_chan 8 8 0 8 8 0 None None 0 0 in
  @litepciedrv_ChannelRead H8 M channel 7 100
  = Some (sample_chan 8 8 0 8 8 0 (Some 7) None 100 0, [])
  /\ @litepciedrv_ChannelWrite H8 M channel 7 100
     = Some (sample_chan 8 8 0 8 8 0 None (Some 7) 0 100, []).
Proof.
  intros H8 M channel.
  destruct (@short_request_parks H8 M channel 7 100) as [R Wr].
  - cbn. lia.
  - cbn. lia.
  - split; [apply R|apply Wr]; reflexivity.
Defined.

(** C10 as the specification states it, refuted: a request of zero bytes
    whose memory object cannot be retrieved is not parked; the pass
    completes it at once with the error status and leaves the read slot
    empty. *)
Lemma short_request_completed_on_retrieve_failure :
  let H8 := sample_driver_h 8 4096 8 in
  let M := sample_request_memory in
  let channel := sample_chan 0 0 0 0 0 0 None None 0 0 in
  NT_SUCCESS (fst (@WdfRequestRetrieveOutputMemory M 0)) = false
  /\ @litepciedrv_ChannelRead H8 M channel 0 0
     = Some (channel, [WdfRequestCompleteWithInformation 0 STATUS_INVALID_PARAMETER 0])
  /\ readRequest (dma channel) = None.
Proof. vm_compute. repeat split. Qed.

(** * Further properties *)

(** ** What a fulfillment pass moves *)

Lemma arith_seq_length start step n : List.length (arith_seq start step n) = n.
Proof. revert start. induction n as [|n IH]; intros start; cbn; [reflexivity|]. rewrite IH. reflexivity. Qed.

Lemma div_sub_one a s : 0 < s -> (a - s) / s = a / s - 1.
Proof.
  intros Hs. replace (a - s) with (a + (-1) * s) by ring.
  rewrite Z.div_add by lia. lia.
Qed.

Section ExactProofs.
Context {H : driver_h} {W : wdf_request_memory}.

(** The loop of [litepciedrv_ChannelRead] from consistent counters: how far
    it gets, which ring slots it copies, where in the request's memory it
    puts them, and how many overflows it counts. *)
Lemma ChannelRead_loop_exact fuel : forall channel outBuf length bytesRead overflows c b o tr,
  0 < DMA_BUFFER_SIZE < 2 ^ 31 ->
  0 <= bytesRead <= length -> length < 2 ^ 64 ->
  0 <= writer_sw_count (dma channel) <= writer_hw_count (dma channel) ->
  writer_hw_count (dma channel) < 2 ^ 63 ->
  ChannelRead_loop fuel channel outBuf length bytesRead overflows = Some (c, b, o, tr) ->
  let available := writer_hw_count (dma channel) - writer_sw_count (dma channel) in
  let n := buffers_served (length - bytesRead) available in
  0 <= n
  /\ b = bytesRead + n * DMA_BUFFER_SIZE
  /\ copied_buffers tr
     = map (fun s => nth (Z.to_nat (Z.rem s DMA_BUFFER_COUNT)) (writer_handle (dma channel)) 0)
         (arith_seq (writer_sw_count (dma channel)) 1 (Z.to_nat n))
  /\ copy_offsets tr = arith_seq bytesRead DMA_BUFFER_SIZE (Z.to_nat n)
  /\ overflow_reports tr = []
  /\ (0 <= overflows -> overflows + n < 2 ^ 32 ->
      o = overflows + overflows_counted n available).
Proof.
  unfold buffers_served, overflows_counted.
  induction fuel as [|fuel IH]; intros channel outBuf length bytesRead overflows c b o tr
    Hs Hb Hl Hc Hh; [discriminate|].
  cbn [ChannelRead_loop]. cbv zeta.
  set (hw := writer_hw_count (dma channel)) in *.
  set (sw := writer_sw_count (dma channel)) in *.
  set (T := INT32 (DMA_BUFFER_COUNT - DMA_BUFFER_PER_IRQ)).
  assert (Hq : 0 <= (length - bytesRead) / DMA_BUFFER_SIZE) by (apply Z.div_pos; lia).
  destruct (Z.ltb_spec bytesRead length) as [Hlt|Hge]; cbn [negb].
  2:{ intros [= <- <- <- <-].
      replace (length - bytesRead) with 0 by lia. rewrite Z.div_0_l by lia.
      rewrite Z.min_l by lia. cbn. repeat split; lia. }
  unfold SIZE_T. rewrite (UINT64_small (length - bytesRead)), (UINT64_small DMA_BUFFER_SIZE) by lia.
  destruct (Z.ltb_spec (length - bytesRead) DMA_BUFFER_SIZE) as [Hsmall|Hroom].
  { intros [= <- <- <- <-].
    rewrite Z.div_small by lia. rewrite Z.min_l by lia. cbn. repeat split; lia. }
  rewrite (INT64_small (hw - sw)) by lia.
  destruct (Z.gtb_spec (hw - sw) 0) as [Hav|Hnone].
  2:{ intros [= <- <- <- <-].
      replace (hw - sw) with 0 by lia. rewrite Z.min_r by lia. cbn. repeat split; lia. }
  rewrite (INT64_small (sw + 1)), (UINT64_small (bytesRead + DMA_BUFFER_SIZE)) by lia.
  loop_call ChannelRead_loop fuel E.
  intros [= <- <- <- <-].
  apply IH in E; try assumption; cbn [dma set_dma writer_hw_count writer_sw_count
    set_writer_sw_count writer_handle] in *; try lia.
  fold hw sw in E.
  replace (length - (bytesRead + DMA_BUFFER_SIZE)) with (length - bytesRead - DMA_BUFFER_SIZE)
    in E by ring.
  rewrite div_sub_one in E by lia.
  assert (1 <= (length - bytesRead) / DMA_BUFFER_SIZE).
  { apply Z.div_le_lower_bound; lia. }
  set (q := (length - bytesRead) / DMA_BUFFER_SIZE) in *.
  destruct E as (Hn & Hbb & Hbuf & Hoff & Hrep & Hov).
  assert (En : Z.min q (hw - sw) = Z.min (q - 1) (hw - (sw + 1)) + 1) by lia.
  rewrite En.
  rewrite Z2Nat.inj_add, Nat.add_1_r by lia.
  split; [lia|]. split; [lia|].
  split; [cbn [app copied_buffers arith_seq map]; rewrite Hbuf; reflexivity|].
  split; [cbn [app copy_offsets arith_seq]; rewrite Hoff; reflexivity|].
  split; [cbn [app overflow_reports]; exact Hrep|].
  intros Ho Hsum. unfold count_overflow in Hov. fold T in Hov.
  destruct (Z.gtb_spec (hw - sw) T).
  - rewrite UINT32_small in Hov by lia. rewrite Hov by lia. lia.
  - rewrite Hov by lia. lia.
Qed.

(** The loop of [litepciedrv_ChannelWrite] from consistent counters: how far
    it gets, which ring slots it copies, where in the request's memory it
    puts them, and how many overflows it counts. *)
Lemma ChannelWrite_loop_exact fuel : forall channel inBuf length bytesWritten overflows c b o tr,
  0 < DMA_BUFFER_SIZE < 2 ^ 31 ->
  0 <= bytesWritten <= length -> length < 2 ^ 64 ->
  0 <= reader_sw_count (dma channel) <= reader_hw_count (dma channel) ->
  reader_hw_count (dma channel) < 2 ^ 63 ->
  ChannelWrite_loop fuel channel inBuf length bytesWritten overflows = Some (c, b, o, tr) ->
  let available := reader_hw_count (dma channel) - reader_sw_count (dma channel) in
  let n := buffers_served (length - bytesWritten) available in
  0 <= n
  /\ b = bytesWritten + n * DMA_BUFFER_SIZE
  /\ copied_buffers tr
     = map (fun s => nth (Z.to_nat (Z.rem s DMA_BUFFER_COUNT)) (reader_handle (dma channel)) 0)
         (arith_seq (reader_sw_count (dma channel)) 1 (Z.to_nat n))
  /\ copy_offsets tr = arith_seq bytesWritten DMA_BUFFER_SIZE (Z.to_nat n)
  /\ overflow_reports tr = []
  /\ (0 <= overflows -> overflows + n < 2 ^ 32 ->
      o = overflows + overflows_counted n available).
Proof.
  unfold buffers_served, overflows_counted.
  induction fuel as [|fuel IH]; intros channel inBuf length bytesWritten overflows c b o tr
    Hs Hb Hl Hc Hh; [discriminate|].
  cbn [ChannelWrite_loop]. cbv zeta.
  set (hw := reader_hw_count (dma channel)) in *.
  set (sw := reader_sw_count (dma channel)) in *.
  set (T := INT32 (DMA_BUFFER_COUNT - DMA_BUFFER_PER_IRQ)).
  assert (Hq : 0 <= (length - bytesWritten) / DMA_BUFFER_SIZE) by (apply Z.div_pos; lia).
  destruct (Z.ltb_spec bytesWritten length) as [Hlt|Hge]; cbn [negb].
  2:{ intros [= <- <- <- <-].
      replace (length - bytesWritten) with 0 by lia. rewrite Z.div_0_l by lia.
      rewrite Z.min_l by lia. cbn. repeat split; lia. }
  unfold SIZE_T. rewrite (UINT64_small (length - bytesWritten)), (UINT64_small DMA_BUFFER_SIZE) by lia.
  destruct (Z.ltb_spec (length - bytesWritten) DMA_BUFFER_SIZE) as [Hsmall|Hroom].
  { intros [= <- <- <- <-].
    rewrite Z.div_small by lia. rewrite Z.min_l by lia. cbn. repeat split; lia. }
  rewrite (INT64_small (hw - sw)) by lia.
  destruct (Z.gtb_spec (hw - sw) 0) as [Hav|Hnone].
  2:{ intros [= <- <- <- <-].
      replace (hw - sw) with 0 by lia. rewrite Z.min_r by lia. cbn. repeat split; lia. }
  rewrite (INT64_small (sw + 1)), (UINT64_small (bytesWritten + DMA_BUFFER_SIZE)) by lia.
  loop_call ChannelWrite_loop fuel E.
  intros [= <- <- <- <-].
  apply IH in E; try assumption; cbn [dma set_dma reader_hw_count reader_sw_count
    set_reader_sw_count reader_handle] in *; try lia.
  fold hw sw in E.
  replace (length - (bytesWritten + DMA_BUFFER_SIZE)) with (length - bytesWritten - DMA_BUFFER_SIZE)
    in E by ring.
  rewrite div_sub_one in E by lia.
  assert (1 <= (length - bytesWritten) / DMA_BUFFER_SIZE).
  { apply Z.div_le_lower_bound; lia. }
  set (q := (length - bytesWritten) / DMA_BUFFER_SIZE) in *.
  destruct E as (Hn & Hbb & Hbuf & Hoff & Hrep & Hov).
  assert (En : Z.min q (hw - sw) = Z.min (q - 1) (hw - (sw + 1)) + 1) by lia.
  rewrite En.
  rewrite Z2Nat.inj_add, Nat.add_1_r by lia.
  split; [lia|]. split; [lia|].
  split; [cbn [app copied_buffers arith_seq map]; rewrite Hbuf; reflexivity|].
  split; [cbn [app copy_offsets arith_seq]; rewrite Hoff; reflexivity|].
  split; [cbn [app overflow_reports]; exact Hrep|].
  intros Ho Hsum. unfold count_overflow in Hov. fold T in Hov.
  destruct (Z.gtb_spec (hw - sw) T).
  - rewrite UINT32_small in Hov by lia. rewrite Hov by lia. lia.
  - rewrite Hov by lia. lia.
Qed.

End ExactProofs.

Lemma copied_buffers_app t1 t2 : copied_buffers (t1 ++ t2) = copied_buffers t1 ++ copied_buffers t2.
Proof.
  induction t1 as [|e t1 IH]; [reflexivity|].
  destruct e; cbn; rewrite ?IH; reflexivity.
Qed.

Lemma copy_offsets_app t1 t2 : copy_offsets (t1 ++ t2) = copy_offsets t1 ++ copy_offsets t2.
Proof.
  induction t1 as [|e t1 IH]; [reflexivity|].
  destruct e; cbn; rewrite ?IH; reflexivity.
Qed.

Lemma overflow_reports_app t1 t2 :
  overflow_reports (t1 ++ t2) = overflow_reports t1 ++ overflow_reports t2.
Proof.
  induction t1 as [|e t1 IH]; [reflexivity|].
  destruct e; cbn; rewrite ?IH; reflexivity.
Qed.

Section PassProofs.
Context {H : driver_h} {W : wdf_request_memory}.

(** A read pass from consistent counters, with a retrievable memory
    object, in full. *)
Lemma ChannelRead_exact channel request length :
  0 < DMA_BUFFER_SIZE < 2 ^ 31 -> 0 <= length < 2 ^ 64 ->
  0 <= writer_sw_count (dma channel) <= writer_hw_count (dma channel) ->
  writer_hw_count (dma channel) < 2 ^ 63 ->
  NT_SUCCESS (fst (WdfRequestRetrieveOutputMemory request)) = true ->
  let available := writer_hw_count (dma channel) - writer_sw_count (dma channel) in
  let n := buffers_served length available in
  exists channel' tr,
    litepciedrv_ChannelRead channel request length = Some (channel', tr)
    /\ 0 <= n
    /\ bytes_copied tr = n * DMA_BUFFER_SIZE
    /\ writer_sw_count (dma channel') = writer_sw_count (dma channel) + n
    /\ writer_hw_count (dma channel') = writer_hw_count (dma channel)
    /\ completions tr
       = (if 0 <? n then [(request, STATUS_SUCCESS, n * DMA_BUFFER_SIZE)] else [])
    /\ readRequest (dma channel') = (if 0 <? n then None else Some request)
    /\ copied_buffers tr
       = map (fun s => nth (Z.to_nat (Z.rem s DMA_BUFFER_COUNT))
                         (writer_handle (dma channel)) 0)
           (arith_seq (writer_sw_count (dma channel)) 1 (Z.to_nat n))
    /\ copy_offsets tr = arith_seq 0 DMA_BUFFER_SIZE (Z.to_nat n)
    /\ (available < 2 ^ 32 ->
        overflow_reports tr
        = (if 0 <? overflows_counted n available
           then [overflows_counted n available] else [])).
Proof.
  intros Hs Hl Hc Hh Hok available n.
  unfold litepciedrv_ChannelRead.
  destruct (WdfRequestRetrieveOutputMemory request) as [status outBuf]. cbn in Hok.
  rewrite Hok. cbn [negb].
  destruct (ChannelRead_loop_total (ChannelRead_fuel channel) channel outBuf length 0 0)
    as [[[[c b] o] tr] E]; [unfold ChannelRead_fuel; lia|].
  rewrite E.
  destruct (ChannelRead_loop_frame _ _ _ _ _ _ _ _ _ _ E) as [Hcomp [sw Hframe]].
  destruct (ChannelRead_loop_counts _ _ _ _ _ _ _ _ _ _ Hc Hh E) as [Hsw _].
  destruct (ChannelRead_loop_bytes (ChannelRead_fuel channel) channel outBuf length 0 0
              c b o tr Hs) as [_ [Hbytes _]]; [lia|lia|exact E|].
  destruct (ChannelRead_loop_exact (ChannelRead_fuel channel) channel outBuf length 0 0
              c b o tr Hs) as (Hn & Hb & Hbuf & Hoff & Hrep & Hov); [lia|lia|exact Hc|exact Hh|exact E|].
  rewrite Z.sub_0_r in Hn, Hb, Hbuf, Hoff, Hov, Hbytes. fold available in Hn, Hb, Hbuf, Hoff, Hov.
  fold n in Hn, Hb, Hbuf, Hoff, Hov. cbn [Z.add] in Hb.
  assert (Hlen : Z.of_nat (List.length (copied_buffers tr)) = n).
  { rewrite Hbuf. rewrite length_map, arith_seq_length. lia. }
  rewrite Hlen in Hsw.
  assert (Hhw : writer_hw_count (dma c) = writer_hw_count (dma channel))
    by (rewrite Hframe; reflexivity).
  assert (Hpos : 0 < DMA_BUFFER_SIZE) by lia.
  assert (Hreport : forall r : list event,
             r = (if o >? 0 then [TraceOverflow o] else []) ->
             completions r = [] /\ bytes_copied r = 0 /\ copied_buffers r = []
             /\ copy_offsets r = []
             /\ overflow_reports r = (if 0 <? o then [o] else [])).
  { intros r ->. rewrite Z.gtb_ltb. destruct (0 <? o); repeat split. }
  destruct (Hreport _ eq_refl) as (R1 & R2 & R3 & R4 & R5).
  assert (Hovf : available < 2 ^ 32 ->
                 (if 0 <? o then [o] else [])
                 = (if 0 <? overflows_counted n available
                    then [overflows_counted n available] else [])).
  { intros Ha. rewrite Hov; [reflexivity|lia|].
    unfold n, buffers_served in *. lia. }
  destruct (Z.gtb_spec b 0) as [Hbpos|Hbzero].
  - assert (Hnpos : 0 < n) by nia.
    destruct (Z.ltb_spec 0 n) as [_|]; [|lia].
    do 2 eexists. split; [reflexivity|].
    rewrite !bytes_copied_app, !completions_app, !copied_buffers_app, !copy_offsets_app,
      !overflow_reports_app, R1, R2, R3, R4, R5, Hcomp, Hrep, Hbytes, Hb.
    cbn [dma set_dma writer_sw_count writer_hw_count readRequest set_readRemainingBytes
         set_readRequest app completions bytes_copied copied_buffers copy_offsets
         overflow_reports].
    rewrite !app_nil_r, Z.add_0_r.
    repeat split; auto.
  - assert (Hnz : n = 0) by nia.
    destruct (Z.ltb_spec 0 n) as [|_]; [lia|].
    do 2 eexists. split; [reflexivity|].
    rewrite !bytes_copied_app, !completions_app, !copied_buffers_app, !copy_offsets_app,
      !overflow_reports_app, R1, R2, R3, R4, R5, Hcomp, Hrep, Hbytes, Hb.
    cbn [dma set_dma writer_sw_count writer_hw_count readRequest set_readRemainingBytes
         set_readRequest app completions bytes_copied copied_buffers copy_offsets
         overflow_reports].
    rewrite ?app_nil_r, ?Z.add_0_r.
    repeat split; auto; lia.
Qed.

(** A write pass from consistent counters, with a retrievable memory
    object, in full. *)
Lemma ChannelWrite_exact channel request length :
  0 < DMA_BUFFER_SIZE < 2 ^ 31 -> 0 <= length < 2 ^ 64 ->
  0 <= reader_sw_count (dma channel) <= reader_hw_count (dma channel) ->
  reader_hw_count (dma channel) < 2 ^ 63 ->
  NT_SUCCESS (fst (WdfRequestRetrieveInputMemory request)) = true ->
  let available := reader_hw_count (dma channel) - reader_sw_count (dma channel) in
  let n := buffers_served length available in
  exists channel' tr,
    litepciedrv_ChannelWrite channel request length = Some (channel', tr)
    /\ 0 <= n
    /\ bytes_copied tr = n * DMA_BUFFER_SIZE
    /\ reader_sw_count (dma channel') = reader_sw_count (dma channel) + n
    /\ reader_hw_count (dma channel') = reader_hw_count (dma channel)
    /\ completions tr
       = (if 0 <? n then [(request, STATUS_SUCCESS, n * DMA_BUFFER_SIZE)] else [])
    /\ writeRequest (dma channel') = (if 0 <? n then None else Some request)
    /\ copied_buffers tr
       = map (fun s => nth (Z.to_nat (Z.rem s DMA_BUFFER_COUNT))
                         (reader_handle (dma channel)) 0)
           (arith_seq (reader_sw_count (dma channel)) 1 (Z.to_nat n))
    /\ copy_offsets tr = arith_seq 0 DMA_BUFFER_SIZE (Z.to_nat n)
    /\ (available < 2 ^ 32 ->
        overflow_reports tr
        = (if 0 <? overflows_counted n available
           then [overflows_counted n available] else [])).
Proof.
  intros Hs Hl Hc Hh Hok available n.
  unfold litepciedrv_ChannelWrite.
  destruct (WdfRequestRetrieveInputMemory request) as [status inBuf]. cbn in Hok.
  rewrite Hok. cbn [negb].
  destruct (ChannelWrite_loop_total (ChannelWrite_fuel channel) channel inBuf length 0 0)
    as [[[[c b] o] tr] E]; [unfold ChannelWrite_fuel; lia|].
  rewrite E.
  destruct (ChannelWrite_loop_frame _ _ _ _ _ _ _ _ _ _ E) as [Hcomp [sw Hframe]].
  destruct (ChannelWrite_loop_counts _ _ _ _ _ _ _ _ _ _ Hc Hh E) as [Hsw _].
  destruct (ChannelWrite_loop_bytes (ChannelWrite_fuel channel) channel inBuf length 0 0
              c b o tr Hs) as [_ [Hbytes _]]; [lia|lia|exact E|].
  destruct (ChannelWrite_loop_exact (ChannelWrite_fuel channel) channel inBuf length 0 0
              c b o tr Hs) as (Hn & Hb & Hbuf & Hoff & Hrep & Hov); [lia|lia|exact Hc|exact Hh|exact E|].
  rewrite Z.sub_0_r in Hn, Hb, Hbuf, Hoff, Hov, Hbytes. fold available in Hn, Hb, Hbuf, Hoff, Hov.
  fold n in Hn, Hb, Hbuf, Hoff, Hov. cbn [Z.add] in Hb.
  assert (Hlen : Z.of_nat (List.length (copied_buffers tr)) = n).
  { rewrite Hbuf. rewrite length_map, arith_seq_length. lia. }
  rewrite Hlen in Hsw.
  assert (Hhw : reader_hw_count (dma c) = reader_hw_count (dma channel))
    by (rewrite Hframe; reflexivity).
  assert (Hpos : 0 < DMA_BUFFER_SIZE) by lia.
  assert (Hreport : forall r : list event,
             r = (if o >? 0 then [TraceOverflow o] else []) ->
             completions r = [] /\ bytes_copied r = 0 /\ copied_buffers r = []
             /\ copy_offsets r = []
             /\ overflow_reports r = (if 0 <? o then [o] else [])).
  { intros r ->. rewrite Z.gtb_ltb. destruct (0 <? o); repeat split. }
  destruct (Hreport _ eq_refl) as (R1 & R2 & R3 & R4 & R5).
  assert (Hovf : available < 2 ^ 32 ->
                 (if 0 <? o then [o] else [])
                 = (if 0 <? overflows_counted n available
                    then [overflows_counted n available] else [])).
  { intros Ha. rewrite Hov; [reflexivity|lia|].
    unfold n, buffers_served in *. lia. }
  destruct (Z.gtb_spec b 0) as [Hbpos|Hbzero].
  - assert (Hnpos : 0 < n) by nia.
    destruct (Z.ltb_spec 0 n) as [_|]; [|lia].
    do 2 eexists. split; [reflexivity|].
    rewrite !bytes_copied_app, !completions_app, !copied_buffers_app, !copy_offsets_app,
      !overflow_reports_app, R1, R2, R3, R4, R5, Hcomp, Hrep, Hbytes, Hb.
    cbn [dma set_dma reader_sw_count reader_hw_count writeRequest set_writeRemainingBytes
         set_writeRequest app completions bytes_copied copied_buffers copy_offsets
         overflow_reports].
    rewrite !app_nil_r, Z.add_0_r.
    repeat split; auto.
  - assert (Hnz : n = 0) by nia.
    destruct (Z.ltb_spec 0 n) as [|_]; [lia|].
    do 2 eexists. split; [reflexivity|].
    rewrite !bytes_copied_app, !completions_app, !copied_buffers_app, !copy_offsets_app,
      !overflow_reports_app, R1, R2, R3, R4, R5, Hcomp, Hrep, Hbytes, Hb.
    cbn [dma set_dma reader_sw_count reader_hw_count writeRequest set_writeRemainingBytes
         set_writeRequest app completions bytes_copied copied_buffers copy_offsets
         overflow_reports].
    rewrite ?app_nil_r, ?Z.add_0_r.
    repeat split; auto; lia.
Qed.

(** X1. A read or write pass whose memory object is retrieved, started
    with [0 <= sw_count <= hw_count], moves exactly
    [min (length / DMA_BUFFER_SIZE) (hw_count - sw_count)] buffers: that many
    times [DMA_BUFFER_SIZE] bytes are copied and reported in the completion,
    [sw_count] advances by that number and [hw_count] is left alone.  A
    request for more buffers than are available is completed short; only a
    pass that moves nothing parks the request. *)
Theorem pass_moves_min_of_room_and_available (channel : LITEPCIE_CHAN)
    (request : WDFREQUEST) (length : Z) :
  0 < DMA_BUFFER_SIZE < 2 ^ 31 -> 0 <= length < 2 ^ 64 ->
  (0 <= writer_sw_count (dma channel) <= writer_hw_count (dma channel) ->
   writer_hw_count (dma channel) < 2 ^ 63 ->
   NT_SUCCESS (fst (WdfRequestRetrieveOutputMemory request)) = true ->
   exists channel' tr,
     litepciedrv_ChannelRead channel request length = Some (channel', tr)
     /\ let n := buffers_served length
                   (writer_hw_count (dma channel) - writer_sw_count (dma channel)) in
        bytes_copied tr = n * DMA_BUFFER_SIZE
        /\ writer_sw_count (dma channel') = writer_sw_count (dma channel) + n
        /\ writer_hw_count (dma channel') = writer_hw_count (dma channel)
        /\ completions tr
           = (if 0 <? n then [(request, STATUS_SUCCESS, n * DMA_BUFFER_SIZE)] else [])
        /\ readRequest (dma channel') = (if 0 <? n then None else Some request))
  /\ (0 <= reader_sw_count (dma channel) <= reader_hw_count (dma channel) ->
      reader_hw_count (dma channel) < 2 ^ 63 ->
      NT_SUCCESS (fst (WdfRequestRetrieveInputMemory request)) = true ->
      exists channel' tr,
        litepciedrv_ChannelWrite channel request length = Some (channel', tr)
        /\ let n := buffers_served length
                      (reader_hw_count (dma channel) - reader_sw_count (dma channel)) in
           bytes_copied tr = n * DMA_BUFFER_SIZE
           /\ reader_sw_count (dma channel') = reader_sw_count (dma channel) + n
           /\ reader_hw_count (dma channel') = reader_hw_count (dma channel)
           /\ completions tr
              = (if 0 <? n then [(request, STATUS_SUCCESS, n * DMA_BUFFER_SIZE)] else [])
           /\ writeRequest (dma channel') = (if 0 <? n then None else Some request)).
Proof.
  intros Hs Hl. split; intros Hc Hh Hok.
  - destruct (ChannelRead_exact channel request length Hs Hl Hc Hh Hok)
      as (c & tr & E & _ & A1 & A2 & A3 & A4 & A5 & _).
    exists c, tr. cbv zeta. repeat split; assumption.
  - destruct (ChannelWrite_exact channel request length Hs Hl Hc Hh Hok)
      as (c & tr & E & _ & A1 & A2 & A3 & A4 & A5 & _).
    exists c, tr. cbv zeta. repeat split; assumption.
Qed.

(** X2. The buffers of such a pass are taken in ring order and laid out
    back to back: the [j]-th copy moves the slot [(sw_count + j) %
    DMA_BUFFER_COUNT] of the ring, [sw_count] being the count at entry, and
    starts at offset [j * DMA_BUFFER_SIZE] of the request's memory. *)
Theorem pass_copies_in_ring_order (channel : LITEPCIE_CHAN) (request : WDFREQUEST)
    (length : Z) :
  0 < DMA_BUFFER_SIZE < 2 ^ 31 -> 0 <= length < 2 ^ 64 ->
  (0 <= writer_sw_count (dma channel) <= writer_hw_count (dma channel) ->
   writer_hw_count (dma channel) < 2 ^ 63 ->
   NT_SUCCESS (fst (WdfRequestRetrieveOutputMemory request)) = true ->
   exists channel' tr,
     litepciedrv_ChannelRead channel request length = Some (channel', tr)
     /\ let n := Z.to_nat (buffers_served length
                   (writer_hw_count (dma channel) - writer_sw_count (dma channel))) in
        copied_buffers tr
        = map (fun s => nth (Z.to_nat (Z.rem s DMA_BUFFER_COUNT))
                          (writer_handle (dma channel)) 0)
            (arith_seq (writer_sw_count (dma channel)) 1 n)
        /\ copy_offsets tr = arith_seq 0 DMA_BUFFER_SIZE n)
  /\ (0 <= reader_sw_count (dma channel) <= reader_hw_count (dma channel) ->
      reader_hw_count (dma channel) < 2 ^ 63 ->
      NT_SUCCESS (fst (WdfRequestRetrieveInputMemory request)) = true ->
      exists channel' tr,
        litepciedrv_ChannelWrite channel request length = Some (channel', tr)
        /\ let n := Z.to_nat (buffers_served length
                      (reader_hw_count (dma channel) - reader_sw_count (dma channel))) in
           copied_buffers tr
           = map (fun s => nth (Z.to_nat (Z.rem s DMA_BUFFER_COUNT))
                             (reader_handle (dma channel)) 0)
               (arith_seq (reader_sw_count (dma channel)) 1 n)
           /\ copy_offsets tr = arith_seq 0 DMA_BUFFER_SIZE n).
Proof.
  intros Hs Hl. split; intros Hc Hh Hok.
  - destruct (ChannelRead_exact channel request length Hs Hl Hc Hh Hok)
      as (c & tr & E & _ & _ & _ & _ & _ & _ & A6 & A7 & _).
    exists c, tr. cbv zeta. repeat split; assumption.
  - destruct (ChannelWrite_exact channel request length Hs Hl Hc Hh Hok)
      as (c & tr & E & _ & _ & _ & _ & _ & _ & A6 & A7 & _).
    exists c, tr. cbv zeta. repeat split; assumption.
Qed.

(** X3. Such a pass, entered with fewer than [2^32] buffers available,
    counts one overflow for every buffer it moves while more than
    [DMA_BUFFER_COUNT - DMA_BUFFER_PER_IRQ] buffers are available, moves the
    buffer all the same, and reports the count once, after the loop, when it
    is not zero. *)
Theorem pass_reports_overflows (channel : LITEPCIE_CHAN) (request : WDFREQUEST)
    (length : Z) :
  0 < DMA_BUFFER_SIZE < 2 ^ 31 -> 0 <= length < 2 ^ 64 ->
  (0 <= writer_sw_count (dma channel) <= writer_hw_count (dma channel) ->
   writer_hw_count (dma channel) - writer_sw_count (dma channel) < 2 ^ 32 ->
   writer_hw_count (dma channel) < 2 ^ 63 ->
   NT_SUCCESS (fst (WdfRequestRetrieveOutputMemory request)) = true ->
   exists channel' tr,
     litepciedrv_ChannelRead channel request length = Some (channel', tr)
     /\ let available := writer_hw_count (dma channel) - writer_sw_count (dma channel) in
        let n := buffers_served length available in
        bytes_copied tr = n * DMA_BUFFER_SIZE
        /\ overflow_reports tr
           = (if 0 <? overflows_counted n available
              then [overflows_counted n available] else []))
  /\ (0 <= reader_sw_count (dma channel) <= reader_hw_count (dma channel) ->
      reader_hw_count (dma channel) - reader_sw_count (dma channel) < 2 ^ 32 ->
      reader_hw_count (dma channel) < 2 ^ 63 ->
      NT_SUCCESS (fst (WdfRequestRetrieveInputMemory request)) = true ->
      exists channel' tr,
        litepciedrv_ChannelWrite channel request length = Some (channel', tr)
        /\ let available := reader_hw_count (dma channel) - reader_sw_count (dma channel) in
           let n := buffers_served length available in
           bytes_copied tr = n * DMA_BUFFER_SIZE
           /\ overflow_reports tr
              = (if 0 <? overflows_counted n available
                 then [overflows_counted n available] else [])).
Proof.
  intros Hs Hl. split; intros Hc Ha Hh Hok.
  - destruct (ChannelRead_exact channel request length Hs Hl Hc Hh Hok)
      as (c & tr & E & _ & A1 & _ & _ & _ & _ & _ & _ & A8).
    exists c, tr. cbv zeta. split; [exact E|]. split; [exact A1|apply A8; exact Ha].
  - destruct (ChannelWrite_exact channel request length Hs Hl Hc Hh Hok)
      as (c & tr & E & _ & A1 & _ & _ & _ & _ & _ & _ & A8).
    exists c, tr. cbv zeta. split; [exact E|]. split; [exact A1|apply A8; exact Ha].
Qed.

End PassProofs.

(** ** [leftmost_bit] and the reconstructed count *)

(** X4. On every non-zero 32-bit value [leftmost_bit] returns the position
    of the highest set bit, [2^r <= x < 2^(r+1)], and on 0 it returns 0 (as
    on 1); the result is below 32. *)
Theorem leftmost_bit_is_highest_set_bit (x : Z) :
  0 <= x < 2 ^ 32 ->
  0 <= leftmost_bit x < 32
  /\ (0 < x -> 2 ^ leftmost_bit x <= x < 2 ^ (leftmost_bit x + 1))
  /\ (x = 0 -> leftmost_bit x = 0).
Proof.
  intros Hx. rewrite leftmost_bit_fuel, UINT32_small by exact Hx.
  split; [|split].
  - split; [apply Z.log2_nonneg|].
    destruct (Z.eq_dec x 0) as [->|Hnz]; [cbn; lia|].
    apply Z.log2_lt_pow2; lia.
  - intros Hp. pose proof (Z.log2_spec x Hp) as S.
    rewrite <- Z.add_1_r in S. exact S.
  - intros ->. reflexivity.
Qed.

Lemma land_multiple_small x v j :
  0 <= j -> 0 <= v < 2 ^ j -> Z.land (x - x mod 2 ^ j) v = 0.
Proof.
  intros Hj Hv.
  rewrite <- (land_opp_pow2 x j Hj), <- Z.land_assoc, (Z.land_comm (- 2 ^ j) v).
  rewrite (land_opp_pow2 v j Hj), Z.mod_small, Z.sub_diag by exact Hv.
  apply Z.land_0_r.
Qed.

Section CountProofs.
Context {H : driver_h}.
Variable k : Z.
Hypothesis Hk : 0 <= k <= 15.
Hypothesis HN : DMA_BUFFER_COUNT = 2 ^ k.

(** A raw status whose index is inside the ring stands for a count below
    the wrap increment, with no 32-bit wrap in its computation. *)
Lemma loop_status_count_exact loop_status :
  0 <= loop_status < 2 ^ 32 ->
  Z.land loop_status 0xffff < DMA_BUFFER_COUNT ->
  loop_status_count loop_status
  = Z.shiftr loop_status 16 * DMA_BUFFER_COUNT + Z.land loop_status 0xffff
  /\ 0 <= loop_status_count loop_status < 2 ^ (k + 16).
Proof.
  intros Hl Hi. unfold loop_status_count. rewrite HN in *.
  assert (Hp : 0 < 2 ^ k <= 2 ^ 15) by (split; [apply Z.pow_pos_nonneg|apply Z.pow_le_mono_r]; lia).
  assert (Hs : 0 <= Z.shiftr loop_status 16 < 2 ^ 16).
  { rewrite Z.shiftr_div_pow2 by lia.
    split; [apply Z.div_pos; lia|apply Z.div_lt_upper_bound; lia]. }
  assert (Hm : 0 <= Z.land loop_status 0xffff).
  { apply Z.land_nonneg. lia. }
  assert (Hw : 2 ^ (k + 16) = 2 ^ k * 2 ^ 16) by (rewrite Z.pow_add_r; lia).
  rewrite (UINT32_small (2 ^ k)) by lia.
  rewrite (UINT32_small (Z.shiftr loop_status 16 * 2 ^ k)) by nia.
  rewrite UINT32_small by nia.
  split; [reflexivity|nia].
Qed.

(** X5. Reconciling a consistent, non-negative counter pair with a raw
    status whose index lies inside the ring yields the least count that is
    not below the previous one and agrees with the raw count
    [loop * DMA_BUFFER_COUNT + index] modulo the wrap increment
    [2^(k+16)]: the count advances by less than one wrap increment and its
    low [k+16] bits are the raw count. *)
Theorem reconcile_is_least_congruent_count (loop_status hw : Z) :
  0 <= loop_status < 2 ^ 32 ->
  Z.land loop_status 0xffff < DMA_BUFFER_COUNT ->
  0 <= hw -> hw + 2 ^ 33 <= 2 ^ 63 ->
  let raw := Z.shiftr loop_status 16 * DMA_BUFFER_COUNT + Z.land loop_status 0xffff in
  let hw' := hw_count_update loop_status hw hw in
  hw <= hw' < hw + 2 ^ (k + 16)
  /\ hw' mod 2 ^ (k + 16) = raw
  /\ forall x, hw <= x -> x mod 2 ^ (k + 16) = raw -> hw' <= x.
Proof.
  intros Hl Hi H0 Hb raw hw'.
  destruct (loop_status_count_exact loop_status Hl Hi) as [Ev Hv]. fold raw in Ev.
  pose proof (wrap_pos k Hk) as Hw.
  assert (Hw0 : 0 < 2 ^ (k + 16)) by lia.
  assert (Ehw : hw' = if hw >? hw - hw mod 2 ^ (k + 16) + raw
                      then hw - hw mod 2 ^ (k + 16) + raw + 2 ^ (k + 16)
                      else hw - hw mod 2 ^ (k + 16) + raw).
  { subst hw'. unfold hw_count_update, hw_count_merge.
    rewrite (hw_count_masked k Hk HN), (wrap_increment_pow2 k Hk HN), Ev by lia.
    rewrite Ev in Hv.
    pose proof (Z.add_lor_land (hw - hw mod 2 ^ (k + 16)) raw) as Ea.
    rewrite land_multiple_small in Ea by lia.
    replace (Z.lor (hw - hw mod 2 ^ (k + 16)) raw) with (hw - hw mod 2 ^ (k + 16) + raw) by lia.
    pose proof (Z.mod_pos_bound hw (2 ^ (k + 16)) Hw0).
    destruct (hw >? _); [rewrite INT64_small by lia|]; reflexivity. }
  rewrite Ev in Hv.
  pose proof (Z.mod_pos_bound hw (2 ^ (k + 16)) Hw0) as Hm.
  pose proof (Z.div_mod hw (2 ^ (k + 16)) ltac:(lia)) as Hd.
  set (W := 2 ^ (k + 16)) in *. set (q := hw / W) in *. set (l := hw mod W) in *.
  assert (Ea : hw - l = W * q) by lia.
  assert (Hmod : forall t, (W * t + raw) mod W = raw).
  { intros t. rewrite Z.add_comm, Z.mul_comm, Z_mod_plus_full. apply Z.mod_small. lia. }
  rewrite Ea in Ehw.
  split; [|split].
  - destruct (Z.gtb_spec hw (W * q + raw)); lia.
  - destruct (Z.gtb_spec hw (W * q + raw)); rewrite Ehw.
    + replace (W * q + raw + W) with (W * (q + 1) + raw) by ring. apply Hmod.
    + apply Hmod.
  - intros x Hx Hxm.
    pose proof (Z.div_mod x W ltac:(lia)) as Hxd. rewrite Hxm in Hxd.
    set (t := x / W) in *.
    destruct (Z.gtb_spec hw (W * q + raw)); rewrite Ehw.
    + assert (q < t) by nia. nia.
    + assert (q <= t) by nia. nia.
Qed.

End CountProofs.

(** A request for five buffers on a ring of 8 buffers of 4096 bytes: the
    read finds three buffers available and is completed with three, the
    write finds two and is completed with two. *)
Lemma pass_moves_min_of_room_and_available_witness :
  let H8 := sample_driver_h 8 4096 8 in
  let M := sample_request_memory in
  let channel := sample_chan 5 5 3 10 10 7 None None 0 0 in
  (exists channel' tr,
     @litepciedrv_ChannelRead H8 M channel 7 20480 = Some (channel', tr)
     /\ bytes_copied tr = 12288
     /\ writer_sw_count (dma channel') = 10
     /\ writer_hw_count (dma channel') = 10
     /\ completions tr = [(7, STATUS_SUCCESS, 12288)]
     /\ readRequest (dma channel') = None)
  /\ (exists channel' tr,
        @litepciedrv_ChannelWrite H8 M channel 7 20480 = Some (channel', tr)
        /\ bytes_copied tr = 8192
        /\ reader_sw_count (dma channel') = 5
        /\ reader_hw_count (dma channel') = 5
        /\ completions tr = [(7, STATUS_SUCCESS, 8192)]
        /\ writeRequest (dma channel') = None).
Proof.
  intros H8 M channel.
  destruct (@pass_moves_min_of_room_and_available H8 M channel 7 20480) as [R Wr];
    [cbn; lia|lia|].
  split.
  - destruct R as (c & tr & E & A); [cbn; lia|cbn; lia|reflexivity|].
    exists c, tr. split; [exact E|exact A].
  - destruct Wr as (c & tr & E & A); [cbn; lia|cbn; lia|reflexivity|].
    exists c, tr. split; [exact E|exact A].
Defined.

(** The same request: the read takes the slots 7, 0 and 1 of the ring
    (counts 7, 8, 9), the write the slots 3 and 4, at offsets 0, 4096, ... of
    the request's memory. *)
Lemma pass_copies_in_ring_order_witness :
  let H8 := sample_driver_h 8 4096 8 in
  let M := sample_request_memory in
  let channel := sample_chan 5 5 3 10 10 7 None None 0 0 in
  (exists channel' tr,
     @litepciedrv_ChannelRead H8 M channel 7 20480 = Some (channel', tr)
     /\ copied_buffers tr = [0x20007000; 0x20000000; 0x20001000]
     /\ copy_offsets tr = [0; 4096; 8192])
  /\ (exists channel' tr,
        @litepciedrv_ChannelWrite H8 M channel 7 20480 = Some (channel', tr)
        /\ copied_buffers tr = [0x10003000; 0x10004000]
        /\ copy_offsets tr = [0; 4096]).
Proof.
  intros H8 M channel.
  destruct (@pass_copies_in_ring_order H8 M channel 7 20480) as [R Wr];
    [cbn; lia|lia|].
  split.
  - destruct R as (c & tr & E & A); [cbn; lia|cbn; lia|reflexivity|].
    exists c, tr. split; [exact E|exact A].
  - destruct Wr as (c & tr & E & A); [cbn; lia|cbn; lia|reflexivity|].
    exists c, tr. split; [exact E|exact A].
Defined.

(** A ring of 8 buffers with an interrupt every 2 buffers: a read of three
    buffers entered with 7 available counts one overflow (7 > 6, then 6 and
    5 are not), a write entered with 2 available counts none. *)
Lemma pass_reports_overflows_witness :
  let H8 := sample_driver_h 8 4096 2 in
  let M := sample_request_memory in
  let channel := sample_chan 5 5 3 10 10 3 None None 0 0 in
  (exists channel' tr,
     @litepciedrv_ChannelRead H8 M channel 7 12288 = Some (channel', tr)
     /\ bytes_copied tr = 12288
     /\ overflow_reports tr = [1])
  /\ (exists channel' tr,
        @litepciedrv_ChannelWrite H8 M channel 7 12288 = Some (channel', tr)
        /\ bytes_copied tr = 8192
        /\ overflow_reports tr = []).
Proof.
  intros H8 M channel.
  destruct (@pass_reports_overflows H8 M channel 7 12288) as [R Wr];
    [cbn; lia|lia|].
  split.
  - destruct R as (c & tr & E & A); [cbn; lia|cbn; lia|cbn; lia|reflexivity|].
    exists c, tr. split; [exact E|exact A].
  - destruct Wr as (c & tr & E & A); [cbn; lia|cbn; lia|cbn; lia|reflexivity|].
    exists c, tr. split; [exact E|exact A].
Defined.

(** The highest set bit of 1024 is bit 10. *)
Lemma leftmost_bit_is_highest_set_bit_witness :
  0 <= leftmost_bit 1024 < 32
  /\ 2 ^ leftmost_bit 1024 <= 1024 < 2 ^ (leftmost_bit 1024 + 1).
Proof.
  destruct (leftmost_bit_is_highest_set_bit 1024) as (A & B & _); [lia|].
  split; [exact A|apply B; lia].
Defined.

(** A ring of 1024 buffers at count 2053: the raw status loop 0, index 10
    is the count 10, and the least count from 2053 on that ends in it is
    [2^26 + 10]. *)
Lemma reconcile_is_least_congruent_count_witness :
  let H1024 := sample_driver_h 1024 4096 8 in
  2053 <= @hw_count_update H1024 10 2053 2053 < 2053 + 2 ^ 26
  /\ @hw_count_update H1024 10 2053 2053 mod 2 ^ 26 = 10
  /\ forall x, 2053 <= x -> x mod 2 ^ 26 = 10 -> @hw_count_update H1024 10 2053 2053 <= x.
Proof.
  intros H1024.
  apply (@reconcile_is_least_congruent_count H1024 10 ltac:(lia) eq_refl 10 2053);
    cbn; lia.
Defined.

(** ** The deferred interrupt pass on a parked request *)

Section DpcPassProofs.
Context {H : driver_h} {W : wdf_request_memory}.
Variable k : Z.
Hypothesis Hk : 0 <= k <= 15.
Hypothesis HN : DMA_BUFFER_COUNT = 2 ^ k.

(** An interrupt pass of the writer half with its bit in the vector and a
    parked read whose memory object is retrieved. *)
Lemma dpc_writer_serves mmio irq_vector pChan clear_mask request :
  0 < DMA_BUFFER_SIZE < 2 ^ 31 ->
  Z.land irq_vector (irq_bit (writer_interrupt (dma pChan))) <> 0 ->
  readRequest (dma pChan) = Some request ->
  0 <= readRemainingBytes (dma pChan) < 2 ^ 64 ->
  0 <= writer_sw_count (dma pChan) <= writer_hw_count (dma pChan) ->
  writer_hw_count_last (dma pChan) = writer_hw_count (dma pChan) ->
  writer_hw_count (dma pChan) + 2 ^ 33 <= 2 ^ 63 ->
  NT_SUCCESS (fst (WdfRequestRetrieveOutputMemory request)) = true ->
  let hw' :=
    hw_count_update
      (litepciedrv_RegReadl mmio (base (dma pChan) + PCIE_DMA_WRITER_TABLE_LOOP_STATUS_OFFSET))
      (writer_hw_count (dma pChan)) (writer_hw_count (dma pChan)) in
  let n := buffers_served (readRemainingBytes (dma pChan))
             (hw' - writer_sw_count (dma pChan)) in
  exists pChan' clear_mask' tr,
    dpc_writer mmio irq_vector pChan clear_mask = Some (pChan', clear_mask', tr)
    /\ writer_hw_count (dma pChan') = hw'
    /\ writer_sw_count (dma pChan') = writer_sw_count (dma pChan) + n
    /\ bytes_copied tr = n * DMA_BUFFER_SIZE
    /\ completions tr
       = (if 0 <? n then [(request, STATUS_SUCCESS, n * DMA_BUFFER_SIZE)] else [])
    /\ readRequest (dma pChan') = (if 0 <? n then None else Some request).
Proof.
  intros Hs Hbit Hr Hl Hc Hlast Hb Hok hw' n.
  unfold dpc_writer.
  apply Z.eqb_neq in Hbit. rewrite Hbit. cbn [negb].
  set (ls := litepciedrv_RegReadl mmio _) in *.
  pose proof (hw_count_update_step k Hk HN ls (writer_hw_count (dma pChan))
                ltac:(lia) Hb) as Hstep. fold hw' in Hstep.
  cbn [writer_reconcile].
  rewrite Hlast. fold hw'.
  set (pChan1 := set_dma _ pChan).
  assert (E1 : readRequest (dma pChan1) = Some request) by (subst pChan1; exact Hr).
  assert (E2 : readRemainingBytes (dma pChan1) = readRemainingBytes (dma pChan)) by reflexivity.
  assert (E3 : writer_sw_count (dma pChan1) = writer_sw_count (dma pChan)) by reflexivity.
  assert (E4 : writer_hw_count (dma pChan1) = hw') by reflexivity.
  rewrite E1, E2.
  destruct (ChannelRead_exact pChan1 request (readRemainingBytes (dma pChan)) Hs Hl)
    as (c & tr & E & _ & A1 & A2 & A3 & A4 & A5 & _);
    [rewrite E3, E4; lia|rewrite E4; lia|exact Hok|].
  rewrite E. rewrite E3, E4 in *. fold n in A1, A2, A4, A5.
  do 3 eexists. split; [reflexivity|].
  rewrite completions_app, bytes_copied_app.
  replace (completions (reconcile_events _ _ _)) with (@nil (WDFREQUEST * NTSTATUS * Z))
    by (unfold reconcile_events; destruct (_ >? _); reflexivity).
  replace (bytes_copied (reconcile_events _ _ _)) with 0
    by (unfold reconcile_events; destruct (_ >? _); reflexivity).
  repeat split; assumption.
Qed.


(** An interrupt pass of the reader half with its bit in the vector and a
    parked write whose memory object is retrieved. *)
Lemma dpc_reader_serves mmio irq_vector pChan clear_mask request :
  0 < DMA_BUFFER_SIZE < 2 ^ 31 ->
  Z.land irq_vector (irq_bit (reader_interrupt (dma pChan))) <> 0 ->
  writeRequest (dma pChan) = Some request ->
  0 <= writeRemainingBytes (dma pChan) < 2 ^ 64 ->
  0 <= reader_sw_count (dma pChan) <= reader_hw_count (dma pChan) ->
  reader_hw_count_last (dma pChan) = reader_hw_count (dma pChan) ->
  reader_hw_count (dma pChan) + 2 ^ 33 <= 2 ^ 63 ->
  NT_SUCCESS (fst (WdfRequestRetrieveInputMemory request)) = true ->
  let hw' :=
    hw_count_update
      (litepciedrv_RegReadl mmio (base (dma pChan) + PCIE_DMA_READER_TABLE_LOOP_STATUS_OFFSET))
      (reader_hw_count (dma pChan)) (reader_hw_count (dma pChan)) in
  let n := buffers_served (writeRemainingBytes (dma pChan))
             (hw' - reader_sw_count (dma pChan)) in
  exists pChan' clear_mask' tr,
    dpc_reader mmio irq_vector pChan clear_mask = Some (pChan', clear_mask', tr)
    /\ reader_hw_count (dma pChan') = hw'
    /\ reader_sw_count (dma pChan') = reader_sw_count (dma pChan) + n
    /\ bytes_copied tr = n * DMA_BUFFER_SIZE
    /\ completions tr
       = (if 0 <? n then [(request, STATUS_SUCCESS, n * DMA_BUFFER_SIZE)] else [])
    /\ writeRequest (dma pChan') = (if 0 <? n then None else Some request).
Proof.
  intros Hs Hbit Hr Hl Hc Hlast Hb Hok hw' n.
  unfold dpc_reader.
  apply Z.eqb_neq in Hbit. rewrite Hbit. cbn [negb].
  set (ls := litepciedrv_RegReadl mmio _) in *.
  pose proof (hw_count_update_step k Hk HN ls (reader_hw_count (dma pChan))
                ltac:(lia) Hb) as Hstep. fold hw' in Hstep.
  cbn [reader_reconcile].
  rewrite Hlast. fold hw'.
  set (pChan1 := set_dma _ pChan).
  assert (E1 : writeRequest (dma pChan1) = Some request) by (subst pChan1; exact Hr).
  assert (E2 : writeRemainingBytes (dma pChan1) = writeRemainingBytes (dma pChan)) by reflexivity.
  assert (E3 : reader_sw_count (dma pChan1) = reader_sw_count (dma pChan)) by reflexivity.
  assert (E4 : reader_hw_count (dma pChan1) = hw') by reflexivity.
  rewrite E1, E2.
  destruct (ChannelWrite_exact pChan1 request (writeRemainingBytes (dma pChan)) Hs Hl)
    as (c & tr & E & _ & A1 & A2 & A3 & A4 & A5 & _);
    [rewrite E3, E4; lia|rewrite E4; lia|exact Hok|].
  rewrite E. rewrite E3, E4 in *. fold n in A1, A2, A4, A5.
  do 3 eexists. split; [reflexivity|].
  rewrite completions_app, bytes_copied_app.
  replace (completions (reconcile_events _ _ _)) with (@nil (WDFREQUEST * NTSTATUS * Z))
    by (unfold reconcile_events; destruct (_ >? _); reflexivity).
  replace (bytes_copied (reconcile_events _ _ _)) with 0
    by (unfold reconcile_events; destruct (_ >? _); reflexivity).
  repeat split; assumption.
Qed.


(** X6. An interrupt pass that finds its direction's bit in the vector
    and a parked request whose memory object is retrieved first reconciles
    the hardware count and then serves the request from the new count: with
    [hw'] the reconciled count, it moves
    [min (remaining / DMA_BUFFER_SIZE) (hw' - sw_count)] buffers, completes
    the request with that many buffers' bytes and empties the slot when that
    number is positive, and leaves the request parked otherwise. *)
Theorem interrupt_pass_serves_parked (mmio : Z -> Z) (irq_vector : Z)
    (pChan : LITEPCIE_CHAN) (clear_mask : Z) (request : WDFREQUEST) :
  0 < DMA_BUFFER_SIZE < 2 ^ 31 ->
  (Z.land irq_vector (irq_bit (writer_interrupt (dma pChan))) <> 0 ->
   readRequest (dma pChan) = Some request ->
   0 <= readRemainingBytes (dma pChan) < 2 ^ 64 ->
   0 <= writer_sw_count (dma pChan) <= writer_hw_count (dma pChan) ->
   writer_hw_count_last (dma pChan) = writer_hw_count (dma pChan) ->
   writer_hw_count (dma pChan) + 2 ^ 33 <= 2 ^ 63 ->
   NT_SUCCESS (fst (WdfRequestRetrieveOutputMemory request)) = true ->
   let hw' :=
     hw_count_update
       (litepciedrv_RegReadl mmio
          (base (dma pChan) + PCIE_DMA_WRITER_TABLE_LOOP_STATUS_OFFSET))
       (writer_hw_count (dma pChan)) (writer_hw_count (dma pChan)) in
   let n := buffers_served (readRemainingBytes (dma pChan))
              (hw' - writer_sw_count (dma pChan)) in
   exists pChan' clear_mask' tr,
     dpc_writer mmio irq_vector pChan clear_mask = Some (pChan', clear_mask', tr)
     /\ writer_hw_count (dma pChan') = hw'
     /\ writer_sw_count (dma pChan') = writer_sw_count (dma pChan) + n
     /\ bytes_copied tr = n * DMA_BUFFER_SIZE
     /\ completions tr
        = (if 0 <? n then [(request, STATUS_SUCCESS, n * DMA_BUFFER_SIZE)] else [])
     /\ readRequest (dma pChan') = (if 0 <? n then None else Some request))
  /\ (Z.land irq_vector (irq_bit (reader_interrupt (dma pChan))) <> 0 ->
      writeRequest (dma pChan) = Some request ->
      0 <= writeRemainingBytes (dma pChan) < 2 ^ 64 ->
      0 <= reader_sw_count (dma pChan) <= reader_hw_count (dma pChan) ->
      reader_hw_count_last (dma pChan) = reader_hw_count (dma pChan) ->
      reader_hw_count (dma pChan) + 2 ^ 33 <= 2 ^ 63 ->
      NT_SUCCESS (fst (WdfRequestRetrieveInputMemory request)) = true ->
      let hw' :=
        hw_count_update
          (litepciedrv_RegReadl mmio
             (base (dma pChan) + PCIE_DMA_READER_TABLE_LOOP_STATUS_OFFSET))
          (reader_hw_count (dma pChan)) (reader_hw_count (dma pChan)) in
      let n := buffers_served (writeRemainingBytes (dma pChan))
                 (hw' - reader_sw_count (dma pChan)) in
      exists pChan' clear_mask' tr,
        dpc_reader mmio irq_vector pChan clear_mask = Some (pChan', clear_mask', tr)
        /\ reader_hw_count (dma pChan') = hw'
        /\ reader_sw_count (dma pChan') = reader_sw_count (dma pChan) + n
        /\ bytes_copied tr = n * DMA_BUFFER_SIZE
        /\ completions tr
           = (if 0 <? n then [(request, STATUS_SUCCESS, n * DMA_BUFFER_SIZE)] else [])
        /\ writeRequest (dma pChan') = (if 0 <? n then None else Some request)).
Proof.
  intros Hs. split; intros Hbit Hr Hl Hc Hlast Hb Hok.
  - exact (dpc_writer_serves mmio irq_vector pChan clear_mask request
             Hs Hbit Hr Hl Hc Hlast Hb Hok).
  - exact (dpc_reader_serves mmio irq_vector pChan clear_mask request
             Hs Hbit Hr Hl Hc Hlast Hb Hok).
Qed.

End DpcPassProofs.

Section DpcErrorProofs.
Context {H : driver_h} {W : wdf_request_memory}.


End DpcErrorProofs.

(** A ring of 8 buffers of 4096 bytes at count 0, a read of three buffers
    and a write of eight parked, and an interrupt of both directions with
    raw status loop 0, index 5: the read is completed in full, the write is
    completed short with the five buffers there are. *)
Lemma interrupt_pass_serves_parked_witness :
  let H8 := sample_driver_h 8 4096 8 in
  let M := sample_request_memory in
  let mmio := sample_mmio 3 5 in
  let pChan := sample_chan 0 0 0 0 0 0 (Some 7) (Some 9) 12288 32768 in
  (exists pChan' clear_mask' tr,
     @dpc_writer H8 M mmio 3 pChan 0 = Some (pChan', clear_mask', tr)
     /\ writer_hw_count (dma pChan') = 5
     /\ writer_sw_count (dma pChan') = 3
     /\ bytes_copied tr = 12288
     /\ completions tr = [(7, STATUS_SUCCESS, 12288)]
     /\ readRequest (dma pChan') = None)
  /\ (exists pChan' clear_mask' tr,
        @dpc_reader H8 M mmio 3 pChan 0 = Some (pChan', clear_mask', tr)
        /\ reader_hw_count (dma pChan') = 5
        /\ reader_sw_count (dma pChan') = 5
        /\ bytes_copied tr = 20480
        /\ completions tr = [(9, STATUS_SUCCESS, 20480)]
        /\ writeRequest (dma pChan') = None).
Proof.
  intros H8 M mmio pChan.
  destruct (@interrupt_pass_serves_parked H8 M 3 ltac:(lia) eq_refl mmio 3 pChan 0 7)
    as [R _]; [cbn; lia|].
  destruct (@interrupt_pass_serves_parked H8 M 3 ltac:(lia) eq_refl mmio 3 pChan 0 9)
    as [_ Wr]; [cbn; lia|].
  split.
  - destruct R as (c & m & tr & E & A);
      [vm_compute; discriminate|reflexivity|cbn; lia|cbn; lia|reflexivity|cbn; lia
      |reflexivity|].
    exists c, m, tr. split; [exact E|exact A].
  - destruct Wr as (c & m & tr & E & A);
      [vm_compute; discriminate|reflexivity|cbn; lia|cbn; lia|reflexivity|cbn; lia
      |reflexivity|].
    exists c, m, tr. split; [exact E|exact A].
Defined.


(** ** The ring is set up once and every copy stays inside it *)

Lemma ring_copy_same_ring {H : driver_h} c c' e :
  ring_of c = ring_of c' -> ring_copy c e -> ring_copy c' e.
Proof.
  unfold ring_of. intros [= _ _ _ _ _ Hr Hw _ _].
  destruct e; cbn; try exact (fun x => x); rewrite ?Hr, ?Hw; exact (fun x => x).
Qed.

Lemma ring_sized_same_ring {H : driver_h} c c' :
  ring_of c = ring_of c' -> ring_sized c -> ring_sized c'.
Proof.
  unfold ring_of, ring_sized. intros [= _ _ _ _ _ Hr Hw _ _]. rewrite Hr, Hw. exact (fun x => x).
Qed.

Lemma map_ring_store_chan l : forall i c c',
  nth_error l i = Some c -> ring_of c' = ring_of c ->
  map ring_of (store_chan l i c') = map ring_of l.
Proof.
  induction l as [|x l IH]; intros [|i] c c' E Hc; cbn in *; try discriminate.
  - injection E as ->. rewrite Hc. reflexivity.
  - rewrite (IH i c c' E Hc). reflexivity.
Qed.

Section RingProofs.
Context {H : driver_h} {W : wdf_request_memory}.
Variable k : Z.
Hypothesis Hk : 0 <= k <= 15.
Hypothesis HN : DMA_BUFFER_COUNT = 2 ^ k.

Lemma ChannelRead_loop_ring fuel : forall channel outBuf length bytesRead overflows c b o tr,
  0 < DMA_BUFFER_COUNT -> ring_sized channel ->
  0 <= writer_sw_count (dma channel) <= writer_hw_count (dma channel) ->
  writer_hw_count (dma channel) < 2 ^ 63 ->
  ChannelRead_loop fuel channel outBuf length bytesRead overflows = Some (c, b, o, tr) ->
  Forall (ring_copy channel) tr.
Proof.
  induction fuel as [|fuel IH];
    intros channel outBuf length bytesRead overflows c b o tr HN0 Hlen Hc Hh;
    cbn [ChannelRead_loop]; [discriminate|].
  destruct (negb _); [intros [= <- <- <- <-]; constructor|].
  destruct (_ <? _); [intros [= <- <- <- <-]; constructor|].
  destruct (Z.gtb_spec (INT64 (writer_hw_count (dma channel) - writer_sw_count (dma channel))) 0)
    as [Ha|Ha].
  2:{ intros [= <- <- <- <-]. repeat (constructor; [exact I|]). constructor. }
  rewrite INT64_small in Ha by lia.
  loop_call ChannelRead_loop fuel E.
  intros [= <- <- <- <-].
  apply IH in E; [|exact HN0|exact Hlen|cbn; rewrite INT64_small by lia; lia|exact Hh].
  cbn [app].
  repeat (constructor; [exact I|]).
  constructor.
  - split; [|reflexivity]. apply nth_In.
    destruct Hlen as [_ ->].
    pose proof (Z.rem_bound_pos (writer_sw_count (dma channel)) DMA_BUFFER_COUNT
                  ltac:(lia) HN0).
    lia.
  - repeat (constructor; [exact I|]).
    eapply Forall_impl; [|exact E]. intros e He. exact He.
Qed.

Lemma ChannelRead_ring_copy c request length c' tr :
  0 < DMA_BUFFER_COUNT -> ring_sized c ->
  0 <= writer_sw_count (dma c) <= writer_hw_count (dma c) ->
  writer_hw_count (dma c) < 2 ^ 63 ->
  litepciedrv_ChannelRead c request length = Some (c', tr) ->
  Forall (ring_copy c) tr.
Proof.
  intros HN0 Hlen Hc Hh. unfold litepciedrv_ChannelRead.
  destruct (WdfRequestRetrieveOutputMemory request) as [status outBuf].
  destruct (negb (NT_SUCCESS status)); [intros [= <- <-]; repeat constructor|].
  destruct (ChannelRead_loop _ _ _ _ _ _) as [[[[c1 b] o] tr1]|] eqn:E; [|discriminate].
  apply ChannelRead_loop_ring in E; try assumption.
  assert (Hrep : Forall (ring_copy c) (if o >? 0 then [TraceOverflow o] else [])).
  { destruct (o >? 0); repeat constructor. }
  destruct (b >? 0); intros [= <- <-]; repeat (apply Forall_app; split);
    try assumption; repeat constructor.
Qed.

Lemma ChannelRead_ring_of c request length c' tr :
  litepciedrv_ChannelRead c request length = Some (c', tr) -> ring_of c' = ring_of c.
Proof.
  unfold litepciedrv_ChannelRead.
  destruct (WdfRequestRetrieveOutputMemory request) as [status outBuf].
  destruct (negb (NT_SUCCESS status)); [intros [= <- <-]; reflexivity|].
  destruct (ChannelRead_loop _ _ _ _ _ _) as [[[[c1 b] o] tr1]|] eqn:E; [|discriminate].
  destruct (ChannelRead_loop_frame _ _ _ _ _ _ _ _ _ _ E) as [_ [sw ->]].
  destruct (b >? 0); intros [= <- <-]; reflexivity.
Qed.

Lemma dpc_writer_ring_of mmio irq_vector c clear_mask c' clear_mask' tr :
  dpc_writer mmio irq_vector c clear_mask = Some (c', clear_mask', tr) ->
  ring_of c' = ring_of c.
Proof.
  unfold dpc_writer. destruct (negb _); [|intros [= <- <- <-]; reflexivity].
  cbn [writer_reconcile].
  set (c1 := set_dma _ c).
  destruct (readRequest (dma c1)) as [request|]; [|intros [= <- <- <-]; reflexivity].
  destruct (litepciedrv_ChannelRead _ _ _) as [[c2 tr2]|] eqn:E; [|discriminate].
  intros [= <- <- <-]. apply ChannelRead_ring_of in E. rewrite E. reflexivity.
Qed.

Lemma dpc_writer_ring_copy B mmio irq_vector c clear_mask c' clear_mask' tr :
  counters_ok B c -> B + 2 ^ 33 <= 2 ^ 63 -> ring_sized c ->
  dpc_writer mmio irq_vector c clear_mask = Some (c', clear_mask', tr) ->
  Forall (ring_copy c) tr.
Proof.
  intros Hc HB Hlen. unfold dpc_writer.
  destruct (negb _); [|intros [= <- <- <-]; constructor].
  pose proof (writer_reconcile_counters_ok k Hk HN B
    (litepciedrv_RegReadl mmio (base (dma c) + PCIE_DMA_WRITER_TABLE_LOOP_STATUS_OFFSET))
    c Hc HB) as Hr.
  assert (Hq : forall wrapped, Forall (ring_copy c) (reconcile_events (lock_owner c) Writer wrapped)).
  { intros wrapped. unfold reconcile_events. destruct wrapped; repeat constructor. }
  cbn [writer_reconcile] in *. cbn [fst] in Hr.
  set (c1 := set_dma _ c) in *.
  set (tr1 := reconcile_events _ _ _).
  assert (Hq1 : Forall (ring_copy c) tr1) by apply Hq.
  clearbody tr1.
  destruct (readRequest (dma c1)) as [request|]; [|intros [= <- <- <-]; exact Hq1].
  destruct (litepciedrv_ChannelRead _ _ _) as [[c2 tr2]|] eqn:E; [|discriminate].
  intros [= <- <- <-]. apply Forall_app. split; [exact Hq1|].
  apply ChannelRead_ring_copy in E.
  - eapply Forall_impl; [|exact E]. intros e He. exact He.
  - pose proof (wrap_pos k Hk). rewrite HN. apply Z.pow_pos_nonneg; lia.
  - exact Hlen.
  - unfold counters_ok in Hr. cbn in Hr. cbn. lia.
  - unfold counters_ok in Hr. cbn in Hr. cbn. lia.
Qed.

Lemma ChannelWrite_loop_ring fuel : forall channel inBuf length bytesWritten overflows c b o tr,
  0 < DMA_BUFFER_COUNT -> ring_sized channel ->
  0 <= reader_sw_count (dma channel) <= reader_hw_count (dma channel) ->
  reader_hw_count (dma channel) < 2 ^ 63 ->
  ChannelWrite_loop fuel channel inBuf length bytesWritten overflows = Some (c, b, o, tr) ->
  Forall (ring_copy channel) tr.
Proof.
  induction fuel as [|fuel IH];
    intros channel inBuf length bytesWritten overflows c b o tr HN0 Hlen Hc Hh;
    cbn [ChannelWrite_loop]; [discriminate|].
  destruct (negb _); [intros [= <- <- <- <-]; constructor|].
  destruct (_ <? _); [intros [= <- <- <- <-]; constructor|].
  destruct (Z.gtb_spec (INT64 (reader_hw_count (dma channel) - reader_sw_count (dma channel))) 0)
    as [Ha|Ha].
  2:{ intros [= <- <- <- <-]. repeat (constructor; [exact I|]). constructor. }
  rewrite INT64_small in Ha by lia.
  loop_call ChannelWrite_loop fuel E.
  intros [= <- <- <- <-].
  apply IH in E; [|exact HN0|exact Hlen|cbn; rewrite INT64_small by lia; lia|exact Hh].
  cbn [app].
  repeat (constructor; [exact I|]).
  constructor.
  - split; [|reflexivity]. apply nth_In.
    destruct Hlen as [-> _].
    pose proof (Z.rem_bound_pos (reader_sw_count (dma channel)) DMA_BUFFER_COUNT
                  ltac:(lia) HN0).
    lia.
  - repeat (constructor; [exact I|]).
    eapply Forall_impl; [|exact E]. intros e He. exact He.
Qed.

Lemma ChannelWrite_ring_copy c request length c' tr :
  0 < DMA_BUFFER_COUNT -> ring_sized c ->
  0 <= reader_sw_count (dma c) <= reader_hw_count (dma c) ->
  reader_hw_count (dma c) < 2 ^ 63 ->
  litepciedrv_ChannelWrite c request length = Some (c', tr) ->
  Forall (ring_copy c) tr.
Proof.
  intros HN0 Hlen Hc Hh. unfold litepciedrv_ChannelWrite.
  destruct (WdfRequestRetrieveInputMemory request) as [status inBuf].
  destruct (negb (NT_SUCCESS status)); [intros [= <- <-]; repeat constructor|].
  destruct (ChannelWrite_loop _ _ _ _ _ _) as [[[[c1 b] o] tr1]|] eqn:E; [|discriminate].
  apply ChannelWrite_loop_ring in E; try assumption.
  assert (Hrep : Forall (ring_copy c) (if o >? 0 then [TraceOverflow o] else [])).
  { destruct (o >? 0); repeat constructor. }
  destruct (b >? 0); intros [= <- <-]; repeat (apply Forall_app; split);
    try assumption; repeat constructor.
Qed.

Lemma ChannelWrite_ring_of c request length c' tr :
  litepciedrv_ChannelWrite c request length = Some (c', tr) -> ring_of c' = ring_of c.
Proof.
  unfold litepciedrv_ChannelWrite.
  destruct (WdfRequestRetrieveInputMemory request) as [status inBuf].
  destruct (negb (NT_SUCCESS status)); [intros [= <- <-]; reflexivity|].
  destruct (ChannelWrite_loop _ _ _ _ _ _) as [[[[c1 b] o] tr1]|] eqn:E; [|discriminate].
  destruct (ChannelWrite_loop_frame _ _ _ _ _ _ _ _ _ _ E) as [_ [sw ->]].
  destruct (b >? 0); intros [= <- <-]; reflexivity.
Qed.

Lemma dpc_reader_ring_of mmio irq_vector c clear_mask c' clear_mask' tr :
  dpc_reader mmio irq_vector c clear_mask = Some (c', clear_mask', tr) ->
  ring_of c' = ring_of c.
Proof.
  unfold dpc_reader. destruct (negb _); [|intros [= <- <- <-]; reflexivity].
  cbn [reader_reconcile].
  set (c1 := set_dma _ c).
  destruct (writeRequest (dma c1)) as [request|]; [|intros [= <- <- <-]; reflexivity].
  destruct (litepciedrv_ChannelWrite _ _ _) as [[c2 tr2]|] eqn:E; [|discriminate].
  intros [= <- <- <-]. apply ChannelWrite_ring_of in E. rewrite E. reflexivity.
Qed.

Lemma dpc_reader_ring_copy B mmio irq_vector c clear_mask c' clear_mask' tr :
  counters_ok B c -> B + 2 ^ 33 <= 2 ^ 63 -> ring_sized c ->
  dpc_reader mmio irq_vector c clear_mask = Some (c', clear_mask', tr) ->
  Forall (ring_copy c) tr.
Proof.
  intros Hc HB Hlen. unfold dpc_reader.
  destruct (negb _); [|intros [= <- <- <-]; constructor].
  pose proof (reader_reconcile_counters_ok k Hk HN B
    (litepciedrv_RegReadl mmio (base (dma c) + PCIE_DMA_READER_TABLE_LOOP_STATUS_OFFSET))
    c Hc HB) as Hr.
  assert (Hq : forall wrapped, Forall (ring_copy c) (reconcile_events (lock_owner c) Reader wrapped)).
  { intros wrapped. unfold reconcile_events. destruct wrapped; repeat constructor. }
  cbn [reader_reconcile] in *. cbn [fst] in Hr.
  set (c1 := set_dma _ c) in *.
  set (tr1 := reconcile_events _ _ _).
  assert (Hq1 : Forall (ring_copy c) tr1) by apply Hq.
  clearbody tr1.
  destruct (writeRequest (dma c1)) as [request|]; [|intros [= <- <- <-]; exact Hq1].
  destruct (litepciedrv_ChannelWrite _ _ _) as [[c2 tr2]|] eqn:E; [|discriminate].
  intros [= <- <- <-]. apply Forall_app. split; [exact Hq1|].
  apply ChannelWrite_ring_copy in E.
  - eapply Forall_impl; [|exact E]. intros e He. exact He.
  - pose proof (wrap_pos k Hk). rewrite HN. apply Z.pow_pos_nonneg; lia.
  - exact Hlen.
  - unfold counters_ok in Hr. cbn in Hr. cbn. lia.
  - unfold counters_ok in Hr. cbn in Hr. cbn. lia.
Qed.

Lemma dpc_channel_ring_of mmio irq_vector c clear_mask c' clear_mask' tr :
  dpc_channel mmio irq_vector c clear_mask = Some (c', clear_mask', tr) ->
  ring_of c' = ring_of c.
Proof.
  unfold dpc_channel.
  destruct (dpc_reader _ _ _ _) as [[[c1 m1] tr1]|] eqn:E1; [|discriminate].
  destruct (dpc_writer _ _ _ _) as [[[c2 m2] tr2]|] eqn:E2; [|discriminate].
  intros [= <- <- <-].
  apply dpc_reader_ring_of in E1. apply dpc_writer_ring_of in E2. congruence.
Qed.

Lemma dpc_channel_ring_copy B mmio irq_vector c clear_mask c' clear_mask' tr :
  counters_ok B c -> B + 2 ^ 34 <= 2 ^ 63 -> ring_sized c ->
  dpc_channel mmio irq_vector c clear_mask = Some (c', clear_mask', tr) ->
  Forall (ring_copy c) tr.
Proof.
  intros Hc HB Hlen. unfold dpc_channel.
  destruct (dpc_reader _ _ _ _) as [[[c1 m1] tr1]|] eqn:E1; [|discriminate].
  destruct (dpc_writer _ _ _ _) as [[[c2 m2] tr2]|] eqn:E2; [|discriminate].
  intros [= <- <- <-].
  pose proof (dpc_reader_ring_of _ _ _ _ _ _ _ E1) as Hring.
  pose proof (dpc_reader_counters_ok k Hk HN B _ _ _ _ _ _ _ Hc ltac:(lia) E1) as Hc1.
  apply Forall_app. split.
  - eapply dpc_reader_ring_copy; [exact Hc|lia|exact Hlen|exact E1].
  - eapply Forall_impl; [intros e; apply (ring_copy_same_ring c1 c); exact Hring|].
    eapply dpc_writer_ring_copy; [exact Hc1|lia| |exact E2].
    apply (ring_sized_same_ring c c1); [symmetry; exact Hring|exact Hlen].
Qed.

Lemma dpc_channels_ring_of mmio irq_vector chans : forall clear_mask chans' clear_mask' tr,
  dpc_channels mmio irq_vector chans clear_mask = Some (chans', clear_mask', tr) ->
  map ring_of chans' = map ring_of chans.
Proof.
  induction chans as [|c chans IH]; intros clear_mask chans' clear_mask' tr; cbn [dpc_channels].
  - intros [= <- <- <-]. reflexivity.
  - destruct (dpc_channel _ _ _ _) as [[[c1 m1] tr1]|] eqn:E1; [|discriminate].
    destruct (dpc_channels _ _ _ _) as [[[r m2] tr2]|] eqn:E2; [|discriminate].
    intros [= <- <- <-]. cbn [map].
    rewrite (dpc_channel_ring_of _ _ _ _ _ _ _ E1), (IH _ _ _ _ E2). reflexivity.
Qed.

Lemma dpc_channels_ring_copy B mmio irq_vector chans : forall clear_mask chans' clear_mask' tr,
  Forall (counters_ok B) chans -> B + 2 ^ 34 <= 2 ^ 63 -> Forall ring_sized chans ->
  dpc_channels mmio irq_vector chans clear_mask = Some (chans', clear_mask', tr) ->
  Forall (fun e => exists c, In c chans /\ ring_copy c e) tr.
Proof.
  induction chans as [|c chans IH]; intros clear_mask chans' clear_mask' tr Hc HB Hlen;
    cbn [dpc_channels].
  - intros [= <- <- <-]. constructor.
  - inversion Hc; subst. inversion Hlen; subst.
    destruct (dpc_channel _ _ _ _) as [[[c1 m1] tr1]|] eqn:E1; [|discriminate].
    destruct (dpc_channels _ _ _ _) as [[[r m2] tr2]|] eqn:E2; [|discriminate].
    intros [= <- <- <-]. apply Forall_app. split.
    + eapply Forall_impl; [|eapply dpc_channel_ring_copy; [| | |exact E1]; eassumption].
      intros e He. exists c. split; [left; reflexivity|exact He].
    + eapply Forall_impl; [|eapply IH; [| | |exact E2]; eassumption].
      intros e (c0 & Hin & He). exists c0. split; [right; exact Hin|exact He].
Qed.

Lemma EvtDpc_ring_of mmio dev dev' tr :
  litepcie_EvtDpc mmio dev = Some (dev', tr) ->
  channels dev' = channels dev /\ map ring_of (chan dev') = map ring_of (chan dev).
Proof.
  unfold litepcie_EvtDpc.
  destruct (dpc_channels _ _ _ _) as [[[chans m] tr1]|] eqn:E; [|discriminate].
  intros [= <- <-]. cbn [chan channels set_chan set_irqs_pending]. split; [reflexivity|].
  rewrite map_app, (dpc_channels_ring_of _ _ _ _ _ _ _ E), <- map_app, firstn_skipn.
  reflexivity.
Qed.

Lemma EvtDpc_ring_copy B mmio dev dev' tr :
  Forall (counters_ok B) (chan dev) -> B + 2 ^ 34 <= 2 ^ 63 -> Forall ring_sized (chan dev) ->
  litepcie_EvtDpc mmio dev = Some (dev', tr) ->
  Forall (fun e => exists c, In c (chan dev) /\ ring_copy c e) tr.
Proof.
  intros Hc HB Hlen. unfold litepcie_EvtDpc.
  destruct (dpc_channels _ _ _ _) as [[[chans m] tr1]|] eqn:E; [|discriminate].
  intros [= <- <-].
  rewrite <- (firstn_skipn (Z.to_nat (channels dev)) (chan dev)) in Hc, Hlen.
  apply Forall_app in Hc. apply Forall_app in Hlen.
  eapply Forall_impl; [|eapply dpc_channels_ring_copy; [| | |exact E];
                         [apply Hc|exact HB|apply Hlen]].
  intros e (c & Hin & He). exists c. split; [|exact He].
  rewrite <- (firstn_skipn (Z.to_nat (channels dev)) (chan dev)).
  apply in_or_app. left. exact Hin.
Qed.

Lemma on_channel_ring_of dev index f dev' tr :
  (forall c c' tr, f c = Some (c', tr) -> ring_of c' = ring_of c) ->
  on_channel dev index f = Some (dev', tr) ->
  channels dev' = channels dev /\ map ring_of (chan dev') = map ring_of (chan dev).
Proof.
  intros Hf. unfold on_channel.
  destruct (nth_error (chan dev) (Z.to_nat index)) as [c|] eqn:E.
  2:{ intros [= <- <-]. split; reflexivity. }
  destruct (f c) as [[c' tr']|] eqn:Ef; [|discriminate].
  intros [= <- <-]. cbn [chan channels set_chan]. split; [reflexivity|].
  apply (map_ring_store_chan _ _ c); [exact E|]. eapply Hf. exact Ef.
Qed.

Lemma on_channel_ring_copy dev index f dev' tr :
  (forall c c' tr, In c (chan dev) -> f c = Some (c', tr) -> Forall (ring_copy c) tr) ->
  on_channel dev index f = Some (dev', tr) ->
  Forall (fun e => exists c, In c (chan dev) /\ ring_copy c e) tr.
Proof.
  intros Hf. unfold on_channel.
  destruct (nth_error (chan dev) (Z.to_nat index)) as [c|] eqn:E.
  2:{ intros [= <- <-]. constructor. }
  destruct (f c) as [[c' tr']|] eqn:Ef; [|discriminate].
  intros [= <- <-]. apply nth_error_In in E.
  eapply Forall_impl; [|eapply Hf; [exact E|exact Ef]].
  intros e He. exists c. split; assumption.
Qed.

(** Ring start and stop store a channel that differs in three counters
    only, and copy nothing. *)
Lemma start_stop_ring_of dev index :
  let same dev' :=
    channels dev' = channels dev /\ map ring_of (chan dev') = map ring_of (chan dev) in
  same (fst (litepcie_dma_writer_start dev index))
  /\ same (fst (litepcie_dma_writer_stop dev index))
  /\ same (fst (litepcie_dma_reader_start dev index))
  /\ same (fst (litepcie_dma_reader_stop dev index)).
Proof.
  cbv zeta.
  unfold litepcie_dma_writer_start, litepcie_dma_writer_stop,
    litepcie_dma_reader_start, litepcie_dma_reader_stop.
  destruct (nth_error (chan dev) (Z.to_nat index)) as [c|] eqn:E;
    cbn [fst chan channels set_chan]; [|repeat split].
  repeat split; apply (map_ring_store_chan _ _ c); try exact E; reflexivity.
Qed.

Lemma start_stop_no_copy dev index (P : event -> Prop) :
  (forall e, match e with
             | WdfMemoryCopyFromBuffer _ _ _ _ | WdfMemoryCopyToBuffer _ _ _ _ => True
             | _ => P e
             end) ->
  Forall P (snd (litepcie_dma_writer_start dev index))
  /\ Forall P (snd (litepcie_dma_writer_stop dev index))
  /\ Forall P (snd (litepcie_dma_reader_start dev index))
  /\ Forall P (snd (litepcie_dma_reader_stop dev index)).
Proof.
  intros HP.
  assert (Hreg : forall reg val, Forall P (litepciedrv_RegWritel reg val)).
  { intros reg val. constructor; [exact (HP (RegWritel _ _))|constructor]. }
  assert (Hd : forall (f : Z -> list event) l,
             (forall i, Forall P (f i)) -> Forall P (flat_map f l)).
  { intros f l Hf. induction l as [|x l IHl]; cbn; [constructor|].
    apply Forall_app. split; [apply Hf|exact IHl]. }
  assert (Hst : forall ch d,
             Forall P [Store ch d HwCount; Store ch d HwCountLast; Store ch d SwCount]).
  { intros ch d. repeat (constructor; [exact (HP (Store _ _ _))|]). constructor. }
  assert (Hstall : Forall P [KeStallExecutionProcessor 1000]).
  { constructor; [exact (HP (KeStallExecutionProcessor _))|constructor]. }
  unfold litepcie_dma_writer_start, litepcie_dma_writer_stop,
    litepcie_dma_reader_start, litepcie_dma_reader_stop.
  destruct (nth_error (chan dev) (Z.to_nat index)) as [c|]; cbn [snd];
    [|repeat split; constructor].
  repeat split; repeat (apply Forall_app; split);
    try apply Hreg; try apply Hst; try exact Hstall;
    apply Hd; intros i; unfold writer_descriptor, reader_descriptor;
    repeat (apply Forall_app; split); apply Hreg.
Qed.

Lemma run_operation_ring_of op dev dev' tr :
  run_operation op dev = Some (dev', tr) ->
  channels dev' = channels dev /\ map ring_of (chan dev') = map ring_of (chan dev).
Proof.
  intros Hrun.
  destruct op as [i|i|i|i|mmio|mmio|i request length|i request length]; cbn in Hrun.
  - returned_state Hrun. apply (start_stop_ring_of dev i).
  - returned_state Hrun. apply (start_stop_ring_of dev i).
  - returned_state Hrun. apply (start_stop_ring_of dev i).
  - returned_state Hrun. apply (start_stop_ring_of dev i).
  - unfold litepcie_EvtIsr in Hrun. destruct (negb _); injection Hrun as <- <-;
      split; reflexivity.
  - eapply EvtDpc_ring_of. exact Hrun.
  - eapply on_channel_ring_of; [|exact Hrun].
    intros c c' tr' E. eapply ChannelRead_ring_of. exact E.
  - eapply on_channel_ring_of; [|exact Hrun].
    intros c c' tr' E. eapply ChannelWrite_ring_of. exact E.
Qed.

Lemma reachable_ring_of n dev :
  reachable n dev ->
  exists buffers,
    channels dev = DMA_CHANNELS
    /\ map ring_of (chan dev) = map ring_of (chan (DeviceOpen_context buffers)).
Proof.
  induction 1 as [buffers|n dev op dev' tr Hr [buffers [IH1 IH2]] Hrun].
  - exists buffers. split; reflexivity.
  - exists buffers. destruct (run_operation_ring_of _ _ _ _ Hrun) as [A1 A2].
    split; congruence.
Qed.

Lemma map_ring_sized l l' :
  map ring_of l = map ring_of l' -> Forall ring_sized l' -> Forall ring_sized l.
Proof.
  revert l'. induction l as [|c l IH]; intros [|c' l'] E Hf; try discriminate; [constructor|].
  pose proof (f_equal (hd (ring_of c)) E) as E1. pose proof (f_equal (@tl _) E) as E2.
  cbn [map hd tl] in E1, E2. inversion Hf; subst.
  constructor; [apply (ring_sized_same_ring c' c); [symmetry; exact E1|assumption]|].
  eapply IH; eassumption.
Qed.

Lemma reachable_ring_sized n dev : reachable n dev -> Forall ring_sized (chan dev).
Proof.
  intros Hr. destruct (reachable_ring_of n dev Hr) as [buffers [_ E]].
  apply (map_ring_sized _ _ E).
  unfold DeviceOpen_context. cbn [chan].
  apply Forall_forall. intros c Hin. apply in_map_iff in Hin. destruct Hin as [i [<- _]].
  unfold DeviceOpen_chan, ring_sized.
  destruct (buffers i) as [[[rv rp] wv] wp]. cbn.
  rewrite !length_map. unfold for_range. rewrite length_map, length_seq. split; reflexivity.
Qed.

(** X8. Once [litepciedrv_DeviceOpen] has set a device up, no ring start
    or stop, interrupt handler, read or write changes the number of channels
    or, in any channel, the index, block size, register base, interrupt bits
    or any of the four arrays of buffer addresses: in every reachable context
    they are the ones [litepciedrv_DeviceOpen] stored. *)
Theorem ring_setup_is_never_changed (n : nat) (dev : DEVICE_CONTEXT) :
  reachable n dev ->
  exists buffers,
    channels dev = DMA_CHANNELS
    /\ map ring_of (chan dev) = map ring_of (chan (DeviceOpen_context buffers)).
Proof. intros Hr. exact (reachable_ring_of n dev Hr). Qed.

Lemma ring_copy_device_copy dev c e :
  In c (chan dev) -> ring_copy c e -> device_copy dev e.
Proof.
  intros Hin. destruct e; cbn; try exact (fun x => x);
    intros [Hb Hn]; (split; [exists c; split; assumption|exact Hn]).
Qed.

(** X9. Whatever operation runs in a reachable context (fewer than
    [2^29] operations in all), every copy it makes moves exactly
    [DMA_BUFFER_SIZE] bytes and its driver-side buffer is one of the
    [DMA_BUFFER_COUNT] buffers of a ring of the device: a read request copies
    out of the write ring of a channel, a write request into the read ring.
    No copy uses an address outside the arrays [litepciedrv_DeviceOpen]
    filled in. *)
Theorem copies_stay_inside_the_ring (n : nat) (dev dev' : DEVICE_CONTEXT)
    (op : operation) (tr : list event) :
  reachable n dev -> Z.of_nat n + 1 < 2 ^ 29 ->
  run_operation op dev = Some (dev', tr) ->
  Forall (device_copy dev) tr.
Proof.
  intros Hr Hn Hrun.
  pose proof (reachable_counters_ok k Hk HN n dev Hr ltac:(lia)) as Hc.
  pose proof (reachable_ring_sized n dev Hr) as Hlen.
  assert (HB : 2 ^ 34 * (Z.of_nat n + 1) + 2 ^ 34 <= 2 ^ 63) by lia.
  assert (HN0 : 0 < DMA_BUFFER_COUNT) by (rewrite HN; apply Z.pow_pos_nonneg; lia).
  assert (Hquiet : forall e, match e with
             | WdfMemoryCopyFromBuffer _ _ _ _ | WdfMemoryCopyToBuffer _ _ _ _ => True
             | _ => device_copy dev e
             end) by (intros e; destruct e; exact I).
  assert (Hlift : forall t, Forall (fun e => exists c, In c (chan dev) /\ ring_copy c e) t ->
                            Forall (device_copy dev) t).
  { intros t Ht. eapply Forall_impl; [|exact Ht].
    intros e (c & Hin & He). exact (ring_copy_device_copy dev c e Hin He). }
  assert (Hin : forall c, In c (chan dev) ->
                  ring_sized c
                  /\ 0 <= reader_sw_count (dma c) <= reader_hw_count (dma c)
                  /\ reader_hw_count (dma c) < 2 ^ 63
                  /\ 0 <= writer_sw_count (dma c) <= writer_hw_count (dma c)
                  /\ writer_hw_count (dma c) < 2 ^ 63).
  { intros c Hcin. rewrite Forall_forall in Hc, Hlen.
    specialize (Hc c Hcin). specialize (Hlen c Hcin).
    unfold counters_ok in Hc. cbv zeta in Hc. split; [exact Hlen|lia]. }
  destruct op as [i|i|i|i|mmio|mmio|i request length|i request length]; cbn in Hrun.
  - returned_trace Hrun. apply (start_stop_no_copy dev i _ Hquiet).
  - returned_trace Hrun. apply (start_stop_no_copy dev i _ Hquiet).
  - returned_trace Hrun. apply (start_stop_no_copy dev i _ Hquiet).
  - returned_trace Hrun. apply (start_stop_no_copy dev i _ Hquiet).
  - unfold litepcie_EvtIsr in Hrun. destruct (negb _); injection Hrun as <- <-;
      repeat constructor.
  - apply Hlift. eapply EvtDpc_ring_copy; [exact Hc|exact HB|exact Hlen|exact Hrun].
  - apply Hlift. eapply on_channel_ring_copy; [|exact Hrun].
    intros c c' tr' Hcin E. destruct (Hin c Hcin) as (A1 & A2 & A3 & A4 & A5).
    eapply ChannelRead_ring_copy; [exact HN0|exact A1|exact A4|exact A5|exact E].
  - apply Hlift. eapply on_channel_ring_copy; [|exact Hrun].
    intros c c' tr' Hcin E. destruct (Hin c Hcin) as (A1 & A2 & A3 & A4 & A5).
    eapply ChannelWrite_ring_copy; [exact HN0|exact A1|exact A2|exact A3|exact E].
Qed.

End RingProofs.

(** Two operations after [litepciedrv_DeviceOpen] (the top half sees the
    writer interrupt of channel 0, the deferred pass reads loop status 5):
    the channel still has the ring [litepciedrv_DeviceOpen] gave it. *)
Lemma ring_setup_is_never_changed_witness :
  let H8 := sample_driver_h 8 4096 8 in
  let dev := {| channels := 1; chan := [sample_chan 0 0 0 5 5 0 None None 0 0];
                irqs_requested := 0; irqs_pending := 0 |} in
  exists buffers,
    channels dev = 1
    /\ map ring_of (chan dev) = map ring_of (chan (@DeviceOpen_context H8 buffers)).
Proof.
  intros H8 dev.
  pose (M := sample_request_memory).
  pose (dev1 := {| channels := 1; chan := [sample_chan 0 0 0 0 0 0 None None 0 0];
                   irqs_requested := 0; irqs_pending := 1 |}).
  assert (R0 : @reachable H8 M 0 (@DeviceOpen_context H8 sample_buffers))
    by apply reachable_open.
  assert (R1 : @reachable H8 M 1 dev1).
  { apply (@reachable_step H8 M 0 _ (OpIsr (sample_mmio 1 5)) dev1
             [RegWritel 0x1804 1; WdfInterruptQueueDpcForIsr] R0).
    vm_compute. reflexivity. }
  assert (R2 : @reachable H8 M 2 dev).
  { eapply (@reachable_step H8 M 1 dev1 (OpDpc (sample_mmio 1 5)) dev _ R1).
    vm_compute. reflexivity. }
  exact (@ring_setup_is_never_changed H8 M 2%nat dev R2).
Defined.

(** In that context, a read of two buffers copies out of the first two
    buffers of the write ring. *)
Lemma copies_stay_inside_the_ring_witness :
  let H8 := sample_driver_h 8 4096 8 in
  let M := sample_request_memory in
  let dev := {| channels := 1; chan := [sample_chan 0 0 0 5 5 0 None None 0 0];
                irqs_requested := 0; irqs_pending := 0 |} in
  exists dev' tr,
    @run_operation H8 M (OpChannelRead 0 7 8192) dev = Some (dev', tr)
    /\ copied_buffers tr = [0x20000000; 0x20001000]
    /\ Forall (@device_copy H8 dev) tr.
Proof.
  intros H8 M dev.
  pose (dev1 := {| channels := 1; chan := [sample_chan 0 0 0 0 0 0 None None 0 0];
                   irqs_requested := 0; irqs_pending := 1 |}).
  assert (R0 : @reachable H8 M 0 (@DeviceOpen_context H8 sample_buffers))
    by apply reachable_open.
  assert (R1 : @reachable H8 M 1 dev1).
  { apply (@reachable_step H8 M 0 _ (OpIsr (sample_mmio 1 5)) dev1
             [RegWritel 0x1804 1; WdfInterruptQueueDpcForIsr] R0).
    vm_compute. reflexivity. }
  assert (R2 : @reachable H8 M 2 dev).
  { eapply (@reachable_step H8 M 1 dev1 (OpDpc (sample_mmio 1 5)) dev _ R1).
    vm_compute. reflexivity. }
  destruct (@run_operation H8 M (OpChannelRead 0 7 8192) dev) as [[dev' tr]|] eqn:E;
    [|vm_compute in E; discriminate].
  exists dev', tr. split; [reflexivity|].
  split.
  - vm_compute in E. injection E as _ <-. reflexivity.
  - exact (@copies_stay_inside_the_ring H8 M 3 ltac:(lia) eq_refl 2%nat dev dev'
             (OpChannelRead 0 7 8192) tr R2 ltac:(lia) E).
Defined.

(** ** Interrupt masking *)

Lemma UINT32_INT32 x : UINT32 (INT32 x) = UINT32 x.
Proof.
  unfold UINT32, INT32. rewrite Zminus_mod_idemp_l. f_equal. lia.
Qed.

Lemma UINT32_testbit x b : Z.testbit (UINT32 x) b = (b <? 32) && Z.testbit x b.
Proof.
  unfold UINT32. destruct (Z.ltb_spec b 32) as [Hb|Hb]; cbn [andb].
  - destruct (Z.ltb_spec b 0) as [Hn|Hn]; [rewrite !Z.testbit_neg_r by lia; reflexivity|].
    apply Z.mod_pow2_bits_low. lia.
  - apply Z.mod_pow2_bits_high. lia.
Qed.

Lemma testbit_32bit x b : 0 <= x < 2 ^ 32 -> Z.testbit x b = (b <? 32) && Z.testbit x b.
Proof. intros Hx. rewrite <- UINT32_testbit, UINT32_small by exact Hx. reflexivity. Qed.

Lemma int_bit_testbit i b : 0 <= i < 32 -> Z.testbit (int_bit i) b = (b <? 32) && (b =? i) || (31 <? b) && (i =? 31).
Proof.
  intros Hi. unfold int_bit. rewrite UINT32_small, Z.shiftl_1_l by lia.
  destruct (Z.eq_dec i 31) as [->|Hne].
  - replace (INT32 (2 ^ 31)) with (- 2 ^ 31) by reflexivity.
    destruct (Z.ltb_spec b 0) as [Hn|Hn].
    { rewrite Z.testbit_neg_r by lia.
      destruct (Z.ltb_spec b 32), (Z.eqb_spec b 31), (Z.ltb_spec 31 b); cbn; lia. }
    replace (- 2 ^ 31) with (Z.lnot (Z.ones 31)) by reflexivity.
    rewrite Z.lnot_spec, Z.testbit_ones_nonneg by lia.
    destruct (Z.ltb_spec b 32), (Z.eqb_spec b 31), (Z.ltb_spec 31 b), (Z.ltb_spec b 31);
      cbn; lia.
  - rewrite INT32_small.
    2:{ split; [pose proof (Z.pow_pos_nonneg 2 i); lia|apply Z.pow_lt_mono_r; lia]. }
    destruct (Z.ltb_spec b 0) as [Hn|Hn].
    { rewrite Z.testbit_neg_r by lia.
      destruct (Z.ltb_spec b 32), (Z.eqb_spec b i), (Z.ltb_spec 31 b), (Z.eqb_spec i 31);
        cbn; lia. }
    rewrite Z.pow2_bits_eqb by lia.
    destruct (Z.ltb_spec b 32), (Z.eqb_spec i b), (Z.eqb_spec b i), (Z.ltb_spec 31 b),
      (Z.eqb_spec i 31); cbn; lia.
Qed.

Lemma UINT32_int_bit i : 0 <= i < 32 -> UINT32 (int_bit i) = 2 ^ i.
Proof.
  intros Hi. unfold int_bit. rewrite UINT32_INT32, (UINT32_small i), Z.shiftl_1_l by lia.
  apply UINT32_small. split; [apply Z.pow_nonneg; lia|apply Z.pow_lt_mono_r; lia].
Qed.

Section InterruptProofs.
Context {H : driver_h}.

Lemma enable_bits dev i b :
  0 <= i < 32 -> 0 <= irqs_requested dev < 2 ^ 32 ->
  Z.testbit (irqs_requested (fst (litepcie_enable_interrupt dev i))) b
  = (b =? i) || Z.testbit (irqs_requested dev) b.
Proof.
  intros Hi Hr. cbn [litepcie_enable_interrupt fst set_irqs_requested irqs_requested].
  rewrite UINT32_testbit, Z.lor_spec, UINT32_testbit, int_bit_testbit by exact Hi.
  rewrite (testbit_32bit _ b Hr).
  destruct (Z.ltb_spec b 32), (Z.eqb_spec b i), (Z.ltb_spec 31 b), (Z.eqb_spec i 31);
    cbn; try lia; destruct (Z.testbit _ _); reflexivity.
Qed.

Lemma disable_bits dev i b :
  0 <= i < 32 -> 0 <= irqs_requested dev < 2 ^ 32 ->
  Z.testbit (irqs_requested (fst (litepcie_disable_interrupt dev i))) b
  = negb (b =? i) && Z.testbit (irqs_requested dev) b.
Proof.
  intros Hi Hr. cbn [litepcie_disable_interrupt fst set_irqs_requested irqs_requested].
  rewrite UINT32_testbit, Z.land_spec, UINT32_testbit.
  rewrite (testbit_32bit _ b Hr).
  destruct (Z.ltb_spec b 0) as [Hn|Hn].
  { rewrite !Z.testbit_neg_r by lia.
    destruct (b <? 32), (b =? i); reflexivity. }
  rewrite Z.lnot_spec, int_bit_testbit by lia.
  destruct (Z.ltb_spec b 32), (Z.eqb_spec b i), (Z.ltb_spec 31 b), (Z.eqb_spec i 31);
    cbn; try lia; destruct (Z.testbit _ _); reflexivity.
Qed.

Lemma enable_range dev i : 0 <= irqs_requested (fst (litepcie_enable_interrupt dev i)) < 2 ^ 32.
Proof. apply UINT32_range. Qed.

Lemma disable_range dev i : 0 <= irqs_requested (fst (litepcie_disable_interrupt dev i)) < 2 ^ 32.
Proof. apply UINT32_range. Qed.

(** X10. [litepcie_enable_interrupt] with an interrupt number below 32
    sets exactly that bit of the 32-bit mask [irqs_requested] and leaves the
    other bits, the channels and the pending mask as they are; it writes the
    new mask to the enable register and that one bit to the clear register.
    [litepcie_disable_interrupt] clears exactly that bit and writes the new
    mask to the enable register only. *)
Theorem enable_disable_change_one_bit (dev : DEVICE_CONTEXT) (interrupt : Z) :
  0 <= interrupt < 32 -> 0 <= irqs_requested dev < 2 ^ 32 ->
  (let dev' := fst (litepcie_enable_interrupt dev interrupt) in
   (forall b, Z.testbit (irqs_requested dev') b
              = (b =? interrupt) || Z.testbit (irqs_requested dev) b)
   /\ 0 <= irqs_requested dev' < 2 ^ 32
   /\ chan dev' = chan dev /\ irqs_pending dev' = irqs_pending dev
   /\ snd (litepcie_enable_interrupt dev interrupt)
      = [RegWritel (UINT32 CSR_PCIE_MSI_ENABLE_ADDR) (irqs_requested dev');
         RegWritel (UINT32 CSR_PCIE_MSI_CLEAR_ADDR) (2 ^ interrupt)])
  /\ (let dev' := fst (litepcie_disable_interrupt dev interrupt) in
      (forall b, Z.testbit (irqs_requested dev') b
                 = negb (b =? interrupt) && Z.testbit (irqs_requested dev) b)
      /\ 0 <= irqs_requested dev' < 2 ^ 32
      /\ chan dev' = chan dev /\ irqs_pending dev' = irqs_pending dev
      /\ snd (litepcie_disable_interrupt dev interrupt)
         = [RegWritel (UINT32 CSR_PCIE_MSI_ENABLE_ADDR) (irqs_requested dev')]).
Proof.
  intros Hi Hr. split; cbv zeta.
  - split; [intros b; apply enable_bits; assumption|].
    split; [apply enable_range|].
    split; [reflexivity|]. split; [reflexivity|].
    cbn [litepcie_enable_interrupt fst snd set_irqs_requested irqs_requested].
    unfold litepciedrv_RegWritel. cbn [app].
    rewrite (UINT32_small (UINT32 _)) by apply UINT32_range.
    rewrite UINT32_int_bit by exact Hi. reflexivity.
  - split; [intros b; apply disable_bits; assumption|].
    split; [apply disable_range|].
    split; [reflexivity|]. split; [reflexivity|].
    cbn [litepcie_disable_interrupt fst snd set_irqs_requested irqs_requested].
    unfold litepciedrv_RegWritel.
    rewrite (UINT32_small (UINT32 _)) by apply UINT32_range. reflexivity.
Qed.

(** X11. On a 32-bit mask and interrupt numbers below 32: disabling an
    interrupt after enabling it gives the same mask as disabling it at once,
    enabling after disabling the same as enabling at once; an interrupt that
    was not requested is back to not requested after an enable followed by a
    disable, the mask being the one at the start; and calls on two different
    interrupts commute. *)
Theorem enable_disable_compose (dev : DEVICE_CONTEXT) (i j : Z) :
  0 <= i < 32 -> 0 <= j < 32 -> 0 <= irqs_requested dev < 2 ^ 32 ->
  let enable d n := fst (litepcie_enable_interrupt d n) in
  let disable d n := fst (litepcie_disable_interrupt d n) in
  irqs_requested (disable (enable dev i) i) = irqs_requested (disable dev i)
  /\ irqs_requested (enable (disable dev i) i) = irqs_requested (enable dev i)
  /\ (Z.testbit (irqs_requested dev) i = false ->
      irqs_requested (disable (enable dev i) i) = irqs_requested dev)
  /\ (i <> j ->
      irqs_requested (disable (enable dev i) j) = irqs_requested (enable (disable dev j) i)
      /\ irqs_requested (enable (enable dev i) j) = irqs_requested (enable (enable dev j) i)
      /\ irqs_requested (disable (disable dev i) j)
         = irqs_requested (disable (disable dev j) i)).
Proof.
  intros Hi Hj Hr enable disable. subst enable disable. cbv beta.
  pose proof (enable_range dev i) as Ei. pose proof (enable_range dev j) as Ej.
  pose proof (disable_range dev i) as Di. pose proof (disable_range dev j) as Dj.
  repeat split; try intros Hx; try intros Hy; apply Z.bits_inj'; intros b _;
    rewrite ?disable_bits, ?enable_bits, ?disable_bits, ?enable_bits by assumption.
  - destruct (Z.eqb_spec b i); cbn; reflexivity.
  - destruct (Z.eqb_spec b i); cbn; reflexivity.
  - destruct (Z.eqb_spec b i) as [->|]; cbn; [rewrite Hx|]; reflexivity.
  - destruct (Z.eqb_spec b i), (Z.eqb_spec b j); cbn; try lia; reflexivity.
  - destruct (Z.eqb_spec b i), (Z.eqb_spec b j); cbn; try lia; reflexivity.
  - destruct (Z.eqb_spec b i), (Z.eqb_spec b j); cbn; try lia; reflexivity.
Qed.

Lemma writes_to_app reg t1 t2 : writes_to reg (t1 ++ t2) = writes_to reg t1 ++ writes_to reg t2.
Proof.
  induction t1 as [|e t1 IH]; [reflexivity|].
  destruct e; cbn; rewrite ?IH; try reflexivity.
  destruct (_ =? _); reflexivity.
Qed.

Lemma last_app_some (l1 l2 : list (option Z)) v :
  last l2 None = Some v -> last (l1 ++ l2) None = Some v.
Proof.
  intros E. induction l1 as [|x l1 IH]; [exact E|].
  cbn [app last]. destruct (l1 ++ l2) eqn:El; [|exact IH].
  apply app_eq_nil in El. destruct El as [_ ->]. discriminate.
Qed.

Lemma enable_register_app t1 t2 v :
  enable_register t2 = Some v -> enable_register (t1 ++ t2) = Some v.
Proof.
  unfold enable_register. rewrite writes_to_app, map_app. apply last_app_some.
Qed.

Lemma run_irq_calls_app calls1 calls2 dev :
  run_irq_calls (calls1 ++ calls2) dev
  = let (dev1, tr1) := run_irq_calls calls1 dev in
    let (dev2, tr2) := run_irq_calls calls2 dev1 in
    (dev2, tr1 ++ tr2).
Proof.
  revert dev. induction calls1 as [|call calls1 IH]; intros dev; cbn [app run_irq_calls].
  - destruct (run_irq_calls calls2 dev). reflexivity.
  - destruct (run_irq_call call dev) as [dev1 tr1]. rewrite IH.
    destruct (run_irq_calls calls1 dev1) as [dev2 tr2].
    destruct (run_irq_calls calls2 dev2) as [dev3 tr3].
    rewrite app_assoc. reflexivity.
Qed.

Lemma run_irq_call_range call dev :
  0 <= irqs_requested dev < 2 ^ 32 ->
  0 <= irqs_requested (fst (run_irq_call call dev)) < 2 ^ 32.
Proof.
  intros Hr. destruct call; cbn [run_irq_call fst];
    [apply enable_range|apply disable_range|exact Hr|exact Hr].
Qed.

Lemma run_irq_calls_range calls : forall dev,
  0 <= irqs_requested dev < 2 ^ 32 ->
  0 <= irqs_requested (fst (run_irq_calls calls dev)) < 2 ^ 32.
Proof.
  induction calls as [|call calls IH]; intros dev Hr; cbn [run_irq_calls]; [exact Hr|].
  pose proof (run_irq_call_range call dev Hr) as H1.
  destruct (run_irq_call call dev) as [dev1 tr1]. cbn [fst] in H1.
  specialize (IH dev1 H1). destruct (run_irq_calls calls dev1) as [dev2 tr2]. exact IH.
Qed.

Lemma run_irq_call_enable_register call dev :
  UINT32 CSR_PCIE_MSI_CLEAR_ADDR <> UINT32 CSR_PCIE_MSI_ENABLE_ADDR ->
  0 <= irqs_requested dev < 2 ^ 32 ->
  enable_register (snd (run_irq_call call dev))
  = Some (enabled_after call (fst (run_irq_call call dev))).
Proof.
  intros Hne Hr. apply Z.eqb_neq in Hne.
  destruct call; unfold enable_register;
    cbn [run_irq_call litepcie_enable_interrupt litepcie_disable_interrupt
         litepcie_EvtIntEnable litepcie_EvtIntDisable fst snd enabled_after
         set_irqs_requested irqs_requested];
    unfold litepciedrv_RegWritel; cbn [app writes_to];
    rewrite ?Z.eqb_refl, ?Hne; cbn [map last];
    rewrite ?(UINT32_small (UINT32 _)) by apply UINT32_range;
    rewrite ?(UINT32_small (irqs_requested dev)) by exact Hr; reflexivity.
Qed.

(** X12. The enable register follows the requested mask: after any
    sequence of [litepcie_enable_interrupt], [litepcie_disable_interrupt],
    [litepcie_EvtIntEnable] and [litepcie_EvtIntDisable] calls (interrupt
    numbers below 32, a 32-bit mask at the start, the clear register distinct
    from the enable register), the last value written to the enable register
    is 0 when the last call is the framework's disable, and the current
    [irqs_requested] after any other call.  The framework's callbacks never
    change [irqs_requested]: a re-enable restores the mask that was
    requested. *)
Theorem enable_register_follows_requested (calls : list irq_call) (call : irq_call)
    (dev : DEVICE_CONTEXT) :
  UINT32 CSR_PCIE_MSI_CLEAR_ADDR <> UINT32 CSR_PCIE_MSI_ENABLE_ADDR ->
  0 <= irqs_requested dev < 2 ^ 32 ->
  Forall irq_call_ok calls ->
  let (dev', tr) := run_irq_calls (calls ++ [call]) dev in
  enable_register tr = Some (enabled_after call dev')
  /\ 0 <= irqs_requested dev' < 2 ^ 32
  /\ (Forall (fun c => c = IrqEvtEnable \/ c = IrqEvtDisable) (calls ++ [call]) ->
      irqs_requested dev' = irqs_requested dev).
Proof.
  intros Hne Hr Hok.
  pose proof (run_irq_calls_range (calls ++ [call]) dev Hr) as Hrange.
  assert (Hsame : forall cs d,
             Forall (fun c => c = IrqEvtEnable \/ c = IrqEvtDisable) cs ->
             irqs_requested (fst (run_irq_calls cs d)) = irqs_requested d).
  { induction cs as [|c cs IH]; intros d Hf; [reflexivity|].
    inversion Hf as [|? ? Hc Hcs]; subst. cbn [run_irq_calls].
    specialize (IH d Hcs).
    destruct Hc as [-> | ->]; cbn [run_irq_call];
      destruct (run_irq_calls cs d) as [d2 t2]; exact IH. }
  specialize (Hsame (calls ++ [call]) dev).
  rewrite run_irq_calls_app in *.
  pose proof (run_irq_calls_range calls dev Hr) as Hr1.
  destruct (run_irq_calls calls dev) as [dev1 tr1]. cbn [fst] in Hr1.
  cbn [run_irq_calls] in *.
  pose proof (run_irq_call_enable_register call dev1 Hne Hr1) as E.
  destruct (run_irq_call call dev1) as [dev2 tr2]. cbn [fst snd] in *.
  rewrite app_nil_r.
  split; [apply enable_register_app; exact E|].
  split; [exact Hrange|exact Hsame].
Qed.

End InterruptProofs.

(** Interrupts 3 and 31 on an empty mask. *)
Lemma enable_disable_change_one_bit_witness :
  let H8 := sample_driver_h 8 4096 8 in
  let dev := @DeviceOpen_context H8 sample_buffers in
  let dev3 := fst (@litepcie_enable_interrupt H8 dev 3) in
  let dev31 := fst (@litepcie_enable_interrupt H8 dev3 31) in
  irqs_requested dev3 = 8
  /\ irqs_requested dev31 = 0x80000008
  /\ snd (@litepcie_enable_interrupt H8 dev3 31)
     = [RegWritel 0x1800 0x80000008; RegWritel 0x1804 0x80000000]
  /\ irqs_requested (fst (@litepcie_disable_interrupt H8 dev31 3)) = 0x80000000
  /\ snd (@litepcie_disable_interrupt H8 dev31 3) = [RegWritel 0x1800 0x80000000].
Proof.
  intros H8 dev dev3 dev31.
  destruct (@enable_disable_change_one_bit H8 dev3 31) as [(_ & _ & _ & _ & E) _];
    [lia|cbn; lia|].
  destruct (@enable_disable_change_one_bit H8 dev31 3) as [_ (_ & _ & _ & _ & D)];
    [lia|cbn; lia|].
  split; [reflexivity|]. split; [reflexivity|].
  split; [exact E|]. split; [reflexivity|exact D].
Defined.

(** Interrupts 3 and 5 on the mask 1. *)
Lemma enable_disable_compose_witness :
  let H8 := sample_driver_h 8 4096 8 in
  let dev := set_irqs_requested 1 (@DeviceOpen_context H8 sample_buffers) in
  let enable d n := fst (@litepcie_enable_interrupt H8 d n) in
  let disable d n := fst (@litepcie_disable_interrupt H8 d n) in
  irqs_requested (disable (enable dev 3) 3) = irqs_requested (disable dev 3)
  /\ irqs_requested (enable (disable dev 3) 3) = irqs_requested (enable dev 3)
  /\ irqs_requested (disable (enable dev 3) 3) = 1
  /\ irqs_requested (disable (enable dev 3) 5) = irqs_requested (enable (disable dev 5) 3).
Proof.
  intros H8 dev enable disable.
  destruct (@enable_disable_compose H8 dev 3 5) as (A1 & A2 & A3 & A4);
    [lia|lia|cbn; lia|].
  split; [exact A1|]. split; [exact A2|].
  split; [apply A3; reflexivity|]. apply A4. lia.
Defined.

(** Enable 3, the framework's disable, then its enable: the register is
    back at the mask 8. *)
Lemma enable_register_follows_requested_witness :
  let H8 := sample_driver_h 8 4096 8 in
  let dev := @DeviceOpen_context H8 sample_buffers in
  @enable_register H8 (snd (@run_irq_calls H8 [IrqEnable 3; IrqEvtDisable] dev)) = Some 0
  /\ @enable_register H8
       (snd (@run_irq_calls H8 [IrqEnable 3; IrqEvtDisable; IrqEvtEnable] dev)) = Some 8.
Proof.
  intros H8 dev.
  pose proof (@enable_register_follows_requested H8 [IrqEnable 3] IrqEvtDisable dev) as A.
  pose proof (@enable_register_follows_requested H8 [IrqEnable 3; IrqEvtDisable]
                IrqEvtEnable dev) as B.
  split.
  - apply A; [vm_compute; discriminate|cbn; lia|].
    repeat constructor; cbn; lia.
  - apply B; [vm_compute; discriminate|cbn; lia|].
    repeat constructor; cbn; lia.
Defined.

(** ** The pending mask across the deferred pass *)

Lemma irq_bit_pow2 i : 0 <= i < 32 -> irq_bit i = 2 ^ i.
Proof.
  intros Hi. unfold irq_bit. rewrite Z.shiftl_1_l. apply UINT32_small.
  split; [apply Z.pow_nonneg; lia|apply Z.pow_lt_mono_r; lia].
Qed.

Lemma land_pow2_eqb v i : 0 <= i -> (Z.land v (2 ^ i) =? 0) = negb (Z.testbit v i).
Proof.
  intros Hi. destruct (Z.testbit v i) eqn:E; cbn [negb].
  - apply Z.eqb_neq. intros E0.
    apply (f_equal (fun x => Z.testbit x i)) in E0.
    rewrite Z.land_spec, E, Z.pow2_bits_true, Z.bits_0 in E0 by lia. discriminate.
  - apply Z.eqb_eq. apply Z.bits_inj'. intros b Hb.
    rewrite Z.land_spec, Z.bits_0, Z.pow2_bits_eqb by lia.
    destruct (Z.eqb_spec i b) as [->|]; [rewrite E|rewrite andb_false_r]; reflexivity.
Qed.

Lemma lor_irq_bit_mask m i :
  0 <= m < 2 ^ 32 -> 0 <= i < 32 ->
  (forall b, Z.testbit (UINT32 (Z.lor m (irq_bit i))) b = Z.testbit m b || (b =? i))
  /\ 0 <= UINT32 (Z.lor m (irq_bit i)) < 2 ^ 32.
Proof.
  intros Hm Hi. split; [|apply UINT32_range].
  intros b. rewrite UINT32_testbit, Z.lor_spec, irq_bit_pow2 by exact Hi.
  rewrite (testbit_32bit m b Hm).
  destruct (Z.ltb_spec b 0) as [Hn|Hn].
  { rewrite !Z.testbit_neg_r by lia. destruct (b <? 32), (Z.eqb_spec b i); cbn; lia. }
  rewrite Z.pow2_bits_eqb by lia.
  destruct (Z.ltb_spec b 32), (Z.eqb_spec i b), (Z.eqb_spec b i); cbn; try lia;
    destruct (Z.testbit m b); reflexivity.
Qed.

Section PendingProofs.
Context {H : driver_h} {W : wdf_request_memory}.

Lemma dpc_reader_mask mmio v c m c' m' tr :
  0 <= m < 2 ^ 32 -> 0 <= reader_interrupt (dma c) < 32 ->
  dpc_reader mmio v c m = Some (c', m', tr) ->
  (forall b, Z.testbit m' b
             = Z.testbit m b || (Z.testbit v b && (b =? reader_interrupt (dma c))))
  /\ 0 <= m' < 2 ^ 32.
Proof.
  intros Hm Hi. unfold dpc_reader.
  rewrite irq_bit_pow2, land_pow2_eqb, negb_involutive by lia.
  destruct (Z.testbit v (reader_interrupt (dma c))) eqn:Ev.
  - cbn [reader_reconcile]. set (c1 := set_dma _ c).
    destruct (lor_irq_bit_mask m (reader_interrupt (dma c)) Hm Hi) as [Hbits Hrange].
    rewrite irq_bit_pow2 in Hbits, Hrange by exact Hi.
    assert (Hgoal : forall b,
               Z.testbit (UINT32 (Z.lor m (2 ^ reader_interrupt (dma c)))) b
               = Z.testbit m b || (Z.testbit v b && (b =? reader_interrupt (dma c)))).
    { intros b. rewrite Hbits.
      destruct (Z.eqb_spec b (reader_interrupt (dma c))) as [->|];
        [rewrite Ev|rewrite andb_false_r]; reflexivity. }
    destruct (writeRequest (dma c1)) as [request|].
    + destruct (litepciedrv_ChannelWrite _ _ _) as [[c2 tr2]|]; [|discriminate].
      intros [= <- <- <-]. split; assumption.
    + intros [= <- <- <-]. split; assumption.
  - intros [= <- <- <-]. split; [|exact Hm]. intros b.
    destruct (Z.eqb_spec b (reader_interrupt (dma c))) as [->|];
      [rewrite Ev|rewrite andb_false_r]; rewrite orb_false_r; reflexivity.
Qed.

Lemma dpc_writer_mask mmio v c m c' m' tr :
  0 <= m < 2 ^ 32 -> 0 <= writer_interrupt (dma c) < 32 ->
  dpc_writer mmio v c m = Some (c', m', tr) ->
  (forall b, Z.testbit m' b
             = Z.testbit m b || (Z.testbit v b && (b =? writer_interrupt (dma c))))
  /\ 0 <= m' < 2 ^ 32.
Proof.
  intros Hm Hi. unfold dpc_writer.
  rewrite irq_bit_pow2, land_pow2_eqb, negb_involutive by lia.
  destruct (Z.testbit v (writer_interrupt (dma c))) eqn:Ev.
  - cbn [writer_reconcile]. set (c1 := set_dma _ c).
    destruct (lor_irq_bit_mask m (writer_interrupt (dma c)) Hm Hi) as [Hbits Hrange].
    rewrite irq_bit_pow2 in Hbits, Hrange by exact Hi.
    assert (Hgoal : forall b,
               Z.testbit (UINT32 (Z.lor m (2 ^ writer_interrupt (dma c)))) b
               = Z.testbit m b || (Z.testbit v b && (b =? writer_interrupt (dma c)))).
    { intros b. rewrite Hbits.
      destruct (Z.eqb_spec b (writer_interrupt (dma c))) as [->|];
        [rewrite Ev|rewrite andb_false_r]; reflexivity. }
    destruct (readRequest (dma c1)) as [request|].
    + destruct (litepciedrv_ChannelRead _ _ _) as [[c2 tr2]|]; [|discriminate].
      intros [= <- <- <-]. split; assumption.
    + intros [= <- <- <-]. split; assumption.
  - intros [= <- <- <-]. split; [|exact Hm]. intros b.
    destruct (Z.eqb_spec b (writer_interrupt (dma c))) as [->|];
      [rewrite Ev|rewrite andb_false_r]; rewrite orb_false_r; reflexivity.
Qed.

Lemma dpc_channel_mask mmio v c m c' m' tr :
  0 <= m < 2 ^ 32 -> interrupts_ok c ->
  dpc_channel mmio v c m = Some (c', m', tr) ->
  (forall b, Z.testbit m' b = Z.testbit m b || (Z.testbit v b && owns_interrupt c b))
  /\ 0 <= m' < 2 ^ 32.
Proof.
  intros Hm [Hr Hw]. unfold dpc_channel.
  destruct (dpc_reader _ _ _ _) as [[[c1 m1] tr1]|] eqn:E1; [|discriminate].
  destruct (dpc_writer _ _ _ _) as [[[c2 m2] tr2]|] eqn:E2; [|discriminate].
  intros [= <- <- <-].
  pose proof (dpc_reader_ring_of _ _ _ _ _ _ _ E1) as Hring.
  assert (Ew : writer_interrupt (dma c1) = writer_interrupt (dma c)).
  { unfold ring_of in Hring. congruence. }
  destruct (dpc_reader_mask _ _ _ _ _ _ _ Hm Hr E1) as [B1 R1].
  rewrite <- Ew in Hw.
  destruct (dpc_writer_mask _ _ _ _ _ _ _ R1 Hw E2) as [B2 R2].
  split; [|exact R2]. intros b. rewrite B2, B1, Ew. unfold owns_interrupt.
  rewrite (Z.eqb_sym (reader_interrupt (dma c)) b), (Z.eqb_sym (writer_interrupt (dma c)) b).
  destruct (Z.testbit m b), (Z.testbit v b), (b =? _), (b =? _); reflexivity.
Qed.

Lemma dpc_channels_mask mmio v chans : forall m chans' m' tr,
  0 <= m < 2 ^ 32 -> Forall interrupts_ok chans ->
  dpc_channels mmio v chans m = Some (chans', m', tr) ->
  (forall b, Z.testbit m' b
             = Z.testbit m b || (Z.testbit v b && existsb (fun c => owns_interrupt c b) chans))
  /\ 0 <= m' < 2 ^ 32.
Proof.
  induction chans as [|c chans IH]; intros m chans' m' tr Hm Hok; cbn [dpc_channels].
  - intros [= <- <- <-]. split; [|exact Hm]. intros b. cbn.
    rewrite andb_false_r, orb_false_r. reflexivity.
  - inversion Hok as [|? ? Hc Hcs]; subst.
    destruct (dpc_channel _ _ _ _) as [[[c1 m1] tr1]|] eqn:E1; [|discriminate].
    destruct (dpc_channels _ _ _ _) as [[[r m2] tr2]|] eqn:E2; [|discriminate].
    intros [= <- <- <-].
    destruct (dpc_channel_mask _ _ _ _ _ _ _ Hm Hc E1) as [B1 R1].
    destruct (IH _ _ _ _ R1 Hcs E2) as [B2 R2].
    split; [|exact R2]. intros b. rewrite B2, B1. cbn [existsb].
    destruct (Z.testbit m b), (Z.testbit v b), (owns_interrupt c b), (existsb _ chans);
      reflexivity.
Qed.

(** X13. [litepcie_EvtDpc] clears from the pending mask exactly the bits
    that are enabled in the interrupt-enable register and are the reader or
    the writer interrupt of one of the device's channels; every other pending
    bit stays pending, and no bit is ever set.  (The pending mask is 32 bits
    wide and the interrupt numbers are below 32.) *)
Theorem deferred_pass_clears_serviced_bits (mmio : Z -> Z) (dev dev' : DEVICE_CONTEXT)
    (tr : list event) :
  0 <= irqs_pending dev < 2 ^ 32 ->
  Forall interrupts_ok (chan dev) ->
  litepcie_EvtDpc mmio dev = Some (dev', tr) ->
  forall b,
    Z.testbit (irqs_pending dev') b
    = Z.testbit (irqs_pending dev) b
      && negb (Z.testbit (litepciedrv_RegReadl mmio CSR_PCIE_MSI_ENABLE_ADDR) b
               && existsb (fun c => owns_interrupt c b)
                    (firstn (Z.to_nat (channels dev)) (chan dev))).
Proof.
  intros Hp Hok. unfold litepcie_EvtDpc.
  destruct (dpc_channels _ _ _ _) as [[[chans m] tr1]|] eqn:E; [|discriminate].
  intros [= <- <-] b. cbn [irqs_pending set_irqs_pending].
  assert (Hok1 : Forall interrupts_ok (firstn (Z.to_nat (channels dev)) (chan dev))).
  { rewrite <- (firstn_skipn (Z.to_nat (channels dev)) (chan dev)) in Hok.
    apply Forall_app in Hok. apply Hok. }
  assert (H0 : 0 <= 0 < 2 ^ 32) by lia.
  destruct (dpc_channels_mask _ _ _ _ _ _ _ H0 Hok1 E) as [B _].
  rewrite Z.land_spec, UINT32_testbit.
  rewrite (testbit_32bit _ b Hp).
  destruct (Z.ltb_spec b 0) as [Hn|Hn].
  { rewrite !Z.testbit_neg_r by lia. destruct (b <? 32); reflexivity. }
  rewrite Z.lnot_spec, B, Z.bits_0, Z.land_spec by lia. cbn [orb].
  destruct (b <? 32), (Z.testbit (irqs_pending dev) b), (Z.testbit _ b), (existsb _ _);
    reflexivity.
Qed.

Lemma dpc_channel_idle mmio v c m :
  Z.land v (irq_bit (reader_interrupt (dma c))) = 0 ->
  Z.land v (irq_bit (writer_interrupt (dma c))) = 0 ->
  dpc_channel mmio v c m = Some (c, m, []).
Proof.
  intros Hr Hw. unfold dpc_channel, dpc_reader, dpc_writer.
  rewrite Hr. cbn [Z.eqb negb]. rewrite Hw. reflexivity.
Qed.

Lemma dpc_channels_idle mmio chans m : dpc_channels mmio 0 chans m = Some (chans, m, []).
Proof.
  induction chans as [|c chans IH]; [reflexivity|]. cbn [dpc_channels].
  rewrite dpc_channel_idle by apply Z.land_0_l. rewrite IH. reflexivity.
Qed.

(** X14. The deferred pass skips idle channels: a channel neither of
    whose interrupt bits is pending and enabled is passed over unchanged,
    with no register access, lock or completion.  When no pending interrupt
    is enabled at all, [litepcie_EvtDpc] does nothing: the context (32-bit
    pending mask) is the same afterwards and the trace is empty, so parked
    requests stay parked. *)
Theorem deferred_pass_skips_idle (mmio : Z -> Z) (dev : DEVICE_CONTEXT) (c : LITEPCIE_CHAN)
    (irq_vector clear_mask : Z) :
  0 <= irqs_pending dev < 2 ^ 32 ->
  (Z.land irq_vector (irq_bit (reader_interrupt (dma c))) = 0 ->
   Z.land irq_vector (irq_bit (writer_interrupt (dma c))) = 0 ->
   dpc_channel mmio irq_vector c clear_mask = Some (c, clear_mask, []))
  /\ (Z.land (irqs_pending dev) (litepciedrv_RegReadl mmio CSR_PCIE_MSI_ENABLE_ADDR) = 0 ->
      litepcie_EvtDpc mmio dev = Some (dev, [])).
Proof.
  intros Hp. split; [apply dpc_channel_idle|].
  intros Hv. unfold litepcie_EvtDpc. rewrite Hv, dpc_channels_idle.
  rewrite firstn_skipn.
  replace (UINT32 (Z.lnot 0)) with (Z.ones 32) by reflexivity.
  rewrite Z.land_ones, Z.mod_small by lia.
  destruct dev; reflexivity.
Qed.

End PendingProofs.

(** Interrupts 0, 1 and 2 pending and enabled on a device whose one channel
    owns the interrupts 0 and 1: the pass clears the bits 0 and 1 and leaves
    bit 2 pending. *)
Lemma deferred_pass_clears_serviced_bits_witness :
  let H8 := sample_driver_h 8 4096 8 in
  let M := sample_request_memory in
  let dev := {| channels := 1; chan := [sample_chan 0 0 0 0 0 0 None None 0 0];
                irqs_requested := 0; irqs_pending := 7 |} in
  exists dev' tr,
    @litepcie_EvtDpc H8 M (sample_mmio 7 5) dev = Some (dev', tr)
    /\ Z.testbit (irqs_pending dev') 0 = false
    /\ Z.testbit (irqs_pending dev') 1 = false
    /\ Z.testbit (irqs_pending dev') 2 = true.
Proof.
  intros H8 M dev.
  destruct (@litepcie_EvtDpc H8 M (sample_mmio 7 5) dev) as [[dev' tr]|] eqn:E;
    [|vm_compute in E; discriminate].
  assert (Hp : 0 <= irqs_pending dev < 2 ^ 32) by (cbn; lia).
  assert (Hok : Forall interrupts_ok (chan dev)).
  { repeat constructor; cbn; lia. }
  pose proof (@deferred_pass_clears_serviced_bits H8 M (sample_mmio 7 5) dev dev' tr
                Hp Hok E) as B.
  exists dev', tr. split; [reflexivity|].
  split; [exact (B 0)|]. split; [exact (B 1)|exact (B 2)].
Defined.

(** A channel owning the interrupts 0 and 1 under the vector 4, and a
    device with nothing pending. *)
Lemma deferred_pass_skips_idle_witness :
  let H8 := sample_driver_h 8 4096 8 in
  let M := sample_request_memory in
  let c := sample_chan 0 0 0 0 0 0 (Some 7) None 4096 0 in
  let dev := {| channels := 1; chan := [c]; irqs_requested := 0; irqs_pending := 0 |} in
  @dpc_channel H8 M (sample_mmio 4 5) 4 c 0 = Some (c, 0, [])
  /\ @litepcie_EvtDpc H8 M (sample_mmio 4 5) dev = Some (dev, []).
Proof.
  intros H8 M c dev.
  destruct (@deferred_pass_skips_idle H8 M (sample_mmio 4 5) dev c 4 0) as [A B];
    [cbn; lia|].
  split; [apply A; reflexivity|apply B; reflexivity].
Defined.

(** ** A request after a ring start or stop *)

Lemma nth_error_store_chan l : forall i c c',
  nth_error l i = Some c -> nth_error (store_chan l i c') i = Some c'.
Proof.
  induction l as [|x l IH]; intros [|i] c c' E; cbn in *; try discriminate; [reflexivity|].
  eapply IH. exact E.
Qed.

Section RestartProofs.
Context {H : driver_h} {W : wdf_request_memory}.

Lemma writer_restart_parks_read dev index c request length dev1 :
  0 < DMA_BUFFER_SIZE < 2 ^ 31 -> 0 <= length < 2 ^ 64 ->
  nth_error (chan dev) (Z.to_nat index) = Some c ->
  NT_SUCCESS (fst (WdfRequestRetrieveOutputMemory request)) = true ->
  dev1 = fst (litepcie_dma_writer_start dev index)
  \/ dev1 = fst (litepcie_dma_writer_stop dev index) ->
  exists dev2 tr c2,
    run_operation (OpChannelRead index request length) dev1 = Some (dev2, tr)
    /\ bytes_copied tr = 0 /\ completions tr = []
    /\ nth_error (chan dev2) (Z.to_nat index) = Some c2
    /\ readRequest (dma c2) = Some request
    /\ readRemainingBytes (dma c2) = length
    /\ writer_sw_count (dma c2) = 0 /\ writer_hw_count (dma c2) = 0.
Proof.
  intros Hs Hl Hc Hok Hdev.
  set (c1 := set_dma (set_writer_sw_count 0 (set_writer_hw_count_last 0
                        (set_writer_hw_count 0 (dma c)))) c).
  assert (E1 : chan dev1 = store_chan (chan dev) (Z.to_nat index) c1).
  { destruct Hdev as [-> | ->];
      unfold litepcie_dma_writer_start, litepcie_dma_writer_stop; rewrite Hc; reflexivity. }
  assert (E2 : nth_error (chan dev1) (Z.to_nat index) = Some c1).
  { rewrite E1. eapply nth_error_store_chan. exact Hc. }
  destruct (ChannelRead_exact c1 request length Hs Hl)
    as (c2 & tr & E & _ & A1 & A2 & A3 & _);
    [cbn; lia|cbn; lia|exact Hok|].
  assert (En : buffers_served length
                 (writer_hw_count (dma c1) - writer_sw_count (dma c1)) = 0).
  { unfold buffers_served. cbn. pose proof (Z.div_pos length DMA_BUFFER_SIZE). lia. }
  rewrite En in *. cbn in A2, A3.
  destruct (ChannelRead_spec c1 request length Hs Hl Hok) as (c2' & tr' & E' & _ & _ & P).
  rewrite E in E'. injection E' as <- <-.
  destruct (P ltac:(lia)) as (P1 & P2 & P3).
  exists (set_chan (store_chan (chan dev1) (Z.to_nat index) c2) dev1), tr, c2.
  split; [cbn [run_operation]; unfold on_channel; rewrite E2, E; reflexivity|].
  split; [lia|]. split; [exact P1|].
  split; [cbn [chan set_chan]; eapply nth_error_store_chan; exact E2|].
  repeat split; assumption.
Qed.

Lemma reader_restart_parks_write dev index c request length dev1 :
  0 < DMA_BUFFER_SIZE < 2 ^ 31 -> 0 <= length < 2 ^ 64 ->
  nth_error (chan dev) (Z.to_nat index) = Some c ->
  NT_SUCCESS (fst (WdfRequestRetrieveInputMemory request)) = true ->
  dev1 = fst (litepcie_dma_reader_start dev index)
  \/ dev1 = fst (litepcie_dma_reader_stop dev index) ->
  exists dev2 tr c2,
    run_operation (OpChannelWrite index request length) dev1 = Some (dev2, tr)
    /\ bytes_copied tr = 0 /\ completions tr = []
    /\ nth_error (chan dev2) (Z.to_nat index) = Some c2
    /\ writeRequest (dma c2) = Some request
    /\ writeRemainingBytes (dma c2) = length
    /\ reader_sw_count (dma c2) = 0 /\ reader_hw_count (dma c2) = 0.
Proof.
  intros Hs Hl Hc Hok Hdev.
  set (c1 := set_dma (set_reader_sw_count 0 (set_reader_hw_count_last 0
                        (set_reader_hw_count 0 (dma c)))) c).
  assert (E1 : chan dev1 = store_chan (chan dev) (Z.to_nat index) c1).
  { destruct Hdev as [-> | ->];
      unfold litepcie_dma_reader_start, litepcie_dma_reader_stop; rewrite Hc; reflexivity. }
  assert (E2 : nth_error (chan dev1) (Z.to_nat index) = Some c1).
  { rewrite E1. eapply nth_error_store_chan. exact Hc. }
  destruct (ChannelWrite_exact c1 request length Hs Hl)
    as (c2 & tr & E & _ & A1 & A2 & A3 & _);
    [cbn; lia|cbn; lia|exact Hok|].
  assert (En : buffers_served length
                 (reader_hw_count (dma c1) - reader_sw_count (dma c1)) = 0).
  { unfold buffers_served. cbn. pose proof (Z.div_pos length DMA_BUFFER_SIZE). lia. }
  rewrite En in *. cbn in A2, A3.
  destruct (ChannelWrite_spec c1 request length Hs Hl Hok) as (c2' & tr' & E' & _ & _ & P).
  rewrite E in E'. injection E' as <- <-.
  destruct (P ltac:(lia)) as (P1 & P2 & P3).
  exists (set_chan (store_chan (chan dev1) (Z.to_nat index) c2) dev1), tr, c2.
  split; [cbn [run_operation]; unfold on_channel; rewrite E2, E; reflexivity|].
  split; [lia|]. split; [exact P1|].
  split; [cbn [chan set_chan]; eapply nth_error_store_chan; exact E2|].
  repeat split; assumption.
Qed.

(** X15. Ring start and ring stop throw away what was available: the
    first read (write) request handed to the channel after
    [litepcie_dma_writer_start] or [litepcie_dma_writer_stop]
    ([litepcie_dma_reader_start] or [litepcie_dma_reader_stop]) moves nothing,
    whatever the counters were before, and is parked with its full length;
    after a stop it stays parked until an interrupt of a restarted ring
    arrives. *)
Theorem request_after_restart_parks (dev dev1 : DEVICE_CONTEXT) (index : Z)
    (c : LITEPCIE_CHAN) (request : WDFREQUEST) (length : Z) :
  0 < DMA_BUFFER_SIZE < 2 ^ 31 -> 0 <= length < 2 ^ 64 ->
  nth_error (chan dev) (Z.to_nat index) = Some c ->
  (NT_SUCCESS (fst (WdfRequestRetrieveOutputMemory request)) = true ->
   dev1 = fst (litepcie_dma_writer_start dev index)
   \/ dev1 = fst (litepcie_dma_writer_stop dev index) ->
   exists dev2 tr c2,
     run_operation (OpChannelRead index request length) dev1 = Some (dev2, tr)
     /\ bytes_copied tr = 0 /\ completions tr = []
     /\ nth_error (chan dev2) (Z.to_nat index) = Some c2
     /\ readRequest (dma c2) = Some request
     /\ readRemainingBytes (dma c2) = length
     /\ writer_sw_count (dma c2) = 0 /\ writer_hw_count (dma c2) = 0)
  /\ (NT_SUCCESS (fst (WdfRequestRetrieveInputMemory request)) = true ->
      dev1 = fst (litepcie_dma_reader_start dev index)
      \/ dev1 = fst (litepcie_dma_reader_stop dev index) ->
      exists dev2 tr c2,
        run_operation (OpChannelWrite index request length) dev1 = Some (dev2, tr)
        /\ bytes_copied tr = 0 /\ completions tr = []
        /\ nth_error (chan dev2) (Z.to_nat index) = Some c2
        /\ writeRequest (dma c2) = Some request
        /\ writeRemainingBytes (dma c2) = length
        /\ reader_sw_count (dma c2) = 0 /\ reader_hw_count (dma c2) = 0).
Proof.
  intros Hs Hl Hc. split; intros Hok Hdev.
  - exact (writer_restart_parks_read dev index c request length dev1 Hs Hl Hc Hok Hdev).
  - exact (reader_restart_parks_write dev index c request length dev1 Hs Hl Hc Hok Hdev).
Qed.

End RestartProofs.

(** A channel with five buffers available in each direction: after a stop
    of the writer ring a read of two buffers is parked, after a start of the
    reader ring a write of two buffers is parked. *)
Lemma request_after_restart_parks_witness :
  let H8 := sample_driver_h 8 4096 8 in
  let M := sample_request_memory in
  let dev := {| channels := 1; chan := [sample_chan 5 5 0 5 5 0 None None 0 0];
                irqs_requested := 0; irqs_pending := 0 |} in
  (exists dev2 tr c2,
     @run_operation H8 M (OpChannelRead 0 7 8192)
       (fst (@litepcie_dma_writer_stop H8 dev 0)) = Some (dev2, tr)
     /\ bytes_copied tr = 0 /\ completions tr = []
     /\ nth_error (chan dev2) 0 = Some c2
     /\ readRequest (dma c2) = Some 7
     /\ readRemainingBytes (dma c2) = 8192
     /\ writer_sw_count (dma c2) = 0 /\ writer_hw_count (dma c2) = 0)
  /\ (exists dev2 tr c2,
        @run_operation H8 M (OpChannelWrite 0 9 8192)
          (fst (@litepcie_dma_reader_start H8 dev 0)) = Some (dev2, tr)
        /\ bytes_copied tr = 0 /\ completions tr = []
        /\ nth_error (chan dev2) 0 = Some c2
        /\ writeRequest (dma c2) = Some 9
        /\ writeRemainingBytes (dma c2) = 8192
        /\ reader_sw_count (dma c2) = 0 /\ reader_hw_count (dma c2) = 0).
Proof.
  intros H8 M dev.
  destruct (@request_after_restart_parks H8 M dev (fst (@litepcie_dma_writer_stop H8 dev 0)) 0
              (sample_chan 5 5 0 5 5 0 None None 0 0) 7 8192) as [R _];
    [cbn; lia|lia|reflexivity|].
  destruct (@request_after_restart_parks H8 M dev (fst (@litepcie_dma_reader_start H8 dev 0)) 0
              (sample_chan 5 5 0 5 5 0 None None 0 0) 9 8192) as [_ Wr];
    [cbn; lia|lia|reflexivity|].
  split.
  - apply R; [reflexivity|right; reflexivity].
  - apply Wr; [reflexivity|left; reflexivity].
Defined.

(** ** The layout of the rings *)

Lemma for_range_length n : List.length (for_range n) = Z.to_nat n.
Proof. unfold for_range. rewrite length_map, length_seq. reflexivity. Qed.

Lemma nth_map_for_range (f : Z -> Z) n j d :
  0 <= j < n -> nth (Z.to_nat j) (map f (for_range n)) d = f j.
Proof.
  intros Hj.
  rewrite (nth_indep _ d (f 0)) by (rewrite length_map, for_range_length; lia).
  rewrite map_nth. f_equal. unfold for_range.
  rewrite (nth_indep _ 0 (Z.of_nat 0)) by (rewrite length_map, length_seq; lia).
  rewrite map_nth, seq_nth by lia. lia.
Qed.

Section LayoutProofs.
Context {H : driver_h}.

(** X16. When the ring fits 32-bit offsets ([DMA_BUFFER_COUNT *
    DMA_BUFFER_SIZE <= 2^32]) and the common buffers lie inside the address
    space, [litepciedrv_DeviceOpen] gives slot [j] of each of the four arrays
    the address [start + j * DMA_BUFFER_SIZE] of its common buffer: the slots
    of a ring are laid out back to back, do not overlap, and end where the
    common buffer of [DMA_BUFFER_COUNT * DMA_BUFFER_SIZE] bytes ends. *)
Theorem DeviceOpen_slots_back_to_back
    (buffers : Z -> PVOID * PHYSICAL_ADDRESS * PVOID * PHYSICAL_ADDRESS) (i j : Z) :
  0 < DMA_BUFFER_SIZE ->
  DMA_BUFFER_COUNT * DMA_BUFFER_SIZE <= 2 ^ 32 ->
  0 <= j < DMA_BUFFER_COUNT ->
  let '(rdVirtAddr, rdPhysAddr, wrVirtAddr, wrPhysAddr) := buffers i in
  let total := DMA_BUFFER_COUNT * DMA_BUFFER_SIZE in
  let d := dma (DeviceOpen_chan buffers i) in
  0 <= rdVirtAddr -> rdVirtAddr + total <= 2 ^ 64 ->
  0 <= wrVirtAddr -> wrVirtAddr + total <= 2 ^ 64 ->
  0 <= rdPhysAddr -> rdPhysAddr + total <= 2 ^ 63 ->
  0 <= wrPhysAddr -> wrPhysAddr + total <= 2 ^ 63 ->
  (nth (Z.to_nat j) (reader_handle d) 0 = rdVirtAddr + j * DMA_BUFFER_SIZE
   /\ nth (Z.to_nat j) (writer_handle d) 0 = wrVirtAddr + j * DMA_BUFFER_SIZE
   /\ nth (Z.to_nat j) (reader_addr d) 0 = rdPhysAddr + j * DMA_BUFFER_SIZE
   /\ nth (Z.to_nat j) (writer_addr d) 0 = wrPhysAddr + j * DMA_BUFFER_SIZE)
  /\ nth (Z.to_nat j) (reader_handle d) 0 + DMA_BUFFER_SIZE <= rdVirtAddr + total
  /\ nth (Z.to_nat j) (writer_handle d) 0 + DMA_BUFFER_SIZE <= wrVirtAddr + total
  /\ forall j', j < j' < DMA_BUFFER_COUNT ->
       nth (Z.to_nat j) (reader_handle d) 0 + DMA_BUFFER_SIZE
       <= nth (Z.to_nat j') (reader_handle d) 0
       /\ nth (Z.to_nat j) (writer_handle d) 0 + DMA_BUFFER_SIZE
          <= nth (Z.to_nat j') (writer_handle d) 0.
Proof.
  intros Hs Ht Hj. unfold DeviceOpen_chan.
  destruct (buffers i) as [[[rv rp] wv] wp].
  cbv beta iota zeta delta [dma reader_handle writer_handle reader_addr writer_addr].
  unfold PVOID, PHYSICAL_ADDRESS in *.
  intros Hrv0 Hrv Hwv0 Hwv Hrp0 Hrp Hwp0 Hwp.
  assert (Hoff : forall x, 0 <= x < DMA_BUFFER_COUNT ->
            UINT32 (x * DMA_BUFFER_SIZE) = x * DMA_BUFFER_SIZE
            /\ 0 <= x * DMA_BUFFER_SIZE
            /\ x * DMA_BUFFER_SIZE + DMA_BUFFER_SIZE <= DMA_BUFFER_COUNT * DMA_BUFFER_SIZE).
  { intros x Hx. assert (0 <= x * DMA_BUFFER_SIZE) by nia.
    assert (x * DMA_BUFFER_SIZE + DMA_BUFFER_SIZE <= DMA_BUFFER_COUNT * DMA_BUFFER_SIZE) by nia.
    split; [apply UINT32_small; lia|split; assumption]. }
  assert (Hslot : forall x, 0 <= x < DMA_BUFFER_COUNT ->
            nth (Z.to_nat x)
              (map (fun j => UINT64 (rv + UINT32 (j * DMA_BUFFER_SIZE)))
                 (for_range DMA_BUFFER_COUNT)) 0 = rv + x * DMA_BUFFER_SIZE
            /\ nth (Z.to_nat x)
                 (map (fun j => UINT64 (wv + UINT32 (j * DMA_BUFFER_SIZE)))
                    (for_range DMA_BUFFER_COUNT)) 0 = wv + x * DMA_BUFFER_SIZE
            /\ nth (Z.to_nat x)
                 (map (fun j => INT64 (rp + UINT32 (j * DMA_BUFFER_SIZE)))
                    (for_range DMA_BUFFER_COUNT)) 0 = rp + x * DMA_BUFFER_SIZE
            /\ nth (Z.to_nat x)
                 (map (fun j => INT64 (wp + UINT32 (j * DMA_BUFFER_SIZE)))
                    (for_range DMA_BUFFER_COUNT)) 0 = wp + x * DMA_BUFFER_SIZE).
  { intros x Hx. destruct (Hoff x Hx) as (E & H0 & H1).
    rewrite !nth_map_for_range by exact Hx. rewrite E.
    rewrite !UINT64_small, !INT64_small by lia. repeat split; reflexivity. }
  destruct (Hslot j Hj) as (E1 & E2 & E3 & E4). destruct (Hoff j Hj) as (_ & H0 & H1).
  split; [repeat split; assumption|].
  rewrite E1, E2. split; [lia|]. split; [lia|].
  intros j' Hj'. destruct (Hslot j' ltac:(lia)) as (F1 & F2 & _). rewrite F1, F2.
  split; nia.
Qed.

End LayoutProofs.

(** Slot 3 of the sample rings: 8 buffers of 4096 bytes. *)
Lemma DeviceOpen_slots_back_to_back_witness :
  let H8 := sample_driver_h 8 4096 8 in
  let d := dma (@DeviceOpen_chan H8 sample_buffers 0) in
  (nth 3 (reader_handle d) 0 = 0x10003000
   /\ nth 3 (writer_handle d) 0 = 0x20003000
   /\ nth 3 (reader_addr d) 0 = 0x80003000
   /\ nth 3 (writer_addr d) 0 = 0x90003000)
  /\ nth 3 (reader_handle d) 0 + 4096 <= 0x10000000 + 32768
  /\ nth 3 (writer_handle d) 0 + 4096 <= 0x20000000 + 32768.
Proof.
  intros H8 d.
  assert (Hs : 0 < @DMA_BUFFER_SIZE H8) by reflexivity.
  assert (Ht : @DMA_BUFFER_COUNT H8 * @DMA_BUFFER_SIZE H8 <= 2 ^ 32)
    by (vm_compute; discriminate).
  assert (Hj : 0 <= 3 < @DMA_BUFFER_COUNT H8) by (split; [lia|reflexivity]).
  pose proof (@DeviceOpen_slots_back_to_back H8 sample_buffers 0 3 Hs Ht Hj) as A.
  change (sample_buffers 0) with (0x10000000, 0x80000000, 0x20000000, 0x90000000) in A.
  cbv beta iota zeta in A.
  destruct A as (A1 & A2 & A3 & _); try (vm_compute; discriminate).
  split; [exact A1|]. split; [exact A2|exact A3].
Defined.

(** ** Device setup and teardown *)

Section SetupProofs.
Context {H : driver_h} {F : wdf_setup}.

Lemma count_interrupts_filter resources : forall irqs,
  count_interrupts resources (UINT32 irqs)
  = UINT32 (irqs + Z.of_nat (List.length
              (filter (fun d => match ResourceType d with
                                | CmResourceTypeInterrupt => true
                                | _ => false
                                end) resources))).
Proof.
  induction resources as [|d l IH]; intros irqs; cbn [count_interrupts filter List.length].
  - rewrite Z.add_0_r. reflexivity.
  - destruct (ResourceType d); cbn [List.length]; try apply IH.
    replace (UINT32 (UINT32 irqs + 1)) with (UINT32 (irqs + 1))
      by (unfold UINT32; rewrite Zplus_mod_idemp_l; reflexivity).
    rewrite IH. f_equal. lia.
Qed.

Lemma create_interrupt_first resources : forall start status i desc,
  nth_error resources i = Some desc ->
  ResourceType desc = CmResourceTypeInterrupt ->
  (forall j d, (j < i)%nat -> nth_error resources j = Some d ->
               ResourceType d <> CmResourceTypeInterrupt) ->
  create_interrupt resources start status
  = (WdfInterruptCreate (start + Z.of_nat i), [InterruptCreate (start + Z.of_nat i)]).
Proof.
  induction resources as [|d l IH]; intros start status [|i] desc E Ht Hfirst;
    cbn in E; try discriminate.
  - injection E as ->. cbn [create_interrupt]. rewrite Ht, Z.add_0_r. reflexivity.
  - cbn [create_interrupt].
    assert (Hd : ResourceType d <> CmResourceTypeInterrupt).
    { apply (Hfirst 0%nat d); [lia|reflexivity]. }
    rewrite (IH (start + 1) status i desc E Ht).
    2:{ intros j d' Hj Ej. apply (Hfirst (S j) d'); [lia|exact Ej]. }
    replace (start + 1 + Z.of_nat i) with (start + Z.of_nat (S i)) by lia.
    destruct (ResourceType d); try reflexivity. contradiction.
Qed.

Lemma create_interrupt_none resources : forall start status,
  (forall d, In d resources -> ResourceType d <> CmResourceTypeInterrupt) ->
  create_interrupt resources start status = (status, []).
Proof.
  induction resources as [|d l IH]; intros start status Hnone; [reflexivity|].
  cbn [create_interrupt].
  assert (Hd : ResourceType d <> CmResourceTypeInterrupt) by (apply Hnone; left; reflexivity).
  rewrite IH by (intros d' Hin; apply Hnone; right; exact Hin).
  destruct (ResourceType d); try reflexivity. contradiction.
Qed.

(** X17. [litepciedrv_SetupInterrupts] clears [irqs_requested] and
    leaves the rest of the context alone.  However many interrupt resources
    the list holds (it logs their number), it creates one interrupt object
    only, for the first interrupt resource of the list, and returns the
    status of that creation; with no interrupt resource it creates nothing
    and returns [STATUS_SUCCESS]. *)
Theorem SetupInterrupts_creates_first_only (dev : DEVICE_CONTEXT)
    (resources : WDFCMRESLIST) :
  let '(dev', status, tr) := litepciedrv_SetupInterrupts dev resources in
  let irqs :=
    UINT32 (Z.of_nat (List.length
              (filter (fun d => match ResourceType d with
                                | CmResourceTypeInterrupt => true
                                | _ => false
                                end) resources))) in
  dev' = set_irqs_requested 0 dev
  /\ (forall i desc,
        nth_error resources i = Some desc ->
        ResourceType desc = CmResourceTypeInterrupt ->
        (forall j d, (j < i)%nat -> nth_error resources j = Some d ->
                     ResourceType d <> CmResourceTypeInterrupt) ->
        status = WdfInterruptCreate (Z.of_nat i)
        /\ tr = [TraceIrqsAllocated irqs; InterruptCreate (Z.of_nat i)])
  /\ ((forall d, In d resources -> ResourceType d <> CmResourceTypeInterrupt) ->
      status = STATUS_SUCCESS /\ tr = [TraceIrqsAllocated irqs]).
Proof.
  unfold litepciedrv_SetupInterrupts.
  destruct (create_interrupt resources 0 STATUS_SUCCESS) as [status tr] eqn:E.
  cbv zeta.
  pose proof (count_interrupts_filter resources 0) as Hcount.
  change (UINT32 0) with 0 in Hcount. rewrite Z.add_0_l in Hcount.
  split; [reflexivity|]. split.
  - intros i desc Ei Ht Hfirst.
    rewrite (create_interrupt_first resources 0 STATUS_SUCCESS i desc Ei Ht Hfirst) in E.
    injection E as <- <-. rewrite Hcount. split; reflexivity.
  - intros Hnone. rewrite (create_interrupt_none resources 0 STATUS_SUCCESS Hnone) in E.
    injection E as <- <-. rewrite Hcount. split; reflexivity.
Qed.

(** The search from [i] on finds the memory resource at [m]. *)
Lemma bar0_loop_finds resources m r : forall (k : nat) (fuel : nat) i,
  Z.of_nat (List.length resources) < 2 ^ 32 ->
  nth_error resources m = Some r ->
  ResourceType r = CmResourceTypeMemory ->
  (m < 256)%nat ->
  (i + k = m)%nat -> (k < fuel)%nat ->
  (forall j d, (i <= j < m)%nat -> nth_error resources j = Some d ->
               ResourceType d <> CmResourceTypeMemory) ->
  bar0_loop fuel resources (WdfCmResourceListGetCount resources) (Z.of_nat i)
  = Some (if MmMapIoSpace (MemoryStart r) (MemoryLength r) =? 0
          then Some STATUS_DEVICE_CONFIGURATION_ERROR else None,
          MmMapIoSpace (MemoryStart r) (MemoryLength r), MemoryLength r,
          [MapIoSpace (MemoryStart r) (MemoryLength r)]).
Proof.
  intros k. induction k as [|k IH]; intros fuel i Hlen Em Ht Hm Hik Hfuel Hbefore;
    (destruct fuel as [|fuel]; [lia|]); cbn [bar0_loop].
  all: assert (Hin : (m < List.length resources)%nat)
         by (apply nth_error_Some; rewrite Em; discriminate).
  all: assert (Hcount : WdfCmResourceListGetCount resources
                        = Z.of_nat (List.length resources))
         by (apply UINT32_small; lia).
  all: unfold WdfCmResourceListGetDescriptor.
  all: destruct (Z.ltb_spec (Z.of_nat i) (WdfCmResourceListGetCount resources)) as [Hi|Hi];
         [|lia]; cbn [negb]; rewrite Nat2Z.id.
  - replace i with m by lia. rewrite Em, Ht. reflexivity.
  - destruct (nth_error resources i) as [d|] eqn:Ed.
    2:{ apply nth_error_None in Ed. lia. }
    assert (Hd : ResourceType d <> CmResourceTypeMemory).
    { apply (Hbefore i d); [lia|exact Ed]. }
    assert (Hnext : UINT8 (Z.of_nat i + 1) = Z.of_nat (S i)).
    { unfold UINT8. rewrite Z.mod_small; lia. }
    rewrite Hnext.
    rewrite (IH fuel (S i)); try assumption; try lia.
    + destruct (ResourceType d); try reflexivity. contradiction.
    + intros j d' Hj Ej. apply (Hbefore j d'); [lia|exact Ej].
Qed.

(** With no memory resource among at most 255, the search runs off the
    end of the list. *)
Lemma bar0_loop_none resources : forall (k : nat) (fuel : nat) i,
  (List.length resources <= 255)%nat ->
  (forall d, In d resources -> ResourceType d <> CmResourceTypeMemory) ->
  (i + k = List.length resources)%nat -> (k < fuel)%nat ->
  bar0_loop fuel resources (WdfCmResourceListGetCount resources) (Z.of_nat i)
  = Some (None, 0, 0, []).
Proof.
  intros k. induction k as [|k IH]; intros fuel i Hlen Hnone Hik Hfuel;
    (destruct fuel as [|fuel]; [lia|]); cbn [bar0_loop].
  all: assert (Hcount : WdfCmResourceListGetCount resources
                        = Z.of_nat (List.length resources))
         by (apply UINT32_small; lia).
  all: unfold WdfCmResourceListGetDescriptor.
  - destruct (Z.ltb_spec (Z.of_nat i) (WdfCmResourceListGetCount resources));
      [lia|reflexivity].
  - destruct (Z.ltb_spec (Z.of_nat i) (WdfCmResourceListGetCount resources)); [|lia].
    cbn [negb]. rewrite Nat2Z.id.
    destruct (nth_error resources i) as [d|] eqn:Ed.
    2:{ apply nth_error_None in Ed. lia. }
    assert (Hd : ResourceType d <> CmResourceTypeMemory).
    { apply Hnone. eapply nth_error_In. exact Ed. }
    assert (Hnext : UINT8 (Z.of_nat i + 1) = Z.of_nat (S i)).
    { unfold UINT8. rewrite Z.mod_small; lia. }
    rewrite Hnext, (IH fuel (S i)) by (assumption || lia).
    destruct (ResourceType d); try reflexivity. contradiction.
Qed.

(** X18. The search for BAR0 in [litepciedrv_DeviceOpen] maps the first
    memory resource of the list, when that resource is among the first 256:
    it stops there with the mapped address and the length of the resource,
    and returns [STATUS_DEVICE_CONFIGURATION_ERROR] exactly when the mapping
    is [NULL].  On a list of at most 255 resources none of which is a memory
    resource the search ends with no error and [bar0_addr] still [NULL], so
    [litepciedrv_DeviceOpen] goes on to access registers through a [NULL]
    base.  The branch for a [NULL] descriptor is not taken in either case. *)
Theorem bar0_search_maps_first_memory (resources : WDFCMRESLIST) :
  Z.of_nat (List.length resources) < 2 ^ 32 ->
  (forall m r,
     nth_error resources m = Some r ->
     ResourceType r = CmResourceTypeMemory ->
     (m < 256)%nat ->
     (forall j d, (j < m)%nat -> nth_error resources j = Some d ->
                  ResourceType d <> CmResourceTypeMemory) ->
     bar0_loop bar0_fuel resources (WdfCmResourceListGetCount resources) 0
     = Some (if MmMapIoSpace (MemoryStart r) (MemoryLength r) =? 0
             then Some STATUS_DEVICE_CONFIGURATION_ERROR else None,
             MmMapIoSpace (MemoryStart r) (MemoryLength r), MemoryLength r,
             [MapIoSpace (MemoryStart r) (MemoryLength r)]))
  /\ ((List.length resources <= 255)%nat ->
      (forall d, In d resources -> ResourceType d <> CmResourceTypeMemory) ->
      bar0_loop bar0_fuel resources (WdfCmResourceListGetCount resources) 0
      = Some (None, 0, 0, [])).
Proof.
  intros Hlen. split.
  - intros m r Em Ht Hm Hbefore.
    apply (bar0_loop_finds resources m r m bar0_fuel 0%nat Hlen Em Ht Hm);
      [lia|unfold bar0_fuel; lia|].
    intros j d Hj Ej. apply (Hbefore j d); [lia|exact Ej].
  - intros Hshort Hnone.
    apply (bar0_loop_none resources (List.length resources) bar0_fuel 0%nat Hshort Hnone);
      [lia|unfold bar0_fuel; lia].
Qed.

(** X19. The counter of the search for BAR0 is a [UINT8] compared with a
    [ULONG] count: on a list of 256 resources or more whose first 256 hold no
    memory resource the counter wraps from 255 to 0 and the loop is never
    left, whatever the number of iterations; [litepciedrv_DeviceOpen] does
    not return. *)
Theorem bar0_search_never_ends (resources : WDFCMRESLIST) (fuel : nat) :
  256 <= Z.of_nat (List.length resources) < 2 ^ 32 ->
  (forall j d, (j < 256)%nat -> nth_error resources j = Some d ->
               ResourceType d <> CmResourceTypeMemory) ->
  bar0_loop fuel resources (WdfCmResourceListGetCount resources) 0 = None
  /\ litepciedrv_DeviceOpen resources = None.
Proof.
  intros Hlen Hnone.
  assert (Hloop : forall f i, 0 <= i < 256 ->
            bar0_loop f resources (WdfCmResourceListGetCount resources) i = None).
  { induction f as [|f IH]; intros i Hi; [reflexivity|]. cbn [bar0_loop].
    assert (Hcount : WdfCmResourceListGetCount resources
                     = Z.of_nat (List.length resources))
      by (apply UINT32_small; lia).
    unfold WdfCmResourceListGetDescriptor.
    destruct (Z.ltb_spec i (WdfCmResourceListGetCount resources)); [|lia]. cbn [negb].
    destruct (nth_error resources (Z.to_nat i)) as [d|] eqn:Ed.
    2:{ apply nth_error_None in Ed. lia. }
    assert (Hd : ResourceType d <> CmResourceTypeMemory).
    { apply (Hnone (Z.to_nat i) d); [lia|exact Ed]. }
    assert (Hnext : 0 <= UINT8 (i + 1) < 256).
    { unfold UINT8. apply Z.mod_pos_bound. lia. }
    rewrite (IH (UINT8 (i + 1)) Hnext). destruct (ResourceType d); try reflexivity. contradiction. }
  split; [apply Hloop; lia|].
  unfold litepciedrv_DeviceOpen. rewrite Hloop by lia. reflexivity.
Qed.

End SetupProofs.

Lemma length_list_store l : forall i v, List.length (list_store l i v) = List.length l.
Proof. induction l as [|x l IH]; intros [|i] v; cbn; try reflexivity. rewrite IH. reflexivity. Qed.

Lemma firstn_list_store l : forall i v,
  (i < List.length l)%nat -> firstn (S i) (list_store l i v) = firstn i l ++ [v].
Proof.
  induction l as [|x l IH]; intros [|i] v Hi; cbn in *; try lia; [reflexivity|].
  rewrite IH by lia. reflexivity.
Qed.

Lemma nth_list_store l : forall i v d,
  (i < List.length l)%nat -> nth i (list_store l i v) d = v.
Proof.
  induction l as [|x l IH]; intros [|i] v d Hi; cbn in *; try lia.
  apply IH. lia.
Qed.

Lemma length_store_chan l : forall i c, List.length (store_chan l i c) = List.length l.
Proof. induction l as [|x l IH]; intros [|i] c; cbn; try reflexivity. rewrite IH. reflexivity. Qed.

Lemma firstn_store_chan l : forall i c,
  (i < List.length l)%nat -> firstn (S i) (store_chan l i c) = firstn i l ++ [c].
Proof.
  induction l as [|x l IH]; intros [|i] c Hi; cbn in *; try lia; [reflexivity|].
  rewrite IH by lia. reflexivity.
Qed.

Lemma nth_error_store_chan_other l : forall i j c,
  i <> j -> nth_error (store_chan l i c) j = nth_error l j.
Proof.
  induction l as [|x l IH]; intros [|i] [|j] c Hij; cbn; try reflexivity; try lia.
  apply IH. lia.
Qed.

Lemma NT_SUCCESS_configuration_error : NT_SUCCESS STATUS_DEVICE_CONFIGURATION_ERROR = false.
Proof. reflexivity. Qed.

Lemma NT_SUCCESS_no_memory : NT_SUCCESS STATUS_NO_MEMORY = false.
Proof. reflexivity. Qed.

Section OpenProofs.
Context {H : driver_h} {F : wdf_setup}.

Lemma fill_slots_frame slots rv rp wv wp : forall d d' filled,
  fill_slots slots rv rp wv wp d = (d', filled) ->
  d' = set_arrays (reader_handle d') (writer_handle d') (reader_addr d') (writer_addr d') d.
Proof.
  induction slots as [|j slots IH]; intros d d' filled; cbn [fill_slots].
  - intros [= <- <-]. destruct d; reflexivity.
  - destruct (_ || _).
    + intros [= <- <-]. reflexivity.
    + intros E. apply IH in E. rewrite E at 1. reflexivity.
Qed.

Lemma fill_slots_seq rv rp wv wp : forall (k a : nat) d d',
  List.length (reader_handle d) = (a + k)%nat ->
  List.length (writer_handle d) = (a + k)%nat ->
  List.length (reader_addr d) = (a + k)%nat ->
  List.length (writer_addr d) = (a + k)%nat ->
  fill_slots (map Z.of_nat (seq a k)) rv rp wv wp d = (d', true) ->
  reader_handle d'
  = firstn a (reader_handle d)
    ++ map (fun j => UINT64 (rv + UINT32 (Z.of_nat j * DMA_BUFFER_SIZE))) (seq a k)
  /\ writer_handle d'
     = firstn a (writer_handle d)
       ++ map (fun j => UINT64 (wv + UINT32 (Z.of_nat j * DMA_BUFFER_SIZE))) (seq a k)
  /\ reader_addr d'
     = firstn a (reader_addr d)
       ++ map (fun j => INT64 (rp + UINT32 (Z.of_nat j * DMA_BUFFER_SIZE))) (seq a k)
  /\ writer_addr d'
     = firstn a (writer_addr d)
       ++ map (fun j => INT64 (wp + UINT32 (Z.of_nat j * DMA_BUFFER_SIZE))) (seq a k)
  /\ Forall (fun j => INT64 (rp + UINT32 (Z.of_nat j * DMA_BUFFER_SIZE)) <> 0
                      /\ INT64 (wp + UINT32 (Z.of_nat j * DMA_BUFFER_SIZE)) <> 0) (seq a k).
Proof.
  unfold PVOID, PHYSICAL_ADDRESS in *.
  induction k as [|k IH]; intros a d d' L1 L2 L3 L4; cbn [seq map fill_slots].
  - intros [= <-]. rewrite !app_nil_r, !firstn_all2 by lia. repeat split; constructor.
  - rewrite Nat2Z.id.
    set (d1 := set_slot a _ _ _ _ d).
    assert (N1 : nth a (reader_addr d1) 0
                 = INT64 (rp + UINT32 (Z.of_nat a * DMA_BUFFER_SIZE))).
    { subst d1. cbn [set_slot set_arrays reader_handle writer_handle reader_addr writer_addr]. apply nth_list_store. lia. }
    assert (N2 : nth a (writer_addr d1) 0
                 = INT64 (wp + UINT32 (Z.of_nat a * DMA_BUFFER_SIZE))).
    { subst d1. cbn [set_slot set_arrays reader_handle writer_handle reader_addr writer_addr]. apply nth_list_store. lia. }
    rewrite N1, N2.
    destruct (Z.eqb_spec (INT64 (rp + UINT32 (Z.of_nat a * DMA_BUFFER_SIZE))) 0) as [|Hr];
      [cbn [orb]; discriminate|].
    destruct (Z.eqb_spec (INT64 (wp + UINT32 (Z.of_nat a * DMA_BUFFER_SIZE))) 0) as [|Hw];
      [cbn [orb]; discriminate|].
    cbn [orb]. intros E.
    apply (IH (S a)) in E;
      try (subst d1; cbn [set_slot set_arrays reader_handle writer_handle reader_addr writer_addr];
           rewrite length_list_store; lia).
    destruct E as (E1 & E2 & E3 & E4 & E5).
    subst d1.
    cbn [set_slot set_arrays reader_handle writer_handle reader_addr writer_addr] in E1, E2, E3, E4.
    rewrite firstn_list_store in E1, E2, E3, E4 by lia.
    rewrite <- app_assoc in E1, E2, E3, E4.
    repeat split; try assumption. constructor; [split; assumption|exact E5].
Qed.

Lemma init_channels_seq z : forall (k a : nat) chans,
  List.length chans = (a + k)%nat ->
  (forall i, (a <= i < a + k)%nat -> nth_error chans i = Some z) ->
  init_channels (map Z.of_nat (seq a k)) chans
  = firstn a chans ++ map (fun i => init_chan (Z.of_nat i) z) (seq a k).
Proof.
  induction k as [|k IH]; intros a chans L Hz; cbn [seq map init_channels].
  - rewrite app_nil_r, firstn_all2 by lia. reflexivity.
  - rewrite Nat2Z.id, (Hz a) by lia.
    rewrite (IH (S a)).
    + rewrite firstn_store_chan by lia. rewrite <- app_assoc. reflexivity.
    + rewrite length_store_chan. lia.
    + intros i Hi. rewrite nth_error_store_chan_other by lia. apply Hz. lia.
Qed.

Lemma opened_chan i :
  let '(rv, rp, wv, wp) := WdfCommonBufferGetAligned i in
  forall dmachan,
    fill_slots (for_range DMA_BUFFER_COUNT) rv rp wv wp
      (dma (init_chan i {| index := 0; block_size := 0; dma := zero_dma |}))
    = (dmachan, true) ->
    set_dma dmachan (init_chan i {| index := 0; block_size := 0; dma := zero_dma |})
    = DeviceOpen_chan WdfCommonBufferGetAligned i
    /\ addresses_nonzero (DeviceOpen_chan WdfCommonBufferGetAligned i).
Proof.
  unfold DeviceOpen_chan, addresses_nonzero.
  destruct (WdfCommonBufferGetAligned i) as [[[rv rp] wv] wp].
  intros dmachan E.
  pose proof (fill_slots_frame _ _ _ _ _ _ _ _ E) as Hframe.
  unfold for_range in E.
  apply (fill_slots_seq rv rp wv wp (Z.to_nat DMA_BUFFER_COUNT) 0) in E;
    try (cbn; apply repeat_length).
  destruct E as (E1 & E2 & E3 & E4 & E5).
  cbn [firstn app] in E1, E2, E3, E4.
  unfold for_range. rewrite !map_map.
  cbn [dma reader_addr writer_addr].
  split.
  - rewrite Hframe, E1, E2, E3, E4. reflexivity.
  - split; apply Forall_map; (eapply Forall_impl; [|exact E5]); cbn; intros j [A B];
      assumption.
Qed.

Lemma open_buffers_seq : forall (k a : nat) chans status chans' status' done tr,
  List.length chans = (a + k)%nat ->
  (forall i, (a <= i < a + k)%nat ->
     nth_error chans i
     = Some (init_chan (Z.of_nat i) {| index := 0; block_size := 0; dma := zero_dma |})) ->
  open_buffers (map Z.of_nat (seq a k)) chans status = (chans', status', done, tr) ->
  NT_SUCCESS status' = true ->
  chans' = firstn a chans
           ++ map (fun i => DeviceOpen_chan WdfCommonBufferGetAligned (Z.of_nat i)) (seq a k)
  /\ Forall (fun i => addresses_nonzero (DeviceOpen_chan WdfCommonBufferGetAligned (Z.of_nat i))
                      /\ NT_SUCCESS (WdfCommonBufferCreate (Z.of_nat i) Reader) = true
                      /\ NT_SUCCESS (WdfCommonBufferCreate (Z.of_nat i) Writer) = true)
       (seq a k).
Proof.
  induction k as [|k IH]; intros a chans status chans' status' done tr L Hz;
    cbn [seq map open_buffers].
  - intros [= <- <- <- <-] _. rewrite app_nil_r, firstn_all2 by lia. split; constructor.
  - rewrite Nat2Z.id, (Hz a) by lia.
    destruct (NT_SUCCESS (WdfCommonBufferCreate (Z.of_nat a) Reader)) eqn:S1; cbn [negb].
    2:{ intros [= <- <- <- <-] Hok. congruence. }
    destruct (NT_SUCCESS (WdfCommonBufferCreate (Z.of_nat a) Writer)) eqn:S2; cbn [negb].
    2:{ intros [= <- <- <- <-] Hok. congruence. }
    pose proof (opened_chan (Z.of_nat a)) as Hopen.
    destruct (WdfCommonBufferGetAligned (Z.of_nat a)) as [[[rv rp] wv] wp] eqn:Eb.
    destruct (fill_slots _ rv rp wv wp _) as [dmachan filled] eqn:Ef.
    destruct filled.
    2:{ intros [= <- <- <- <-] Hok. rewrite NT_SUCCESS_no_memory in Hok. discriminate. }
    destruct (Hopen dmachan eq_refl) as [Hc Hnz]. rewrite Hc.
    destruct (open_buffers _ _ _) as [[[chans2 status2] done2] tr2] eqn:Er.
    intros [= <- <- <- <-] Hok.
    apply (IH (S a)) in Er; try assumption.
    + destruct Er as [E1 E2]. split.
      * rewrite E1, firstn_store_chan by lia. rewrite <- app_assoc. reflexivity.
      * constructor; [split; [exact Hnz|split; assumption]|exact E2].
    + rewrite length_store_chan. lia.
    + intros i Hi. rewrite nth_error_store_chan_other by lia. apply Hz. lia.
Qed.


Lemma bar0_loop_status fuel resources numRes : forall i status bar0_addr bar0_size tr,
  bar0_loop fuel resources numRes i = Some (Some status, bar0_addr, bar0_size, tr) ->
  status = STATUS_DEVICE_CONFIGURATION_ERROR.
Proof.
  induction fuel as [|fuel IH]; intros i status bar0_addr bar0_size tr; [discriminate|].
  cbn [bar0_loop]. destruct (negb _); [discriminate|].
  destruct (WdfCmResourceListGetDescriptor resources i) as [r|]; [|congruence].
  destruct (ResourceType r); try apply IH.
  destruct (_ =? 0); [congruence|discriminate].
Qed.

(** X20. When [litepciedrv_DeviceOpen] returns a success status, every
    step before has succeeded and the context it leaves is exactly
    [DeviceOpen_context] of the common buffers the framework allocated:
    [DMA_CHANNELS] channels with their index, block size, register base and
    interrupt bits, counters at 0, nothing parked, no interrupt requested or
    pending, and the slots of every ring filled in.  No logical address
    stored in a ring is 0. *)
Theorem DeviceOpen_success_context (ResourcesTranslated : WDFCMRESLIST)
    (status : NTSTATUS) (bar0_addr : PVOID) (bar0_size : Z) (dev : DEVICE_CONTEXT)
    (tr : list setup_event) :
  litepciedrv_DeviceOpen ResourcesTranslated = Some (status, bar0_addr, bar0_size, dev, tr) ->
  NT_SUCCESS status = true ->
  dev = DeviceOpen_context WdfCommonBufferGetAligned
  /\ Forall addresses_nonzero (chan dev)
  /\ NT_SUCCESS (snd (fst (litepciedrv_SetupInterrupts zero_context ResourcesTranslated)))
     = true
  /\ NT_SUCCESS WdfDmaEnablerCreate = true
  /\ NT_SUCCESS WdfDmaTransactionCreate = true
  /\ (forall i d, 0 <= i < DMA_CHANNELS -> NT_SUCCESS (WdfCommonBufferCreate i d) = true).
Proof.
  unfold litepciedrv_DeviceOpen.
  destruct (bar0_loop _ _ _ _) as [[[[o addr] size] tr0]|] eqn:Eb; [|discriminate].
  destruct o as [st|].
  { intros [= <- <- <- <- <-] Hok. apply bar0_loop_status in Eb. subst st. discriminate. }
  unfold litepciedrv_SetupInterrupts.
  destruct (create_interrupt ResourcesTranslated 0 STATUS_SUCCESS) as [st1 tr1].
  cbn [fst snd].
  destruct (NT_SUCCESS st1) eqn:S1; cbn [negb].
  2:{ intros [= <- <- <- <- <-] Hok. discriminate. }
  destruct (NT_SUCCESS WdfDmaEnablerCreate) eqn:S2; cbn [negb].
  2:{ intros [= <- <- <- <- <-] Hok. congruence. }
  destruct (NT_SUCCESS WdfDmaTransactionCreate) eqn:S3; cbn [negb].
  2:{ intros [= <- <- <- <- <-] Hok. congruence. }
  cbn [channels chan set_chan set_channels set_irqs_requested zero_context].
  set (z := {| index := 0; block_size := 0; dma := zero_dma |}).
  unfold for_range.
  rewrite (init_channels_seq z (Z.to_nat DMA_CHANNELS) 0)
    by (rewrite ?repeat_length; try reflexivity;
        intros i Hi; apply nth_error_repeat; lia).
  cbn [firstn app].
  destruct (open_buffers _ _ _) as [[[chans st'] done] tr3] eqn:Eo.
  intros [= <- <- <- <- <-] Hok.
  apply (open_buffers_seq (Z.to_nat DMA_CHANNELS) 0) in Eo; try assumption.
  - destruct Eo as [E1 E2]. cbn [firstn app] in E1. subst chans.
    cbn [chan set_chan].
    split; [unfold DeviceOpen_context, for_range; rewrite map_map; reflexivity|].
    split; [apply Forall_map; eapply Forall_impl; [|exact E2]; cbn; tauto|].
    repeat (split; [reflexivity|]).
    intros i d Hi. rewrite Forall_forall in E2.
    destruct (E2 (Z.to_nat i)) as (_ & A & B); [apply in_seq; lia|].
    rewrite Z2Nat.id in A, B by lia. destruct d; assumption.
  - rewrite length_map, length_seq. reflexivity.
  - intros i Hi. rewrite nth_error_map, nth_error_seq.
    destruct (Nat.ltb_spec i (Z.to_nat DMA_CHANNELS)); [reflexivity|lia].
Qed.

(** X21. [litepciedrv_DeviceClose] always answers [STATUS_SUCCESS].  It
    writes 0 to the writer and to the reader enable register of every
    channel, then 0 to the interrupt-enable register, then unmaps BAR0; it
    does nothing else: every register write is a write of 0 and no parked
    request is completed. *)
Theorem DeviceClose_disables_and_unmaps (bar0_addr : PVOID) (bar0_size : Z)
    (litepcie : DEVICE_CONTEXT) :
  let (tr, status) := litepciedrv_DeviceClose bar0_addr bar0_size litepcie in
  status = STATUS_SUCCESS
  /\ (forall i c,
        0 <= i < channels litepcie ->
        nth_error (chan litepcie) (Z.to_nat i) = Some c ->
        In (Device (RegWritel (UINT32 (base (dma c) + PCIE_DMA_WRITER_ENABLE_OFFSET)) 0)) tr
        /\ In (Device (RegWritel (UINT32 (base (dma c) + PCIE_DMA_READER_ENABLE_OFFSET)) 0)) tr)
  /\ (exists before,
        tr = before ++ [Device (RegWritel (UINT32 CSR_PCIE_MSI_ENABLE_ADDR) 0);
                        UnmapIoSpace bar0_addr bar0_size])
  /\ Forall (fun e => match e with
                      | Device (RegWritel _ val) => val = 0
                      | UnmapIoSpace _ _ => True
                      | _ => False
                      end) tr.
Proof.
  unfold litepciedrv_DeviceClose.
  set (body := fun i : Z => match nth_error (chan litepcie) (Z.to_nat i) with
                            | Some c => _
                            | None => []
                            end).
  split; [reflexivity|]. split; [|split].
  - intros i c Hi Ec.
    assert (Hin : In i (for_range (channels litepcie))).
    { unfold for_range. apply in_map_iff. exists (Z.to_nat i).
      split; [lia|apply in_seq; lia]. }
    assert (Hb : body i
                 = litepciedrv_RegWritel (base (dma c) + PCIE_DMA_WRITER_ENABLE_OFFSET) 0
                   ++ litepciedrv_RegWritel (base (dma c) + PCIE_DMA_READER_ENABLE_OFFSET) 0).
    { subst body. cbv beta. rewrite Ec. reflexivity. }
    split; apply in_or_app; left; apply in_map; apply in_or_app; left;
      apply in_flat_map; exists i; (split; [exact Hin|]); rewrite Hb; cbn; auto.
  - exists (map Device (flat_map body (for_range (channels litepcie)))).
    rewrite map_app, <- app_assoc. reflexivity.
  - apply Forall_app. split; [|repeat constructor].
    apply Forall_map. apply Forall_app. split; [|repeat constructor].
    apply Forall_flat_map. apply Forall_forall. intros i _. subst body. cbv beta.
    destruct (nth_error (chan litepcie) (Z.to_nat i)); repeat constructor.
Qed.

End OpenProofs.

(** Three resources, the second and the third of them interrupts: two
    interrupts are logged, one interrupt object is created, for resource 1. *)
Lemma SetupInterrupts_creates_first_only_witness :
  let H8 := sample_driver_h 8 4096 8 in
  let dev := @DeviceOpen_context H8 sample_buffers in
  let resources := [sample_other; sample_interrupt; sample_interrupt] in
  snd (fst (@litepciedrv_SetupInterrupts sample_setup dev resources)) = STATUS_SUCCESS
  /\ snd (@litepciedrv_SetupInterrupts sample_setup dev resources)
     = [TraceIrqsAllocated 2; InterruptCreate 1].
Proof.
  intros H8 dev resources.
  pose proof (@SetupInterrupts_creates_first_only sample_setup dev resources) as A.
  destruct (@litepciedrv_SetupInterrupts sample_setup dev resources) as [[dev' status] tr].
  destruct A as (_ & A & _).
  destruct (A 1%nat sample_interrupt eq_refl eq_refl) as [A1 A2].
  - intros j d Hj E. destruct j as [|j]; [|lia]. injection E as <-. discriminate.
  - split; [exact A1|exact A2].
Defined.

(** An interrupt followed by two memory resources: the first memory
    resource is mapped; and a list with no memory resource. *)
Lemma bar0_search_maps_first_memory_witness :
  let resources := [sample_interrupt; sample_memory; sample_memory] in
  @bar0_loop sample_setup bar0_fuel resources (WdfCmResourceListGetCount resources) 0
  = Some (None, 0xf0000000, 0x10000, [MapIoSpace 0xe0000000 0x10000])
  /\ @bar0_loop sample_setup bar0_fuel [sample_interrupt]
       (WdfCmResourceListGetCount [sample_interrupt]) 0
     = Some (None, 0, 0, []).
Proof.
  intros resources.
  destruct (@bar0_search_maps_first_memory sample_setup resources) as [A _]; [cbn; lia|].
  destruct (@bar0_search_maps_first_memory sample_setup [sample_interrupt]) as [_ B];
    [cbn; lia|].
  split.
  - apply (A 1%nat sample_memory eq_refl eq_refl); [lia|].
    intros j d Hj E. destruct j as [|j]; [|lia]. injection E as <-. discriminate.
  - apply B; [cbn; lia|].
    intros d [<-|[]]. discriminate.
Defined.

(** 256 resources none of which is a memory resource. *)
Lemma bar0_search_never_ends_witness :
  let H8 := sample_driver_h 8 4096 8 in
  let resources := repeat sample_other 256 in
  @bar0_loop sample_setup 1000 resources (WdfCmResourceListGetCount resources) 0 = None
  /\ @litepciedrv_DeviceOpen H8 sample_setup resources = None.
Proof.
  intros H8 resources.
  apply (@bar0_search_never_ends H8 sample_setup resources 1000).
  - subst resources. rewrite repeat_length. lia.
  - intros j d Hj E. subst resources. rewrite nth_error_repeat in E by exact Hj.
    injection E as <-. discriminate.
Defined.

(** A memory and an interrupt resource, every creation succeeding. *)
Lemma DeviceOpen_success_context_witness :
  let H8 := sample_driver_h 8 4096 8 in
  exists status bar0_addr bar0_size dev tr,
    @litepciedrv_DeviceOpen H8 sample_setup [sample_memory; sample_interrupt]
    = Some (status, bar0_addr, bar0_size, dev, tr)
    /\ NT_SUCCESS status = true
    /\ dev = @DeviceOpen_context H8 sample_buffers
    /\ Forall addresses_nonzero (chan dev).
Proof.
  intros H8.
  destruct (@litepciedrv_DeviceOpen H8 sample_setup [sample_memory; sample_interrupt])
    as [[[[[status bar0_addr] bar0_size] dev] tr]|] eqn:E; [|vm_compute in E; discriminate].
  assert (Hok : NT_SUCCESS status = true).
  { vm_compute in E. injection E as <- _ _ _ _. reflexivity. }
  destruct (@DeviceOpen_success_context H8 sample_setup _ _ _ _ _ _ E Hok) as (A & B & _).
  exists status, bar0_addr, bar0_size, dev, tr.
  split; [reflexivity|]. split; [exact Hok|]. split; [exact A|exact B].
Defined.

(** The sample device with one channel at register base [0x2000]. *)
Lemma DeviceClose_disables_and_unmaps_witness :
  let H8 := sample_driver_h 8 4096 8 in
  let dev := @DeviceOpen_context H8 sample_buffers in
  snd (@litepciedrv_DeviceClose H8 0xf0000000 0x10000 dev) = STATUS_SUCCESS
  /\ In (Device (RegWritel 0x2000 0)) (fst (@litepciedrv_DeviceClose H8 0xf0000000 0x10000 dev))
  /\ In (Device (RegWritel 0x2020 0)) (fst (@litepciedrv_DeviceClose H8 0xf0000000 0x10000 dev)).
Proof.
  intros H8 dev.
  pose proof (@DeviceClose_disables_and_unmaps H8 0xf0000000 0x10000 dev) as A.
  destruct (@litepciedrv_DeviceClose H8 0xf0000000 0x10000 dev) as [tr status].
  destruct A as (A1 & A2 & _).
  destruct (A2 0 (@DeviceOpen_chan H8 sample_buffers 0)) as [B1 B2];
    [cbn; lia|reflexivity|].
  split; [exact A1|]. split; [exact B1|exact B2].
Defined.

(** ** The descriptor table programmed by ring start *)

Lemma writes_to_flat_map reg (f : Z -> list event) l :
  writes_to reg (flat_map f l) = flat_map (fun i => writes_to reg (f i)) l.
Proof.
  induction l as [|x l IH]; [reflexivity|]. cbn [flat_map].
  rewrite writes_to_app, IH. reflexivity.
Qed.

Lemma flat_map_single (g : Z -> Z) l : flat_map (fun i => [g i]) l = map g l.
Proof. induction l as [|x l IH]; [reflexivity|]. cbn. rewrite IH. reflexivity. Qed.

Lemma flat_map_single_const (v : Z) (l : list Z) :
  flat_map (fun _ => [v]) l = repeat v (List.length l).
Proof. induction l as [|x l IH]; [reflexivity|]. cbn. rewrite IH. reflexivity. Qed.

Lemma flat_map_nil_const (l : list Z) : flat_map (fun _ => @nil Z) l = [].
Proof. induction l as [|x l IH]; [reflexivity|]. exact IH. Qed.

(** The tests between registers of a list without repetition. *)
Ltac register_tests Hnd :=
  rewrite ?Z.eqb_refl;
  repeat match goal with
         | |- context [?a =? ?b] =>
             let E := fresh "E" in
             destruct (Z.eqb_spec a b) as [E|E];
             [exfalso; clear - E Hnd;
              repeat (apply NoDup_cons_iff in Hnd; destruct Hnd as [? Hnd]);
              cbn [In] in *; intuition congruence|clear E]
         end.

Section TableProofs.
Context {H : driver_h}.

Lemma writer_start_table dev index c :
  nth_error (chan dev) (Z.to_nat index) = Some c ->
  let value_reg := UINT32 (base (dma c) + PCIE_DMA_WRITER_TABLE_VALUE_OFFSET) in
  let low_reg := UINT32 (base (dma c) + PCIE_DMA_WRITER_TABLE_VALUE_OFFSET + 4) in
  let we_reg := UINT32 (base (dma c) + PCIE_DMA_WRITER_TABLE_WE_OFFSET) in
  let enable_reg := UINT32 (base (dma c) + PCIE_DMA_WRITER_ENABLE_OFFSET) in
  let flush_reg := UINT32 (base (dma c) + PCIE_DMA_WRITER_TABLE_FLUSH_OFFSET) in
  let loop_reg := UINT32 (base (dma c) + PCIE_DMA_WRITER_TABLE_LOOP_PROG_N_OFFSET) in
  NoDup [value_reg; low_reg; we_reg; enable_reg; flush_reg; loop_reg] ->
  let tr := snd (litepcie_dma_writer_start dev index) in
  let address := nth (Z.to_nat index) (writer_addr (dma c)) 0 in
  writes_to value_reg tr
  = map (fun i => UINT32 (descriptor_value i)) (for_range DMA_BUFFER_COUNT)
  /\ writes_to low_reg tr = repeat (UINT32 (LowPart address)) (Z.to_nat DMA_BUFFER_COUNT)
  /\ writes_to we_reg tr = repeat (UINT32 (HighPart address)) (Z.to_nat DMA_BUFFER_COUNT)
  /\ writes_to enable_reg tr = [0; 1]
  /\ writes_to flush_reg tr = [1]
  /\ writes_to loop_reg tr = [0; 1].
Proof.
  intros Hc value_reg low_reg we_reg enable_reg flush_reg loop_reg Hnd tr address.
  subst tr. unfold litepcie_dma_writer_start. rewrite Hc. cbn [snd].
  unfold writer_descriptor, litepciedrv_RegWritel.
  fold value_reg low_reg we_reg enable_reg flush_reg loop_reg address.
  clearbody value_reg low_reg we_reg enable_reg flush_reg loop_reg address.
  repeat split;
    rewrite ?writes_to_app, writes_to_flat_map; cbn [writes_to app];
    register_tests Hnd;
    cbn [app];
    rewrite ?flat_map_nil_const, ?flat_map_single_const, ?flat_map_single, ?for_range_length,
      ?app_nil_r;
    reflexivity.
Qed.

Lemma reader_start_table dev index c :
  nth_error (chan dev) (Z.to_nat index) = Some c ->
  let value_reg := UINT32 (base (dma c) + PCIE_DMA_READER_TABLE_VALUE_OFFSET) in
  let low_reg := UINT32 (base (dma c) + PCIE_DMA_READER_TABLE_VALUE_OFFSET + 4) in
  let we_reg := UINT32 (base (dma c) + PCIE_DMA_READER_TABLE_WE_OFFSET) in
  let enable_reg := UINT32 (base (dma c) + PCIE_DMA_READER_ENABLE_OFFSET) in
  let flush_reg := UINT32 (base (dma c) + PCIE_DMA_READER_TABLE_FLUSH_OFFSET) in
  let loop_reg := UINT32 (base (dma c) + PCIE_DMA_READER_TABLE_LOOP_PROG_N_OFFSET) in
  NoDup [value_reg; low_reg; we_reg; enable_reg; flush_reg; loop_reg] ->
  let tr := snd (litepcie_dma_reader_start dev index) in
  let address := nth (Z.to_nat index) (writer_addr (dma c)) 0 in
  writes_to value_reg tr
  = map (fun i => UINT32 (descriptor_value i)) (for_range DMA_BUFFER_COUNT)
  /\ writes_to low_reg tr = repeat (UINT32 (LowPart address)) (Z.to_nat DMA_BUFFER_COUNT)
  /\ writes_to we_reg tr = repeat (UINT32 (HighPart address)) (Z.to_nat DMA_BUFFER_COUNT)
  /\ writes_to enable_reg tr = [0; 1]
  /\ writes_to flush_reg tr = [1]
  /\ writes_to loop_reg tr = [0; 1].
Proof.
  intros Hc value_reg low_reg we_reg enable_reg flush_reg loop_reg Hnd tr address.
  subst tr. unfold litepcie_dma_reader_start. rewrite Hc. cbn [snd].
  unfold reader_descriptor, litepciedrv_RegWritel.
  fold value_reg low_reg we_reg enable_reg flush_reg loop_reg address.
  clearbody value_reg low_reg we_reg enable_reg flush_reg loop_reg address.
  repeat split;
    rewrite ?writes_to_app, writes_to_flat_map; cbn [writes_to app];
    register_tests Hnd;
    cbn [app];
    rewrite ?flat_map_nil_const, ?flat_map_single_const, ?flat_map_single, ?for_range_length,
      ?app_nil_r;
    reflexivity.
Qed.

(** X22. Ring start programs the whole table, in slot order: it writes
    one descriptor per ring slot, [DMA_BUFFER_COUNT] in all, whose value word
    is the descriptor value of that slot, and it writes the same address words
    for every slot, those of [writer_addr[index]] with [index] the number of
    the channel (in [litepcie_dma_reader_start] too).  Around the table it
    writes 0 then 1 to the enable register and to the loop register, and 1 to
    the flush register.  (The six registers involved are distinct.) *)
Theorem start_programs_whole_table (dev : DEVICE_CONTEXT) (index : Z) (c : LITEPCIE_CHAN) :
  nth_error (chan dev) (Z.to_nat index) = Some c ->
  (let value_reg := UINT32 (base (dma c) + PCIE_DMA_WRITER_TABLE_VALUE_OFFSET) in
   let low_reg := UINT32 (base (dma c) + PCIE_DMA_WRITER_TABLE_VALUE_OFFSET + 4) in
   let we_reg := UINT32 (base (dma c) + PCIE_DMA_WRITER_TABLE_WE_OFFSET) in
   let enable_reg := UINT32 (base (dma c) + PCIE_DMA_WRITER_ENABLE_OFFSET) in
   let flush_reg := UINT32 (base (dma c) + PCIE_DMA_WRITER_TABLE_FLUSH_OFFSET) in
   let loop_reg := UINT32 (base (dma c) + PCIE_DMA_WRITER_TABLE_LOOP_PROG_N_OFFSET) in
   NoDup [value_reg; low_reg; we_reg; enable_reg; flush_reg; loop_reg] ->
   let tr := snd (litepcie_dma_writer_start dev index) in
   let address := nth (Z.to_nat index) (writer_addr (dma c)) 0 in
   writes_to value_reg tr
   = map (fun i => UINT32 (descriptor_value i)) (for_range DMA_BUFFER_COUNT)
   /\ writes_to low_reg tr = repeat (UINT32 (LowPart address)) (Z.to_nat DMA_BUFFER_COUNT)
   /\ writes_to we_reg tr = repeat (UINT32 (HighPart address)) (Z.to_nat DMA_BUFFER_COUNT)
   /\ writes_to enable_reg tr = [0; 1]
   /\ writes_to flush_reg tr = [1]
   /\ writes_to loop_reg tr = [0; 1])
  /\ (let value_reg := UINT32 (base (dma c) + PCIE_DMA_READER_TABLE_VALUE_OFFSET) in
       let low_reg := UINT32 (base (dma c) + PCIE_DMA_READER_TABLE_VALUE_OFFSET + 4) in
       let we_reg := UINT32 (base (dma c) + PCIE_DMA_READER_TABLE_WE_OFFSET) in
       let enable_reg := UINT32 (base (dma c) + PCIE_DMA_READER_ENABLE_OFFSET) in
       let flush_reg := UINT32 (base (dma c) + PCIE_DMA_READER_TABLE_FLUSH_OFFSET) in
       let loop_reg := UINT32 (base (dma c) + PCIE_DMA_READER_TABLE_LOOP_PROG_N_OFFSET) in
       NoDup [value_reg; low_reg; we_reg; enable_reg; flush_reg; loop_reg] ->
       let tr := snd (litepcie_dma_reader_start dev index) in
       let address := nth (Z.to_nat index) (writer_addr (dma c)) 0 in
       writes_to value_reg tr
       = map (fun i => UINT32 (descriptor_value i)) (for_range DMA_BUFFER_COUNT)
       /\ writes_to low_reg tr = repeat (UINT32 (LowPart address)) (Z.to_nat DMA_BUFFER_COUNT)
       /\ writes_to we_reg tr = repeat (UINT32 (HighPart address)) (Z.to_nat DMA_BUFFER_COUNT)
       /\ writes_to enable_reg tr = [0; 1]
       /\ writes_to flush_reg tr = [1]
       /\ writes_to loop_reg tr = [0; 1]).
Proof.
  intros Hc. split.
  - exact (writer_start_table dev index c Hc).
  - exact (reader_start_table dev index c Hc).
Qed.

Lemma irq_disable_flag_cases i :
  irq_disable_flag i
  = if Z.rem i (UINT32 DMA_BUFFER_PER_IRQ) =? 0 then 0 else DMA_IRQ_DISABLE.
Proof. unfold irq_disable_flag. destruct (_ =? 0); lia. Qed.

(** X23. With the two flags single bits [a] and [b] above the size field
    ([DMA_IRQ_DISABLE = 2^a], [DMA_LAST_DISABLE = 2^b], [DMA_BUFFER_SIZE <
    2^a, 2^b]), the descriptor of slot [i] carries [DMA_BUFFER_SIZE] in its
    other bits, has the interrupt disabled exactly when [i] is not a multiple
    of [DMA_BUFFER_PER_IRQ], so that one interrupt is raised every
    [DMA_BUFFER_PER_IRQ] buffers, has bit [b] set exactly when the buffers
    are not aligned, and fits the 32-bit register. *)
Theorem descriptor_value_fields (i a b : Z) :
  0 <= a < 32 -> 0 <= b < 32 -> a <> b ->
  DMA_IRQ_DISABLE = 2 ^ a -> DMA_LAST_DISABLE = 2 ^ b ->
  0 <= DMA_BUFFER_SIZE -> DMA_BUFFER_SIZE < 2 ^ a -> DMA_BUFFER_SIZE < 2 ^ b ->
  (forall n, 0 <= n -> n <> a -> n <> b ->
     Z.testbit (descriptor_value i) n = Z.testbit DMA_BUFFER_SIZE n)
  /\ Z.testbit (descriptor_value i) a = negb (Z.rem i (UINT32 DMA_BUFFER_PER_IRQ) =? 0)
  /\ Z.testbit (descriptor_value i) b = negb DMA_BUFFER_ALIGNED
  /\ 0 <= descriptor_value i < 2 ^ 32.
Proof.
  intros Ha Hb Hab Ei El Hs0 Hsa Hsb.
  assert (Hhigh : forall n s, 0 <= s -> DMA_BUFFER_SIZE < 2 ^ s -> s <= n ->
                              Z.testbit DMA_BUFFER_SIZE n = false).
  { intros n s Hs Hlt Hn.
    rewrite <- (Z.mod_small DMA_BUFFER_SIZE (2 ^ s)) by lia.
    apply Z.mod_pow2_bits_high. lia. }
  assert (Hbits : forall n, 0 <= n ->
            Z.testbit (descriptor_value i) n
            = (negb DMA_BUFFER_ALIGNED && (b =? n)
               || negb (Z.rem i (UINT32 DMA_BUFFER_PER_IRQ) =? 0) && (a =? n))
              || Z.testbit DMA_BUFFER_SIZE n).
  { intros n Hn. unfold descriptor_value.
    rewrite !Z.lor_spec, irq_disable_flag_cases, Ei, El.
    destruct DMA_BUFFER_ALIGNED, (Z.rem i (UINT32 DMA_BUFFER_PER_IRQ) =? 0);
      rewrite ?Z.pow2_bits_eqb, ?Z.bits_0 by lia; cbn [negb andb orb];
      rewrite ?orb_false_r; reflexivity. }
  split; [|split; [|split]].
  - intros n Hn Hna Hnb. rewrite Hbits by exact Hn.
    destruct (Z.eqb_spec a n), (Z.eqb_spec b n); try lia.
    rewrite !andb_false_r. reflexivity.
  - rewrite Hbits, (Hhigh a a), Z.eqb_refl by lia.
    destruct (Z.eqb_spec b a); [lia|].
    rewrite andb_false_r, andb_true_r, orb_false_r. reflexivity.
  - rewrite Hbits, (Hhigh b b), Z.eqb_refl by lia.
    destruct (Z.eqb_spec a b); [lia|].
    rewrite andb_false_r, andb_true_r, !orb_false_r. reflexivity.
  - assert (Hp : forall s, 0 <= s < 32 -> 0 <= 2 ^ s < 2 ^ 32).
    { intros s Hs. split; [apply Z.pow_nonneg; lia|apply Z.pow_lt_mono_r; lia]. }
    assert (Hsz : 0 <= DMA_BUFFER_SIZE < 2 ^ 32).
    { pose proof (Hp a Ha). lia. }
    unfold descriptor_value. rewrite irq_disable_flag_cases, Ei, El.
    rewrite <- UINT32_lor; [apply UINT32_range| |exact Hsz].
    rewrite <- UINT32_lor; [apply UINT32_range| |].
    + destruct DMA_BUFFER_ALIGNED; [lia|apply Hp; exact Hb].
    + destruct (_ =? 0); [lia|apply Hp; exact Ha].
Qed.

End TableProofs.

(** ** Every operation returns, and the counters stay consistent *)

Section ReturnProofs.
Context {H : driver_h} {W : wdf_request_memory}.

Lemma dpc_channel_total mmio irq_vector c clear_mask :
  exists r, dpc_channel mmio irq_vector c clear_mask = Some r.
Proof.
  unfold dpc_channel.
  assert (Hr : exists r, dpc_reader mmio irq_vector c clear_mask = Some r).
  { unfold dpc_reader. destruct (negb _); [|eauto]. cbn [reader_reconcile].
    set (c1 := set_dma _ c).
    destruct (writeRequest (dma c1)) as [request|]; [|eauto].
    destruct (ChannelWrite_total c1 request (writeRemainingBytes (dma c1))) as [[c2 tr2] ->].
    eauto. }
  destruct Hr as [[[c1 m1] tr1] ->].
  assert (Hw : exists r, dpc_writer mmio irq_vector c1 m1 = Some r).
  { unfold dpc_writer. destruct (negb _); [|eauto]. cbn [writer_reconcile].
    set (c2 := set_dma _ c1).
    destruct (readRequest (dma c2)) as [request|]; [|eauto].
    destruct (ChannelRead_total c2 request (readRemainingBytes (dma c2))) as [[c3 tr3] ->].
    eauto. }
  destruct Hw as [[[c2 m2] tr2] ->]. eauto.
Qed.

Lemma dpc_channels_total mmio irq_vector chans : forall clear_mask,
  exists r, dpc_channels mmio irq_vector chans clear_mask = Some r.
Proof.
  induction chans as [|c chans IH]; intros clear_mask; cbn [dpc_channels]; [eauto|].
  destruct (dpc_channel_total mmio irq_vector c clear_mask) as [[[c1 m1] tr1] ->].
  destruct (IH m1) as [[[r m2] tr2] ->]. eauto.
Qed.

(** X24. Every entry point returns.  The copy loops of
    [litepciedrv_ChannelRead] and [litepciedrv_ChannelWrite] end after at
    most one iteration per available buffer, whatever the counters, the
    length and the ring configuration are, and so do ring start and stop,
    both interrupt handlers (the deferred pass serves every channel) and a
    request dispatched to any channel. *)
Theorem every_operation_returns (op : operation) (dev : DEVICE_CONTEXT) :
  exists dev' tr, run_operation op dev = Some (dev', tr).
Proof.
  destruct op as [i|i|i|i|mmio|mmio|i request length|i request length]; cbn [run_operation].
  - destruct (litepcie_dma_writer_start dev i); eauto.
  - destruct (litepcie_dma_writer_stop dev i); eauto.
  - destruct (litepcie_dma_reader_start dev i); eauto.
  - destruct (litepcie_dma_reader_stop dev i); eauto.
  - destruct (litepcie_EvtIsr mmio dev) as [[dev' tr] b]. eauto.
  - unfold litepcie_EvtDpc.
    destruct (dpc_channels_total mmio
                (Z.land (irqs_pending dev) (litepciedrv_RegReadl mmio CSR_PCIE_MSI_ENABLE_ADDR))
                (firstn (Z.to_nat (channels dev)) (chan dev)) 0) as [[[chans m] tr] ->].
    eauto.
  - unfold on_channel. destruct (nth_error (chan dev) (Z.to_nat i)) as [c|]; [|eauto].
    destruct (ChannelRead_total c request length) as [[c' tr] ->]. eauto.
  - unfold on_channel. destruct (nth_error (chan dev) (Z.to_nat i)) as [c|]; [|eauto].
    destruct (ChannelWrite_total c request length) as [[c' tr] ->]. eauto.
Qed.

Variable k : Z.
Hypothesis Hk : 0 <= k <= 15.
Hypothesis HN : DMA_BUFFER_COUNT = 2 ^ k.

(** X25. In every context reached in [n < 2^29] operations, in both
    directions of every channel, [hw_count_last] equals [hw_count] (the two
    differ only inside the deferred pass), no counter is negative, and
    [hw_count] is below [2^34 * (n + 1)]: the 64-bit counters are far from
    overflow. *)
Theorem counters_stay_consistent (n : nat) (dev : DEVICE_CONTEXT) :
  reachable n dev -> Z.of_nat n < 2 ^ 29 ->
  forall c, In c (chan dev) ->
    (reader_hw_count_last (dma c) = reader_hw_count (dma c)
     /\ 0 <= reader_sw_count (dma c)
     /\ reader_hw_count (dma c) < 2 ^ 34 * (Z.of_nat n + 1))
    /\ (writer_hw_count_last (dma c) = writer_hw_count (dma c)
        /\ 0 <= writer_sw_count (dma c)
        /\ writer_hw_count (dma c) < 2 ^ 34 * (Z.of_nat n + 1)).
Proof.
  intros Hr Hn c Hin.
  pose proof (reachable_counters_ok k Hk HN n dev Hr Hn) as Hf.
  rewrite Forall_forall in Hf. specialize (Hf c Hin).
  unfold counters_ok in Hf. cbv zeta in Hf.
  destruct Hf as [(A1 & A2 & A3) (B1 & B2 & B3)].
  repeat split; try assumption; lia.
Qed.

End ReturnProofs.

(** The first two descriptors of the sample ring, an interrupt every 2
    buffers. *)
Lemma descriptor_value_fields_witness :
  let H8 := sample_driver_h 8 4096 2 in
  (Z.testbit (@descriptor_value H8 0) 24 = false
   /\ Z.testbit (@descriptor_value H8 0) 25 = true
   /\ 0 <= @descriptor_value H8 0 < 2 ^ 32)
  /\ (Z.testbit (@descriptor_value H8 1) 24 = true
      /\ Z.testbit (@descriptor_value H8 1) 25 = true
      /\ 0 <= @descriptor_value H8 1 < 2 ^ 32).
Proof.
  intros H8.
  assert (Ha : 0 <= 24 < 32) by lia.
  assert (Hb : 0 <= 25 < 32) by lia.
  assert (Hab : 24 <> 25) by lia.
  assert (Hs0 : 0 <= @DMA_BUFFER_SIZE H8) by (cbn; lia).
  assert (Hsa : @DMA_BUFFER_SIZE H8 < 2 ^ 24) by (cbn; lia).
  assert (Hsb : @DMA_BUFFER_SIZE H8 < 2 ^ 25) by (cbn; lia).
  destruct (@descriptor_value_fields H8 0 24 25 Ha Hb Hab eq_refl eq_refl Hs0 Hsa Hsb)
    as (_ & A1 & A2 & A3).
  destruct (@descriptor_value_fields H8 1 24 25 Ha Hb Hab eq_refl eq_refl Hs0 Hsa Hsb)
    as (_ & B1 & B2 & B3).
  split; (split; [assumption|split; assumption]).
Defined.

(** Start of both rings of the sample device. *)
Lemma start_programs_whole_table_witness :
  let H8 := sample_driver_h 8 4096 8 in
  let dev := @DeviceOpen_context H8 sample_buffers in
  (writes_to 0x2008 (snd (@litepcie_dma_writer_start H8 dev 0)) = repeat 0x90000000 8
   /\ writes_to 0x2000 (snd (@litepcie_dma_writer_start H8 dev 0)) = [0; 1])
  /\ (writes_to 0x2028 (snd (@litepcie_dma_reader_start H8 dev 0)) = repeat 0x90000000 8
      /\ writes_to 0x2020 (snd (@litepcie_dma_reader_start H8 dev 0)) = [0; 1]).
Proof.
  intros H8 dev.
  destruct (@start_programs_whole_table H8 dev 0 (@DeviceOpen_chan H8 sample_buffers 0)
              eq_refl) as [A B].
  vm_compute in A. vm_compute in B. vm_compute.
  assert (Hw : NoDup [0x2004; 0x2008; 0x200c; 0x2000; 0x201c; 0x2010]).
  { repeat constructor; cbn; lia. }
  assert (Hr : NoDup [0x2024; 0x2028; 0x202c; 0x2020; 0x203c; 0x2030]).
  { repeat constructor; cbn; lia. }
  destruct (A Hw) as (_ & A2 & _ & A4 & _).
  destruct (B Hr) as (_ & B2 & _ & B4 & _).
  split; split; assumption.
Defined.

(** The context two operations after [litepciedrv_DeviceOpen]. *)
Lemma counters_stay_consistent_witness :
  let c := sample_chan 0 0 0 5 5 0 None None 0 0 in
  (reader_hw_count_last (dma c) = reader_hw_count (dma c)
   /\ 0 <= reader_sw_count (dma c)
   /\ reader_hw_count (dma c) < 2 ^ 34 * 3)
  /\ (writer_hw_count_last (dma c) = writer_hw_count (dma c)
      /\ 0 <= writer_sw_count (dma c)
      /\ writer_hw_count (dma c) < 2 ^ 34 * 3).
Proof.
  intros c.
  pose (H8 := sample_driver_h 8 4096 8).
  pose (M := sample_request_memory).
  pose (dev1 := {| channels := 1; chan := [sample_chan 0 0 0 0 0 0 None None 0 0];
                   irqs_requested := 0; irqs_pending := 1 |}).
  pose (dev2 := {| channels := 1; chan := [c]; irqs_requested := 0; irqs_pending := 0 |}).
  assert (R0 : @reachable H8 M 0 (@DeviceOpen_context H8 sample_buffers))
    by apply reachable_open.
  assert (R1 : @reachable H8 M 1 dev1).
  { apply (@reachable_step H8 M 0 _ (OpIsr (sample_mmio 1 5)) dev1
             [RegWritel 0x1804 1; WdfInterruptQueueDpcForIsr] R0).
    vm_compute. reflexivity. }
  assert (R2 : @reachable H8 M 2 dev2).
  { eapply (@reachable_step H8 M 1 dev1 (OpDpc (sample_mmio 1 5)) dev2 _ R1).
    vm_compute. reflexivity. }
  refine (@counters_stay_consistent H8 M 3 _ _ 2%nat dev2 R2 _ c _).
  - lia.
  - reflexivity.
  - vm_compute. reflexivity.
  - left. reflexivity.
Defined.

(** ** A pass stays inside the request and inside its direction *)

Section BoundsProofs.
Context {H : driver_h} {W : wdf_request_memory}.

Lemma ChannelRead_loop_offsets fuel : forall channel outBuf length bytesRead overflows c b o tr,
  0 < DMA_BUFFER_SIZE < 2 ^ 31 ->
  0 <= bytesRead <= length -> length < 2 ^ 64 ->
  ChannelRead_loop fuel channel outBuf length bytesRead overflows = Some (c, b, o, tr) ->
  Forall (fun offset => bytesRead <= offset /\ offset + DMA_BUFFER_SIZE <= length)
    (copy_offsets tr).
Proof.
  induction fuel as [|fuel IH]; intros channel outBuf length bytesRead overflows c b o tr
    Hs Hb Hl; [discriminate|].
  cbn [ChannelRead_loop].
  destruct (Z.ltb_spec bytesRead length) as [Hlt|Hge]; cbn [negb];
    [|intros [= <- <- <- <-]; constructor].
  unfold SIZE_T.
  rewrite (UINT64_small (length - bytesRead)), (UINT64_small DMA_BUFFER_SIZE) by lia.
  destruct (Z.ltb_spec (length - bytesRead) DMA_BUFFER_SIZE) as [Hsmall|Hroom];
    [intros [= <- <- <- <-]; constructor|].
  destruct (_ >? 0); [|intros [= <- <- <- <-]; constructor].
  rewrite (UINT64_small (bytesRead + DMA_BUFFER_SIZE)) by lia.
  loop_call ChannelRead_loop fuel E.
  intros [= <- <- <- <-].
  apply IH in E; [|exact Hs|lia|exact Hl].
  cbn [app copy_offsets]. constructor; [lia|].
  eapply Forall_impl; [|exact E]. cbn. intros offset Ho. lia.
Qed.

Lemma ChannelRead_offsets channel request length channel' tr :
  0 < DMA_BUFFER_SIZE < 2 ^ 31 -> 0 <= length < 2 ^ 64 ->
  litepciedrv_ChannelRead channel request length = Some (channel', tr) ->
  Forall (fun offset => 0 <= offset /\ offset + DMA_BUFFER_SIZE <= length) (copy_offsets tr).
Proof.
  intros Hs Hl. unfold litepciedrv_ChannelRead.
  destruct (WdfRequestRetrieveOutputMemory request) as [status outBuf].
  destruct (negb (NT_SUCCESS status)); [intros [= <- <-]; constructor|].
  destruct (ChannelRead_loop _ _ _ _ _ _) as [[[[c1 b] o] tr1]|] eqn:E; [|discriminate].
  apply ChannelRead_loop_offsets in E; [|exact Hs|lia|lia].
  assert (Hrep : copy_offsets (if o >? 0 then [TraceOverflow o] else []) = [])
    by (destruct (o >? 0); reflexivity).
  destruct (b >? 0); intros [= <- <-]; rewrite !copy_offsets_app, Hrep; cbn [copy_offsets];
    rewrite ?app_nil_r; exact E.
Qed.

Lemma ChannelRead_other_fields channel request length channel' tr :
  litepciedrv_ChannelRead channel request length = Some (channel', tr) ->
  ring_of channel' = ring_of channel
  /\ writer_hw_count (dma channel') = writer_hw_count (dma channel)
  /\ writer_hw_count_last (dma channel') = writer_hw_count_last (dma channel)
  /\ reader_hw_count (dma channel') = reader_hw_count (dma channel)
  /\ reader_hw_count_last (dma channel') = reader_hw_count_last (dma channel)
  /\ reader_sw_count (dma channel') = reader_sw_count (dma channel)
  /\ writeRequest (dma channel') = writeRequest (dma channel)
  /\ writeRemainingBytes (dma channel') = writeRemainingBytes (dma channel).
Proof.
  unfold litepciedrv_ChannelRead.
  destruct (WdfRequestRetrieveOutputMemory request) as [status outBuf].
  destruct (negb (NT_SUCCESS status)); [intros [= <- <-]; repeat split|].
  destruct (ChannelRead_loop _ _ _ _ _ _) as [[[[c1 b] o] tr1]|] eqn:E; [|discriminate].
  destruct (ChannelRead_loop_frame _ _ _ _ _ _ _ _ _ _ E) as [_ [sw ->]].
  destruct (b >? 0); intros [= <- <-]; repeat split.
Qed.

Lemma ChannelWrite_loop_offsets fuel : forall channel inBuf length bytesWritten overflows c b o tr,
  0 < DMA_BUFFER_SIZE < 2 ^ 31 ->
  0 <= bytesWritten <= length -> length < 2 ^ 64 ->
  ChannelWrite_loop fuel channel inBuf length bytesWritten overflows = Some (c, b, o, tr) ->
  Forall (fun offset => bytesWritten <= offset /\ offset + DMA_BUFFER_SIZE <= length)
    (copy_offsets tr).
Proof.
  induction fuel as [|fuel IH]; intros channel inBuf length bytesWritten overflows c b o tr
    Hs Hb Hl; [discriminate|].
  cbn [ChannelWrite_loop].
  destruct (Z.ltb_spec bytesWritten length) as [Hlt|Hge]; cbn [negb];
    [|intros [= <- <- <- <-]; constructor].
  unfold SIZE_T.
  rewrite (UINT64_small (length - bytesWritten)), (UINT64_small DMA_BUFFER_SIZE) by lia.
  destruct (Z.ltb_spec (length - bytesWritten) DMA_BUFFER_SIZE) as [Hsmall|Hroom];
    [intros [= <- <- <- <-]; constructor|].
  destruct (_ >? 0); [|intros [= <- <- <- <-]; constructor].
  rewrite (UINT64_small (bytesWritten + DMA_BUFFER_SIZE)) by lia.
  loop_call ChannelWrite_loop fuel E.
  intros [= <- <- <- <-].
  apply IH in E; [|exact Hs|lia|exact Hl].
  cbn [app copy_offsets]. constructor; [lia|].
  eapply Forall_impl; [|exact E]. cbn. intros offset Ho. lia.
Qed.

Lemma ChannelWrite_offsets channel request length channel' tr :
  0 < DMA_BUFFER_SIZE < 2 ^ 31 -> 0 <= length < 2 ^ 64 ->
  litepciedrv_ChannelWrite channel request length = Some (channel', tr) ->
  Forall (fun offset => 0 <= offset /\ offset + DMA_BUFFER_SIZE <= length) (copy_offsets tr).
Proof.
  intros Hs Hl. unfold litepciedrv_ChannelWrite.
  destruct (WdfRequestRetrieveInputMemory request) as [status inBuf].
  destruct (negb (NT_SUCCESS status)); [intros [= <- <-]; constructor|].
  destruct (ChannelWrite_loop _ _ _ _ _ _) as [[[[c1 b] o] tr1]|] eqn:E; [|discriminate].
  apply ChannelWrite_loop_offsets in E; [|exact Hs|lia|lia].
  assert (Hrep : copy_offsets (if o >? 0 then [TraceOverflow o] else []) = [])
    by (destruct (o >? 0); reflexivity).
  destruct (b >? 0); intros [= <- <-]; rewrite !copy_offsets_app, Hrep; cbn [copy_offsets];
    rewrite ?app_nil_r; exact E.
Qed.

Lemma ChannelWrite_other_fields channel request length channel' tr :
  litepciedrv_ChannelWrite channel request length = Some (channel', tr) ->
  ring_of channel' = ring_of channel
  /\ reader_hw_count (dma channel') = reader_hw_count (dma channel)
  /\ reader_hw_count_last (dma channel') = reader_hw_count_last (dma channel)
  /\ writer_hw_count (dma channel') = writer_hw_count (dma channel)
  /\ writer_hw_count_last (dma channel') = writer_hw_count_last (dma channel)
  /\ writer_sw_count (dma channel') = writer_sw_count (dma channel)
  /\ readRequest (dma channel') = readRequest (dma channel)
  /\ readRemainingBytes (dma channel') = readRemainingBytes (dma channel).
Proof.
  unfold litepciedrv_ChannelWrite.
  destruct (WdfRequestRetrieveInputMemory request) as [status inBuf].
  destruct (negb (NT_SUCCESS status)); [intros [= <- <-]; repeat split|].
  destruct (ChannelWrite_loop _ _ _ _ _ _) as [[[[c1 b] o] tr1]|] eqn:E; [|discriminate].
  destruct (ChannelWrite_loop_frame _ _ _ _ _ _ _ _ _ _ E) as [_ [sw ->]].
  destruct (b >? 0); intros [= <- <-]; repeat split.
Qed.

(** X26. Whatever the counters are and whether or not the memory object
    is retrieved, every copy of a read or write pass lies inside the first
    [length] bytes of the request's memory: its offset is not negative and
    the [DMA_BUFFER_SIZE] bytes it moves end at or before [length]. *)
Theorem copies_stay_inside_the_request (channel channel' : LITEPCIE_CHAN)
    (request : WDFREQUEST) (length : Z) (tr : list event) :
  0 < DMA_BUFFER_SIZE < 2 ^ 31 -> 0 <= length < 2 ^ 64 ->
  litepciedrv_ChannelRead channel request length = Some (channel', tr)
  \/ litepciedrv_ChannelWrite channel request length = Some (channel', tr) ->
  Forall (fun offset => 0 <= offset /\ offset + DMA_BUFFER_SIZE <= length) (copy_offsets tr).
Proof.
  intros Hs Hl [E|E].
  - exact (ChannelRead_offsets channel request length channel' tr Hs Hl E).
  - exact (ChannelWrite_offsets channel request length channel' tr Hs Hl E).
Qed.

(** X27. The two directions of a channel do not disturb each other: a
    read pass changes nothing but [writer_sw_count] and the parked read (slot
    and remaining length); it leaves both hardware counts, everything of the
    reader direction, the parked write and the ring as they are.  A write
    pass likewise changes nothing but [reader_sw_count] and the parked
    write. *)
Theorem pass_changes_its_direction_only (channel channel' : LITEPCIE_CHAN)
    (request : WDFREQUEST) (length : Z) (tr : list event) :
  (litepciedrv_ChannelRead channel request length = Some (channel', tr) ->
   ring_of channel' = ring_of channel
   /\ writer_hw_count (dma channel') = writer_hw_count (dma channel)
   /\ writer_hw_count_last (dma channel') = writer_hw_count_last (dma channel)
   /\ reader_hw_count (dma channel') = reader_hw_count (dma channel)
   /\ reader_hw_count_last (dma channel') = reader_hw_count_last (dma channel)
   /\ reader_sw_count (dma channel') = reader_sw_count (dma channel)
   /\ writeRequest (dma channel') = writeRequest (dma channel)
   /\ writeRemainingBytes (dma channel') = writeRemainingBytes (dma channel))
  /\ (litepciedrv_ChannelWrite channel request length = Some (channel', tr) ->
      ring_of channel' = ring_of channel
      /\ reader_hw_count (dma channel') = reader_hw_count (dma channel)
      /\ reader_hw_count_last (dma channel') = reader_hw_count_last (dma channel)
      /\ writer_hw_count (dma channel') = writer_hw_count (dma channel)
      /\ writer_hw_count_last (dma channel') = writer_hw_count_last (dma channel)
      /\ writer_sw_count (dma channel') = writer_sw_count (dma channel)
      /\ readRequest (dma channel') = readRequest (dma channel)
      /\ readRemainingBytes (dma channel') = readRemainingBytes (dma channel)).
Proof.
  split; intros E.
  - exact (ChannelRead_other_fields channel request length channel' tr E).
  - exact (ChannelWrite_other_fields channel request length channel' tr E).
Qed.

End BoundsProofs.

(** A read of 10000 bytes with five buffers available: two copies, at
    offsets 0 and 4096, the second ending at 8192. *)
Lemma copies_stay_inside_the_request_witness :
  let H8 := sample_driver_h 8 4096 8 in
  let M := sample_request_memory in
  let channel := sample_chan 5 5 3 10 10 5 None None 0 0 in
  exists channel' tr,
    @litepciedrv_ChannelRead H8 M channel 7 10000 = Some (channel', tr)
    /\ copy_offsets tr = [0; 4096]
    /\ Forall (fun offset => 0 <= offset /\ offset + 4096 <= 10000) (copy_offsets tr).
Proof.
  intros H8 M channel.
  destruct (@litepciedrv_ChannelRead H8 M channel 7 10000) as [[channel' tr]|] eqn:E;
    [|vm_compute in E; discriminate].
  exists channel', tr. split; [reflexivity|]. split.
  - vm_compute in E. injection E as _ <-. reflexivity.
  - apply (@copies_stay_inside_the_request H8 M channel channel' 7 10000 tr);
      [cbn; lia|lia|left; exact E].
Defined.

(** A read on a channel with a write parked and both rings running. *)
Lemma pass_changes_its_direction_only_witness :
  let H8 := sample_driver_h 8 4096 8 in
  let M := sample_request_memory in
  let channel := sample_chan 5 5 3 10 10 5 None (Some 9) 0 8192 in
  exists channel' tr,
    @litepciedrv_ChannelRead H8 M channel 7 8192 = Some (channel', tr)
    /\ writer_sw_count (dma channel') = 7
    /\ reader_sw_count (dma channel') = 3
    /\ reader_hw_count (dma channel') = 5
    /\ writeRequest (dma channel') = Some 9
    /\ writeRemainingBytes (dma channel') = 8192.
Proof.
  intros H8 M channel.
  destruct (@litepciedrv_ChannelRead H8 M channel 7 8192) as [[channel' tr]|] eqn:E;
    [|vm_compute in E; discriminate].
  destruct (@pass_changes_its_direction_only H8 M channel channel' 7 8192 tr) as [A _].
  destruct (A E) as (_ & _ & _ & A4 & _ & A6 & A7 & A8).
  exists channel', tr. split; [reflexivity|].
  split; [vm_compute in E; injection E as <- _; reflexivity|].
  split; [exact A6|]. split; [exact A4|]. split; [exact A7|exact A8].
Defined.
